(* ===== verification/_CoqProject ===== *)
-Q . S2P
Prelude.v
BTree.v
Bor.v
Ids.v
IndexedValue.v
IdProvider.v
Workspace.v
Amount.v
Crypto.v
Confidential.v
ResourceContainer.v
FreezeFlags.v
Proof.v
Bucket.v
Vault.v
AccessRules.v
RuntimeError.v
Auth.v
Locking.v
Fees.v
Substate.v
Stealth.v
FeeState.v
Scope.v
StateStore.v
WorkingState.v
LedgerDiff.v
StealthSpend.v
WorkingStateProps.v
HandlerRuns.v
Runtime.v
RuntimeCalls.v
Engine.v
Processor.v
Examples.v
Steps.v
CallDepth.v
EngineRuns.v
Transactions.v
Commit.v
TransactionPhases.v
Holdings.v
LedgerTypes.v
DiffApplies.v
Conservation.v
FungibleSupply.v
TokenUniqueness.v
RuntimeProps.v
RuntimeSupply.v
Sharding.v
Committee.v
Blocks.v
BlockStore.v
HotStuff.v
Agreement.v
BlockStoreProps.v
NodeInvariant.v
HotStuffSafety.v
HotStuffRuns.v
VoteCollector.v
VoteCollectorProps.v
VoteCollectorRuns.v
PendingStore.v
PendingStoreProps.v
PendingStoreRuns.v
Evidence.v
TransactionPool.v
PoolStore.v
PoolStoreRuns.v
Pledges.v
TransactionManager.v
ChangeSet.v
ForeignProposals.v
CommandVoting.v
Proposing.v
VotingProps.v
CrossShard.v
