(* ===== verification/Prelude.v ===== *)
(** * Tari Ootle: execution, sharding and consensus

    A verification library for the Rust sources under [crates/] of the Tari
    Ootle validator.  A transaction runs in the _engine_, which turns its
    instructions into a diff of substates.  The substates are divided into
    _shards_, looked after by committees.  Each committee runs a HotStuff
    _consensus_ on blocks of commands, and committees coordinate the transactions
    that touch several of them.

    ** Conventions

    This file has what all others share.  A Rust call has the outcomes [Ok],
    [Err] and [Panic] ([res]); a method on [&mut self] is a function [M S E A]
    from a state to an outcome and a state, and what is changed before an early
    return stays changed.  Integers are [Z] with the check or the wrap of their
    width written out.  Addresses, keys and hashes are the numbers their bytes
    spell.  Code that is not in the repository is a class: [Crypto], [I192],
    [Cbor], [IdHashes], [BlockHashes], [Signatures], [ObjectKeyHashes],
    [ValidatorRegistry], [Display], [HashIter]; so are WASM code and the trait
    [BlockTransactionExecutor].  What theorems need of a class are named laws,
    and concrete instances show that they can hold.

    ** The engine

    - Data: [Ids], [BTree], [Bor], [IndexedValue], [IdProvider], [Amount],
      [Crypto], [Substate], [Fees], [RuntimeError] ([engine_types], [tari_bor],
      [template_lib], [template_lib_types]).
    - Resources: [ResourceContainer], [Bucket], [Vault], [Proof], [FreezeFlags],
      [Confidential], [Stealth] ([engine_types]).
    - Authorization: [AccessRules] and [Auth] ([engine/src/runtime/auth.rs]).
    - State: [Locking], [Scope], [StateStore], [FeeState], [Workspace] and
      [WorkingState] (the files of these names in [engine/src/runtime]).
    - Calls: [Runtime] and [RuntimeCalls] ([impl.rs]), [Engine] (templates as
      trees of engine calls, [wasm/process.rs]), [Processor] (instructions, fee
      checkpoint and result, [transaction/processor.rs] and [tracker.rs]).
    - Theorems: [LedgerDiff], [StealthSpend], [WorkingStateProps], [HandlerRuns],
      [Examples], [Steps], [CallDepth], [EngineRuns], [Transactions], [Commit],
      [TransactionPhases], [Holdings], [LedgerTypes], [DiffApplies],
      [Conservation], [FungibleSupply], [TokenUniqueness], [RuntimeProps],
      [RuntimeSupply].

    For every accepted transaction whose diff applies to the ledger, whatever
    templates it runs: a fungible resource with a tracked supply and no
    authorization hook, other than the fee token, is not inflated; a non-fungible
    token is in at most one vault, and in none once it is burnt; the ledger stays
    typed.  [DiffApplies] says when a diff applies: on a ledger without the receipt
    of the transaction, exactly if it takes no address down twice, for which only a
    UTXO that is both rewritten and spent could be the reason.  That the ledger is
    then the working view is shown for finalization from a well-formed store; that
    every transaction ends in such a store is not shown.  Failed main instructions
    are rolled back, and nested calls end.

    For single components: containers conserve what they hold, stealth and
    confidential transfers balance, fees are conserved, locks exclude each other,
    the working store implements a map (a spend of a ledger UTXO that was rewritten
    in the same transaction brings it back), access rules decide their meaning in
    a state without stale proofs.

    ** Shards and committees

    [Sharding] and [Committee] ([common_types], [leader_strategy.rs]): two
    independent loops give the same partition of the shards, every substate that
    is not global is with exactly one committee, quorums meet in an honest member, the search for a
    leader ends and leaders take turns.

    ** Consensus on blocks

    - [Blocks], [BlockStore] and [HotStuff]: blocks and certificates, the stored
      chain, the handler of proposals.  [Agreement], [BlockStoreProps],
      [NodeInvariant], [HotStuffSafety] and [HotStuffRuns] show that honest
      validators commit blocks of one chain, under assumptions on proposals that
      the handler does not check: they extend the block they justify, and those
      with dummy blocks pass the safe-node rule.  Runs show what happens without
      the first, and that with an evicted next leader a validator votes twice.
    - [VoteCollector], [VoteCollectorProps], [VoteCollectorRuns]: votes become
      certificates, which every validator accepts; a quorum of votes is enough if
      none of the quorum's votes is replayed under another height.
    - [PendingStore], [PendingStoreProps], [PendingStoreRuns]: the substates and
      locks that a block is decided on; no version is spent twice, and the changes
      of a diff, fee pools apart, are read back.

    ** Transactions across committees

    - [Evidence], [TransactionPool], [Pledges]: what a committee knows of a
      transaction ([storage/src/consensus_models]).  Merging evidence loses
      nothing, locks are recorded with the right committees, leader fees are
      conserved.
    - [PoolStore], [PoolStoreRuns]: the tables of pool records, their updates by
      pending blocks, executions and conflicts ([state_store_rocksdb]).  Committing
      a block keeps what its descendants read, up to the reduction of the evidence
      of an aborted transaction; two queries and the shared record mix up forks.
    - [TransactionManager], [ChangeSet], [ForeignProposals], [CommandVoting],
      [Proposing] ([consensus/src/hotstuff]): preparing a transaction, what a
      block changes, the blocks of other committees, the vote on each command, the
      commands of the next block.
    - [VotingProps], [CrossShard]: a vote for a block means that transactions only
      move forward, what is committed was not aborted in the voter's own records
      (other groups may have aborted it), the fee of the block is
      the sum over what it commits, a block without commits changes no substate,
      and evictions stay within the tolerated failures.  Runs show what a vote
      does not check.

    [HotStuff] takes the decision on the commands of a block as an argument of its
    step; [CommandVoting] is the model of that decision.  The two are not composed
    into one step, and the executor class is not instantiated with [Processor].

    ** Fuel

    Calls nest at most [MAX_CALL_DEPTH] = 10 deep; [CallDepth] shows that more
    fuel for [invoke_within] changes nothing.  [skip_evicted] gets the length of
    the committee, shown to be enough.  The loops over shard groups get the number
    of shards, and [dummy_loop] the difference of the heights, the number of
    rounds they make.  The walks along stored blocks ([update_nodes],
    [justified_chain], the pending chains) get one more than the number of
    entries, as each round moves to another one; on a chain with a cycle, where
    the source would not end, they stop.

    ** Not modelled

    The WASM machine and its metering (a template is any tree of engine calls);
    transaction formats, signatures and the manifest language; the state tree (its
    root is an argument of the vote); timers, the event loop and the pacemaker;
    commit proofs of foreign proposals; saving state tree diffs and diagnostics;
    the epoch manager and base layer oracles; networking, RPC, wallets, the
    indexer and the applications.  These are I/O, adapters around libraries that
    are not in the repository, or user interfaces. *)
From stdpp Require Import base gmap list strings sorting numbers.

(** ** Outcomes of Rust calls

    A Rust function that returns [Result<A, E>] and that may panic has the
    outcomes [Ok a], [Err e] and [Panic]. *)
Inductive res (E A : Type) : Type :=
  | Ok (a : A)
  | Err (e : E)
  | Panic.
Arguments Ok {E A} a.
Arguments Err {E A} e.
Arguments Panic {E A}.

Definition res_bind {E A B : Type} (r : res E A) (k : A → res E B) : res E B :=
  match r with
  | Ok a => k a
  | Err e => Err e
  | Panic => Panic
  end.

Definition res_map_err {E F A : Type} (f : E → F) (r : res E A) : res F A :=
  match r with
  | Ok a => Ok a
  | Err e => Err (f e)
  | Panic => Panic
  end.

(** [Option::ok_or] and [Option::expect]. *)
Definition ok_or {E A : Type} (o : option A) (e : E) : res E A :=
  match o with
  | Some a => Ok a
  | None => Err e
  end.

Definition expect {E A : Type} (o : option A) : res E A :=
  match o with
  | Some a => Ok a
  | None => Panic
  end.

Definition is_Ok {E A : Type} (r : res E A) : bool :=
  match r with Ok _ => true | _ => false end.

(** ** Stateful calls

    A method that takes [&mut self] is a function from the state of [self] to
    an outcome and the new state.  Mutations made before an early return stay
    in the state, as they do in the source. *)
Definition M (S E A : Type) : Type := S → res E A * S.

Definition ret {S E A : Type} (a : A) : M S E A := λ s, (Ok a, s).
Definition throw {S E A : Type} (e : E) : M S E A := λ s, (Err e, s).
Definition panic {S E A : Type} : M S E A := λ s, (Panic, s).
Definition get {S E : Type} : M S E S := λ s, (Ok s, s).
Definition put {S E : Type} (s' : S) : M S E unit := λ _, (Ok tt, s').
Definition modify {S E : Type} (f : S → S) : M S E unit := λ s, (Ok tt, f s).
Definition lift {S E A : Type} (r : res E A) : M S E A := λ s, (r, s).

Definition bind {S E A B : Type} (m : M S E A) (k : A → M S E B) : M S E B :=
  λ s, match m s with
       | (Ok a, s') => k a s'
       | (Err e, s') => (Err e, s')
       | (Panic, s') => (Panic, s')
       end.

Definition map_err {S E F A : Type} (f : E → F) (m : M S E A) : M S F A :=
  λ s, (res_map_err f (m s).1, (m s).2).

(** Run a call on a part of the state: the borrow [&mut self.field]. *)
Definition zoom {S T E A : Type} (rd : S → T) (wr : T → S → S) (m : M T E A) : M S E A :=
  λ s, match m (rd s) with (r, t) => (r, wr t s) end.

(** [if cond { return Err(e) }]. *)
Definition guard_err {S E : Type} (b : bool) (e : E) : M S E unit :=
  if b then throw e else ret tt.

(** [for x in xs { body }] with early return. *)
Fixpoint for_each {S E A : Type} (xs : list A) (body : A → M S E unit) : M S E unit :=
  match xs with
  | [] => ret tt
  | x :: xs' => bind (body x) (λ _, for_each xs' body)
  end.

(** [xs.iter().map(f).collect::<Result<Vec<_>, _>>()]. *)
Fixpoint collect {E A B : Type} (f : A → res E B) (xs : list A) : res E (list B) :=
  match xs with
  | [] => Ok []
  | x :: xs' => res_bind (f x) (λ y, res_bind (collect f xs') (λ ys, Ok (y :: ys)))
  end.

Declare Scope ootle_scope.
Delimit Scope ootle_scope with ootle.

Notation "'let?' x := r 'in' k" := (res_bind r (λ x, k))
  (at level 10, x pattern, r at level 100, k at level 200) : ootle_scope.
Notation "'let!' x := m 'in' k" := (bind m (λ x, k))
  (at level 10, x pattern, m at level 100, k at level 200) : ootle_scope.
Notation "'do!' m 'in' k" := (bind m (λ _, k))
  (at level 10, m at level 100, k at level 200) : ootle_scope.

Open Scope ootle_scope.

(** ** Native unsigned integers

    The workspace builds every profile with overflow checks, so the plain
    operators panic outside the range; [checked_*] give [None]. *)
Definition U8_MAX : Z := 2 ^ 8 - 1.
Definition U32_MAX : Z := 2 ^ 32 - 1.
Definition U64_MAX : Z := 2 ^ 64 - 1.
Definition uint_checked (max z : Z) : option Z :=
  if (0 <=? z)%Z && (z <=? max)%Z then Some z else None.
Definition u32_checked_add (a b : Z) : option Z := uint_checked U32_MAX (a + b).
Definition u32_checked_sub (a b : Z) : option Z := uint_checked U32_MAX (a - b).
Definition u64_checked_add (a b : Z) : option Z := uint_checked U64_MAX (a + b).
Definition u64_checked_sub (a b : Z) : option Z := uint_checked U64_MAX (a - b).
Definition u32_add {E : Type} (a b : Z) : res E Z := expect (u32_checked_add a b).
Definition u32_sub {E : Type} (a b : Z) : res E Z := expect (u32_checked_sub a b).
Definition u64_add {E : Type} (a b : Z) : res E Z := expect (u64_checked_add a b).
Definition u64_sub {E : Type} (a b : Z) : res E Z := expect (u64_checked_sub a b).
Definition u64_saturating_sub (a b : Z) : Z := Z.max 0 (a - b).

Lemma bind_ext {S E A B : Type} (m m' : M S E A) (k k' : A → M S E B) (s : S) :
  m s = m' s → (∀ a s', k a s' = k' a s') → bind m k s = bind m' k' s.
Proof. intros Hm Hk. unfold bind. rewrite Hm. destruct (m' s) as [[]]; auto. Qed.

(** A call that leaves a part of the state alone. *)
Definition preserves {S E A B : Type} (f : S → B) (m : M S E A) : Prop :=
  ∀ s, f (m s).2 = f s.

Lemma preserves_ret {S E A B : Type} (f : S → B) (a : A) : preserves f (@ret S E A a).
Proof. done. Qed.
Lemma preserves_lift {S E A B : Type} (f : S → B) (r : res E A) : preserves f (@lift S E A r).
Proof. done. Qed.
Lemma preserves_throw {S E A B : Type} (f : S → B) (e : E) : preserves f (@throw S E A e).
Proof. done. Qed.
Lemma preserves_get {S E B : Type} (f : S → B) : preserves f (@get S E).
Proof. done. Qed.
Lemma preserves_bind {S E A A' B : Type} (f : S → B) (m : M S E A) (k : A → M S E A') :
  preserves f m → (∀ a, preserves f (k a)) → preserves f (bind m k).
Proof.
  intros Hm Hk s. specialize (Hm s). unfold bind.
  destruct (m s) as [[a|e|] s1]; simpl in *; [|done..]. by rewrite Hk.
Qed.
Lemma preserves_for_each {S E A B : Type} (f : S → B) (xs : list A) (body : A → M S E unit) :
  (∀ x, preserves f (body x)) → preserves f (for_each xs body).
Proof.
  intros Hb. induction xs as [|x xs IH]; simpl; [apply preserves_ret|].
  by apply preserves_bind.
Qed.
Lemma preserves_zoom {S T E A B : Type} (f : S → B) (rd : S → T) wr (m : M T E A) :
  (∀ t s, f (wr t s) = f s) → preserves f (zoom rd wr m).
Proof. intros Hw s. unfold zoom. destruct (m (rd s)). apply Hw. Qed.
Lemma preserves_Ok {S E A B : Type} (f : S → B) (m : M S E A) s r s' :
  preserves f m → m s = (r, s') → f s' = f s.
Proof. intros Hp H. specialize (Hp s). by rewrite H in Hp. Qed.

(** ** Calls as steps

    [follows R m]: unless it panics, [m] takes the state along the preorder
    [R]. *)
Definition follows {S E A : Type} (R : relation S) (m : M S E A) : Prop :=
  ∀ s r s', m s = (r, s') → r ≠ Panic → R s s'.

Section follows.
Context {S E : Type} (R : relation S) `{!PreOrder R}.

Lemma follows_ret {A : Type} (a : A) : follows R (@ret S E A a).
Proof. by intros s r s' [= _ <-] _. Qed.
Lemma follows_throw {A : Type} (e : E) : follows R (@throw S E A e).
Proof. by intros s r s' [= _ <-] _. Qed.
Lemma follows_panic {A : Type} : follows R (@panic S E A).
Proof. by intros s r s' [= <- _]. Qed.
Lemma follows_get : follows R (@get S E).
Proof. by intros s r s' [= _ <-] _. Qed.
Lemma follows_lift {A : Type} (x : res E A) : follows R (@lift S E A x).
Proof. by intros s r s' [= _ <-] _. Qed.
Lemma follows_guard (b : bool) (e : E) : follows R (@guard_err S E b e).
Proof. destruct b; [apply follows_throw|apply follows_ret]. Qed.
Lemma follows_bind {A B : Type} (m : M S E A) (k : A → M S E B) :
  follows R m → (∀ a, follows R (k a)) → follows R (bind m k).
Proof.
  intros Hm Hk s r s'. unfold bind. destruct (m s) as [q s1] eqn:Hq.
  destruct q as [a|e|]; intros H Hp; simplify_eq.
  - transitivity s1; [by eapply Hm|by eapply Hk].
  - by eapply Hm.
Qed.
Lemma follows_bind_lift {A B : Type} (x : res E A) (k : A → M S E B) :
  (∀ a, x = Ok a → follows R (k a)) → follows R (bind (lift x) k).
Proof.
  intros Hk. destruct x as [a|e|]; [by apply Hk|apply (follows_throw e)|apply follows_panic].
Qed.
Lemma follows_for_each {A : Type} (xs : list A) (body : A → M S E unit) :
  (∀ x, follows R (body x)) → follows R (for_each xs body).
Proof.
  intros Hb. induction xs as [|x xs IH]; simpl; [apply follows_ret|]. by apply follows_bind.
Qed.
Lemma follows_map_err {F A : Type} (f : F → E) (m : M S F A) :
  follows R m → follows R (map_err f m).
Proof.
  intros Hm s r s'. unfold map_err. destruct (m s) as [q s1] eqn:Hq. intros [= <- <-] Hp.
  eapply Hm; [done|]. by intros ->.
Qed.
Lemma follows_zoom {T A : Type} (rd : S → T) wr (m : M T E A) :
  (∀ t s, R s (wr t s)) → follows R (zoom rd wr m).
Proof. intros Hw s r s'. unfold zoom. destruct (m (rd s)). by intros [= _ <-] _. Qed.
Lemma follows_modify (f : S → S) : (∀ s, R s (f s)) → follows R (@modify S E f).
Proof. intros Hf s r s' [= _ <-] _. apply Hf. Qed.
Lemma follows_read {A : Type} (f : S → res E A) : follows R (λ s, (f s, s)).
Proof. by intros s r s' [= _ <-] _. Qed.
Lemma follows_at {A : Type} (f : S → M S E A) :
  (∀ s, follows R (f s)) → follows R (λ s, f s s).
Proof. intros Hf s r s' H Hp. by eapply Hf. Qed.
End follows.

(** ** Inversion of successful calls *)
Lemma res_bind_Ok {E A B : Type} (r : res E A) (k : A → res E B) (b : B) :
  res_bind r k = Ok b ↔ ∃ a, r = Ok a ∧ k a = Ok b.
Proof. destruct r; simpl; naive_solver. Qed.

Lemma res_map_err_Ok {E F A : Type} (f : E → F) (r : res E A) (a : A) :
  res_map_err f r = Ok a ↔ r = Ok a.
Proof. destruct r; simpl; naive_solver. Qed.

Lemma ok_or_Ok {E A : Type} (o : option A) (e : E) (a : A) :
  ok_or o e = Ok a ↔ o = Some a.
Proof. destruct o; simpl; naive_solver. Qed.

Lemma expect_Ok {E A : Type} (o : option A) (a : A) :
  @expect E A o = Ok a ↔ o = Some a.
Proof. destruct o; simpl; naive_solver. Qed.

Lemma bind_Ok {S E A B : Type} (m : M S E A) (k : A → M S E B) s b s' :
  bind m k s = (Ok b, s') ↔ ∃ a s1, m s = (Ok a, s1) ∧ k a s1 = (Ok b, s').
Proof. unfold bind. destruct (m s) as [[]]; naive_solver. Qed.

Lemma bind_Err {S E A B : Type} (m : M S E A) (k : A → M S E B) s e s' :
  bind m k s = (Err e, s') ↔
    m s = (Err e, s') ∨ ∃ a s1, m s = (Ok a, s1) ∧ k a s1 = (Err e, s').
Proof. unfold bind. destruct (m s) as [[]]; naive_solver. Qed.

Lemma bind_assoc {S E A B C : Type} (m : M S E A) (k : A → M S E B) (h : B → M S E C) s :
  bind (bind m k) h s = bind m (λ a, bind (k a) h) s.
Proof. unfold bind. by destruct (m s) as [[]]. Qed.

Lemma map_err_Ok {S E F A : Type} (f : E → F) (m : M S E A) s a s' :
  map_err f m s = (Ok a, s') ↔ m s = (Ok a, s').
Proof. unfold map_err. destruct (m s) as [[]]; naive_solver. Qed.

Lemma zoom_Ok {S T E A : Type} (rd : S → T) wr (m : M T E A) s a s' :
  zoom rd wr m s = (Ok a, s') ↔ ∃ t, m (rd s) = (Ok a, t) ∧ s' = wr t s.
Proof. unfold zoom. destruct (m (rd s)) as [[]]; naive_solver. Qed.

Lemma guard_err_Ok {S E : Type} (b : bool) (e : E) (s s' : S) u :
  guard_err b e s = (Ok u, s') ↔ b = false ∧ s' = s.
Proof. unfold guard_err, throw, ret. destruct b, u; naive_solver. Qed.

Lemma collect_Ok {E A B : Type} (f : A → res E B) xs ys :
  collect f xs = Ok ys ↔ Forall2 (λ x y, f x = Ok y) xs ys.
Proof.
  revert ys. induction xs as [|x xs IH]; intros ys; simpl.
  - split; [intros [= <-]; constructor | by intros ->%Forall2_nil_inv_l].
  - setoid_rewrite res_bind_Ok. setoid_rewrite res_bind_Ok. setoid_rewrite IH. split.
    + intros (y & ? & ys' & ? & [= <-]). by constructor.
    + intros (y & ys' & ? & ? & ->)%Forall2_cons_inv_l. naive_solver.
Qed.

Lemma uint_checked_Some (max z y : Z) :
  uint_checked max z = Some y ↔ y = z ∧ (0 ≤ z ≤ max)%Z.
Proof.
  unfold uint_checked. destruct (Z.leb_spec 0 z), (Z.leb_spec z max); simpl; naive_solver lia.
Qed.

Lemma uint_checked_in (max z : Z) : (0 ≤ z ≤ max)%Z → uint_checked max z = Some z.
Proof. intros. by apply uint_checked_Some. Qed.

Lemma uint_checked_None (max z : Z) : uint_checked max z = None ↔ ¬ (0 ≤ z ≤ max)%Z.
Proof.
  unfold uint_checked. destruct (Z.leb_spec 0 z), (Z.leb_spec z max); simpl; naive_solver lia.
Qed.

(** An invariant kept by every iteration is kept by the loop. *)
Lemma for_each_inv {S E A : Type} (I : S → Prop) (body : A → M S E unit) xs s r s' :
  (∀ x t q t', x ∈ xs → I t → body x t = (q, t') → I t') →
  I s → for_each xs body s = (r, s') → I s'.
Proof.
  revert s. induction xs as [|x xs IH]; intros s Hbody HI; simpl.
  - by intros [= _ <-].
  - unfold bind. destruct (body x s) as [q t] eqn:Hx.
    assert (I t) by (eapply (Hbody x); [left|..]; done).
    destruct q as [u|e|]; [|intros [= _ <-]; done..].
    apply IH; [|done]. intros y ????. apply Hbody. by right.
Qed.

(** ** Automation *)
Create HintDb ootle.
#[export] Hint Resolve preserves_ret preserves_lift preserves_throw preserves_get
  preserves_for_each preserves_bind preserves_zoom : ootle.

(** Invert every call that is known to have returned [Ok]. *)
Ltac inv_ok :=
  repeat match goal with
  | H : context [ret _ _] |- _ => progress unfold ret in H
  | H : context [throw _ _] |- _ => progress unfold throw in H
  | H : context [panic _] |- _ => progress unfold panic in H
  | H : context [get _] |- _ => progress unfold get in H
  | H : context [put _ _] |- _ => progress unfold put in H
  | H : context [modify _ _] |- _ => progress unfold modify in H
  | H : context [lift _ _] |- _ => progress unfold lift in H
  | H : bind _ _ _ = (Ok _, _) |- _ =>
      apply bind_Ok in H; destruct H as (? & ? & ? & H)
  | H : res_bind _ _ = Ok _ |- _ => apply res_bind_Ok in H; destruct H as (? & ? & H)
  | H : res_map_err _ _ = Ok _ |- _ => apply res_map_err_Ok in H
  | H : map_err _ _ _ = (Ok _, _) |- _ => apply map_err_Ok in H
  | H : zoom _ _ _ _ = (Ok _, _) |- _ => apply zoom_Ok in H; destruct H as (? & ? & H)
  | H : guard_err _ _ _ = (Ok _, _) |- _ => apply guard_err_Ok in H; destruct H as (? & H)
  | H : ok_or _ _ = Ok _ |- _ => apply ok_or_Ok in H
  | H : expect _ = Ok _ |- _ => apply expect_Ok in H
  | _ => progress simplify_eq/=
  end.

(** Prove that a call follows a preorder: descend to its parts, which are left to
    the hints. *)
Create HintDb steps.
Ltac follow_step :=
  match goal with
  | |- follows _ (bind (lift _) _) => apply follows_bind_lift; [try exact _|intros ? ?]
  | |- follows _ (bind _ _) => apply follows_bind; [try exact _| |intros ?]
  | |- follows _ (ret _) => apply follows_ret; exact _
  | |- follows _ (throw _) => apply follows_throw; exact _
  | |- follows _ panic => apply follows_panic
  | |- follows _ get => apply follows_get; exact _
  | |- follows _ (lift _) => apply follows_lift; exact _
  | |- follows _ (guard_err _ _) => apply follows_guard; exact _
  | |- follows _ (map_err _ _) => apply follows_map_err
  | |- follows _ (for_each _ _) => apply follows_for_each; [try exact _|intros ?]
  | |- follows _ (match ?x with _ => _ end) => destruct x
  | |- follows _ (let '(_, _) := ?x in _) => destruct x
  end.
Ltac follow := repeat (first [solve [auto with steps] | follow_step]).

(** Split every [match]/[if] on which a hypothesis or the goal is stuck. *)
Ltac case_step :=
  match goal with
  | H : context [match ?x with _ => _ end] |- _ =>
      lazymatch x with context [match _ with _ => _ end] => fail | _ => idtac end;
      let E := fresh "E" in destruct x eqn:E
  | |- context [match ?x with _ => _ end] =>
      lazymatch x with context [match _ with _ => _ end] => fail | _ => idtac end;
      let E := fresh "E" in destruct x eqn:E
  end.
Ltac case_all := repeat (case_step; simplify_eq/=).

(** Turn boolean tests on integers into propositions. *)
Ltac bool_to_prop :=
  repeat match goal with
  | H : (_ && _)%bool = true |- _ => apply andb_true_iff in H; destruct H
  | H : (_ || _)%bool = false |- _ => apply orb_false_iff in H; destruct H
  | H : (_ && _)%bool = false |- _ => apply andb_false_iff in H
  | H : (_ || _)%bool = true |- _ => apply orb_true_iff in H
  | H : negb _ = true |- _ => apply negb_true_iff in H
  | H : negb _ = false |- _ => apply negb_false_iff in H
  | H : (_ <? _)%Z = true |- _ => apply Z.ltb_lt in H
  | H : (_ <? _)%Z = false |- _ => apply Z.ltb_ge in H
  | H : (_ <=? _)%Z = true |- _ => apply Z.leb_le in H
  | H : (_ <=? _)%Z = false |- _ => apply Z.leb_gt in H
  | H : (_ =? _)%Z = true |- _ => apply Z.eqb_eq in H
  | H : (_ =? _)%Z = false |- _ => apply Z.eqb_neq in H
  | H : bool_decide _ = true |- _ => apply bool_decide_eq_true in H
  | H : bool_decide _ = false |- _ => apply bool_decide_eq_false in H
  end.
