(* ===== verification/BTree.v ===== *)
(** * Ordered collections

    [BTreeSet] and [BTreeMap] iterate in the order of their keys.  A set is a
    [gset] and a map a [gmap]; the order only shows in the iterators below.
    The insertion-ordered [IndexMap] and [IndexSet] are association lists and
    lists without duplicates. *)
From stdpp Require Import base gmap list sorting numbers.
From S2P Require Import Prelude.

(** The order of the keys ([Ord]). *)
Class Ord (A : Type) := ord_le : relation A.
Class OrdLaws (A : Type) `{!Ord A} := {
  ord_dec :: RelDecision (@ord_le A _);
  ord_order :: PartialOrder (@ord_le A _);
  ord_total :: Total (@ord_le A _);
}.

#[export] Instance N_ord : Ord N := N.le.
#[export] Instance N_ord_laws : OrdLaws N.
Proof. split; unfold ord_le, N_ord; apply _. Defined.

Section btree.
Context {K : Type} `{Countable K} `{!Ord K} `{!OrdLaws K}.

(** [BTreeSet::iter]. *)
Definition btree_iter (s : gset K) : list K := merge_sort ord_le (elements s).

(** [BTreeSet::pop_first]. *)
Definition pop_first (s : gset K) : option (K * gset K) :=
  match btree_iter s with
  | [] => None
  | x :: _ => Some (x, s ∖ {[x]})
  end.

(** [(0..n).map(|_| s.pop_first().expect(..)).collect()]: [None] is the panic. *)
Fixpoint pop_first_n (n : nat) (s : gset K) : option (list K * gset K) :=
  match n with
  | O => Some ([], s)
  | S n' =>
      match pop_first s with
      | None => None
      | Some (x, s') =>
          match pop_first_n n' s' with
          | None => None
          | Some (xs, s'') => Some (x :: xs, s'')
          end
      end
  end.

(** [BTreeMap::iter]. *)
Definition key_le {V : Type} : relation (K * V) := λ p q, ord_le p.1 q.1.
#[global] Instance key_le_dec {V : Type} : RelDecision (@key_le V).
Proof. intros p q. unfold key_le. apply ord_dec. Defined.
Definition btree_map_iter {V : Type} (m : gmap K V) : list (K * V) :=
  merge_sort key_le (map_to_list m).
End btree.

(** ** Insertion-ordered maps *)
Section index_map.
Context {K V : Type} `{!EqDecision K}.

Fixpoint im_get (k : K) (m : list (K * V)) : option V :=
  match m with
  | [] => None
  | (k', v) :: m' => if decide (k = k') then Some v else im_get k m'
  end.

(** [IndexMap::insert]: an existing key keeps its place. *)
Fixpoint im_insert (k : K) (v : V) (m : list (K * V)) : list (K * V) :=
  match m with
  | [] => [(k, v)]
  | (k', v') :: m' => if decide (k = k') then (k', v) :: m' else (k', v') :: im_insert k v m'
  end.

(** [IndexMap::shift_remove]. *)
Fixpoint im_remove (k : K) (m : list (K * V)) : list (K * V) :=
  match m with
  | [] => []
  | (k', v') :: m' => if decide (k = k') then m' else (k', v') :: im_remove k m'
  end.

Definition im_contains (k : K) (m : list (K * V)) : bool :=
  match im_get k m with Some _ => true | None => false end.
End index_map.

(** ** [IndexSet]: the list of the elements in order *)
Section index_set.
Context {A : Type} `{EqDecision A}.

(** [IndexSet::insert]: whether the element is new. *)
Definition is_insert (x : A) (l : list A) : bool * list A :=
  if decide (x ∈ l) then (false, l) else (true, l ++ [x]).
Definition is_add (x : A) (l : list A) : list A := (is_insert x l).2.
Definition is_extend (xs l : list A) : list A := foldl (λ l x, is_add x l) l xs.

(** [IndexSet::swap_remove]: the last element takes the place of the removed
    one. *)
Definition is_swap_remove (x : A) (l : list A) : bool * list A :=
  match list_find (λ y, y = x) l, list.last l with
  | Some (i, _), Some y => (true, take (length l - 1) (<[i := y]> l))
  | _, _ => (false, l)
  end.
Definition is_discard (x : A) (l : list A) : list A := (is_swap_remove x l).2.
End index_set.

(** ** Lemmas *)
Section btree_lemmas.
Context {K : Type} `{Countable K} `{!Ord K} `{!OrdLaws K}.

Lemma btree_iter_perm (s : gset K) : btree_iter s ≡ₚ elements s.
Proof. apply merge_sort_Permutation. Qed.

Lemma btree_iter_sorted (s : gset K) : StronglySorted ord_le (btree_iter s).
Proof. apply StronglySorted_merge_sort; apply _. Qed.

Lemma elem_of_btree_iter (s : gset K) (x : K) : x ∈ btree_iter s ↔ x ∈ s.
Proof. by rewrite btree_iter_perm, elem_of_elements. Qed.

Lemma btree_iter_NoDup (s : gset K) : NoDup (btree_iter s).
Proof. rewrite btree_iter_perm. apply NoDup_elements. Qed.

Lemma btree_iter_length (s : gset K) : length (btree_iter s) = size s.
Proof. by rewrite btree_iter_perm. Qed.

Lemma list_to_set_btree_iter (s : gset K) : list_to_set (btree_iter s) = s.
Proof. apply set_eq. intros x. by rewrite elem_of_list_to_set, elem_of_btree_iter. Qed.

(** A sorted list without repetitions is the iteration of its elements. *)
Lemma btree_iter_unique (s : gset K) (l : list K) :
  StronglySorted ord_le l → NoDup l → (∀ x, x ∈ l ↔ x ∈ s) → btree_iter s = l.
Proof.
  intros Hs Hl Hx. eapply (StronglySorted_unique ord_le); [apply btree_iter_sorted|done|].
  rewrite btree_iter_perm. apply NoDup_Permutation; [apply NoDup_elements|done|].
  intros x. rewrite elem_of_elements. naive_solver.
Qed.

Lemma btree_iter_tail (s : gset K) (x : K) (xs : list K) :
  btree_iter s = x :: xs → btree_iter (s ∖ {[x]}) = xs.
Proof.
  intros E. pose proof (btree_iter_sorted s) as Hs. pose proof (btree_iter_NoDup s) as Hn.
  pose proof (elem_of_btree_iter s) as He. rewrite E in *.
  apply StronglySorted_inv in Hs as [Hs _]. apply list.NoDup_cons in Hn as [Hx Hn].
  apply btree_iter_unique; [done..|]. intros y. specialize (He y).
  rewrite elem_of_cons in He. set_solver.
Qed.

(** [n] pops give the [n] smallest elements, in order, and leave the others;
    they panic only when the set has fewer than [n] elements. *)
Lemma pop_first_n_spec (n : nat) (s : gset K) :
  n ≤ size s →
  ∃ s', pop_first_n n s = Some (take n (btree_iter s), s') ∧
        btree_iter s' = drop n (btree_iter s).
Proof.
  revert s. induction n as [|n IH]; intros s Hn; [by exists s|].
  rewrite <- btree_iter_length in Hn.
  cbn [pop_first_n]. unfold pop_first.
  destruct (btree_iter s) as [|x xs] eqn:E; [simpl in Hn; lia|].
  apply btree_iter_tail in E.
  destruct (IH (s ∖ {[x]})) as (s' & -> & Hs').
  { rewrite <- btree_iter_length, E. simpl in Hn. lia. }
  exists s'. by rewrite Hs', E.
Qed.

Lemma pop_first_n_split (n : nat) (s s' : gset K) (xs : list K) :
  pop_first_n n s = Some (xs, s') →
  length xs = n ∧ xs ++ btree_iter s' = btree_iter s ∧
  s = list_to_set xs ∪ s' ∧ list_to_set xs ## s'.
Proof.
  revert s xs. induction n as [|n IH]; intros s xs; cbn [pop_first_n].
  { intros [= <- ->]. set_solver. }
  unfold pop_first. destruct (btree_iter s) as [|x l] eqn:E; [done|].
  destruct (pop_first_n n (s ∖ {[x]})) as [[xs' t]|] eqn:Ep; [|done].
  intros [= <- <-]. destruct (IH _ _ Ep) as (Hl & Hi & Hs & Hd).
  rewrite (btree_iter_tail _ _ _ E) in Hi.
  assert (x ∈ s) by (rewrite <- elem_of_btree_iter, E; left).
  assert (x ∉ list_to_set xs' ∪ t) by (rewrite <- Hs; set_solver).
  split_and!; simpl; [lia|by rewrite Hi|..|set_solver].
  rewrite <- union_assoc_L, <- Hs. apply set_eq. intros y.
  destruct (decide (y = x)); set_solver.
Qed.

Lemma btree_map_iter_perm {V : Type} (m : gmap K V) : btree_map_iter m ≡ₚ map_to_list m.
Proof. apply merge_sort_Permutation. Qed.

Lemma elem_of_btree_map_iter {V : Type} (m : gmap K V) (k : K) (v : V) :
  (k, v) ∈ btree_map_iter m ↔ m !! k = Some v.
Proof. by rewrite btree_map_iter_perm, elem_of_map_to_list. Qed.

Lemma btree_map_iter_NoDup {V : Type} (m : gmap K V) : NoDup (btree_map_iter m).*1.
Proof. rewrite btree_map_iter_perm. apply NoDup_fst_map_to_list. Qed.

Lemma list_to_map_btree_iter {V : Type} (m : gmap K V) :
  (list_to_map (btree_map_iter m) : gmap K V) = m.
Proof.
  trans (list_to_map (map_to_list m) : gmap K V); [|apply list_to_map_to_list].
  apply list_to_map_proper.
  - apply btree_map_iter_NoDup.
  - apply btree_map_iter_perm.
Qed.
End btree_lemmas.

Section index_map_lemmas.
Context {K V : Type} `{!EqDecision K}.
Implicit Types (m : list (K * V)) (k : K).

Lemma im_get_insert m k k' (v : V) :
  im_get k (im_insert k' v m) = if decide (k = k') then Some v else im_get k m.
Proof.
  induction m as [|[k0 v0] m IH]; simpl; [by case_decide|].
  destruct (decide (k' = k0)); simpl.
  - repeat case_decide; congruence.
  - rewrite IH. repeat case_decide; congruence.
Qed.

Lemma im_get_Some_elem m k (v : V) : im_get k m = Some v → (k, v) ∈ m.
Proof.
  induction m as [|[k0 v0] m IH]; simpl; [done|].
  case_decide as E; [intros [= ->]; subst; left|]. intros. right. by apply IH.
Qed.

Lemma im_get_None_keys m k : im_get k m = None ↔ k ∉ m.*1.
Proof.
  induction m as [|[k0 v0] m IH]; simpl; [set_solver|].
  rewrite not_elem_of_cons. case_decide; naive_solver.
Qed.

Lemma im_insert_keys m k (v : V) :
  (im_insert k v m).*1 = if decide (k ∈ m.*1) then m.*1 else m.*1 ++ [k].
Proof.
  induction m as [|[k0 v0] m IH]; [done|]. cbn [im_insert fmap list_fmap fst].
  destruct (decide (k = k0)) as [->|]; cbn [fmap list_fmap fst].
  - by rewrite decide_True by set_solver.
  - rewrite IH. repeat case_decide; set_solver.
Qed.

Lemma im_insert_NoDup m k (v : V) : NoDup m.*1 → NoDup (im_insert k v m).*1.
Proof.
  rewrite im_insert_keys. case_decide; [done|]. intros. apply list.NoDup_app.
  split_and!; [done|set_solver|apply NoDup_singleton].
Qed.
Lemma im_remove_sublist m k : (im_remove k m).*1 `sublist_of` m.*1.
Proof.
  induction m as [|[k0 v0] m IH]; csimpl; [done|]. case_decide; csimpl.
  - by apply sublist_cons.
  - by apply sublist_skip.
Qed.

Lemma im_remove_NoDup m k : NoDup m.*1 → NoDup (im_remove k m).*1.
Proof. intros. by eapply sublist_NoDup; [|apply im_remove_sublist]. Qed.

Lemma im_get_remove m k k' :
  NoDup m.*1 → im_get k (im_remove k' m) = if decide (k = k') then None else im_get k m.
Proof.
  induction m as [|[k0 v0] m IH]; csimpl; [by case_decide|].
  intros [Hk0 Hm]%list.NoDup_cons. destruct (decide (k' = k0)) as [->|Hne]; simpl.
  - destruct (decide (k = k0)) as [->|]; [|done]. by apply im_get_None_keys.
  - rewrite IH by done. repeat case_decide; congruence.
Qed.

Lemma im_contains_get m k : im_contains k m = true ↔ is_Some (im_get k m).
Proof. unfold im_contains. destruct (im_get k m); naive_solver. Qed.
End index_map_lemmas.

Section index_set_lemmas.
Context {A : Type} `{EqDecision A}.
Implicit Types (x y : A) (l : list A).

Lemma elem_of_is_add x y l : y ∈ is_add x l ↔ y = x ∨ y ∈ l.
Proof. unfold is_add, is_insert. case_decide; simpl; set_solver. Qed.
Lemma is_add_NoDup x l : NoDup l → NoDup (is_add x l).
Proof.
  unfold is_add, is_insert. intros Hl. case_decide; simpl; [done|]. apply list.NoDup_app.
  split_and!; [done|set_solver|apply NoDup_singleton].
Qed.

Lemma elem_of_is_extend (xs l : list A) y : y ∈ is_extend xs l ↔ y ∈ xs ∨ y ∈ l.
Proof.
  unfold is_extend. revert l. induction xs as [|x xs IH]; intros l; simpl; [set_solver|].
  rewrite IH, elem_of_is_add. set_solver.
Qed.

(** Removal takes one occurrence out, up to the order. *)
Lemma is_swap_remove_spec x l :
  match is_swap_remove x l with
  | (true, l') => l ≡ₚ x :: l'
  | (false, l') => l' = l ∧ x ∉ l
  end.
Proof.
  unfold is_swap_remove. destruct (list_find (λ y, y = x) l) as [[i y]|] eqn:Hf.
  - apply list_find_Some in Hf as (Hi & -> & _).
    destruct (list.last l) as [z|] eqn:Hz; [|apply last_None in Hz; by subst].
    apply last_Some in Hz as [l0 ->]. rewrite length_app. simpl.
    replace (length l0 + 1 - 1)%nat with (length l0) by lia.
    destruct (decide (i < length l0)%nat) as [Hlt|Hge].
    + rewrite insert_app_l by done. rewrite take_app_le by (rewrite length_insert; lia).
      rewrite take_ge by (rewrite length_insert; lia).
      rewrite lookup_app_l in Hi by done. apply list_elem_of_split_length in Hi as (a & b & -> & Hl).
      rewrite Hl, <- (Nat.add_0_r (length a)), insert_app_r. simpl. solve_Permutation.
    + pose proof (lookup_lt_Some _ _ _ Hi) as Hlen. rewrite length_app in Hlen. simpl in Hlen.
      assert (i = length l0) as -> by lia. rewrite list_lookup_middle in Hi by done.
      simplify_eq. rewrite take_insert_ge by lia. rewrite take_app_length. solve_Permutation.
  - split; [done|]. intros Hx. apply list_find_None in Hf.
    by apply (proj1 (list.Forall_forall _ _) Hf) in Hx.
Qed.

Lemma elem_of_is_discard x y l : NoDup l → (y ∈ is_discard x l ↔ y ∈ l ∧ y ≠ x).
Proof.
  intros Hl. pose proof (is_swap_remove_spec x l) as H. unfold is_discard.
  destruct (is_swap_remove x l) as [[] l']; simpl.
  - rewrite H in Hl. apply list.NoDup_cons in Hl as [Hx _]. rewrite H. set_solver.
  - destruct H as [-> ?]. set_solver.
Qed.

Lemma elem_of_is_discard_1 x y l : y ∈ is_discard x l → y ∈ l.
Proof.
  pose proof (is_swap_remove_spec x l) as H. unfold is_discard.
  destruct (is_swap_remove x l) as [[] l']; simpl; [rewrite H; set_solver|].
  by destruct H as [-> _].
Qed.

Lemma elem_of_is_discard_2 x y l : y ∈ l → y ≠ x → y ∈ is_discard x l.
Proof.
  pose proof (is_swap_remove_spec x l) as H. unfold is_discard.
  destruct (is_swap_remove x l) as [[] l']; simpl; [rewrite H; set_solver|].
  by destruct H as [-> _].
Qed.
End index_set_lemmas.
