(* ===== verification/Bor.v ===== *)
(** * The CBOR value walker

    [tari_bor/src/walker.rs].  [Value] is the enum of the [ciborium] crate with
    the variants the walker matches on; a float is its bits. *)
From stdpp Require Import base list strings numbers.
From S2P Require Import Prelude.

Inductive Value :=
  | VInteger (n : Z)
  | VBytes (b : list N)
  | VFloat (bits : N)
  | VText (s : string)
  | VBool (b : bool)
  | VNull
  | VTag (tag : Z) (v : Value)
  | VArray (vs : list Value)
  | VMap (kvs : list (Value * Value)).

(** [PartialEq] of [Value]: floats compare as numbers, so a NaN differs from
    itself and the zeros are equal. *)
Definition float_eqb (a b : N) : bool :=
  let magnitude x := (x mod 2 ^ 63)%N in
  let is_nan x := (2047 * 2 ^ 52 <? magnitude x)%N in
  if is_nan a || is_nan b then false
  else (a =? b)%N || ((magnitude a =? 0) && (magnitude b =? 0))%N.
Fixpoint value_eqb (v w : Value) {struct v} : bool :=
  match v, w with
  | VInteger n, VInteger m => (n =? m)%Z
  | VBytes b, VBytes c => bool_decide (b = c)
  | VFloat b, VFloat c => float_eqb b c
  | VText s, VText t => bool_decide (s = t)
  | VBool b, VBool c => Bool.eqb b c
  | VNull, VNull => true
  | VTag t v', VTag u w' => (t =? u)%Z && value_eqb v' w'
  | VArray vs, VArray ws =>
      (fix go (vs ws : list Value) : bool :=
         match vs, ws with
         | [], [] => true
         | v' :: vs', w' :: ws' => value_eqb v' w' && go vs' ws'
         | _, _ => false
         end) vs ws
  | VMap vs, VMap ws =>
      (fix go (vs ws : list (Value * Value)) : bool :=
         match vs, ws with
         | [], [] => true
         | (k, v') :: vs', (l, w') :: ws' => value_eqb k l && value_eqb v' w' && go vs' ws'
         | _, _ => false
         end) vs ws
  | _, _ => false
  end.

(** [core::ops::ControlFlow<()>]. *)
Inductive ControlFlow := Continue | Break.
Definition is_break (f : ControlFlow) : bool := match f with Break => true | Continue => false end.

Section walker.
Context {S E T : Type}.
(** [From<&str>] of the error with the text of the walker. *)
Variable max_depth_exceeded : E.
(** [FromTagAndValue::try_from_tag_and_value] and [ValueVisitor::visit]. *)
Variable try_from_tag_and_value : Z → Value → res E T.
Variable visit : T → M S E ControlFlow.

Fixpoint walk_all_depth (value : Value) (max_depth depth : nat) : M S E ControlFlow :=
  if (max_depth <=? depth)%nat then throw max_depth_exceeded
  else
    match value with
    | VInteger _ | VBytes _ | VFloat _ | VText _ | VBool _ | VNull => ret Continue
    | VTag tag val =>
        let! val' := lift (try_from_tag_and_value tag val) in
        visit val'
    | VArray values =>
        (fix go (vs : list Value) : M S E ControlFlow :=
           match vs with
           | [] => ret Continue
           | v :: vs' =>
               let! flow := walk_all_depth v max_depth (1 + depth)%nat in
               if is_break flow then ret Break else go vs'
           end) values
    | VMap value_pairs =>
        (fix go (vs : list (Value * Value)) : M S E ControlFlow :=
           match vs with
           | [] => ret Continue
           | (key, v) :: vs' =>
               let! flow := walk_all_depth key max_depth (1 + depth)%nat in
               if is_break flow then ret Break
               else
                 let! flow := walk_all_depth v max_depth (1 + depth)%nat in
                 if is_break flow then ret Break else go vs'
           end) value_pairs
    end.

Definition walk_all (value : Value) (max_depth : nat) : M S E unit :=
  do! walk_all_depth value max_depth 0 in ret tt.

(** ** What the walk visits

    The tagged values in order, the contents of a tag excluded, and the nesting
    depth. *)
Fixpoint tags (value : Value) : list (Z * Value) :=
  match value with
  | VTag tag val => [(tag, val)]
  | VArray values => concat (tags <$> values)
  | VMap pairs => concat ((λ p, tags p.1 ++ tags p.2) <$> pairs)
  | _ => []
  end.
Fixpoint nesting (value : Value) : nat :=
  match value with
  | VArray values => 1 + max_list (nesting <$> values)
  | VMap pairs => 1 + max_list ((λ p, nesting p.1 `max` nesting p.2)%nat <$> pairs)
  | _ => 1
  end.

(** Visit a list of tagged values until a break. *)
Fixpoint visit_all (ts : list (Z * Value)) : M S E ControlFlow :=
  match ts with
  | [] => ret Continue
  | (tag, val) :: ts' =>
      let! val' := lift (try_from_tag_and_value tag val) in
      let! flow := visit val' in
      if is_break flow then ret Break else visit_all ts'
  end.

Lemma Value_nested_ind (P : Value → Prop) :
  (∀ n, P (VInteger n)) → (∀ b, P (VBytes b)) → (∀ b, P (VFloat b)) → (∀ s, P (VText s)) →
  (∀ b, P (VBool b)) → P VNull → (∀ t v, P (VTag t v)) →
  (∀ vs, Forall P vs → P (VArray vs)) →
  (∀ kvs, Forall (λ p, P p.1 ∧ P p.2) kvs → P (VMap kvs)) →
  ∀ v, P v.
Proof.
  intros Hi Hb Hf Ht Hbo Hn Htag Ha Hm. fix IH 1. intros [n|b|b|s|b| |t v|vs|kvs];
    [apply Hi|apply Hb|apply Hf|apply Ht|apply Hbo|apply Hn|apply Htag|apply Ha|apply Hm].
  - induction vs as [|v vs IHvs]; constructor; [apply IH|apply IHvs].
  - induction kvs as [|[k v] kvs IHvs]; constructor; [split; apply IH|apply IHvs].
Qed.

Lemma visit_all_app (ts ts' : list (Z * Value)) (s : S) :
  visit_all (ts ++ ts') s =
  (let! flow := visit_all ts in if is_break flow then ret Break else visit_all ts') s.
Proof.
  revert s. induction ts as [|[tag val] ts IH]; intros s; simpl; [done|].
  unfold bind, lift. destruct (try_from_tag_and_value tag val); [|done..].
  destruct (visit _ s) as [[flow| |] s']; [|done..]. destruct flow; simpl; [|done].
  rewrite IH. done.
Qed.

(** When the depth suffices, the walk is the visit of the tags in order. *)
Lemma walk_all_depth_visits (value : Value) (max_depth depth : nat) (s : S) :
  (nesting value + depth ≤ max_depth)%nat →
  walk_all_depth value max_depth depth s = visit_all (tags value) s.
Proof.
  revert depth s. induction value as [n|b|b|t|b| |t v|vs IH|kvs IH] using Value_nested_ind;
    intros depth s Hd; simpl in *;
    (destruct (Nat.leb_spec max_depth depth); [lia|]); try done.
  - unfold bind, lift, ret. destruct (try_from_tag_and_value t v); [|done..].
    destruct (visit _ s) as [[flow| |] s']; [|done..]. by destruct flow.
  - revert s Hd. induction IH as [|v vs Hv IHvs IH]; intros s Hd; [done|]. csimpl in *.
    rewrite visit_all_app. apply bind_ext; [apply Hv; lia|]. intros [] s'; [|done].
    apply IH. lia.
  - revert s Hd. induction IH as [|[k v] kvs [Hk Hv] IHvs IH]; intros s Hd; [done|].
    csimpl in *. rewrite <- app_assoc, visit_all_app.
    apply bind_ext; [apply Hk; lia|]. intros [] s'; [|done]. simpl.
    rewrite visit_all_app. apply bind_ext; [apply Hv; lia|]. intros [] s''; [|done].
    apply IH. lia.
Qed.

(** A visitor that never breaks reaches the end only if the depth suffices. *)
Lemma walk_all_depth_fits (value : Value) (max_depth depth : nat) (s : S) (flow : ControlFlow) s' :
  (∀ v s flow s', visit v s = (Ok flow, s') → flow = Continue) →
  walk_all_depth value max_depth depth s = (Ok flow, s') →
  flow = Continue ∧ (nesting value + depth ≤ max_depth)%nat.
Proof.
  intros Hvis. revert depth s flow s'.
  induction value as [n|b|b|t|b| |t v|vs IH|kvs IH] using Value_nested_ind;
    intros depth s flow s'; simpl; (destruct (Nat.leb_spec max_depth depth) as [|Hlt]; [done|]);
    try (intros [= <- <-]; split; [done|lia]).
  - unfold bind, lift. destruct (try_from_tag_and_value t v); [|done..].
    intros Hv%Hvis. split; [done|lia].
  - revert s. induction IH as [|v vs Hv IHvs IH]; intros s; [intros [= <- <-]; csimpl; split; [done|lia]|].
    csimpl. unfold bind at 1.
    destruct (walk_all_depth v max_depth (Datatypes.S depth) s) as [[fl| |] s1] eqn:Hw; [|done..].
    apply Hv in Hw as [-> ?]. simpl. intros Hr. apply IH in Hr as [-> ?]. split; [done|lia].
  - revert s. induction IH as [|[k v] kvs [Hk Hv] IHvs IH]; intros s;
      [intros [= <- <-]; csimpl; split; [done|lia]|].
    csimpl in *. unfold bind at 1.
    destruct (walk_all_depth k max_depth (Datatypes.S depth) s) as [[fl| |] s1] eqn:Hw; [|done..].
    apply Hk in Hw as [-> ?]. simpl. unfold bind at 1.
    destruct (walk_all_depth v max_depth (Datatypes.S depth) s1) as [[fl| |] s2] eqn:Hw; [|done..].
    apply Hv in Hw as [-> ?]. simpl. intros Hr. apply IH in Hr as [-> ?]. split; [done|lia].
Qed.
End walker.
