(* ===== verification/Ids.v ===== *)
(** * Identifiers

    Addresses and 32-byte keys are the natural numbers their big-endian bytes
    spell, so that the order of the bytes is the order of the numbers.
    [NonFungibleId] keeps the constructors of
    [template_lib/src/models/non_fungible.rs] and its derived order;
    [SubstateId] those of [engine_types/src/substate.rs]. *)
From stdpp Require Import base gmap list strings countable numbers.
From S2P Require Import Prelude BTree.

Notation ResourceAddress := N (only parsing).
Notation ComponentAddress := N (only parsing).
Notation VaultId := N (only parsing).
Notation TemplateAddress := N (only parsing).
Notation CommitmentBytes := N (only parsing).
Notation PublicKeyBytes := N (only parsing).
Notation BucketId := N (only parsing).
Notation ProofId := N (only parsing).

Inductive ResourceType := RtFungible | RtNonFungible | RtConfidential | RtStealth.
#[export] Instance ResourceType_eq_dec : EqDecision ResourceType.
Proof. solve_decision. Defined.

Inductive NonFungibleId :=
  | U256 (bytes : N)
  | NfString (s : string)
  | Uint32 (n : N)
  | Uint64 (n : N).
#[export] Instance NonFungibleId_eq_dec : EqDecision NonFungibleId.
Proof. solve_decision. Defined.
#[export] Instance NonFungibleId_countable : Countable NonFungibleId.
Proof.
  refine (inj_countable'
    (λ i, match i with
          | U256 b => inl (inl b)
          | NfString s => inl (inr s)
          | Uint32 n => inr (inl n)
          | Uint64 n => inr (inr n)
          end)
    (λ i, match i with
          | inl (inl b) => U256 b
          | inl (inr s) => NfString s
          | inr (inl n) => Uint32 n
          | inr (inr n) => Uint64 n
          end) _).
  by intros [].
Defined.

(** Lexicographic order, a proper prefix coming first. *)
Fixpoint lex_leb (xs ys : list N) : bool :=
  match xs, ys with
  | [], _ => true
  | _ :: _, [] => false
  | x :: xs', y :: ys' => (x <? y)%N || ((x =? y)%N && lex_leb xs' ys')
  end.

Fixpoint string_bytes (s : string) : list N :=
  match s with
  | EmptyString => []
  | String a s' => Ascii.N_of_ascii a :: string_bytes s'
  end.

(** [#[derive(Ord)]]: the position of the constructor, then its field. *)
Definition nfid_key (i : NonFungibleId) : list N :=
  match i with
  | U256 b => [0; b]
  | NfString s => 1 :: string_bytes s
  | Uint32 n => [2; n]
  | Uint64 n => [3; n]
  end%N.
#[export] Instance NonFungibleId_ord : Ord NonFungibleId :=
  λ i j, Is_true (lex_leb (nfid_key i) (nfid_key j)).

Record NonFungibleAddress := MkNonFungibleAddress {
  nfa_resource : ResourceAddress;
  nfa_id : NonFungibleId;
}.
#[export] Instance NonFungibleAddress_eq_dec : EqDecision NonFungibleAddress.
Proof. solve_decision. Defined.
#[export] Instance NonFungibleAddress_countable : Countable NonFungibleAddress.
Proof.
  refine (inj_countable' (λ a, (nfa_resource a, nfa_id a))
            (λ p, MkNonFungibleAddress p.1 p.2) _). by intros [].
Defined.

Record UtxoAddress := MkUtxoAddress {
  utxo_resource : ResourceAddress;
  utxo_id : CommitmentBytes;
}.
#[export] Instance UtxoAddress_eq_dec : EqDecision UtxoAddress.
Proof. solve_decision. Defined.
#[export] Instance UtxoAddress_countable : Countable UtxoAddress.
Proof.
  refine (inj_countable' (λ a, (utxo_resource a, utxo_id a))
            (λ p, MkUtxoAddress p.1 p.2) _). by intros [].
Defined.

Inductive SubstateId :=
  | SidComponent (a : ComponentAddress)
  | SidResource (a : ResourceAddress)
  | SidVault (a : VaultId)
  | SidClaimedOutputTombstone (a : N)
  | SidNonFungible (a : NonFungibleAddress)
  | SidTransactionReceipt (a : N)
  | SidTemplate (a : TemplateAddress)
  | SidValidatorFeePool (a : N)
  | SidUtxo (a : UtxoAddress).
#[export] Instance SubstateId_eq_dec : EqDecision SubstateId.
Proof. solve_decision. Defined.
#[export] Instance SubstateId_countable : Countable SubstateId.
Proof.
  refine (inj_countable'
    (λ i, match i with
          | SidComponent a => inl (inl (inl a))
          | SidResource a => inl (inl (inr a))
          | SidVault a => inl (inr (inl a))
          | SidClaimedOutputTombstone a => inl (inr (inr (inl a)))
          | SidNonFungible a => inl (inr (inr (inr a)))
          | SidTransactionReceipt a => inr (inl (inl a))
          | SidTemplate a => inr (inl (inr a))
          | SidValidatorFeePool a => inr (inr (inl a))
          | SidUtxo a => inr (inr (inr a))
          end)
    (λ i, match i with
          | inl (inl (inl a)) => SidComponent a
          | inl (inl (inr a)) => SidResource a
          | inl (inr (inl a)) => SidVault a
          | inl (inr (inr (inl a))) => SidClaimedOutputTombstone a
          | inl (inr (inr (inr a))) => SidNonFungible a
          | inr (inl (inl a)) => SidTransactionReceipt a
          | inr (inl (inr a)) => SidTemplate a
          | inr (inr (inl a)) => SidValidatorFeePool a
          | inr (inr (inr a)) => SidUtxo a
          end) _).
  by intros [].
Defined.

(** [tari_template_lib::constants]: a leading one byte, and 32 one bytes. *)
Definition PUBLIC_IDENTITY_RESOURCE_ADDRESS : ResourceAddress := (256 ^ 31)%N.
Definition XTR : ResourceAddress :=
  foldr (λ _ acc, 1 + 256 * acc)%N 0%N (seq 0 32).

Definition as_component_address (id : SubstateId) : option ComponentAddress :=
  match id with SidComponent a => Some a | _ => None end.
Definition as_vault_id (id : SubstateId) : option VaultId :=
  match id with SidVault a => Some a | _ => None end.
Definition as_resource_address (id : SubstateId) : option ResourceAddress :=
  match id with SidResource a => Some a | _ => None end.
Definition as_template (id : SubstateId) : option TemplateAddress :=
  match id with SidTemplate a => Some a | _ => None end.
Definition as_non_fungible_address (id : SubstateId) : option NonFungibleAddress :=
  match id with SidNonFungible a => Some a | _ => None end.
Definition as_utxo_address (id : SubstateId) : option UtxoAddress :=
  match id with SidUtxo a => Some a | _ => None end.
Definition is_resource (id : SubstateId) : bool :=
  match id with SidResource _ => true | _ => false end.
Definition is_component (id : SubstateId) : bool :=
  match id with SidComponent _ => true | _ => false end.
Definition is_root (id : SubstateId) : bool :=
  match id with
  | SidComponent _ | SidUtxo _ | SidClaimedOutputTombstone _ => true
  | _ => false
  end.
Definition is_public_key_identity (id : SubstateId) : bool :=
  match id with
  | SidNonFungible a => bool_decide (nfa_resource a = PUBLIC_IDENTITY_RESOURCE_ADDRESS)
  | _ => false
  end.
Definition is_virtual (id : SubstateId) : bool := is_public_key_identity id.
Definition is_vault (id : SubstateId) : bool :=
  match id with SidVault _ => true | _ => false end.
Definition is_non_fungible (id : SubstateId) : bool :=
  match id with SidNonFungible _ => true | _ => false end.
Definition is_transaction_receipt (id : SubstateId) : bool :=
  match id with SidTransactionReceipt _ => true | _ => false end.
Definition is_template (id : SubstateId) : bool :=
  match id with SidTemplate _ => true | _ => false end.
Definition is_global (id : SubstateId) : bool := is_template id.
Definition is_read_only (id : SubstateId) : bool :=
  match id with SidTransactionReceipt _ | SidTemplate _ => true | _ => false end.

(** ** The order of the non-fungible ids is a total order *)
Lemma lex_leb_refl xs : lex_leb xs xs = true.
Proof. induction xs as [|x xs IH]; simpl; [done|]. by rewrite N.eqb_refl, IH, orb_true_r. Qed.

Lemma lex_leb_cons x xs y ys :
  lex_leb (x :: xs) (y :: ys) = true ↔ (x < y)%N ∨ x = y ∧ lex_leb xs ys = true.
Proof.
  cbn [lex_leb]. rewrite orb_true_iff, andb_true_iff, N.ltb_lt, N.eqb_eq. done.
Qed.

Lemma lex_leb_trans xs ys zs :
  lex_leb xs ys = true → lex_leb ys zs = true → lex_leb xs zs = true.
Proof.
  revert ys zs. induction xs as [|x xs IH]; intros [|y ys] [|z zs]; try done.
  rewrite !lex_leb_cons. intros [?|[-> ?]] [?|[-> ?]]; [left; lia|left; lia|left; lia|].
  right. eauto.
Qed.

Lemma lex_leb_antisym xs ys : lex_leb xs ys = true → lex_leb ys xs = true → xs = ys.
Proof.
  revert ys. induction xs as [|x xs IH]; intros [|y ys]; try done.
  rewrite !lex_leb_cons. intros [?|[-> ?]] [?|[? ?]]; try lia. f_equal. by apply IH.
Qed.

Lemma lex_leb_total xs ys : lex_leb xs ys = true ∨ lex_leb ys xs = true.
Proof.
  revert ys. induction xs as [|x xs IH]; intros [|y ys]; [by auto..|].
  rewrite !lex_leb_cons. destruct (N.lt_trichotomy x y) as [?|[->|?]]; [by auto| |by auto].
  destruct (IH ys); auto.
Qed.

Lemma string_bytes_inj (s t : string) : string_bytes s = string_bytes t → s = t.
Proof.
  revert t. induction s as [|a s IH]; intros [|b t]; try done. simpl.
  intros [= Ha Hs]. f_equal; [|by apply IH].
  by rewrite <- (Ascii.ascii_N_embedding a), <- (Ascii.ascii_N_embedding b), Ha.
Qed.

#[export] Instance nfid_key_inj : Inj (=) (=) nfid_key.
Proof. intros [] []; simpl; intros [=]; subst; try done. f_equal. by apply string_bytes_inj. Qed.

#[export] Instance NonFungibleId_ord_laws : OrdLaws NonFungibleId.
Proof.
  split; unfold ord_le, NonFungibleId_ord.
  - intros i j. apply _.
  - split; [split|].
    + intros i. apply Is_true_true, lex_leb_refl.
    + intros i j k. rewrite !Is_true_true. apply lex_leb_trans.
    + intros i j. rewrite !Is_true_true. intros. apply (inj nfid_key).
      by apply lex_leb_antisym.
  - intros i j. rewrite !Is_true_true. apply lex_leb_total.
Defined.
