(* ===== verification/IndexedValue.v ===== *)
(** * Well-known types in a CBOR value

    [engine_types/src/indexed_value.rs] and the tags of
    [template_lib/src/models/binary_tag.rs]: the buckets, proofs and addresses
    a value mentions.  [Value::deserialized] is code of the [ciborium] crate:
    the class [Cbor], with one function for each type the source asks for. *)
From stdpp Require Import base gmap list strings stringmap numbers.
From S2P Require Import Prelude Bor Ids.

Class Cbor := {
  deserialized_object_key : Value → option N;
  deserialized_hash : Value → option N;
  deserialized_bytes32 : Value → option N;
  deserialized_u32 : Value → option N;
  deserialized_nf_address : Value → option NonFungibleAddress;
  deserialized_utxo_address : Value → option UtxoAddress;
  deserialized_metadata : Value → option (gmap string string);
}.

Notation AddressAllocationId := N (only parsing).

Inductive BinaryTag :=
  | TagComponentAddress | TagMetadata | TagNonFungibleAddress | TagResourceAddress
  | TagVaultId | TagBucketId | TagTransactionReceipt | TagProofId
  | TagClaimedOutputTombstoneAddress | TagTemplateAddress | TagValidatorNodeFeePool
  | TagAllocatedComponentAddress | TagAllocatedResourceAddress | TagUtxo.

Definition from_u64 (value : Z) : option BinaryTag :=
  match value with
  | 128 => Some TagComponentAddress
  | 129 => Some TagMetadata
  | 130 => Some TagNonFungibleAddress
  | 131 => Some TagResourceAddress
  | 132 => Some TagVaultId
  | 133 => Some TagBucketId
  | 134 => Some TagTransactionReceipt
  | 135 => Some TagProofId
  | 136 => Some TagClaimedOutputTombstoneAddress
  | 137 => Some TagTemplateAddress
  | 138 => Some TagValidatorNodeFeePool
  | 139 => Some TagAllocatedComponentAddress
  | 140 => Some TagAllocatedResourceAddress
  | 141 => Some TagUtxo
  | _ => None
  end%Z.
Definition as_u64 (tag : BinaryTag) : Z :=
  match tag with
  | TagComponentAddress => 128
  | TagMetadata => 129
  | TagNonFungibleAddress => 130
  | TagResourceAddress => 131
  | TagVaultId => 132
  | TagBucketId => 133
  | TagTransactionReceipt => 134
  | TagProofId => 135
  | TagClaimedOutputTombstoneAddress => 136
  | TagTemplateAddress => 137
  | TagValidatorNodeFeePool => 138
  | TagAllocatedComponentAddress => 139
  | TagAllocatedResourceAddress => 140
  | TagUtxo => 141
  end%Z.

Inductive WellKnownTariValue :=
  | WkComponentAddress (a : ComponentAddress)
  | WkResourceAddress (a : ResourceAddress)
  | WkTransactionReceiptAddress (a : N)
  | WkNonFungibleAddress (a : NonFungibleAddress)
  | WkBucketId (b : BucketId)
  | WkMetadata (m : gmap string string)
  | WkVaultId (v : VaultId)
  | WkProofId (p : ProofId)
  | WkClaimedOutputTombstoneAddress (a : N)
  | WkPublishedTemplateAddress (a : TemplateAddress)
  | WkValidatorNodeFeePool (a : N)
  | WkComponentAddressAllocation (id : AddressAllocationId)
  | WkResourceAddressAllocation (id : AddressAllocationId)
  | WkUtxo (a : UtxoAddress).

Inductive IndexedValueError :=
  | IveBorError
  | IveInvalidTag (tag : Z)
  | IveCustom.

Record IndexedWellKnownTypes := MkIndexed {
  bucket_ids : list BucketId;
  proof_ids : list ProofId;
  component_addresses : list ComponentAddress;
  resource_addresses : list ResourceAddress;
  transaction_receipt_addresses : list N;
  non_fungible_addresses : list NonFungibleAddress;
  vault_ids : list VaultId;
  metadata : list (gmap string string);
  unclaimed_confidential_output_address : list N;
  published_template_addresses : list TemplateAddress;
  validator_node_fee_pools : list N;
  utxos : list UtxoAddress;
  component_address_allocations : list AddressAllocationId;
  resource_address_allocations : list AddressAllocationId;
}.
Definition indexed_new : IndexedWellKnownTypes :=
  MkIndexed [] [] [] [] [] [] [] [] [] [] [] [] [] [].

Definition MAX_VISITOR_DEPTH : nat := 50.

Section indexed.
Context `{Cb : !Cbor}.

Definition try_from_tag_and_value (tag : Z) (value : Value) :
    res IndexedValueError WellKnownTariValue :=
  let? tag := ok_or (from_u64 tag) (IveInvalidTag tag) in
  match tag with
  | TagComponentAddress =>
      let? a := ok_or (deserialized_object_key value) IveBorError in Ok (WkComponentAddress a)
  | TagBucketId =>
      let? a := ok_or (deserialized_u32 value) IveBorError in Ok (WkBucketId a)
  | TagResourceAddress =>
      let? a := ok_or (deserialized_object_key value) IveBorError in Ok (WkResourceAddress a)
  | TagTransactionReceipt =>
      let? a := ok_or (deserialized_hash value) IveBorError in Ok (WkTransactionReceiptAddress a)
  | TagNonFungibleAddress =>
      let? a := ok_or (deserialized_nf_address value) IveBorError in Ok (WkNonFungibleAddress a)
  | TagMetadata =>
      let? a := ok_or (deserialized_metadata value) IveBorError in Ok (WkMetadata a)
  | TagVaultId =>
      let? a := ok_or (deserialized_object_key value) IveBorError in Ok (WkVaultId a)
  | TagProofId =>
      let? a := ok_or (deserialized_u32 value) IveBorError in Ok (WkProofId a)
  | TagClaimedOutputTombstoneAddress =>
      let? a := ok_or (deserialized_object_key value) IveBorError in
      Ok (WkClaimedOutputTombstoneAddress a)
  | TagTemplateAddress =>
      let? a := ok_or (deserialized_hash value) IveBorError in Ok (WkPublishedTemplateAddress a)
  | TagValidatorNodeFeePool =>
      let? a := ok_or (deserialized_bytes32 value) IveBorError in Ok (WkValidatorNodeFeePool a)
  | TagAllocatedComponentAddress =>
      let? a := ok_or (deserialized_u32 value) IveBorError in Ok (WkComponentAddressAllocation a)
  | TagAllocatedResourceAddress =>
      let? a := ok_or (deserialized_u32 value) IveBorError in Ok (WkResourceAddressAllocation a)
  | TagUtxo =>
      let? a := ok_or (deserialized_utxo_address value) IveBorError in Ok (WkUtxo a)
  end.

(** [IndexedValueVisitor] has the fields of [IndexedWellKnownTypes]; [visit]
    pushes to the one for the kind of value. *)
Definition push_well_known (v : WellKnownTariValue) (i : IndexedWellKnownTypes) :
    IndexedWellKnownTypes :=
  let 'MkIndexed bs ps cs rs ts ns vs ms os tms fps us cas ras := i in
  match v with
  | WkComponentAddress a => MkIndexed bs ps (cs ++ [a]) rs ts ns vs ms os tms fps us cas ras
  | WkResourceAddress a => MkIndexed bs ps cs (rs ++ [a]) ts ns vs ms os tms fps us cas ras
  | WkTransactionReceiptAddress a =>
      MkIndexed bs ps cs rs (ts ++ [a]) ns vs ms os tms fps us cas ras
  | WkBucketId a => MkIndexed (bs ++ [a]) ps cs rs ts ns vs ms os tms fps us cas ras
  | WkNonFungibleAddress a => MkIndexed bs ps cs rs ts (ns ++ [a]) vs ms os tms fps us cas ras
  | WkVaultId a => MkIndexed bs ps cs rs ts ns (vs ++ [a]) ms os tms fps us cas ras
  | WkMetadata a => MkIndexed bs ps cs rs ts ns vs (ms ++ [a]) os tms fps us cas ras
  | WkProofId a => MkIndexed bs (ps ++ [a]) cs rs ts ns vs ms os tms fps us cas ras
  | WkClaimedOutputTombstoneAddress a =>
      MkIndexed bs ps cs rs ts ns vs ms (os ++ [a]) tms fps us cas ras
  | WkPublishedTemplateAddress a =>
      MkIndexed bs ps cs rs ts ns vs ms os (tms ++ [a]) fps us cas ras
  | WkValidatorNodeFeePool a => MkIndexed bs ps cs rs ts ns vs ms os tms (fps ++ [a]) us cas ras
  | WkComponentAddressAllocation a =>
      MkIndexed bs ps cs rs ts ns vs ms os tms fps us (cas ++ [a]) ras
  | WkResourceAddressAllocation a =>
      MkIndexed bs ps cs rs ts ns vs ms os tms fps us cas (ras ++ [a])
  | WkUtxo a => MkIndexed bs ps cs rs ts ns vs ms os tms fps (us ++ [a]) cas ras
  end.
Definition visit (v : WellKnownTariValue) :
    M IndexedWellKnownTypes IndexedValueError ControlFlow :=
  do! modify (push_well_known v) in ret Continue.

Definition from_value_with_max_depth (value : Value) (max_depth : nat) :
    res IndexedValueError IndexedWellKnownTypes :=
  let '(r, visitor) := walk_all IveCustom try_from_tag_and_value visit value max_depth indexed_new in
  let? _ := r in
  Ok visitor.
Definition from_value (value : Value) : res IndexedValueError IndexedWellKnownTypes :=
  from_value_with_max_depth value MAX_VISITOR_DEPTH.

(** The substate a well-known value is the address of. *)
Definition well_known_substate (v : WellKnownTariValue) : option SubstateId :=
  match v with
  | WkComponentAddress a => Some (SidComponent a)
  | WkResourceAddress a => Some (SidResource a)
  | WkTransactionReceiptAddress a => Some (SidTransactionReceipt a)
  | WkNonFungibleAddress a => Some (SidNonFungible a)
  | WkVaultId a => Some (SidVault a)
  | WkClaimedOutputTombstoneAddress a => Some (SidClaimedOutputTombstone a)
  | WkPublishedTemplateAddress a => Some (SidTemplate a)
  | WkValidatorNodeFeePool a => Some (SidValidatorFeePool a)
  | WkUtxo a => Some (SidUtxo a)
  | WkBucketId _ | WkMetadata _ | WkComponentAddressAllocation _
  | WkResourceAddressAllocation _ | WkProofId _ => None
  end.

(** The closure of [value_contains_substate]; its state is [found]. *)
Definition visit_contains (id : SubstateId) (value : WellKnownTariValue) :
    M bool IndexedValueError ControlFlow :=
  do! modify (λ found, match well_known_substate value with
                       | Some addr => bool_decide (id = addr)
                       | None => found
                       end) in
  let! found := (get : M bool IndexedValueError bool) in
  ret (if found then Break else Continue).
Definition value_contains_substate (value : Value) (id : SubstateId) :
    res IndexedValueError bool :=
  let '(r, found) :=
    walk_all IveCustom try_from_tag_and_value (visit_contains id) value MAX_VISITOR_DEPTH false in
  let? _ := r in
  Ok found.

Definition referenced_substates (self : IndexedWellKnownTypes) : list SubstateId :=
  (SidComponent <$> component_addresses self)
  ++ (SidResource <$> resource_addresses self)
  ++ (SidTransactionReceipt <$> transaction_receipt_addresses self)
  ++ (SidNonFungible <$> non_fungible_addresses self)
  ++ (SidVault <$> vault_ids self)
  ++ (SidClaimedOutputTombstone <$> unclaimed_confidential_output_address self)
  ++ (SidUtxo <$> utxos self)
  ++ (SidTemplate <$> published_template_addresses self)
  ++ (SidValidatorFeePool <$> validator_node_fee_pools self).

Definition diff_vec {A : Type} `{EqDecision A} (a b : list A) : list A :=
  filter (λ x, x ∉ b) a.
Definition diff (self other : IndexedWellKnownTypes) : IndexedWellKnownTypes :=
  MkIndexed (diff_vec (bucket_ids self) (bucket_ids other))
    (diff_vec (proof_ids self) (proof_ids other))
    (diff_vec (component_addresses self) (component_addresses other))
    (diff_vec (resource_addresses self) (resource_addresses other))
    (diff_vec (transaction_receipt_addresses self) (transaction_receipt_addresses other))
    (diff_vec (non_fungible_addresses self) (non_fungible_addresses other))
    (diff_vec (vault_ids self) (vault_ids other))
    (diff_vec (metadata self) (metadata other))
    (diff_vec (unclaimed_confidential_output_address self)
       (unclaimed_confidential_output_address other))
    (diff_vec (published_template_addresses self) (published_template_addresses other))
    (diff_vec (validator_node_fee_pools self) (validator_node_fee_pools other))
    (diff_vec (utxos self) (utxos other))
    (diff_vec (component_address_allocations self) (component_address_allocations other))
    (diff_vec (resource_address_allocations self) (resource_address_allocations other)).

(** [FromIterator]: the fields from [published_template_addresses] on are not
    extended. *)
Definition extend_indexed (indexed value : IndexedWellKnownTypes) : IndexedWellKnownTypes :=
  MkIndexed (bucket_ids indexed ++ bucket_ids value)
    (proof_ids indexed ++ proof_ids value)
    (component_addresses indexed ++ component_addresses value)
    (resource_addresses indexed ++ resource_addresses value)
    (transaction_receipt_addresses indexed ++ transaction_receipt_addresses value)
    (non_fungible_addresses indexed ++ non_fungible_addresses value)
    (vault_ids indexed ++ vault_ids value)
    (metadata indexed ++ metadata value)
    (unclaimed_confidential_output_address indexed ++ unclaimed_confidential_output_address value)
    (published_template_addresses indexed) (validator_node_fee_pools indexed) (utxos indexed)
    (component_address_allocations indexed) (resource_address_allocations indexed).
Definition from_iter (iter : list IndexedWellKnownTypes) : IndexedWellKnownTypes :=
  foldl extend_indexed indexed_new iter.

(** ** Values with their index *)
Record IndexedValue := MkIndexedValue {
  iv_indexed : IndexedWellKnownTypes;
  iv_value : Value;
}.
Definition indexed_empty : IndexedValue := MkIndexedValue indexed_new VNull.
Definition indexed_from_value (value : Value) : res IndexedValueError IndexedValue :=
  let? indexed := res_map_err (λ _, IveCustom) (from_value value) in
  Ok (MkIndexedValue indexed value).

(** [IndexedValue::referenced_substates], unlike the method of
    [IndexedWellKnownTypes], lists four kinds of address only. *)
Definition value_referenced_substates (self : IndexedValue) : list SubstateId :=
  (SidComponent <$> component_addresses (iv_indexed self))
  ++ (SidResource <$> resource_addresses (iv_indexed self))
  ++ (SidNonFungible <$> non_fungible_addresses (iv_indexed self))
  ++ (SidVault <$> vault_ids (iv_indexed self)).

(** [BorTag]: a value under a required tag. *)
Definition bor_tag (tag : BinaryTag) (v : Value) : Value := VTag (as_u64 tag) v.
Definition bor_tag_u32 (tag : BinaryTag) (v : Value) : option N :=
  match v with
  | VTag t v' => if (t =? as_u64 tag)%Z then deserialized_u32 v' else None
  | _ => None
  end.
Definition encode_bucket_id (id : BucketId) : Value := bor_tag TagBucketId (VInteger (Z.of_N id)).
Definition encode_component_allocation (id : AddressAllocationId) : Value :=
  bor_tag TagAllocatedComponentAddress (VInteger (Z.of_N id)).
Definition encode_resource_allocation (id : AddressAllocationId) : Value :=
  bor_tag TagAllocatedResourceAddress (VInteger (Z.of_N id)).
End indexed.

(** ** Lemmas *)
Section indexed_lemmas.
Context `{Cb : !Cbor}.

Lemma referenced_push (v : WellKnownTariValue) (i : IndexedWellKnownTypes) (id : SubstateId) :
  id ∈ referenced_substates (push_well_known v i) ↔
  id ∈ referenced_substates i ∨ well_known_substate v = Some id.
Proof.
  destruct i as [bs ps cs rs ts ns vs ms os tms fps us cas ras].
  destruct v; unfold referenced_substates; simpl; rewrite ?fmap_app; simpl;
    rewrite !elem_of_app, ?list_elem_of_singleton; naive_solver.
Qed.

Lemma visit_never_breaks (v : WellKnownTariValue) i flow i' :
  visit v i = (Ok flow, i') → flow = Continue.
Proof. unfold visit, bind, modify, ret. by intros [= <- _]. Qed.

(** The two visitors see the same values. *)
Lemma visit_all_contains (id : SubstateId) (ts : list (Z * Value)) i flow i' :
  visit_all try_from_tag_and_value visit ts i = (Ok flow, i') →
  ∃ flow' found,
    visit_all try_from_tag_and_value (visit_contains id) ts false = (Ok flow', found) ∧
    (id ∈ referenced_substates i' ↔ id ∈ referenced_substates i ∨ found = true).
Proof.
  revert i. induction ts as [|[tag val] ts IH]; intros i; simpl.
  - intros [= <- <-]. exists Continue, false. naive_solver.
  - unfold bind, lift. destruct (try_from_tag_and_value tag val) as [w| |]; [|done..].
    unfold visit at 1, bind at 1, modify, ret at 1. simpl. intros Hv.
    destruct (IH _ Hv) as (flow' & found & Hvisit & Hiff). rewrite referenced_push in Hiff.
    unfold visit_contains at 1, bind, get, modify, ret.
    destruct (well_known_substate w) as [addr|] eqn:Hw; simpl.
    + destruct (bool_decide (id = addr)) eqn:E; simpl.
      * apply bool_decide_eq_true in E as ->. exists Break, true. naive_solver.
      * apply bool_decide_eq_false in E. exists flow', found. naive_solver.
    + exists flow', found. naive_solver.
Qed.

Lemma walk_all_depth_from_value (value : Value) (i : IndexedWellKnownTypes) :
  from_value value = Ok i →
  nesting value ≤ MAX_VISITOR_DEPTH ∧
  visit_all try_from_tag_and_value visit (tags value) indexed_new = (Ok Continue, i).
Proof.
  unfold from_value, from_value_with_max_depth, walk_all, bind.
  destruct (walk_all_depth IveCustom try_from_tag_and_value visit value MAX_VISITOR_DEPTH 0
    indexed_new) as [[flow| |] s'] eqn:Hw; simpl; [|done..].
  intros [= <-]. pose proof (walk_all_depth_fits _ _ _ _ _ _ _ _ _ visit_never_breaks Hw) as [-> ?].
  split; [lia|]. rewrite <- Hw. symmetry. apply walk_all_depth_visits. lia.
Qed.

Lemma from_u64_as_u64 (tag : BinaryTag) : from_u64 (as_u64 tag) = Some tag.
Proof. by destruct tag. Qed.

(** ** Theorems *)

(** on a component state that indexes, the early-exit search
    [value_contains_substate] agrees with the full index: it finds an address
    exactly when [referenced_substates] lists it. *)
Theorem value_contains_substate_correct (value : Value) (i : IndexedWellKnownTypes)
    (id : SubstateId) :
  from_value value = Ok i →
  value_contains_substate value id = Ok (bool_decide (id ∈ referenced_substates i)).
Proof.
  intros [Hd Hv]%walk_all_depth_from_value.
  destruct (visit_all_contains id _ _ _ _ Hv) as (flow & found & Hc & Hiff).
  unfold value_contains_substate, walk_all, bind.
  rewrite walk_all_depth_visits, Hc by lia. simpl. f_equal.
  destruct found; symmetry; [apply bool_decide_eq_true|apply bool_decide_eq_false];
    rewrite Hiff; unfold referenced_substates; simpl; set_solver.
Qed.

(** Collecting the indexes of several values keeps the buckets, proofs,
    components, resources, vaults and non-fungibles of all of them, but drops
    every template, fee pool, UTXO and address allocation. *)
Theorem from_iter_drops (iter : list IndexedWellKnownTypes) :
  let all := from_iter iter in
  bucket_ids all = concat (bucket_ids <$> iter) ∧
  proof_ids all = concat (proof_ids <$> iter) ∧
  component_addresses all = concat (component_addresses <$> iter) ∧
  resource_addresses all = concat (resource_addresses <$> iter) ∧
  non_fungible_addresses all = concat (non_fungible_addresses <$> iter) ∧
  vault_ids all = concat (vault_ids <$> iter) ∧
  published_template_addresses all = [] ∧ validator_node_fee_pools all = [] ∧
  utxos all = [] ∧ component_address_allocations all = [] ∧
  resource_address_allocations all = [].
Proof.
  unfold from_iter. induction iter as [|x iter IH] using rev_ind; [done|].
  rewrite foldl_app, !fmap_app, !concat_app. simpl. rewrite !app_nil_r.
  destruct IH as (-> & -> & -> & -> & -> & -> & -> & -> & -> & -> & ->). done.
Qed.
End indexed_lemmas.

(** A decoder for the witnesses: an integer is its number. *)
Definition int_cbor : Cbor :=
  let num v := match v with VInteger n => Some (Z.to_N n) | _ => None end in
  {| deserialized_object_key := num; deserialized_hash := num; deserialized_bytes32 := num;
     deserialized_u32 := num; deserialized_nf_address := λ _, None;
     deserialized_utxo_address := λ _, None; deserialized_metadata := λ _, None |}.

Definition example_state : Value :=
  VMap [(VText "vault", VTag 132 (VInteger 7));
        (VText "resources", VArray [VTag 131 (VInteger 1); VTag 131 (VInteger 2)])].

Lemma value_contains_substate_witness :
  @value_contains_substate int_cbor example_state (SidVault 7) = Ok true.
Proof.
  rewrite (@value_contains_substate_correct int_cbor example_state
    (MkIndexed [] [] [] [1; 2] [] [] [7] [] [] [] [] [] [] [])%N (SidVault 7));
    vm_compute; reflexivity.
Defined.
