(* ===== verification/IdProvider.v ===== *)
(** * Object ids

    [engine_types/src/id_provider.rs]: the counters a transaction draws the ids
    of its new substates, buckets and proofs from.  The counters are atomics of
    32 bits, so [fetch_add] wraps.  Buckets and proofs share a counter.  The
    domain-separated hashes that turn a counter into an object key or a random
    value are parameters of the class [IdHashes]. *)
From stdpp Require Import base list numbers.
From S2P Require Import Prelude Ids.
Open Scope Z_scope.

Record ObjectIds := MkObjectIds {
  max_ids : Z;
  current_id : Z;
  bucket_counter : Z;
  uuid : Z;
}.
Inductive IdProviderError := MaxIdsExceeded (max : Z).

Definition object_ids_new (max_ids : Z) : ObjectIds := MkObjectIds max_ids 0 0 0.

Definition u32_wrapping_succ (n : Z) : Z := (n + 1) mod 2 ^ 32.

Definition next_object_id : M ObjectIds IdProviderError Z := λ self,
  let id := current_id self in
  let self := MkObjectIds (max_ids self) (u32_wrapping_succ id) (bucket_counter self) (uuid self) in
  if max_ids self <=? id then (Err (MaxIdsExceeded (max_ids self)), self) else (Ok id, self).
Definition next_bucket_counter {E : Type} : M ObjectIds E Z := λ self,
  let id := bucket_counter self in
  (Ok id, MkObjectIds (max_ids self) (current_id self) (u32_wrapping_succ id) (uuid self)).
Definition next_bucket_id {E : Type} : M ObjectIds E BucketId :=
  let! id := next_bucket_counter in ret (Z.to_N id).
Definition next_proof_id {E : Type} : M ObjectIds E ProofId :=
  let! id := next_bucket_counter in ret (Z.to_N id).
Definition next_uuid_id {E : Type} : M ObjectIds E Z := λ self,
  let id := uuid self in
  (Ok id, MkObjectIds (max_ids self) (current_id self) (bucket_counter self) (u32_wrapping_succ id)).

(** The hashes of [hasher32] over their domain label, as 32-byte numbers. *)
Class IdHashes := {
  hash_output : N → Z → N;
  hash_component : N → Z → N;
}.

(** [Hash::trailing_bytes] of the length of a [ComponentKey], and [ObjectKey::new]:
    20 bytes of the entity and 12 of the key. *)
Definition trailing_bytes (h : N) : N := (h mod 256 ^ 12)%N.
Definition object_key_new (entity_id key : N) : N := (entity_id * 256 ^ 12 + key)%N.

Section id_provider.
Context `{Ih : !IdHashes}.

Definition next_object_key (entity_id tx_hash : N) : M ObjectIds IdProviderError N :=
  let! n := next_object_id in
  ret (object_key_new entity_id (trailing_bytes (hash_output tx_hash n))).
Definition new_resource_address (entity_id tx_hash : N) :
    M ObjectIds IdProviderError ResourceAddress := next_object_key entity_id tx_hash.
Definition new_vault_id (entity_id tx_hash : N) : M ObjectIds IdProviderError VaultId :=
  next_object_key entity_id tx_hash.
Definition new_component_address (entity_id tx_hash : N) :
    M ObjectIds IdProviderError ComponentAddress :=
  let! n := next_object_id in
  ret (object_key_new entity_id (trailing_bytes (hash_component tx_hash n))).
End id_provider.
