(* ===== verification/Workspace.v ===== *)
(** * The workspace of a transaction

    [engine/src/runtime/workspace.rs]: the named outputs of the instructions of
    a transaction, and the proofs among them.  The order in which a [HashSet] is
    iterated over is a parameter, the class [HashIter]. *)
From stdpp Require Import base gmap list numbers.
From S2P Require Import Prelude Bor Ids IndexedValue.

Notation WorkspaceId := N (only parsing).
Record WorkspaceOffsetId := MkWorkspaceOffsetId {
  offset_id : WorkspaceId;
  offset : option nat;
}.
Definition workspace_offset_new (id : WorkspaceId) : WorkspaceOffsetId :=
  MkWorkspaceOffsetId id None.

Class HashIter := {
  hash_iter : gset ProofId → list ProofId;
  hash_iter_perm : ∀ x, hash_iter x ≡ₚ elements x;
}.
#[export] Instance hash_iter_elements : HashIter := {|
  hash_iter := elements;
  hash_iter_perm x := Permutation_refl _;
|}.

Record Workspace := MkWorkspace {
  ws_items : gmap WorkspaceId IndexedValue;
  ws_proofs : gset ProofId;
}.
Definition workspace_new : Workspace := MkWorkspace ∅ ∅.

Definition workspace_get (self : Workspace) (id : WorkspaceOffsetId) : option Value :=
  match ws_items self !! offset_id id with
  | None => None
  | Some value =>
      match offset id with
      | None => Some (iv_value value)
      | Some offset =>
          match iv_value value with
          | VArray items => items !! offset
          | VMap items => snd <$> items !! offset
          | _ => None
          end
      end
  end.

Definition workspace_insert (id : WorkspaceId) (value : IndexedValue) (self : Workspace) :
    Workspace :=
  MkWorkspace (<[id := value]> (ws_items self))
    (ws_proofs self ∪ list_to_set (proof_ids (iv_indexed value))).

Definition drain_all_proofs (self : Workspace) : gset ProofId * Workspace :=
  (ws_proofs self, MkWorkspace (ws_items self) ∅).

(** ** Lemmas *)

(** What was put on the workspace under an id is found there, whole and by
    element, until the id is used again. *)
Lemma workspace_get_insert (self : Workspace) (id id' : WorkspaceId) (value : IndexedValue) :
  workspace_get (workspace_insert id value self) (MkWorkspaceOffsetId id' None) =
  if decide (id' = id) then Some (iv_value value)
  else workspace_get self (MkWorkspaceOffsetId id' None).
Proof.
  unfold workspace_get. simpl. destruct (decide (id' = id)) as [->|].
  - by rewrite lookup_insert_eq.
  - by rewrite lookup_insert_ne.
Qed.
