(* ===== verification/Amount.v ===== *)
(** * Amounts

    The 192-bit signed [Amount] of [template_lib_types/src/amount/amount.rs].
    The integer type underneath, [bnum::BInt<3>], is third-party code: the class
    [I192] lists the operations the source calls with their documented
    behaviour, and two instances show that the class is inhabited, one for a
    profile in which the plain operators panic on overflow and one in which they
    wrap. *)
From stdpp Require Import base list numbers.
From S2P Require Import Prelude.
Open Scope Z_scope.

Definition i192_MAX : Z := 2 ^ 191 - 1.
Definition i192_MIN : Z := - 2 ^ 191.
Definition i192_in (z : Z) : Prop := i192_MIN ≤ z ≤ i192_MAX.
Definition i192_inb (z : Z) : bool := (i192_MIN <=? z) && (z <=? i192_MAX).

#[export] Instance i192_in_dec (z : Z) : Decision (i192_in z).
Proof. unfold i192_in. apply _. Defined.

(** The value itself when it fits the width. *)
Definition i192_fit (z : Z) : option Z := if i192_inb z then Some z else None.
Definition i192_clamp (z : Z) : Z := Z.max i192_MIN (Z.min i192_MAX z).
Definition i192_wrap (z : Z) : Z := (z + 2 ^ 191) mod 2 ^ 192 - 2 ^ 191.

(** The operations of [bnum::BInt<3>] the engine uses.  A value is the integer
    it stands for.  The plain operators give [None] when they panic; nothing is
    said about them outside the range, where the outcome depends on the build
    profile.  [to_bits] and [from_bits] convert to and from the unsigned integer
    with the same bits, whose three 64-bit digits are stored little end first. *)
Class I192 := {
  i192_checked_add : Z → Z → option Z;
  i192_checked_sub : Z → Z → option Z;
  i192_checked_mul : Z → Z → option Z;
  i192_checked_div : Z → Z → option Z;
  i192_checked_rem : Z → Z → option Z;
  i192_saturating_add : Z → Z → Z;
  i192_saturating_sub : Z → Z → Z;
  i192_saturating_mul : Z → Z → Z;
  i192_add : Z → Z → option Z;
  i192_sub : Z → Z → option Z;
  i192_mul : Z → Z → option Z;
  i192_to_bits : Z → Z;
  i192_from_bits : Z → Z;
  u192_digits : Z → list Z;
  u192_from_digits : list Z → Z;
  i192_checked_add_spec a b :
    i192_in a → i192_in b → i192_checked_add a b = i192_fit (a + b);
  i192_checked_sub_spec a b :
    i192_in a → i192_in b → i192_checked_sub a b = i192_fit (a - b);
  i192_checked_mul_spec a b :
    i192_in a → i192_in b → i192_checked_mul a b = i192_fit (a * b);
  i192_checked_div_spec a b :
    i192_in a → i192_in b →
    i192_checked_div a b = if decide (b = 0) then None else i192_fit (Z.quot a b);
  i192_checked_rem_spec a b :
    i192_in a → i192_in b →
    i192_checked_rem a b =
      if decide (b = 0) then None
      else if decide (i192_in (Z.quot a b)) then Some (Z.rem a b) else None;
  i192_saturating_add_spec a b :
    i192_in a → i192_in b → i192_saturating_add a b = i192_clamp (a + b);
  i192_saturating_sub_spec a b :
    i192_in a → i192_in b → i192_saturating_sub a b = i192_clamp (a - b);
  i192_saturating_mul_spec a b :
    i192_in a → i192_in b → i192_saturating_mul a b = i192_clamp (a * b);
  i192_add_spec a b : i192_in (a + b) → i192_add a b = Some (a + b);
  i192_sub_spec a b : i192_in (a - b) → i192_sub a b = Some (a - b);
  i192_mul_spec a b : i192_in (a * b) → i192_mul a b = Some (a * b);
  i192_to_bits_spec a : i192_in a → i192_to_bits a = a mod 2 ^ 192;
  i192_from_bits_spec u : 0 ≤ u < 2 ^ 192 → i192_from_bits u = i192_wrap u;
  u192_digits_spec u :
    0 ≤ u < 2 ^ 192 →
    u192_digits u = [u mod 2 ^ 64; u / 2 ^ 64 mod 2 ^ 64; u / 2 ^ 128 mod 2 ^ 64];
  u192_from_digits_spec d0 d1 d2 :
    u192_from_digits [d0; d1; d2] = d0 + 2 ^ 64 * d1 + 2 ^ 128 * d2;
}.

Definition i192_div_checked (a b : Z) : option Z :=
  if decide (b = 0) then None else i192_fit (Z.quot a b).
Definition i192_rem_checked (a b : Z) : option Z :=
  if decide (b = 0) then None
  else if decide (i192_in (Z.quot a b)) then Some (Z.rem a b) else None.

Lemma i192_fit_in (z : Z) : i192_in z → i192_fit z = Some z.
Proof.
  intros [??]. unfold i192_fit, i192_inb.
  by rewrite (proj2 (Z.leb_le _ _)), (proj2 (Z.leb_le _ _)).
Qed.

Lemma i192_fit_out (z : Z) : ¬ i192_in z → i192_fit z = None.
Proof.
  unfold i192_fit, i192_inb, i192_in. intros Hz.
  destruct (Z.leb_spec i192_MIN z), (Z.leb_spec z i192_MAX); simpl; naive_solver lia.
Qed.

Lemma i192_fit_Some (z y : Z) : i192_fit z = Some y ↔ y = z ∧ i192_in z.
Proof.
  destruct (decide (i192_in z)).
  - rewrite i192_fit_in by done. naive_solver.
  - rewrite i192_fit_out by done. naive_solver.
Qed.

Lemma i192_fit_None (z : Z) : i192_fit z = None ↔ ¬ i192_in z.
Proof.
  destruct (decide (i192_in z)).
  - rewrite i192_fit_in by done. naive_solver.
  - rewrite i192_fit_out by done. naive_solver.
Qed.

Lemma i192_wrap_in (z : Z) : i192_in z → i192_wrap z = z.
Proof.
  unfold i192_in, i192_wrap, i192_MIN, i192_MAX. intros ?.
  rewrite Z.mod_small; lia.
Qed.

Lemma i192_wrap_range (z : Z) : i192_in (i192_wrap z).
Proof.
  unfold i192_in, i192_wrap, i192_MIN, i192_MAX.
  pose proof (Z.mod_pos_bound (z + 2 ^ 191) (2 ^ 192)). lia.
Qed.

Lemma i192_wrap_Some (z : Z) : i192_in z → Some (i192_wrap z) = Some z.
Proof. intros. by rewrite i192_wrap_in. Qed.

Definition u192_split (u : Z) : list Z :=
  [u mod 2 ^ 64; u / 2 ^ 64 mod 2 ^ 64; u / 2 ^ 128 mod 2 ^ 64].
Definition u192_join (ds : list Z) : Z :=
  foldr (λ d acc, d + 2 ^ 64 * acc) 0 ds.

Lemma u192_join_3 (d0 d1 d2 : Z) :
  u192_join [d0; d1; d2] = d0 + 2 ^ 64 * d1 + 2 ^ 128 * d2.
Proof. unfold u192_join. simpl foldr. lia. Qed.

(** Overflow checks on: the operators panic. *)
Program Definition i192_panicking : I192 := {|
  i192_checked_add a b := i192_fit (a + b);
  i192_checked_sub a b := i192_fit (a - b);
  i192_checked_mul a b := i192_fit (a * b);
  i192_checked_div := i192_div_checked;
  i192_checked_rem := i192_rem_checked;
  i192_saturating_add a b := i192_clamp (a + b);
  i192_saturating_sub a b := i192_clamp (a - b);
  i192_saturating_mul a b := i192_clamp (a * b);
  i192_add a b := i192_fit (a + b);
  i192_sub a b := i192_fit (a - b);
  i192_mul a b := i192_fit (a * b);
  i192_to_bits a := a mod 2 ^ 192;
  i192_from_bits := i192_wrap;
  u192_digits := u192_split;
  u192_from_digits := u192_join;
  u192_from_digits_spec := u192_join_3;
  i192_add_spec a b := i192_fit_in (a + b);
  i192_sub_spec a b := i192_fit_in (a - b);
  i192_mul_spec a b := i192_fit_in (a * b)
|}.
Solve All Obligations with (intros; reflexivity).

(** Overflow checks off: the operators wrap around. *)
Program Definition i192_wrapping : I192 := {|
  i192_checked_add a b := i192_fit (a + b);
  i192_checked_sub a b := i192_fit (a - b);
  i192_checked_mul a b := i192_fit (a * b);
  i192_checked_div := i192_div_checked;
  i192_checked_rem := i192_rem_checked;
  i192_saturating_add a b := i192_clamp (a + b);
  i192_saturating_sub a b := i192_clamp (a - b);
  i192_saturating_mul a b := i192_clamp (a * b);
  i192_add a b := Some (i192_wrap (a + b));
  i192_sub a b := Some (i192_wrap (a - b));
  i192_mul a b := Some (i192_wrap (a * b));
  i192_to_bits a := a mod 2 ^ 192;
  i192_from_bits := i192_wrap;
  u192_digits := u192_split;
  u192_from_digits := u192_join;
  u192_from_digits_spec := u192_join_3;
  i192_add_spec a b := i192_wrap_Some (a + b);
  i192_sub_spec a b := i192_wrap_Some (a - b);
  i192_mul_spec a b := i192_wrap_Some (a * b)
|}.
Solve All Obligations with (intros; reflexivity).

(** ** [u64] byte strings, as the standard library defines them *)
Definition u64_to_le_bytes (d : Z) : list Z :=
  map (λ j : nat, d / 256 ^ Z.of_nat j mod 256) (seq 0 8).
Definition u64_from_le_bytes (bs : list Z) : Z :=
  foldr (λ b acc, b + 256 * acc) 0 bs.

Module Amount.
Section amount.
Context `{Ii : !I192}.

Definition BYTE_SIZE : nat := 24.
Definition NUM_DIGITS : nat := 3.
Definition U64_BYTES : nat := 8.
Definition U64_BYTE_SHIFT : nat := 3.
Definition MAX : Z := i192_MAX.
Definition MIN : Z := i192_MIN.
Definition zero : Z := 0.

Definition is_zero (self : Z) : bool := self =? 0.
Definition is_positive (self : Z) : bool := 0 <? self.
Definition is_negative (self : Z) : bool := self <? 0.
Definition is_non_negative (self : Z) : bool := is_positive self || is_zero self.

Definition checked_add (self other : Z) : option Z := i192_checked_add self other.
Definition checked_add_positive (self other : Z) : option Z :=
  if is_negative self || is_negative other then None else checked_add self other.
Definition saturating_add (self other : Z) : Z := i192_saturating_add self other.
Definition checked_sub (self other : Z) : option Z := i192_checked_sub self other.

Definition sum_from_positive (iter : list Z) : option Z :=
  (fix go (sum : Z) (l : list Z) : option Z :=
     match l with
     | [] => Some sum
     | amount :: l' =>
         match checked_add_positive sum amount with
         | Some sum' => go sum' l'
         | None => None
         end
     end) zero iter.

Definition saturating_sub (self other : Z) : Z := i192_saturating_sub self other.
Definition saturating_sub_positive {E : Type} (self other : Z) : res E (option Z) :=
  if self <? other then Ok None
  else let? d := expect (i192_sub self other) in Ok (Some d).
Definition checked_sub_positive {E : Type} (self other : Z) : res E (option Z) :=
  if is_negative self || is_negative other then Ok None
  else saturating_sub_positive self other.

Definition checked_mul (self other : Z) : option Z := i192_checked_mul self other.
Definition saturating_mul (self other : Z) : Z := i192_saturating_mul self other.
Definition checked_div (self other : Z) : option Z := i192_checked_div self other.

Definition checked_div_ceil {E : Type} (self other : Z) : res E (option Z) :=
  if is_zero other then Ok None
  else
    match i192_checked_div self other with
    | None => Ok None
    | Some div =>
        match i192_checked_rem self other with
        | None => Ok None
        | Some rem =>
            if (rem =? 0) || (div <? 0) then Ok (Some div)
            else let? up := expect (i192_add div 1) in Ok (Some up)
        end
    end.

Definition div_ceil {E : Type} (self other : Z) : res E Z :=
  let? q := checked_div_ceil self other in expect q.

Definition to_u64_checked (self : Z) : option Z :=
  if (0 <=? self) && (self <? 2 ^ 64) then Some self else None.

Definition to_le_digits (self : Z) : list Z := u192_digits (i192_to_bits self).
Definition from_le_digits (digits : list Z) : Z := i192_from_bits (u192_from_digits digits).

(** The two nested loops that copy the bytes of each digit into place. *)
Definition to_le_bytes (self : Z) : list Z :=
  let digits := u192_digits (i192_to_bits self) in
  foldl (λ bytes i,
      let digit_bytes := u64_to_le_bytes (digits !!! i) in
      foldl (λ bytes j,
          <[ (Nat.shiftl i U64_BYTE_SHIFT + j)%nat := digit_bytes !!! j ]> bytes)
        bytes (seq 0 U64_BYTES))
    (replicate BYTE_SIZE 0) (seq 0 NUM_DIGITS).

Definition from_le_bytes (bytes : list Z) : Z :=
  let out :=
    foldl (λ out i,
        let init_index := Nat.shiftl i U64_BYTE_SHIFT in
        let digit_bytes :=
          foldl (λ digit_bytes j,
              <[ (j - init_index)%nat := bytes !!! j ]> digit_bytes)
            (replicate U64_BYTES 0) (seq init_index U64_BYTES) in
        <[ i := u64_from_le_bytes digit_bytes ]> out)
      (replicate NUM_DIGITS 0) (seq 0 NUM_DIGITS) in
  from_le_digits out.

Definition non_negative_checked (self : Z) : option Z :=
  if is_negative self then None else Some self.
Definition negative_checked (self : Z) : option Z :=
  if is_positive self then None else Some self.

(** [PartialOrd<usize>] on a 64-bit target. *)
Definition partial_cmp_usize (self : Z) (other : Z) : comparison :=
  if is_negative self then Lt
  else match to_u64_checked self with
       | Some value => (value ?= other)
       | None => Gt
       end.

(** The operators [+] and [-] of [newtype_ops!]. *)
Definition add {E : Type} (self other : Z) : res E Z := expect (i192_add self other).
Definition sub {E : Type} (self other : Z) : res E Z := expect (i192_sub self other).
End amount.
End Amount.

(** ** Lemmas *)
Section amount_lemmas.
Context `{Ii : !I192}.

Lemma i192_in_0 : i192_in 0.
Proof. unfold i192_in, i192_MIN, i192_MAX. lia. Qed.

Lemma checked_add_Some (a b c : Z) :
  i192_in a → i192_in b → Amount.checked_add a b = Some c ↔ c = a + b ∧ i192_in (a + b).
Proof. intros. unfold Amount.checked_add. by rewrite i192_checked_add_spec, i192_fit_Some. Qed.

Lemma checked_sub_Some (a b c : Z) :
  i192_in a → i192_in b → Amount.checked_sub a b = Some c ↔ c = a - b ∧ i192_in (a - b).
Proof. intros. unfold Amount.checked_sub. by rewrite i192_checked_sub_spec, i192_fit_Some. Qed.

Lemma checked_add_positive_Some (a b c : Z) :
  i192_in a → i192_in b →
  Amount.checked_add_positive a b = Some c ↔ c = a + b ∧ 0 ≤ a ∧ 0 ≤ b ∧ a + b ≤ i192_MAX.
Proof.
  intros Ha Hb. unfold Amount.checked_add_positive, Amount.is_negative.
  destruct (Z.ltb_spec a 0), (Z.ltb_spec b 0); simpl; try naive_solver lia.
  rewrite checked_add_Some by done. unfold i192_in, i192_MIN in *. naive_solver lia.
Qed.

Lemma add_in_range {E : Type} (a b : Z) :
  i192_in (a + b) → @Amount.add _ E a b = Ok (a + b).
Proof. intros. unfold Amount.add. by rewrite i192_add_spec. Qed.

Lemma sub_in_range {E : Type} (a b : Z) :
  i192_in (a - b) → @Amount.sub _ E a b = Ok (a - b).
Proof. intros. unfold Amount.sub. by rewrite i192_sub_spec. Qed.

Lemma checked_sub_positive_eq {E : Type} (a b : Z) :
  i192_in a → i192_in b →
  @Amount.checked_sub_positive _ E a b =
    Ok (if decide (0 ≤ b ≤ a) then Some (a - b) else None).
Proof.
  intros Ha Hb. unfold Amount.checked_sub_positive, Amount.saturating_sub_positive,
    Amount.is_negative.
  destruct (Z.ltb_spec a 0), (Z.ltb_spec b 0); simpl; try (case_decide; [lia|done]).
  destruct (Z.ltb_spec a b); [case_decide; [lia|done]|].
  rewrite i192_sub_spec by (unfold i192_in, i192_MIN in *; lia). simpl.
  case_decide; [done|lia].
Qed.

Definition zsum (l : list Z) : Z := foldr Z.add 0 l.

Lemma zsum_nonneg (l : list Z) : Forall (λ a, 0 ≤ a) l → 0 ≤ zsum l.
Proof. induction 1; simpl; lia. Qed.
End amount_lemmas.

(** ** The 64-bit byte codec *)
Definition is_byte (b : Z) : Prop := 0 ≤ b < 256.

Lemma div_pow_succ (d : Z) (k : nat) :
  d / 256 ^ Z.of_nat (S k) = d / 256 / 256 ^ Z.of_nat k.
Proof. rewrite Nat2Z.inj_succ, Z.pow_succ_r, Z.div_div by lia. done. Qed.

Lemma le_bytes_join_split (n : nat) (d : Z) :
  0 ≤ d < 256 ^ Z.of_nat n →
  foldr (λ b acc, b + 256 * acc) 0 (map (λ j : nat, d / 256 ^ Z.of_nat j mod 256) (seq 0 n)) = d.
Proof.
  revert d. induction n as [|n IH]; intros d Hd; [simpl in *; lia|].
  rewrite <- cons_seq, <- fmap_S_seq. simpl map. rewrite map_map. simpl foldr.
  rewrite (map_ext _ (λ j : nat, d / 256 / 256 ^ Z.of_nat j mod 256))
    by (intros; by rewrite div_pow_succ).
  rewrite Nat2Z.inj_succ, Z.pow_succ_r in Hd by lia.
  rewrite IH by (split; [apply Z.div_pos; lia|apply Z.div_lt_upper_bound; lia]).
  rewrite Z.pow_0_r, Z.div_1_r. pose proof (Z.div_mod d 256). lia.
Qed.

Lemma le_bytes_split_join (bs : list Z) :
  Forall is_byte bs →
  map (λ j : nat, foldr (λ b acc, b + 256 * acc) 0 bs / 256 ^ Z.of_nat j mod 256)
    (seq 0 (length bs)) = bs.
Proof.
  induction 1 as [|b bs Hb Hbs IH]; [done|]. unfold is_byte in Hb.
  simpl length. rewrite <- cons_seq, <- fmap_S_seq. simpl map. rewrite map_map.
  f_equal.
  - rewrite Z.pow_0_r, Z.div_1_r. simpl foldr.
    rewrite (Z.mul_comm 256), Z.mod_add, Z.mod_small by lia. done.
  - rewrite <- IH at 2. apply map_ext. intros j. rewrite div_pow_succ. simpl foldr.
    rewrite (Z.mul_comm 256), Z.div_add, (Z.div_small b 256) by lia. done.
Qed.

Lemma le_bytes_join_range (bs : list Z) :
  Forall is_byte bs →
  0 ≤ foldr (λ b acc, b + 256 * acc) 0 bs < 256 ^ Z.of_nat (length bs).
Proof.
  induction 1 as [|b bs Hb Hbs IH]; [done|]. unfold is_byte in Hb.
  simpl length. rewrite Nat2Z.inj_succ, Z.pow_succ_r by lia. simpl foldr. lia.
Qed.

Lemma u64_from_to_le_bytes (d : Z) :
  0 ≤ d < 2 ^ 64 → u64_from_le_bytes (u64_to_le_bytes d) = d.
Proof. intros. by apply le_bytes_join_split. Qed.

Lemma u64_to_from_le_bytes (bs : list Z) :
  length bs = 8%nat → Forall is_byte bs → u64_to_le_bytes (u64_from_le_bytes bs) = bs.
Proof.
  intros Hl Hb. unfold u64_to_le_bytes. rewrite <- Hl. by apply le_bytes_split_join.
Qed.

Lemma u64_to_le_bytes_length (d : Z) : length (u64_to_le_bytes d) = 8%nat.
Proof. done. Qed.

Section amount_bytes.
Context `{Ii : !I192}.

Lemma i192_to_bits_range (a : Z) : i192_in a → 0 ≤ i192_to_bits a < 2 ^ 192.
Proof. intros. rewrite i192_to_bits_spec by done. apply Z.mod_pos_bound. lia. Qed.

Lemma i192_from_to_bits (a : Z) : i192_in a → i192_from_bits (i192_to_bits a) = a.
Proof.
  intros Ha. rewrite i192_from_bits_spec by by apply i192_to_bits_range.
  rewrite i192_to_bits_spec by done. unfold i192_wrap.
  rewrite Zplus_mod_idemp_l. by apply i192_wrap_in.
Qed.

Lemma i192_to_from_bits (u : Z) : 0 ≤ u < 2 ^ 192 → i192_to_bits (i192_from_bits u) = u.
Proof.
  intros Hu. rewrite i192_from_bits_spec by done.
  rewrite i192_to_bits_spec by apply i192_wrap_range. unfold i192_wrap.
  rewrite Zminus_mod_idemp_l, Z.add_simpl_r. by apply Z.mod_small.
Qed.

Lemma u192_from_digits_digits (u : Z) :
  0 ≤ u < 2 ^ 192 → u192_from_digits (u192_digits u) = u.
Proof.
  intros Hu. rewrite u192_digits_spec, u192_from_digits_spec by done.
  rewrite (Z.mod_small (u / 2 ^ 128))
    by (split; [apply Z.div_pos; lia|apply Z.div_lt_upper_bound; lia]).
  change (2 ^ 128) with (2 ^ 64 * 2 ^ 64). rewrite <- Z.div_div by lia.
  pose proof (Z.div_mod u (2 ^ 64)). pose proof (Z.div_mod (u / 2 ^ 64) (2 ^ 64)). lia.
Qed.

Lemma u192_digits_from_digits (d0 d1 d2 : Z) :
  0 ≤ d0 < 2 ^ 64 → 0 ≤ d1 < 2 ^ 64 → 0 ≤ d2 < 2 ^ 64 →
  u192_digits (u192_from_digits [d0; d1; d2]) = [d0; d1; d2].
Proof.
  intros H0 H1 H2. rewrite u192_from_digits_spec, u192_digits_spec by lia.
  assert (d0 + 2 ^ 64 * d1 + 2 ^ 128 * d2 = (d1 + d2 * 2 ^ 64) * 2 ^ 64 + d0) as -> by lia.
  change (2 ^ 128) with (2 ^ 64 * 2 ^ 64). rewrite <- Z.div_div by lia.
  rewrite Z.div_add_l, (Z.div_small d0), Z.add_0_r by lia.
  rewrite Z.div_add, (Z.div_small d1), Z.add_0_l by lia.
  rewrite (Z.add_comm _ d0), !Z.mod_add, !Z.mod_small by lia. done.
Qed.

(** The loops lay the bytes of the three digits end to end. *)
Lemma to_le_bytes_app (a d0 d1 d2 : Z) :
  Amount.to_le_digits a = [d0; d1; d2] →
  Amount.to_le_bytes a = u64_to_le_bytes d0 ++ u64_to_le_bytes d1 ++ u64_to_le_bytes d2.
Proof. unfold Amount.to_le_digits, Amount.to_le_bytes. by intros ->. Qed.

Lemma from_le_bytes_app (b0 b1 b2 : list Z) :
  length b0 = 8%nat → length b1 = 8%nat → length b2 = 8%nat →
  Amount.from_le_bytes (b0 ++ b1 ++ b2) =
    Amount.from_le_digits [u64_from_le_bytes b0; u64_from_le_bytes b1; u64_from_le_bytes b2].
Proof.
  intros H0 H1 H2.
  do 9 (destruct b0 as [|? b0]; try discriminate H0).
  do 9 (destruct b1 as [|? b1]; try discriminate H1).
  do 9 (destruct b2 as [|? b2]; try discriminate H2).
  reflexivity.
Qed.
End amount_bytes.

(** ** Division rounding up *)

(** The smallest integer that is not below the quotient. *)
Definition ceil_div (n d : Z) : Z := - ((- n) / d).

(** The operands have opposite signs and the quotient lies strictly between -1
    and 0. *)
Definition small_negative (n d : Z) : Prop := Z.abs n < Z.abs d ∧ n * d < 0.
#[export] Instance small_negative_dec (n d : Z) : Decision (small_negative n d).
Proof. unfold small_negative. apply _. Defined.

Lemma ceil_div_unique (n d c : Z) :
  d ≠ 0 → (0 < d ∧ d * (c - 1) < n ≤ d * c ∨ d < 0 ∧ d * c ≤ n < d * (c - 1)) →
  ceil_div n d = c.
Proof.
  intros Hd Hc. unfold ceil_div.
  rewrite <- (Z.div_unique (- n) d (- c) (d * c - n)); [lia| |ring].
  destruct Hc; [left|right]; lia.
Qed.

Lemma quot_rem_ceil (n d : Z) :
  d ≠ 0 →
  ceil_div n d =
    if decide (Z.rem n d = 0 ∨ n * d < 0) then Z.quot n d else Z.quot n d + 1.
Proof.
  intros Hd. pose proof (Z.quot_rem' n d) as Hqr.
  pose proof (Z.rem_bound_abs n d Hd) as Habs. pose proof (Z.rem_sign_nz n d Hd) as Hsign.
  apply ceil_div_unique; [done|].
  case_decide as Hc; nia.
Qed.

Lemma quot_negative (n d : Z) :
  d ≠ 0 → Z.rem n d ≠ 0 → Z.quot n d < 0 ↔ n * d < 0 ∧ ¬ small_negative n d.
Proof.
  intros Hd Hr. unfold small_negative. pose proof (Z.quot_rem' n d) as Hqr.
  pose proof (Z.rem_bound_abs n d Hd) as Habs. pose proof (Z.rem_sign_nz n d Hd Hr) as Hsign.
  split; [intros; split; nia|]. intros [? ?]. nia.
Qed.

Lemma small_negative_quot (n d : Z) : small_negative n d → Z.quot n d = 0 ∧ Z.rem n d = n ∧ n ≠ 0.
Proof.
  intros [Hlt Hs]. assert (Z.quot n d = 0) as Hq by (apply Z.quot_small_iff; lia).
  pose proof (Z.quot_rem' n d). rewrite Hq in *. nia.
Qed.

Lemma quot_succ_in (n d : Z) :
  i192_in n → d ≠ 0 → Z.rem n d ≠ 0 → i192_in (Z.quot n d + 1).
Proof.
  unfold i192_in, i192_MIN, i192_MAX. intros Hn Hd Hr.
  pose proof (Z.quot_rem' n d). pose proof (Z.rem_bound_abs n d Hd).
  pose proof (Z.rem_sign_nz n d Hd Hr).
  assert (2 ≤ Z.abs d) by (destruct (decide (Z.abs d = 1)) as [E|]; [|lia]; lia).
  assert (2 * Z.abs (Z.quot n d) ≤ Z.abs n) by nia. lia.
Qed.

Section amount_theorems.
Context `{Ii : !I192}.

(** [Amount::checked_div_ceil] never panics.  It gives [None] when the
    divisor is zero or the quotient does not fit 192 bits, and the quotient
    rounded up otherwise, except when the exact quotient lies strictly between
    -1 and 0: there it gives 1 although the rounded-up quotient is 0. *)
Theorem checked_div_ceil_spec (n d : Z) :
  i192_in n → i192_in d →
  @Amount.checked_div_ceil _ Empty_set n d =
    Ok (if decide (d = 0 ∨ ¬ i192_in (Z.quot n d)) then None
        else Some (if decide (small_negative n d) then 1 else ceil_div n d)).
Proof.
  intros Hn Hd. unfold Amount.checked_div_ceil, Amount.is_zero.
  rewrite i192_checked_div_spec, i192_checked_rem_spec by done.
  destruct (Z.eqb_spec d 0) as [->|Hnz]; [by rewrite decide_True by auto|].
  rewrite !(decide_False (P := d = 0)) by done.
  destruct (decide (i192_in (Z.quot n d))) as [Hin|Hout];
    [|by rewrite i192_fit_out, decide_True by auto].
  rewrite i192_fit_in, (decide_False (P := d = 0 ∨ _)) by naive_solver.
  rewrite quot_rem_ceil by done.
  destruct (Z.eqb_spec (Z.rem n d) 0) as [Hr|Hr]; simpl.
  { rewrite (decide_False (P := small_negative n d)) by (intros ?%small_negative_quot; lia).
    by rewrite (decide_True (P := _ ∨ n * d < 0)) by auto. }
  pose proof (quot_negative n d Hnz Hr) as Hneg.
  destruct (Z.ltb_spec (Z.quot n d) 0) as [Hq|Hq].
  { rewrite (decide_False (P := small_negative n d)), (decide_True (P := _ ∨ n * d < 0))
      by naive_solver. done. }
  rewrite i192_add_spec by by apply quot_succ_in. simpl. do 2 f_equal.
  destruct (decide (small_negative n d)) as [Hs|Hs].
  - apply small_negative_quot in Hs as (-> & _). done.
  - rewrite decide_False; [done|]. intros [?|Hnd]; [done|].
    pose proof (proj2 Hneg (conj Hnd Hs)). lia.
Qed.

(** the little-endian byte codec of [Amount] is a bijection between the
    192-bit signed integers and the 24-byte arrays: [from_le_bytes] undoes
    [to_le_bytes], and [to_le_bytes] undoes [from_le_bytes]. *)
Theorem amount_le_bytes_roundtrip :
  (∀ a, i192_in a →
     length (Amount.to_le_bytes a) = Amount.BYTE_SIZE ∧
     Amount.from_le_bytes (Amount.to_le_bytes a) = a) ∧
  (∀ bytes, length bytes = Amount.BYTE_SIZE → Forall is_byte bytes →
     i192_in (Amount.from_le_bytes bytes) ∧
     Amount.to_le_bytes (Amount.from_le_bytes bytes) = bytes).
Proof.
  split.
  - intros a Ha. pose proof (i192_to_bits_range a Ha) as Hr.
    pose proof (u192_digits_spec _ Hr) as Hd.
    rewrite (to_le_bytes_app _ _ _ _ Hd). split; [done|].
    rewrite from_le_bytes_app by done.
    rewrite !u64_from_to_le_bytes by (apply Z.mod_pos_bound; lia).
    unfold Amount.from_le_digits. rewrite <- Hd.
    by rewrite u192_from_digits_digits, i192_from_to_bits.
  - intros bytes Hl Hb. unfold Amount.BYTE_SIZE in Hl.
    rewrite <- (take_drop 8 bytes), <- (take_drop 8 (drop 8 bytes)) in Hb |- *.
    apply Forall_app in Hb as [H0 [H1 H2]%Forall_app].
    assert (length (take 8 bytes) = 8%nat) as L0 by (rewrite length_take; lia).
    assert (length (take 8 (drop 8 bytes)) = 8%nat) as L1
      by (rewrite length_take, length_drop; lia).
    assert (length (drop 8 (drop 8 bytes)) = 8%nat) as L2
      by (rewrite !length_drop; lia).
    rewrite from_le_bytes_app by done.
    pose proof (le_bytes_join_range _ H0) as R0. pose proof (le_bytes_join_range _ H1) as R1.
    pose proof (le_bytes_join_range _ H2) as R2.
    rewrite L0 in R0. rewrite L1 in R1. rewrite L2 in R2.
    set (ds := [_; _; _]). assert (0 ≤ u192_from_digits ds < 2 ^ 192) as Hu.
    { unfold ds. rewrite u192_from_digits_spec. unfold u64_from_le_bytes. lia. }
    split.
    { unfold Amount.from_le_digits. rewrite i192_from_bits_spec by done.
      apply i192_wrap_range. }
    erewrite to_le_bytes_app.
    2:{ unfold Amount.to_le_digits, Amount.from_le_digits.
        rewrite i192_to_from_bits by done. unfold ds. by apply u192_digits_from_digits. }
    by rewrite !u64_to_from_le_bytes by done.
Qed.

(** [Amount::sum_from_positive] gives the sum of the amounts exactly when
    none is negative and the total fits 192 bits, and [None] otherwise; no
    intermediate overflow is missed. *)
Theorem sum_from_positive_spec (l : list Z) :
  Forall i192_in l →
  Amount.sum_from_positive l =
    if decide (Forall (λ a, 0 ≤ a) l ∧ zsum l ≤ i192_MAX) then Some (zsum l) else None.
Proof.
  intros Hl. unfold Amount.sum_from_positive, Amount.zero.
  assert (∀ s, i192_in s → 0 ≤ s →
    (fix go (sum : Z) (l : list Z) : option Z :=
       match l with
       | [] => Some sum
       | amount :: l' =>
           match Amount.checked_add_positive sum amount with
           | Some sum' => go sum' l'
           | None => None
           end
       end) s l =
    if decide (Forall (λ a, 0 ≤ a) l ∧ s + zsum l ≤ i192_MAX) then Some (s + zsum l) else None)
    as Hgo; [|by rewrite (Hgo 0 i192_in_0) by lia].
  induction Hl as [|a l Ha Hl IH]; intros s Hs Hs0.
  - unfold zsum; simpl. rewrite Z.add_0_r, decide_True; [done|]. split; [done|apply Hs].
  - change (zsum (a :: l)) with (a + zsum l).
    destruct (Amount.checked_add_positive s a) as [c|] eqn:E.
    + apply checked_add_positive_Some in E as (-> & _ & ? & ?); [|done..].
      rewrite IH by (unfold i192_in, i192_MIN in *; lia).
      rewrite Z.add_assoc. clear IH.
      repeat case_decide; try done; exfalso; rewrite Forall_cons_iff in *; naive_solver.
    + rewrite decide_False; [done|]. rewrite Forall_cons_iff. intros [[Ha0 Hl0] Hsum].
      apply zsum_nonneg in Hl0.
      rewrite (proj2 (checked_add_positive_Some s a (s + a) Hs Ha)) in E by lia. done.
Qed.
End amount_theorems.

(** -1 divided by 2 rounds up to 0, the code gives 1; 7 by 2 gives 4. *)
Lemma checked_div_ceil_witness :
  @Amount.checked_div_ceil i192_panicking Empty_set (-1) 2 = Ok (Some 1) ∧
  ceil_div (-1) 2 = 0 ∧
  @Amount.checked_div_ceil i192_panicking Empty_set 7 2 = Ok (Some 4).
Proof.
  split; [|split; [reflexivity|]].
  - rewrite (@checked_div_ceil_spec i192_panicking (-1) 2)
      by (unfold i192_in, i192_MIN, i192_MAX; lia). vm_compute. reflexivity.
  - rewrite (@checked_div_ceil_spec i192_panicking 7 2)
      by (unfold i192_in, i192_MIN, i192_MAX; lia). vm_compute. reflexivity.
Defined.

Lemma sum_from_positive_witness :
  @Amount.sum_from_positive i192_panicking [1; 2; 3] = Some 6 ∧
  @Amount.sum_from_positive i192_panicking [i192_MAX; 1] = None.
Proof.
  split.
  - rewrite (@sum_from_positive_spec i192_panicking [1; 2; 3]);
      [vm_compute; reflexivity|].
    repeat constructor; unfold i192_MIN, i192_MAX; lia.
  - rewrite (@sum_from_positive_spec i192_panicking [i192_MAX; 1]);
      [vm_compute; reflexivity|].
    repeat constructor; unfold i192_MIN, i192_MAX; lia.
Defined.
