(* ===== verification/Crypto.v ===== *)
(** * Cryptography

    The Ristretto group, its scalars, Schnorr signatures, Bulletproofs+ and the
    Blake2b hasher come from [tari_crypto] and [tari_hashing], which are not
    part of this repository: the class [Crypto] lists the calls the engine
    makes.  [CryptoLaws] states the documented properties some theorems rely
    on: homomorphic and binding commitments, signatures that only verify
    against a key with a known secret, canonical encodings.  The rest of the
    file models [engine_types/src/crypto]. *)
From Stdlib Require Import Ring_theory.
From stdpp Require Import base gmap list strings numbers.
From S2P Require Import Prelude Ids Amount.
Open Scope Z_scope.

(** [EngineHashDomainLabel], the labels used here, and the Borsh-encoded items
    fed to a hasher. *)
Inductive EngineHashDomainLabel :=
  | LConfidentialTransfer | LViewableBalanceProof | LStealthTransfer
  | LStealthOwnership | LValueProof.
Inductive HashItem :=
  | HBytes32 (bytes : N)
  | HAmount (amount : Z).

Class Crypto := {
  Point : Type;
  Scalar : Type;
  point_eq_dec :: EqDecision Point;
  point_default : Point;
  point_add : Point → Point → Point;
  point_sub : Point → Point → Point;
  point_mul : Scalar → Point → Point;
  scalar_default : Scalar;
  from_secret_key : Scalar → Point;
  commit : Scalar → Scalar → Point;
  point_from_canonical_bytes : N → option Point;
  point_to_bytes : Point → N;
  scalar_from_canonical_bytes : list Z → option Scalar;
  scalar_from_uniform_bytes : N → option Scalar;
  verify_raw_uniform : Point * Scalar → Point → N → bool;
  verify : Point * Scalar → Point → N → bool;
  aggregated_statement_init : list (Point * Z) → bool;
  verify_batch : nat → list N → list (Point * Z) → bool;
  hasher64 : EngineHashDomainLabel → list HashItem → N;
}.

(** The value of a little-endian byte string. *)
Definition le_value (bs : list Z) : Z := foldr (λ b acc, b + 256 * acc) 0 bs.

Class CryptoLaws `{!Crypto} := {
  scalar_one : Scalar;
  scalar_add : Scalar → Scalar → Scalar;
  scalar_mul : Scalar → Scalar → Scalar;
  scalar_sub : Scalar → Scalar → Scalar;
  scalar_opp : Scalar → Scalar;
  scalar_of_Z : Z → Scalar;
  scalar_ring : ring_theory scalar_default scalar_one scalar_add scalar_mul scalar_sub
                  scalar_opp eq;
  scalar_of_Z_add a b : scalar_of_Z (a + b) = scalar_add (scalar_of_Z a) (scalar_of_Z b);
  scalar_canonical bs :
    length bs = 32%nat → Forall is_byte bs → le_value bs < 2 ^ 192 →
    scalar_from_canonical_bytes bs = Some (scalar_of_Z (le_value bs));
  commit_add k v k' v' :
    point_add (commit k v) (commit k' v') = commit (scalar_add k k') (scalar_add v v');
  commit_sub k v k' v' :
    point_sub (commit k v) (commit k' v') = commit (scalar_sub k k') (scalar_sub v v');
  commit_default : point_default = commit scalar_default scalar_default;
  commit_base k : from_secret_key k = commit k scalar_default;
  commit_binding k v k' v' : commit k v = commit k' v' → k = k' ∧ v = v';
  verify_knows_secret sig pk msg :
    verify_raw_uniform sig pk msg = true → ∃ x, pk = from_secret_key x;
  verify_message_knows_secret sig pk msg :
    verify sig pk msg = true → ∃ x, pk = from_secret_key x;
  point_to_from_bytes b p : point_from_canonical_bytes b = Some p → point_to_bytes p = b;
  statement_init_power_of_two sts k :
    length sts = (2 ^ k)%nat → aggregated_statement_init sts = true;
}.

(** ** Errors of the resource operations; the message texts are left out *)
Inductive ResourceError :=
  | ResourceTypeMismatch (operate : string) (expected given : ResourceType)
  | ResourceAddressMismatch (expected actual : ResourceAddress)
  | InsufficientBalance
  | InvariantError
  | OperationNotAllowed
  | NonFungibleTokenIdNotFound (token : NonFungibleId)
  | InvalidBalanceProof
  | InvalidConfidentialProof
  | InvalidRangeProof
  | InvalidConfidentialMintWithChange
  | InvalidSpend
  | UtxoBurnFailed (id : CommitmentBytes).

(** ** Data *)
Record SchnorrSignatureBytes := MkSchnorr {
  sig_public_nonce : PublicKeyBytes;
  sig_signature : list Z;
}.
#[export] Instance SchnorrSignatureBytes_eq_dec : EqDecision SchnorrSignatureBytes.
Proof. solve_decision. Defined.
Definition SchnorrSignatureBytes_zero : SchnorrSignatureBytes :=
  MkSchnorr 0%N (replicate 32 0).

Record ViewableBalanceProof := MkViewableBalanceProof {
  elgamal_encrypted : PublicKeyBytes;
  elgamal_public_nonce : PublicKeyBytes;
  c_prime : CommitmentBytes;
  e_prime : PublicKeyBytes;
  r_prime : PublicKeyBytes;
  s_v : list Z;
  s_m : list Z;
  s_r : list Z;
}.

Record UnspentOutput := MkUnspentOutput {
  uo_commitment : CommitmentBytes;
  uo_sender_public_nonce : PublicKeyBytes;
  uo_encrypted_data : list N;
  uo_minimum_value_promise : Z;
  uo_viewable_balance_proof : option ViewableBalanceProof;
}.

Record ElgamalVerifiableBalanceBytes := MkElgamalBytes {
  evb_encrypted : PublicKeyBytes;
  evb_public_nonce : PublicKeyBytes;
}.

Record PrivateOutput := MkPrivateOutput {
  po_public_nonce : PublicKeyBytes;
  po_encrypted_data : list N;
  po_minimum_value_promise : Z;
  po_viewable_balance : option ElgamalVerifiableBalanceBytes;
}.

Section crypto.
Context `{Ii : !I192} `{Ic : !Crypto}.

Record ElgamalVerifiableBalance := MkElgamal {
  ev_encrypted : Point;
  ev_public_nonce : Point;
}.

Record ValidatedPrivateOutput := MkValidatedPrivateOutput {
  vo_commitment : Point;
  vo_public_nonce : Point;
  vo_encrypted_data : list N;
  vo_minimum_value_promise : Z;
  vo_viewable_balance : option ElgamalVerifiableBalance;
}.

Definition elgamal_to_byte_type (b : ElgamalVerifiableBalance) : ElgamalVerifiableBalanceBytes :=
  MkElgamalBytes (point_to_bytes (ev_encrypted b)) (point_to_bytes (ev_public_nonce b)).

Definition to_private_output (o : ValidatedPrivateOutput) : PrivateOutput :=
  MkPrivateOutput (point_to_bytes (vo_public_nonce o)) (vo_encrypted_data o)
    (vo_minimum_value_promise o) (elgamal_to_byte_type <$> vo_viewable_balance o).

(** ** [helpers.rs] *)
Definition convert_amount_to_secret {E : Type} (amount : Z) : res E (option Scalar) :=
  if Amount.is_negative amount then Ok None
  else
    let val_bytes := Amount.to_le_bytes amount ++ replicate (32 - Amount.BYTE_SIZE) 0 in
    let? s := expect (scalar_from_canonical_bytes val_bytes) in Ok (Some s).

Definition commit_amount_checked {E : Type} (mask : Scalar) (amount : Z) : res E (option Point) :=
  let? v := convert_amount_to_secret amount in
  Ok (match v with Some v => Some (commit mask v) | None => None end).

Definition commit_amount {E : Type} (mask : Scalar) (amount : Z) : res E Point :=
  let? c := commit_amount_checked mask amount in expect c.

Definition try_decode_to_signature (s : SchnorrSignatureBytes) : option (Point * Scalar) :=
  match point_from_canonical_bytes (sig_public_nonce s) with
  | None => None
  | Some nonce =>
      match scalar_from_canonical_bytes (sig_signature s) with
      | None => None
      | Some sg => Some (nonce, sg)
      end
  end.

(** ** [messages.rs] *)
Definition confidential_withdraw64 (excess public_nonce : Point) (input output : Z) : N :=
  hasher64 LConfidentialTransfer
    [HBytes32 (point_to_bytes excess); HBytes32 (point_to_bytes public_nonce);
     HAmount input; HAmount output].
Definition viewable_balance_proof64 (commitment view_key : Point) (p : ViewableBalanceProof) : N :=
  hasher64 LViewableBalanceProof
    [HBytes32 (point_to_bytes commitment); HBytes32 (point_to_bytes view_key);
     HBytes32 (elgamal_encrypted p); HBytes32 (elgamal_public_nonce p);
     HBytes32 (c_prime p); HBytes32 (e_prime p); HBytes32 (r_prime p)].
Definition stealth_transfer64 (excess public_nonce : Point) (input output : Z) : N :=
  hasher64 LStealthTransfer
    [HBytes32 (point_to_bytes excess); HBytes32 (point_to_bytes public_nonce);
     HAmount input; HAmount output].
Definition stealth_ownership64 (public_key public_nonce commitment output_nonce : N) : N :=
  hasher64 LStealthOwnership
    [HBytes32 public_key; HBytes32 public_nonce; HBytes32 commitment; HBytes32 output_nonce].
Definition value_proof_message (commitment : N) (value : Z) : N :=
  hasher64 LValueProof [HBytes32 commitment; HAmount value].

(** ** [elgamal.rs] *)
Definition decode {A : Type} (o : option A) : res ResourceError A :=
  ok_or o InvalidConfidentialProof.

Definition validate_elgamal_verifiable_balance_proof (commitment : Point)
    (view_key : option Point) (viewable_balance_proof : option ViewableBalanceProof) :
    res ResourceError (option ElgamalVerifiableBalance) :=
  match view_key with
  | None =>
      match viewable_balance_proof with
      | None => Ok None
      | Some _ => Err InvalidConfidentialProof
      end
  | Some view_key =>
      match viewable_balance_proof with
      | None => Err InvalidConfidentialProof
      | Some proof =>
          let? encrypted := decode (point_from_canonical_bytes (elgamal_encrypted proof)) in
          if (elgamal_public_nonce proof =? 0)%N then Err InvalidConfidentialProof
          else
            let? nonce := decode (point_from_canonical_bytes (elgamal_public_nonce proof)) in
            let? c' := decode (point_from_canonical_bytes (c_prime proof)) in
            let? e' := decode (point_from_canonical_bytes (e_prime proof)) in
            let? r' := decode (point_from_canonical_bytes (r_prime proof)) in
            let? sv := decode (scalar_from_canonical_bytes (s_v proof)) in
            let? sm := decode (scalar_from_canonical_bytes (s_m proof)) in
            let? sr := decode (scalar_from_canonical_bytes (s_r proof)) in
            let? e := expect (scalar_from_uniform_bytes
                                (viewable_balance_proof64 commitment view_key proof)) in
            if bool_decide (point_add (point_mul e commitment) c' ≠ commit sm sv)
            then Err InvalidConfidentialProof
            else if bool_decide (point_add (point_mul e encrypted) e'
                                 ≠ point_add (from_secret_key sv) (point_mul sr view_key))
            then Err InvalidConfidentialProof
            else if bool_decide (point_add (point_mul e nonce) r' ≠ from_secret_key sr)
            then Err InvalidConfidentialProof
            else Ok (Some (MkElgamal encrypted nonce))
      end
  end.

(** ** [range_proof.rs] *)
Definition MAX_LAZY_BP_AGG_FACTORS : nat := 8.

(** [usize::next_power_of_two] for the sizes that occur here. *)
Definition next_power_of_two (n : nat) : nat := (2 ^ Nat.log2_up n)%nat.
Definition is_power_of_two (n : nat) : bool := (n =? next_power_of_two n)%nat.

(** The service with the given aggregation factor; [None] is the panic. *)
Definition get_static_range_proof_service (aggregation_factor : nat) : option nat :=
  match next_power_of_two aggregation_factor with
  | 1%nat => Some 1%nat
  | 2%nat => Some 2%nat
  | 4%nat => Some 4%nat
  | 8%nat => Some 8%nat
  | _ => None
  end.

Definition validate_bullet_proof (range_proof : list N) (outputs : list UnspentOutput) :
    res ResourceError unit :=
  let? statements :=
    collect (λ stmt,
      let? commitment := decode (point_from_canonical_bytes (uo_commitment stmt)) in
      Ok (commitment, uo_minimum_value_promise stmt)) outputs in
  let agg_factor := length statements in
  if (agg_factor =? 0)%nat then
    match range_proof with
    | [] => Ok tt
    | _ => Err InvalidConfidentialProof
    end
  else if (MAX_LAZY_BP_AGG_FACTORS <? agg_factor)%nat then Err InvalidConfidentialProof
  else
    let statements :=
      if is_power_of_two agg_factor then statements
      else statements ++
             replicate (next_power_of_two agg_factor - agg_factor) (point_default, 0) in
    if negb (aggregated_statement_init statements) then Panic
    else
      let? service := expect (get_static_range_proof_service agg_factor) in
      if verify_batch service range_proof statements then Ok tt
      else Err InvalidRangeProof.
End crypto.

(** ** Lemmas *)
Section crypto_lemmas.
Context `{Ii : !I192} `{Ic : !Crypto} `{Il : !CryptoLaws}.

Lemma le_value_app (xs ys : list Z) :
  le_value (xs ++ ys) = le_value xs + 256 ^ Z.of_nat (length xs) * le_value ys.
Proof.
  induction xs as [|x xs IH]; simpl app; simpl length.
  - change (le_value []) with 0. rewrite Z.pow_0_r. lia.
  - change (x + 256 * le_value (xs ++ ys) =
            x + 256 * le_value xs + 256 ^ Z.of_nat (S (length xs)) * le_value ys).
    rewrite IH, Nat2Z.inj_succ, Z.pow_succ_r by lia. lia.
Qed.

Lemma le_value_zeros (n : nat) : le_value (replicate n 0) = 0.
Proof. induction n as [|n IH]; [done|]. unfold le_value in *. simpl. rewrite IH. lia. Qed.

Lemma u64_bytes_is_byte (d : Z) : Forall is_byte (u64_to_le_bytes d).
Proof.
  unfold u64_to_le_bytes. apply List.Forall_forall. intros b (j & <- & _)%in_map_iff.
  apply Z.mod_pos_bound. lia.
Qed.

(** The bytes of a non-negative amount spell its value. *)
Lemma to_le_bytes_value (a : Z) :
  i192_in a → 0 ≤ a →
  le_value (Amount.to_le_bytes a) = a ∧ Forall is_byte (Amount.to_le_bytes a) ∧
  length (Amount.to_le_bytes a) = 24%nat.
Proof.
  intros Ha Hnn. pose proof (i192_to_bits_range a Ha) as Hr.
  pose proof (u192_digits_spec _ Hr) as Hd.
  rewrite (to_le_bytes_app _ _ _ _ Hd). split_and!; 
    [|auto using Forall_app_2, u64_bytes_is_byte|done].
  rewrite !le_value_app, !u64_to_le_bytes_length.
  pose proof (λ d, u64_from_to_le_bytes d) as Hu. unfold u64_from_le_bytes in Hu.
  unfold le_value. rewrite !Hu by (apply Z.mod_pos_bound; lia).
  pose proof (u192_from_digits_digits _ Hr) as Hj. rewrite Hd, u192_from_digits_spec in Hj.
  rewrite i192_to_bits_spec in Hj |- * by done. rewrite (Z.mod_small a) in Hj |- * by
    (unfold i192_in, i192_MIN, i192_MAX in Ha; lia).
  change (256 ^ Z.of_nat 8) with (2 ^ 64). lia.
Qed.

Lemma commit_amount_eq {E : Type} (mask : Scalar) (a : Z) :
  i192_in a → 0 ≤ a → @commit_amount _ _ E mask a = Ok (commit mask (scalar_of_Z a)).
Proof.
  intros Ha Hnn. destruct (to_le_bytes_value a Ha Hnn) as (Hv & Hb & Hl).
  unfold commit_amount, commit_amount_checked, convert_amount_to_secret, Amount.is_negative.
  destruct (Z.ltb_spec a 0); [lia|].
  rewrite scalar_canonical.
  - by rewrite le_value_app, le_value_zeros, Hv, Z.mul_0_r, Z.add_0_r.
  - by rewrite length_app, Hl.
  - apply Forall_app_2; [done|]. apply Forall_replicate. unfold is_byte. lia.
  - rewrite le_value_app, le_value_zeros, Hv. unfold i192_in, i192_MAX in Ha. lia.
Qed.
End crypto_lemmas.
