(* ===== verification/Confidential.v ===== *)
(** * Confidential statements and withdrawals

    [engine_types/src/confidential/validation.rs] and [withdraw.rs], and the
    proof types of [template_lib/src/models/confidential_proof.rs]. *)
From stdpp Require Import base gmap list strings numbers.
From S2P Require Import Prelude Ids Amount Crypto.
Open Scope Z_scope.

Record ConfidentialOutputStatement := MkConfidentialOutputStatement {
  cos_output : option UnspentOutput;
  cos_change_statement : option UnspentOutput;
  cos_range_proof : list N;
  cos_output_revealed_amount : Z;
  cos_change_revealed_amount : Z;
}.

Record ConfidentialWithdrawProof := MkConfidentialWithdrawProof {
  cwp_inputs : list CommitmentBytes;
  cwp_input_revealed_amount : Z;
  cwp_output_proof : ConfidentialOutputStatement;
  cwp_balance_proof : SchnorrSignatureBytes;
}.

Definition mint_revealed (amount : Z) : ConfidentialOutputStatement :=
  MkConfidentialOutputStatement None None [] amount 0.
Definition revealed_withdraw (amount : Z) : ConfidentialWithdrawProof :=
  MkConfidentialWithdrawProof [] amount (mint_revealed amount) SchnorrSignatureBytes_zero.
Definition revealed_to_confidential (input_revealed_amount : Z)
    (output_proof : ConfidentialOutputStatement) (balance_proof : SchnorrSignatureBytes) :
    ConfidentialWithdrawProof :=
  MkConfidentialWithdrawProof [] input_revealed_amount output_proof balance_proof.

Section confidential.
Context `{Ii : !I192} `{Ic : !Crypto}.

Record ValidatedConfidentialProof := MkValidatedConfidentialProof {
  vcp_output : option ValidatedPrivateOutput;
  vcp_change_output : option ValidatedPrivateOutput;
  vcp_output_revealed_amount : Z;
  vcp_change_revealed_amount : Z;
}.

Record ValidatedConfidentialWithdrawProof := MkValidatedConfidentialWithdrawProof {
  vcw_output : option ValidatedPrivateOutput;
  vcw_change_output : option ValidatedPrivateOutput;
  vcw_input_revealed_amount : Z;
  vcw_output_revealed_amount : Z;
  vcw_change_revealed_amount : Z;
}.

(** [is_revealed_only]: the balance proof may be skipped. *)
Definition is_revealed_only (self : ConfidentialWithdrawProof) : bool :=
  let p := cwp_output_proof self in
  bool_decide (cos_range_proof p = []) &&
  bool_decide (cwp_inputs self = []) &&
  match cos_output p with None => true | Some _ => false end &&
  match cos_change_statement p with None => true | Some _ => false end &&
  bool_decide (cwp_balance_proof self = SchnorrSignatureBytes_zero) &&
  (0 <? cwp_input_revealed_amount self) &&
  match Amount.checked_add (cos_output_revealed_amount p) (cos_change_revealed_amount p) with
  | Some a => 0 <? a
  | None => false
  end.

(** The closure applied to the output and to the change statement. *)
Definition validate_unspent_output (view_key : option Point) (statement : UnspentOutput) :
    res ResourceError ValidatedPrivateOutput :=
  let? commitment := decode (point_from_canonical_bytes (uo_commitment statement)) in
  let? nonce := decode (point_from_canonical_bytes (uo_sender_public_nonce statement)) in
  let? viewable := validate_elgamal_verifiable_balance_proof commitment view_key
                     (uo_viewable_balance_proof statement) in
  Ok (MkValidatedPrivateOutput commitment nonce (uo_encrypted_data statement)
        (uo_minimum_value_promise statement) viewable).

(** [Option::map(..).transpose()?]. *)
Definition transpose {E A B : Type} (f : A → res E B) (o : option A) : res E (option B) :=
  match o with
  | None => Ok None
  | Some a => let? b := f a in Ok (Some b)
  end.

Definition validate_confidential_statement (proof : ConfidentialOutputStatement)
    (view_key : option Point) : res ResourceError ValidatedConfidentialProof :=
  if Amount.is_negative (cos_output_revealed_amount proof)
     || Amount.is_negative (cos_change_revealed_amount proof)
  then Err InvalidConfidentialProof
  else
    let? maybe_output := transpose (validate_unspent_output view_key) (cos_output proof) in
    let? maybe_change :=
      transpose (validate_unspent_output view_key) (cos_change_statement proof) in
    let? _ :=
      match maybe_output, maybe_change with
      | None, None =>
          match cos_range_proof proof with
          | [] => Ok tt
          | _ => Err InvalidConfidentialProof
          end
      | _, _ =>
          validate_bullet_proof (cos_range_proof proof)
            (option_list (cos_output proof) ++ option_list (cos_change_statement proof))
      end in
    Ok (MkValidatedConfidentialProof maybe_output maybe_change
          (cos_output_revealed_amount proof) (cos_change_revealed_amount proof)).

Definition commitment_or_default (o : option ValidatedPrivateOutput) : Point :=
  match o with Some o => vo_commitment o | None => point_default end.

Definition validate_confidential_withdraw (inputs : list Point) (view_key : option Point)
    (withdraw_proof : ConfidentialWithdrawProof) :
    res ResourceError ValidatedConfidentialWithdrawProof :=
  let output_proof := cwp_output_proof withdraw_proof in
  let? validated_proof := validate_confidential_statement output_proof view_key in
  let input_revealed_amount := cwp_input_revealed_amount withdraw_proof in
  if Amount.is_negative input_revealed_amount then Err InvalidBalanceProof
  else
    let? total_output_revealed_amount :=
      ok_or (Amount.checked_add_positive (cos_output_revealed_amount output_proof)
               (cos_change_revealed_amount output_proof)) InvalidConfidentialProof in
    if is_revealed_only withdraw_proof then
      match Amount.checked_sub input_revealed_amount total_output_revealed_amount with
      | Some v =>
          if Amount.is_zero v then
            Ok (MkValidatedConfidentialWithdrawProof None (vcp_change_output validated_proof)
                  input_revealed_amount (cos_output_revealed_amount output_proof)
                  (cos_change_revealed_amount output_proof))
          else Err InvalidBalanceProof
      | None => Err InvalidBalanceProof
      end
    else
      let? balance_proof :=
        ok_or (try_decode_to_signature (cwp_balance_proof withdraw_proof)) InvalidBalanceProof in
      let output_commitment := commitment_or_default (vcp_output validated_proof) in
      let? revealed_input_commitment := commit_amount scalar_default input_revealed_amount in
      let agg_inputs_with_revealed :=
        point_add (foldl point_add point_default inputs) revealed_input_commitment in
      let? revealed_output_commitment :=
        commit_amount scalar_default total_output_revealed_amount in
      let output_commitment_with_revealed :=
        point_add output_commitment revealed_output_commitment in
      let public_excess :=
        point_sub (point_sub agg_inputs_with_revealed output_commitment_with_revealed)
          (commitment_or_default (vcp_change_output validated_proof)) in
      let message := confidential_withdraw64 public_excess balance_proof.1
                       input_revealed_amount total_output_revealed_amount in
      if negb (verify_raw_uniform balance_proof public_excess message) then
        Err InvalidBalanceProof
      else
        Ok (MkValidatedConfidentialWithdrawProof (vcp_output validated_proof)
              (vcp_change_output validated_proof) (cwp_input_revealed_amount withdraw_proof)
              (cos_output_revealed_amount output_proof)
              (cos_change_revealed_amount output_proof)).
End confidential.

(** ** Lemmas *)
Section confidential_lemmas.
Context `{Ii : !I192} `{Ic : !Crypto}.

Lemma validate_confidential_statement_Ok proof view_key vp :
  validate_confidential_statement proof view_key = Ok vp →
  0 ≤ cos_output_revealed_amount proof ∧ 0 ≤ cos_change_revealed_amount proof ∧
  vcp_output_revealed_amount vp = cos_output_revealed_amount proof ∧
  vcp_change_revealed_amount vp = cos_change_revealed_amount proof ∧
  (cos_output proof = None ↔ vcp_output vp = None) ∧
  (cos_change_statement proof = None ↔ vcp_change_output vp = None).
Proof.
  unfold validate_confidential_statement, Amount.is_negative. intros Hv.
  destruct (Z.ltb_spec (cos_output_revealed_amount proof) 0); [done|].
  destruct (Z.ltb_spec (cos_change_revealed_amount proof) 0); [done|].
  simpl in Hv. inv_ok. split_and!; [lia..|done|done| |]; simpl;
    destruct (cos_output proof), (cos_change_statement proof); simpl in *; inv_ok; done.
Qed.

(** What a validated withdrawal says of its revealed amounts. *)
Lemma validate_confidential_withdraw_Ok inputs view_key proof vp :
  validate_confidential_withdraw inputs view_key proof = Ok vp →
  0 ≤ cwp_input_revealed_amount proof ∧
  vcw_input_revealed_amount vp = cwp_input_revealed_amount proof ∧
  vcw_output_revealed_amount vp = cos_output_revealed_amount (cwp_output_proof proof) ∧
  vcw_change_revealed_amount vp = cos_change_revealed_amount (cwp_output_proof proof) ∧
  0 ≤ vcw_output_revealed_amount vp ∧ 0 ≤ vcw_change_revealed_amount vp ∧
  (cos_change_statement (cwp_output_proof proof) = None ↔ vcw_change_output vp = None).
Proof.
  unfold validate_confidential_withdraw, Amount.is_negative. intros Hv.
  apply res_bind_Ok in Hv as (vs & Hs & Hv).
  apply validate_confidential_statement_Ok in Hs as (? & ? & ? & ? & ? & ?).
  destruct (Z.ltb_spec (cwp_input_revealed_amount proof) 0); [done|].
  inv_ok. destruct (is_revealed_only proof).
  - destruct (Amount.checked_sub _ _) as [v|]; [|done].
    destruct (Amount.is_zero v); [|done]. inv_ok. done.
  - inv_ok. destruct (negb _); [done|]. inv_ok. done.
Qed.
End confidential_lemmas.

(** ** Value is conserved by a validated withdrawal *)
Section confidential_balance.
Context `{Ii : !I192} `{Ic : !Crypto} `{Il : !CryptoLaws}.

Add Ring scalar_ring_decl : scalar_ring.

Definition scalar_sum (vs : list Scalar) : Scalar := foldr scalar_add scalar_default vs.

(** [v] is the value committed to, zero where there is no output. *)
Definition opens_to (o : option ValidatedPrivateOutput) (v : Scalar) : Prop :=
  match o with
  | None => v = scalar_default
  | Some o => ∃ k, vo_commitment o = commit k v
  end.

Lemma scalar_of_Z_0 : scalar_of_Z 0 = scalar_default.
Proof.
  assert (scalar_of_Z 0 = scalar_add (scalar_of_Z 0) (scalar_of_Z 0)) as H
    by by rewrite <- scalar_of_Z_add.
  assert (scalar_sub (scalar_add (scalar_of_Z 0) (scalar_of_Z 0)) (scalar_of_Z 0)
          = scalar_sub (scalar_of_Z 0) (scalar_of_Z 0)) as H' by by rewrite <- H.
  transitivity (scalar_sub (scalar_add (scalar_of_Z 0) (scalar_of_Z 0)) (scalar_of_Z 0));
    [ring|]. rewrite H'. ring.
Qed.

Lemma fold_inputs (inputs : list Point) (vs : list Scalar) (k0 v0 : Scalar) :
  Forall2 (λ p v, ∃ k, p = commit k v) inputs vs →
  ∃ k, foldl point_add (commit k0 v0) inputs = commit k (scalar_add v0 (scalar_sum vs)).
Proof.
  intros Hf. revert k0 v0. induction Hf as [|p v ps vs [k ->] _ IH]; intros k0 v0; simpl.
  - exists k0. f_equal. ring.
  - rewrite commit_add. destruct (IH (scalar_add k0 k) (scalar_add v0 v)) as (k' & ->).
    exists k'. f_equal. ring.
Qed.

Lemma commitment_opens (o : option ValidatedPrivateOutput) (v : Scalar) :
  opens_to o v → ∃ k, commitment_or_default o = commit k v.
Proof.
  destruct o as [o|]; simpl; [done|]. intros ->. exists scalar_default. apply commit_default.
Qed.

(** The excess only commits to zero when the two sides balance. *)
Lemma excess_balance (ki kr ko kt kc x vi vr vo vt vc : Scalar) :
  point_sub (point_sub (point_add (commit ki vi) (commit kr vr))
               (point_add (commit ko vo) (commit kt vt))) (commit kc vc)
    = from_secret_key x →
  scalar_add vi vr = scalar_add (scalar_add vo vc) vt.
Proof.
  rewrite !commit_add, !commit_sub, commit_base. intros [_ Hv]%commit_binding.
  assert (scalar_add vi vr = scalar_add
    (scalar_sub (scalar_sub (scalar_add vi vr) (scalar_add vo vt)) vc)
    (scalar_add (scalar_add vo vc) vt)) as -> by ring.
  rewrite Hv. ring.
Qed.

(** C35: a confidential withdrawal that validates conserves value: the values of
    the input commitments and the revealed input add up to the values of the
    output and change commitments and the two revealed outputs.  This relies on
    the commitments being homomorphic and binding, and on a signature verifying
    only against a key whose secret is known. *)
Theorem validate_confidential_withdraw_balanced
    (inputs : list Point) (view_key : option Point) (proof : ConfidentialWithdrawProof)
    (vp : ValidatedConfidentialWithdrawProof) (vs : list Scalar) (vout vchange : Scalar) :
  i192_in (cwp_input_revealed_amount proof) →
  i192_in (cos_output_revealed_amount (cwp_output_proof proof)) →
  i192_in (cos_change_revealed_amount (cwp_output_proof proof)) →
  length inputs = length (cwp_inputs proof) →
  validate_confidential_withdraw inputs view_key proof = Ok vp →
  Forall2 (λ p v, ∃ k, p = commit k v) inputs vs →
  opens_to (vcw_output vp) vout → opens_to (vcw_change_output vp) vchange →
  scalar_add (scalar_sum vs) (scalar_of_Z (vcw_input_revealed_amount vp)) =
  scalar_add (scalar_add vout vchange)
    (scalar_add (scalar_of_Z (vcw_output_revealed_amount vp))
                (scalar_of_Z (vcw_change_revealed_amount vp))).
Proof.
  intros Hri Hro Hrc Hlen Hv Hin Hout Hch.
  unfold validate_confidential_withdraw in Hv.
  apply res_bind_Ok in Hv as (vs' & Hs & Hv).
  pose proof (validate_confidential_statement_Ok _ _ _ Hs) as (_ & _ & _ & _ & Ho & Hc).
  unfold Amount.is_negative in Hv.
  destruct (Z.ltb_spec (cwp_input_revealed_amount proof) 0) as [|Hnn]; [done|].
  apply res_bind_Ok in Hv as (total & Ht & Hv). apply ok_or_Ok in Ht.
  apply checked_add_positive_Some in Ht as (-> & ? & ? & ?); [|done..].
  destruct (is_revealed_only proof) eqn:Er.
  - unfold is_revealed_only in Er. bool_to_prop.
    destruct (Amount.checked_sub _ _) as [v|] eqn:Es; [|done].
    apply checked_sub_Some in Es as [-> _]; [|done|unfold i192_in, i192_MIN in *; lia].
    unfold Amount.is_zero in Hv.
    destruct (Z.eqb_spec (cwp_input_revealed_amount proof -
      (cos_output_revealed_amount (cwp_output_proof proof) +
       cos_change_revealed_amount (cwp_output_proof proof))) 0); [|done].
    inv_ok. destruct inputs; [|by match goal with H : cwp_inputs proof = [] |- _ =>
      rewrite H in Hlen end].
    apply Forall2_nil_inv_l in Hin as ->.
    destruct (cos_change_statement _); [done|]. rewrite (proj1 Hc eq_refl) in Hch.
    simpl in *. subst. rewrite <- scalar_of_Z_add.
    replace (cwp_input_revealed_amount proof) with
      (cos_output_revealed_amount (cwp_output_proof proof) +
       cos_change_revealed_amount (cwp_output_proof proof)) by lia.
    ring.
  - rewrite !commit_amount_eq in Hv by (unfold i192_in, i192_MIN in *; lia).
    inv_ok. destruct (verify_raw_uniform _ _ _) eqn:Ev; [|done].
    apply verify_knows_secret in Ev as [sk Hx]. simpl in Hv. inv_ok.
    apply commitment_opens in Hout as [ko Hko], Hch as [kc Hkc].
    rewrite commit_default in Hx.
    destruct (fold_inputs _ _ scalar_default scalar_default Hin) as [ki Hki].
    rewrite Hki, Hko, Hkc in Hx. apply excess_balance in Hx.
    rewrite <- scalar_of_Z_add, <- Hx. ring.
Qed.
End confidential_balance.

(** ** An idealised group in which the laws hold

    Scalars are integers and a point is its pair of coordinates with respect to
    the two generators; every signature over a multiple of the first generator
    verifies. *)
Definition ideal_crypto : Crypto := {|
  Point := Z * Z;
  Scalar := Z;
  point_eq_dec := _;
  point_default := (0, 0);
  point_add p q := (p.1 + q.1, p.2 + q.2);
  point_sub p q := (p.1 - q.1, p.2 - q.2);
  point_mul s p := (s * p.1, s * p.2);
  scalar_default := 0;
  from_secret_key s := (s, 0);
  commit k v := (k, v);
  point_from_canonical_bytes b := Some (Z.of_N b / 256, Z.of_N b mod 256);
  point_to_bytes p := Z.to_N (256 * p.1 + p.2);
  scalar_from_canonical_bytes bs := Some (le_value bs);
  scalar_from_uniform_bytes b := Some (Z.of_N b);
  verify_raw_uniform _ pk _ := pk.2 =? 0;
  verify _ pk _ := pk.2 =? 0;
  aggregated_statement_init _ := true;
  verify_batch _ _ _ := true;
  hasher64 _ _ := 0%N;
|}.

Lemma ideal_point_bytes (b : N) (p : Z * Z) :
  @point_from_canonical_bytes ideal_crypto b = Some p → @point_to_bytes ideal_crypto p = b.
Proof. intros [= <-]. simpl. rewrite <- Z.div_mod by lia. apply N2Z.id. Qed.

Lemma ideal_verify (sig : (Z * Z) * Z) (pk : Z * Z) (msg : N) :
  @verify_raw_uniform ideal_crypto sig pk msg = true →
  ∃ x, pk = @from_secret_key ideal_crypto x.
Proof. destruct pk as [x y]. simpl. intros ->%Z.eqb_eq. by exists x. Qed.

Lemma ideal_binding (k v k' v' : Z) : (k, v) = (k', v') → k = k' ∧ v = v'.
Proof. by intros [= -> ->]. Qed.

Definition ideal_crypto_laws : @CryptoLaws ideal_crypto := {|
  scalar_one := 1 : @Scalar ideal_crypto;
  scalar_add := Z.add;
  scalar_mul := Z.mul;
  scalar_sub := Z.sub;
  scalar_opp := Z.opp;
  scalar_of_Z z := z;
  scalar_ring := InitialRing.Zth;
  scalar_of_Z_add a b := eq_refl;
  scalar_canonical bs _ _ _ := eq_refl;
  commit_add k v k' v' := eq_refl;
  commit_sub k v k' v' := eq_refl;
  commit_default := eq_refl;
  commit_base k := eq_refl;
  commit_binding := ideal_binding;
  verify_knows_secret := ideal_verify;
  verify_message_knows_secret := ideal_verify;
  point_to_from_bytes := ideal_point_bytes;
  statement_init_power_of_two sts k _ := eq_refl;
|}.

(** A withdrawal that spends a commitment to 5 into a commitment to 4 and a
    revealed unit validates and balances. *)
Definition example_withdraw_proof : ConfidentialWithdrawProof :=
  MkConfidentialWithdrawProof [1797%N] 0
    (MkConfidentialOutputStatement (Some (MkUnspentOutput 772 1 [] 0 None)) None [] 1 0)
    SchnorrSignatureBytes_zero.

Definition example_validated : @ValidatedConfidentialWithdrawProof ideal_crypto :=
  @MkValidatedConfidentialWithdrawProof ideal_crypto
    (Some (@MkValidatedPrivateOutput ideal_crypto (3, 4) (0, 1) [] 0 None)) None 0 1 0.

Lemma validate_confidential_withdraw_balanced_witness :
  @validate_confidential_withdraw i192_panicking ideal_crypto [(7, 5)] None
    example_withdraw_proof = Ok example_validated ∧
  @scalar_add ideal_crypto ideal_crypto_laws (5 + 0) 0 = (4 + 0) + (1 + 0).
Proof.
  split; [vm_compute; reflexivity|].
  apply (@validate_confidential_withdraw_balanced i192_panicking ideal_crypto ideal_crypto_laws
    [(7, 5)] None example_withdraw_proof example_validated [5] 4 0);
    try (unfold i192_in, i192_MIN, i192_MAX; simpl; lia); try done.
  - constructor; [by exists 7|constructor].
  - by exists 3.
Defined.
