(* ===== verification/ResourceContainer.v ===== *)
(** * Resource containers

    [engine_types/src/resource_container.rs]: the contents of a vault or a
    bucket, with the part locked by proofs.  Every operation that takes
    [&mut self] is a stateful call on the container; what an early return has
    already changed stays changed. *)
From stdpp Require Import base gmap list strings sorting numbers.
From S2P Require Import Prelude BTree Ids Amount Crypto Confidential.
Open Scope Z_scope.

Inductive ResourceContainer :=
  | Fungible (address : ResourceAddress) (amount locked_amount : Z)
  | NonFungible (address : ResourceAddress) (token_ids locked_token_ids : gset NonFungibleId)
  | CtConfidential (address : ResourceAddress)
      (commitments : gmap CommitmentBytes PrivateOutput) (revealed_amount : Z)
      (locked_commitments : gmap CommitmentBytes PrivateOutput) (locked_revealed_amount : Z)
  | Stealth (address : ResourceAddress) (revealed_amount locked_amount : Z).

(** [usize] and [u64] lengths. *)
Definition len_of {A : Type} `{Countable A} (s : gset A) : Z := Z.of_nat (size s).
Definition USIZE_LIMIT : Z := 2 ^ 64.

Section resource_container.
Context `{Ii : !I192} `{Ic : !Crypto}.

Definition fungible {E : Type} (address : ResourceAddress) (amount : Z) : res E ResourceContainer :=
  if Amount.is_non_negative amount then Ok (Fungible address amount 0) else Panic.

Definition non_fungible (address : ResourceAddress) (token_ids : gset NonFungibleId) :
    ResourceContainer := NonFungible address token_ids ∅.

Definition confidential {E : Type} (address : ResourceAddress)
    (commitments : list (CommitmentBytes * PrivateOutput)) (revealed_amount : Z) :
    res E ResourceContainer :=
  if Amount.is_non_negative revealed_amount
  then Ok (CtConfidential address
             (foldl (λ m c, <[ c.1 := c.2 ]> m) ∅ commitments) revealed_amount ∅ 0)
  else Panic.

Definition stealth {E : Type} (address : ResourceAddress) (revealed_amount : Z) :
    res E ResourceContainer :=
  if Amount.is_non_negative revealed_amount then Ok (Stealth address revealed_amount 0) else Panic.

Definition output_entry (o : ValidatedPrivateOutput) : CommitmentBytes * PrivateOutput :=
  (point_to_bytes (vo_commitment o), to_private_output o).

Definition mint_confidential (address : ResourceAddress) (proof : ConfidentialOutputStatement)
    (view_key : option Point) : res ResourceError ResourceContainer :=
  match cos_change_statement proof with
  | Some _ => Err InvalidConfidentialMintWithChange
  | None =>
      if negb (Amount.is_zero (cos_change_revealed_amount proof))
      then Err InvalidConfidentialProof
      else
        let? validated_proof := validate_confidential_statement proof view_key in
        match vcp_change_output validated_proof with
        | Some _ => Panic
        | None =>
            Ok (CtConfidential address
                  (foldl (λ m c, <[ c.1 := c.2 ]> m) ∅
                     (map output_entry (option_list (vcp_output validated_proof))))
                  (vcp_output_revealed_amount validated_proof) ∅ 0)
        end
  end.

Definition amount (self : ResourceContainer) : Z :=
  match self with
  | Fungible _ a _ => a
  | NonFungible _ ids _ => len_of ids
  | CtConfidential _ _ r _ _ => r
  | Stealth _ r _ => r
  end.

Definition number_of_confidential_commitments (self : ResourceContainer) : Z :=
  match self with
  | CtConfidential _ c _ l _ => Z.of_nat (size c) + Z.of_nat (size l)
  | _ => 0
  end.

Definition locked_amount (self : ResourceContainer) : Z :=
  match self with
  | Fungible _ _ l => l
  | NonFungible _ _ l => len_of l
  | CtConfidential _ _ _ _ l => l
  | Stealth _ _ l => l
  end.

Definition get_commitment_count (self : ResourceContainer) : Z :=
  match self with
  | CtConfidential _ c _ _ _ => Z.of_nat (size c)
  | _ => 0
  end.

Definition resource_address (self : ResourceContainer) : ResourceAddress :=
  match self with
  | Fungible a _ _ => a
  | NonFungible a _ _ => a
  | CtConfidential a _ _ _ _ => a
  | Stealth a _ _ => a
  end.

Definition resource_type (self : ResourceContainer) : ResourceType :=
  match self with
  | Fungible _ _ _ => RtFungible
  | NonFungible _ _ _ => RtNonFungible
  | CtConfidential _ _ _ _ _ => RtConfidential
  | Stealth _ _ _ => RtStealth
  end.

Definition non_fungible_token_ids (self : ResourceContainer) : gset NonFungibleId :=
  match self with
  | NonFungible _ ids _ => ids
  | _ => ∅
  end.

Definition into_non_fungible_ids (self : ResourceContainer) : option (gset NonFungibleId) :=
  match self with
  | NonFungible _ ids _ => Some ids
  | _ => None
  end.

Definition child_substates (self : ResourceContainer) : list SubstateId :=
  map (λ id, SidNonFungible (MkNonFungibleAddress (resource_address self) id))
      (btree_iter (non_fungible_token_ids self)).

Definition get_confidential_commitments (self : ResourceContainer) :
    option (gmap CommitmentBytes PrivateOutput) :=
  match self with
  | CtConfidential _ c _ _ _ => Some c
  | _ => None
  end.

(** [for (k, v) in entries { if map.insert(k, v).is_some() { return Err(..) } }]. *)
Fixpoint insert_commitments (entries : list (CommitmentBytes * PrivateOutput)) :
    M (gmap CommitmentBytes PrivateOutput) ResourceError unit :=
  match entries with
  | [] => ret tt
  | (k, v) :: entries' => λ m,
      match m !! k with
      | Some _ => (Err InvariantError, <[k := v]> m)
      | None => insert_commitments entries' (<[k := v]> m)
      end
  end.

Definition deposit (other : ResourceContainer) : M ResourceContainer ResourceError unit :=
  λ self,
  if bool_decide (resource_address self ≠ resource_address other)
  then (Err (ResourceAddressMismatch (resource_address self) (resource_address other)), self)
  else
    match self, other with
    | Fungible a amount l, Fungible _ other_amount _ =>
        (let! sum := lift (Amount.add amount other_amount) in put (Fungible a sum l)) self
    | NonFungible a token_ids l, NonFungible _ other_token_ids _ =>
        if USIZE_LIMIT <=? len_of token_ids + len_of other_token_ids
        then (Err OperationNotAllowed, self)
        else (Ok tt, NonFungible a (token_ids ∪ other_token_ids) l)
    | CtConfidential a commitments revealed_amount lc lr,
      CtConfidential _ other_commitments other_amount _ _ =>
        let '(r, commitments') :=
          insert_commitments (btree_map_iter other_commitments) commitments in
        (do! put (CtConfidential a commitments' revealed_amount lc lr) in
         do! lift r in
         let! sum := lift (Amount.add revealed_amount other_amount) in
         put (CtConfidential a commitments' sum lc lr)) self
    | Stealth a revealed_amount l, Stealth _ other_amount _ =>
        (let! sum := lift (Amount.add revealed_amount other_amount) in put (Stealth a sum l)) self
    | _, _ =>
        (Err (ResourceTypeMismatch "deposit" (resource_type self) (resource_type other)), self)
    end.

(** [withdraw_amt > token_ids.len()], then the tokens popped from the front. *)
Definition pop_tokens (amt : Z) (token_ids : gset NonFungibleId) :
    res ResourceError (gset NonFungibleId * gset NonFungibleId) :=
  match Amount.partial_cmp_usize amt (len_of token_ids) with
  | Gt => Err InsufficientBalance
  | _ =>
      let? num_to_take := expect (Amount.to_u64_checked amt) in
      let? popped := expect (pop_first_n (Z.to_nat num_to_take) token_ids) in
      Ok (list_to_set popped.1, popped.2)
  end.

Definition withdraw (withdraw_amt : Z) : M ResourceContainer ResourceError ResourceContainer :=
  λ self,
  if negb (Amount.is_positive withdraw_amt) then (Err InvariantError, self)
  else
    match self with
    | Fungible a amount l =>
        if amount <? withdraw_amt then (Err InsufficientBalance, self)
        else
          (let! rest := lift (Amount.sub amount withdraw_amt) in
           do! put (Fungible a rest l) in
           lift (fungible a withdraw_amt)) self
    | NonFungible a token_ids l =>
        (let! popped := lift (pop_tokens withdraw_amt token_ids) in
         do! put (NonFungible a popped.2 l) in
         ret (non_fungible a popped.1)) self
    | CtConfidential a c revealed_amount lc lr =>
        if revealed_amount <? withdraw_amt then (Err InsufficientBalance, self)
        else
          (let! rest := lift (Amount.sub revealed_amount withdraw_amt) in
           do! put (CtConfidential a c rest lc lr) in
           lift (confidential a [] withdraw_amt)) self
    | Stealth a revealed_amount l =>
        if revealed_amount <? withdraw_amt then (Err InsufficientBalance, self)
        else
          (let! rest := lift (Amount.sub revealed_amount withdraw_amt) in
           do! put (Stealth a rest l) in
           lift (stealth a withdraw_amt)) self
    end.

Definition withdraw_all : M ResourceContainer ResourceError ResourceContainer := λ self,
  match self with
  | Fungible _ _ _ | NonFungible _ _ _ | Stealth _ _ _ => withdraw (amount self) self
  | CtConfidential a commitments revealed_amount lc lr =>
      (do! put (CtConfidential a ∅ 0 lc lr) in
       lift (confidential a (btree_map_iter commitments) revealed_amount)) self
  end.

(** [ids.iter().map(|id| tokens.take(id).ok_or(..)).collect::<Result<_, _>>()]. *)
Fixpoint take_tokens (ids : list NonFungibleId) :
    M (gset NonFungibleId) ResourceError (gset NonFungibleId) :=
  match ids with
  | [] => ret ∅
  | id :: ids' => λ tokens,
      if decide (id ∈ tokens) then
        (let! taken := take_tokens ids' in ret ({[id]} ∪ taken)) (tokens ∖ {[id]})
      else (Err (NonFungibleTokenIdNotFound id), tokens)
  end.

Definition withdraw_by_ids (ids : gset NonFungibleId) :
    M ResourceContainer ResourceError ResourceContainer := λ self,
  match self with
  | NonFungible a token_ids l =>
      let '(r, token_ids') := take_tokens (btree_iter ids) token_ids in
      (do! put (NonFungible a token_ids' l) in
       let! taken := lift r in
       ret (non_fungible a taken)) self
  | _ => (Err OperationNotAllowed, self)
  end.

(** The input commitments are decoded and removed one by one. *)
Fixpoint remove_inputs (inputs : list CommitmentBytes) :
    M (gmap CommitmentBytes PrivateOutput) ResourceError (list Point) :=
  match inputs with
  | [] => ret []
  | input :: inputs' => λ m,
      match point_from_canonical_bytes input with
      | None => (Err InvalidConfidentialProof, m)
      | Some commitment =>
          match m !! input with
          | Some _ =>
              (let! cs := remove_inputs inputs' in ret (commitment :: cs)) (delete input m)
          | None => (Err InvalidConfidentialProof, m)
          end
      end
  end.

Definition withdraw_confidential (proof : ConfidentialWithdrawProof) (view_key : option Point) :
    M ResourceContainer ResourceError ResourceContainer := λ self,
  match self with
  | Fungible _ _ _ | NonFungible _ _ _ | Stealth _ _ _ => (Err OperationNotAllowed, self)
  | CtConfidential a commitments revealed_amount lc lr =>
      let '(r, commitments) := remove_inputs (cwp_inputs proof) commitments in
      (do! put (CtConfidential a commitments revealed_amount lc lr) in
       let! inputs := lift r in
       let! validated_proof := lift (validate_confidential_withdraw inputs view_key proof) in
       if revealed_amount <? vcw_input_revealed_amount validated_proof
       then throw InsufficientBalance
       else
         let! revealed_amount :=
           lift (Amount.sub revealed_amount (vcw_input_revealed_amount validated_proof)) in
         do! put (CtConfidential a commitments revealed_amount lc lr) in
         do! match vcw_change_output validated_proof with
             | None => ret tt
             | Some change =>
                 let '(k, v) := output_entry change in
                 do! put (CtConfidential a (<[k := v]> commitments) revealed_amount lc lr) in
                 if bool_decide (commitments !! k ≠ None) then throw InvariantError
                 else if revealed_amount <? vcw_change_revealed_amount validated_proof
                 then throw InsufficientBalance
                 else
                   let! sum := lift (Amount.add revealed_amount
                                       (vcw_change_revealed_amount validated_proof)) in
                   put (CtConfidential a (<[k := v]> commitments) sum lc lr)
             end in
         lift (confidential a (map output_entry (option_list (vcw_output validated_proof)))
                 (vcw_output_revealed_amount validated_proof))) self
  end.

(** [commitments.iter().map(|c| existing.remove(c).ok_or(..)).collect()]. *)
Fixpoint recall_entries (cs : list CommitmentBytes) :
    M (gmap CommitmentBytes PrivateOutput) ResourceError
      (list (CommitmentBytes * PrivateOutput)) :=
  match cs with
  | [] => ret []
  | c :: cs' => λ m,
      match m !! c with
      | Some output =>
          (let! rest := recall_entries cs' in ret ((c, output) :: rest)) (delete c m)
      | None => (Err InvalidConfidentialProof, m)
      end
  end.

Definition recall_confidential_commitments (commitments : gset CommitmentBytes)
    (revealed_amount : Z) : M ResourceContainer ResourceError ResourceContainer := λ self,
  match self with
  | Fungible _ _ _ | NonFungible _ _ _ | Stealth _ _ _ => (Err OperationNotAllowed, self)
  | CtConfidential a existing existing_revealed_amount lc lr =>
      if existing_revealed_amount <? revealed_amount then (Err InsufficientBalance, self)
      else
        (let! rest := lift (Amount.sub existing_revealed_amount revealed_amount) in
         do! put (CtConfidential a existing rest lc lr) in
         let '(r, existing') := recall_entries (btree_iter commitments) existing in
         do! put (CtConfidential a existing' rest lc lr) in
         let! recalled := lift r in
         lift (confidential a recalled revealed_amount)) self
  end.

Definition lock_all : M ResourceContainer ResourceError ResourceContainer := λ self,
  match self with
  | Fungible a amount locked_amount =>
      if Amount.is_zero amount then (Err InsufficientBalance, self)
      else
        (do! put (Fungible a 0 locked_amount) in
         let! locked := lift (Amount.add locked_amount amount) in
         do! put (Fungible a 0 locked) in
         lift (fungible a amount)) self
  | NonFungible a token_ids locked_token_ids =>
      if bool_decide (token_ids = ∅) then (Err InsufficientBalance, self)
      else (Ok (non_fungible a token_ids), NonFungible a ∅ (locked_token_ids ∪ token_ids))
  | CtConfidential a commitments revealed_amount locked_commitments locked_revealed_amount =>
      if bool_decide (commitments = ∅) then (Err InsufficientBalance, self)
      else
        let locked_commitments' := commitments ∪ locked_commitments in
        (do! put (CtConfidential a ∅ revealed_amount locked_commitments' locked_revealed_amount) in
         let! locked := lift (Amount.add locked_revealed_amount revealed_amount) in
         do! put (CtConfidential a ∅ revealed_amount locked_commitments' locked) in
         lift (confidential a (btree_map_iter commitments) revealed_amount)) self
  | Stealth a revealed_amount locked_amount =>
      if Amount.is_zero revealed_amount then (Err InsufficientBalance, self)
      else
        (do! put (Stealth a 0 locked_amount) in
         let! locked := lift (Amount.add locked_amount revealed_amount) in
         do! put (Stealth a 0 locked) in
         lift (fungible a revealed_amount)) self
  end.

(** [for token in container { token_ids.insert(locked.take(token).ok_or(..)?) }]. *)
Fixpoint unlock_tokens (ids : list NonFungibleId) :
    M (gset NonFungibleId * gset NonFungibleId) ResourceError unit :=
  match ids with
  | [] => ret tt
  | id :: ids' => λ '(tokens, locked),
      if decide (id ∈ locked)
      then unlock_tokens ids' (tokens ∪ {[id]}, locked ∖ {[id]})
      else (Err InvariantError, (tokens, locked))
  end.

Fixpoint unlock_commitments (cs : list CommitmentBytes) :
    M (gmap CommitmentBytes PrivateOutput * gmap CommitmentBytes PrivateOutput)
      ResourceError unit :=
  match cs with
  | [] => ret tt
  | c :: cs' => λ '(commitments, locked),
      match locked !! c with
      | None => (Err InvariantError, (commitments, locked))
      | Some output =>
          match commitments !! c with
          | Some _ => (Err InvariantError, (<[c := output]> commitments, delete c locked))
          | None => unlock_commitments cs' (<[c := output]> commitments, delete c locked)
          end
      end
  end.

Definition unlock (container : ResourceContainer) : M ResourceContainer ResourceError unit :=
  λ self,
  if bool_decide (resource_type self ≠ resource_type container)
  then (Err (ResourceTypeMismatch "unlock" (resource_type self) (resource_type container)), self)
  else if bool_decide (resource_address self ≠ resource_address container)
  then (Err (ResourceAddressMismatch (resource_address self) (resource_address container)), self)
  else
    match self with
    | Fungible a amt locked =>
        if locked <? amount container then (Err InsufficientBalance, self)
        else
          (let! amt := lift (Amount.add amt (amount container)) in
           do! put (Fungible a amt locked) in
           let! locked := lift (Amount.sub locked (amount container)) in
           put (Fungible a amt locked)) self
    | NonFungible a token_ids locked =>
        if len_of locked <? len_of (non_fungible_token_ids container)
        then (Err InsufficientBalance, self)
        else
          let '(r, (token_ids', locked')) :=
            unlock_tokens (btree_iter (non_fungible_token_ids container)) (token_ids, locked) in
          (do! put (NonFungible a token_ids' locked') in lift r) self
    | CtConfidential a commitments revealed_amount locked locked_revealed_amount =>
        if Z.of_nat (size locked) <? get_commitment_count container
        then (Err InsufficientBalance, self)
        else if locked_revealed_amount <? amount container then (Err InvariantError, self)
        else
          let cs := match get_confidential_commitments container with
                    | Some m => map fst (btree_map_iter m)
                    | None => []
                    end in
          let '(r, (commitments', locked')) := unlock_commitments cs (commitments, locked) in
          (do! put (CtConfidential a commitments' revealed_amount locked' locked_revealed_amount) in
           do! lift r in
           let! revealed := lift (Amount.add revealed_amount (amount container)) in
           do! put (CtConfidential a commitments' revealed locked' locked_revealed_amount) in
           let! locked_revealed := lift (Amount.sub locked_revealed_amount (amount container)) in
           put (CtConfidential a commitments' revealed locked' locked_revealed)) self
    | Stealth a revealed_amount locked =>
        if locked <? amount container then (Err InsufficientBalance, self)
        else
          (let! amt := lift (Amount.add revealed_amount (amount container)) in
           do! put (Stealth a amt locked) in
           let! locked := lift (Amount.sub locked (amount container)) in
           put (Stealth a amt locked)) self
    end.

(** The loop of [lock_by_non_fungible_ids] over the available tokens, the locked
    tokens and the newly locked ones. *)
Fixpoint lock_tokens (ids : list NonFungibleId) :
    M (gset NonFungibleId * gset NonFungibleId) ResourceError (gset NonFungibleId) :=
  match ids with
  | [] => ret ∅
  | id :: ids' => λ '(tokens, locked),
      if decide (id ∈ tokens) then
        (let! newly := lock_tokens ids' in ret ({[id]} ∪ newly)) (tokens ∖ {[id]}, locked ∪ {[id]})
      else (Err (NonFungibleTokenIdNotFound id), (tokens, locked))
  end.

Definition lock_by_non_fungible_ids (ids : gset NonFungibleId) :
    M ResourceContainer ResourceError ResourceContainer := λ self,
  match self with
  | NonFungible a token_ids locked =>
      let '(r, (token_ids', locked')) := lock_tokens (btree_iter ids) (token_ids, locked) in
      (do! put (NonFungible a token_ids' locked') in
       let! newly_locked := lift r in
       ret (non_fungible a newly_locked)) self
  | _ => (Err OperationNotAllowed, self)
  end.

Definition lock_by_amount (amt : Z) : M ResourceContainer ResourceError ResourceContainer :=
  λ self,
  match self with
  | Fungible a available locked =>
      if available <? amt then (Err InsufficientBalance, self)
      else
        (let! available := lift (Amount.sub available amt) in
         do! put (Fungible a available locked) in
         let! locked := lift (Amount.add locked amt) in
         do! put (Fungible a available locked) in
         lift (fungible a amt)) self
  | NonFungible a token_ids locked =>
      (let! popped := lift (pop_tokens amt token_ids) in
       do! put (NonFungible a popped.2 (locked ∪ popped.1)) in
       ret (non_fungible a popped.1)) self
  | CtConfidential a c revealed_amount lc locked =>
      if revealed_amount <? amt then (Err InsufficientBalance, self)
      else
        (let! revealed_amount := lift (Amount.sub revealed_amount amt) in
         do! put (CtConfidential a c revealed_amount lc locked) in
         let! locked := lift (Amount.add locked amt) in
         do! put (CtConfidential a c revealed_amount lc locked) in
         lift (confidential a [] amt)) self
  | Stealth a available locked =>
      if available <? amt then (Err InsufficientBalance, self)
      else
        (let! available := lift (Amount.sub available amt) in
         do! put (Stealth a available locked) in
         let! locked := lift (Amount.add locked amt) in
         do! put (Stealth a available locked) in
         lift (stealth a amt)) self
  end.
End resource_container.

(** ** Well-formed containers *)
Definition amounts_wf (available locked : Z) : Prop :=
  0 ≤ available ∧ 0 ≤ locked ∧ available + locked ≤ i192_MAX.

Definition container_wf (c : ResourceContainer) : Prop :=
  match c with
  | Fungible _ amount locked => amounts_wf amount locked
  | NonFungible _ ids locked => ids ## locked ∧ len_of ids + len_of locked < USIZE_LIMIT
  | CtConfidential _ c r lc lr => c ##ₘ lc ∧ amounts_wf r lr
  | Stealth _ r locked => amounts_wf r locked
  end.

(** [splits self self' out]: [out], which has nothing locked, was taken out of
    the available part of [self], and [self'] is what remains. *)
Definition splits (self self' out : ResourceContainer) : Prop :=
  match self, self', out with
  | Fungible a x l, Fungible a' x' l', Fungible a'' y ly =>
      a' = a ∧ a'' = a ∧ l' = l ∧ ly = 0 ∧ x = x' + y ∧ 0 ≤ x' ∧ 0 ≤ y
  | NonFungible a ids l, NonFungible a' ids' l', NonFungible a'' out ly =>
      a' = a ∧ a'' = a ∧ l' = l ∧ ly = ∅ ∧ ids = ids' ∪ out ∧ ids' ## out
  | CtConfidential a c r lc lr, CtConfidential a' c' r' lc' lr', CtConfidential a'' co ro lco lro =>
      a' = a ∧ a'' = a ∧ lc' = lc ∧ lr' = lr ∧ lco = ∅ ∧ lro = 0 ∧
      c = c' ∪ co ∧ c' ##ₘ co ∧ r = r' + ro ∧ 0 ≤ r' ∧ 0 ≤ ro
  | Stealth a x l, Stealth a' x' l', Stealth a'' y ly =>
      a' = a ∧ a'' = a ∧ l' = l ∧ ly = 0 ∧ x = x' + y ∧ 0 ≤ x' ∧ 0 ≤ y
  | _, _, _ => False
  end.

(** [locks self self' out]: the available part [out] of [self] was moved to its
    locked part. *)
Definition locks (self self' out : ResourceContainer) : Prop :=
  match self, self', out with
  | Fungible a x l, Fungible a' x' l', Fungible a'' y ly =>
      a' = a ∧ a'' = a ∧ ly = 0 ∧ x = x' + y ∧ l' = l + y ∧ 0 ≤ x' ∧ 0 ≤ y
  | NonFungible a ids l, NonFungible a' ids' l', NonFungible a'' out ly =>
      a' = a ∧ a'' = a ∧ ly = ∅ ∧ ids = ids' ∪ out ∧ ids' ## out ∧ l' = l ∪ out
  | CtConfidential a c r lc lr, CtConfidential a' c' r' lc' lr', CtConfidential a'' co ro lco lro =>
      a' = a ∧ a'' = a ∧ lco = ∅ ∧ lro = 0 ∧
      c = c' ∪ co ∧ c' ##ₘ co ∧ lc' = co ∪ lc ∧ r = r' + ro ∧ lr' = lr + ro ∧ 0 ≤ r' ∧ 0 ≤ ro
  | Stealth a x l, Stealth a' x' l', Stealth a'' y ly =>
      a' = a ∧ a'' = a ∧ ly = 0 ∧ x = x' + y ∧ l' = l + y ∧ 0 ≤ x' ∧ 0 ≤ y
  | _, _, _ => False
  end.

(** ** Lemmas on the loops *)
Section container_lemmas.
Context `{Ii : !I192} `{Ic : !Crypto}.

Lemma len_of_union (s t : gset NonFungibleId) : s ## t → len_of (s ∪ t) = len_of s + len_of t.
Proof. intros. unfold len_of. rewrite size_union by done. lia. Qed.

Lemma len_of_nonneg (s : gset NonFungibleId) : 0 ≤ len_of s.
Proof. unfold len_of. lia. Qed.

Lemma is_non_negative_true (a : Z) : 0 ≤ a → Amount.is_non_negative a = true.
Proof.
  intros. unfold Amount.is_non_negative, Amount.is_positive, Amount.is_zero.
  destruct (Z.ltb_spec 0 a), (Z.eqb_spec a 0); simpl; try done; lia.
Qed.

Lemma foldl_insert_list_to_map (l : list (CommitmentBytes * PrivateOutput))
    (m : gmap CommitmentBytes PrivateOutput) :
  NoDup l.*1 → foldl (λ m c, <[ c.1 := c.2 ]> m) m l = list_to_map l ∪ m.
Proof.
  revert m. induction l as [|[k v] l IH]; intros m Hn; simpl.
  - by rewrite (left_id_L ∅ (∪)).
  - apply list.NoDup_cons in Hn as [Hk Hn]. rewrite IH by done.
    rewrite <- insert_union_l, <- insert_union_r; [done|].
    by apply not_elem_of_list_to_map_1.
Qed.

Lemma foldl_insert_iter (m : gmap CommitmentBytes PrivateOutput) :
  foldl (λ m c, <[ c.1 := c.2 ]> m) ∅ (btree_map_iter m) = m.
Proof.
  rewrite foldl_insert_list_to_map by apply btree_map_iter_NoDup.
  by rewrite list_to_map_btree_iter, (right_id_L ∅ (∪)).
Qed.

Lemma insert_commitments_Ok (l : list (CommitmentBytes * PrivateOutput))
    (m : gmap CommitmentBytes PrivateOutput) :
  NoDup l.*1 → (list_to_map l : gmap _ _) ##ₘ m →
  insert_commitments l m = (Ok tt, list_to_map l ∪ m).
Proof.
  revert m. induction l as [|[k v] l IH]; intros m Hn Hd; simpl.
  - by rewrite (left_id_L ∅ (∪)).
  - apply list.NoDup_cons in Hn as [Hk Hn]. simpl in Hd.
    apply map_disjoint_insert_l in Hd as [Hm Hd].
    apply not_elem_of_list_to_map_1 in Hk. rewrite Hm.
    rewrite IH; [|done|by apply map_disjoint_insert_r].
    by rewrite <- insert_union_l, <- insert_union_r.
Qed.

Lemma take_tokens_Ok (ids : list NonFungibleId) (tokens tokens' taken : gset NonFungibleId) :
  NoDup ids → take_tokens ids tokens = (Ok taken, tokens') →
  taken = list_to_set ids ∧ tokens = tokens' ∪ taken ∧ tokens' ## taken.
Proof.
  intros Hn. revert tokens taken. induction Hn as [|id ids Hid Hn IH]; intros tokens taken; simpl.
  - intros ?. inv_ok. set_solver.
  - case_decide; [|done]. intros ?. inv_ok.
    match goal with H : take_tokens _ _ = _ |- _ => apply IH in H as (-> & Heq & Hd) end.
    assert (id ∉ tokens') by set_solver.
    split_and!; [done| |set_solver]. apply set_eq. intros y.
    destruct (decide (y = id)); set_solver.
Qed.

Lemma take_tokens_complete (ids : list NonFungibleId) (tokens : gset NonFungibleId) :
  NoDup ids → (∀ id, id ∈ ids → id ∈ tokens) →
  ∃ taken tokens', take_tokens ids tokens = (Ok taken, tokens').
Proof.
  intros Hn. revert tokens. induction Hn as [|id ids Hid Hn IH]; intros tokens Hs; simpl; [by eauto|].
  rewrite decide_True by set_solver.
  destruct (IH (tokens ∖ {[id]})) as (taken & tokens' & E); [set_solver|].
  unfold bind. rewrite E. by eauto.
Qed.

Lemma recall_entries_Ok (cs : list CommitmentBytes)
    (m m' : gmap CommitmentBytes PrivateOutput) l :
  recall_entries cs m = (Ok l, m') →
  l.*1 = cs ∧ NoDup cs ∧ m = m' ∪ list_to_map l ∧ m' ##ₘ list_to_map l.
Proof.
  revert m l. induction cs as [|c cs IH]; intros m l; simpl.
  - intros ?. inv_ok. split_and!; [done|constructor| |apply map_disjoint_empty_r].
    by rewrite (right_id_L ∅ (∪)).
  - destruct (m !! c) as [o|] eqn:Ec; [|done]. intros ?. inv_ok.
    match goal with H : recall_entries _ _ = _ |- _ => apply IH in H as (Hk & Hn & Heq & Hd) end.
    assert (m' !! c = None ∧ (list_to_map x : gmap _ _) !! c = None) as [Hc Hx].
    { apply lookup_union_None. rewrite <- Heq. apply lookup_delete_eq. }
    assert (c ∉ cs) by (rewrite <- Hk; by apply not_elem_of_list_to_map).
    split_and!; simpl; [by f_equal|by constructor| |].
    + rewrite <- insert_union_r, <- Heq, insert_delete_id by done. done.
    + by apply map_disjoint_insert_r.
Qed.

Lemma unlock_tokens_Ok (ids : list NonFungibleId) (tokens locked : gset NonFungibleId) :
  NoDup ids → (∀ id, id ∈ ids → id ∈ locked) →
  unlock_tokens ids (tokens, locked) =
    (Ok tt, (tokens ∪ list_to_set ids, locked ∖ list_to_set ids)).
Proof.
  intros Hn. revert tokens locked.
  induction Hn as [|id ids Hid Hn IH]; intros tokens locked Hs; simpl.
  - unfold ret. do 2 f_equal; set_solver.
  - rewrite decide_True by set_solver. rewrite IH by set_solver.
    do 2 f_equal; set_solver.
Qed.

Lemma lock_tokens_Ok (ids : list NonFungibleId) tokens locked tokens' locked' newly :
  NoDup ids → lock_tokens ids (tokens, locked) = (Ok newly, (tokens', locked')) →
  newly = list_to_set ids ∧ tokens = tokens' ∪ newly ∧ tokens' ## newly ∧
  locked' = locked ∪ newly.
Proof.
  intros Hn. revert tokens locked newly.
  induction Hn as [|id ids Hid Hn IH]; intros tokens locked newly; simpl.
  - intros ?. inv_ok. split_and!; set_solver.
  - case_decide; [|done]. intros ?. inv_ok.
    match goal with H : lock_tokens _ _ = _ |- _ => apply IH in H as (-> & Heq & Hd & ->) end.
    assert (id ∉ tokens') by set_solver.
    split_and!; [done| |set_solver|set_solver]. apply set_eq. intros y.
    destruct (decide (y = id)); set_solver.
Qed.

Lemma unlock_commitments_Ok (l : list (CommitmentBytes * PrivateOutput))
    (commitments locked : gmap CommitmentBytes PrivateOutput) :
  NoDup l.*1 → (∀ k v, (k, v) ∈ l → commitments !! k = None) →
  (list_to_map l : gmap _ _) ##ₘ locked →
  unlock_commitments (map fst l) (commitments, list_to_map l ∪ locked) =
    (Ok tt, (list_to_map l ∪ commitments, locked)).
Proof.
  revert commitments locked.
  induction l as [|[k v] l IH]; intros commitments locked Hn Hc Hd; cbn [map fst list_to_map foldr].
  - unfold unlock_commitments, ret. simpl. by rewrite !(left_id_L ∅ (∪)).
  - apply list.NoDup_cons in Hn as [Hk Hn]. simpl in Hd.
    apply map_disjoint_insert_l in Hd as [Hm Hd].
    apply not_elem_of_list_to_map_1 in Hk as Hk'.
    cbn [unlock_commitments]. rewrite lookup_union_l by by rewrite Hm.
    simpl. rewrite lookup_insert_eq, (Hc k v) by left.
    rewrite <- insert_union_l, delete_insert_id by by rewrite lookup_union_None.
    rewrite IH; [|done| |done].
    + rewrite <- insert_union_r by done. by rewrite insert_union_l.
    + intros k' v' Hin. rewrite lookup_insert_ne.
      * eapply Hc. by right.
      * intros <-. apply Hk. by apply (list_elem_of_fmap_2 fst) in Hin.
Qed.
End container_lemmas.

(** ** Theorems *)
Section container_theorems.
Context `{Ii : !I192} `{Ic : !Crypto}.

Lemma sub_ok {E : Type} (a b : Z) :
  0 ≤ a ≤ i192_MAX → 0 ≤ b ≤ a → @Amount.sub _ E a b = Ok (a - b).
Proof. intros. apply sub_in_range. unfold i192_in, i192_MIN, i192_MAX in *. lia. Qed.

Lemma add_ok {E : Type} (a b : Z) :
  0 ≤ a → 0 ≤ b → a + b ≤ i192_MAX → @Amount.add _ E a b = Ok (a + b).
Proof. intros. apply add_in_range. unfold i192_in, i192_MIN in *. lia. Qed.

Lemma pop_tokens_spec (amt : Z) (ids : gset NonFungibleId) :
  0 ≤ amt → len_of ids < USIZE_LIMIT →
  if decide (len_of ids < amt) then pop_tokens amt ids = Err InsufficientBalance
  else ∃ taken rest, pop_tokens amt ids = Ok (taken, rest) ∧
         ids = rest ∪ taken ∧ rest ## taken ∧ len_of taken = amt ∧
         (∀ x y, x ∈ taken → y ∈ rest → ord_le x y).
Proof.
  intros Hamt Hlen. unfold pop_tokens, Amount.partial_cmp_usize, Amount.is_negative,
    Amount.to_u64_checked, USIZE_LIMIT in *.
  destruct (Z.ltb_spec amt 0); [lia|]. pose proof (len_of_nonneg ids).
  case_decide as Hc.
  - destruct (Z.leb_spec 0 amt), (Z.ltb_spec amt (2 ^ 64)); simpl; try lia; [|done].
    destruct (Z.compare_spec amt (len_of ids)); try done; lia.
  - destruct (Z.leb_spec 0 amt), (Z.ltb_spec amt (2 ^ 64)); try lia. simpl.
    destruct (pop_first_n_spec (Z.to_nat amt) ids) as (s' & Hp & Hs').
    { unfold len_of in *. lia. }
    pose proof (pop_first_n_split _ _ _ _ Hp) as (Hl & Happ & Hu & Hd).
    exists (list_to_set (take (Z.to_nat amt) (btree_iter ids))), s'.
    rewrite Hp. simpl. split_and!.
    + by destruct (Z.compare_spec amt (len_of ids)).
    + rewrite Hu at 1. apply union_comm_L.
    + by symmetry.
    + pose proof (btree_iter_NoDup ids) as Hn. rewrite <- Happ in Hn.
      apply list.NoDup_app in Hn as [Hn _]. unfold len_of.
      rewrite size_list_to_set by done. lia.
    + intros x y Hx%elem_of_list_to_set Hy%elem_of_btree_iter.
      pose proof (btree_iter_sorted ids) as Hsort. rewrite <- Happ in Hsort.
      eapply StronglySorted_app_1_elem_of; eauto.
Qed.

Lemma withdraw_outcome (amt : Z) (self : ResourceContainer) :
  container_wf self →
  if decide (amt ≤ 0) then withdraw amt self = (Err InvariantError, self)
  else if decide (amount self < amt) then withdraw amt self = (Err InsufficientBalance, self)
  else ∃ out self', withdraw amt self = (Ok out, self') ∧
         splits self self' out ∧ container_wf self' ∧ amount out = amt ∧
         (∀ x y, x ∈ non_fungible_token_ids out → y ∈ non_fungible_token_ids self' →
                 ord_le x y).
Proof.
  intros Hwf. unfold withdraw, Amount.is_positive.
  case_decide as Hpos; [by destruct (Z.ltb_spec 0 amt); [lia|]|].
  destruct (Z.ltb_spec 0 amt) as [_|]; [|lia]. simpl negb. cbv iota.
  destruct self as [a x l|a ids l|a c r lc lr|a x l]; simpl in Hwf |- *; unfold amounts_wf in Hwf.
  1, 3, 4: match goal with |- context [?v <? ?w] =>
      destruct (Z.ltb_spec v w); [by rewrite decide_True|] end;
    rewrite decide_False by lia; unfold bind, lift, put; rewrite sub_ok by lia;
    unfold fungible, confidential, stealth; rewrite is_non_negative_true by lia; simpl;
    do 2 eexists; (split; [done|]); simpl; unfold amounts_wf.
  - split_and!; (done || lia || set_solver).
  - rewrite (right_id_L ∅ (∪)).
    split_and!; try (done || lia || set_solver).
  - split_and!; (done || lia || set_solver).
  - destruct Hwf as [Hd Hlen]. pose proof (len_of_nonneg l).
    pose proof (pop_tokens_spec amt ids) as Hp. unfold bind, lift, put, ret.
    case_decide as Hc; [by rewrite Hp by lia|].
    destruct Hp as (taken & rest & -> & -> & Hdt & Ht & Hord); [lia..|]. simpl.
    rewrite len_of_union in Hlen by done. pose proof (len_of_nonneg taken).
    do 2 eexists; (split; [done|]); simpl. split_and!; try done; [set_solver|lia].
Qed.

(** Taking a part out of a container: the four operations that do. *)
Inductive takes_out (self self' out : ResourceContainer) : Prop :=
  | takes_withdraw amt : withdraw amt self = (Ok out, self') → takes_out self self' out
  | takes_withdraw_all : withdraw_all self = (Ok out, self') → takes_out self self' out
  | takes_withdraw_by_ids ids :
      withdraw_by_ids ids self = (Ok out, self') → takes_out self self' out
  | takes_recall cs r :
      i192_in r →
      recall_confidential_commitments cs r self = (Ok out, self') → takes_out self self' out.

Lemma is_non_negative_inv (a : Z) : Amount.is_non_negative a = true → 0 ≤ a.
Proof.
  unfold Amount.is_non_negative, Amount.is_positive, Amount.is_zero.
  destruct (Z.ltb_spec 0 a), (Z.eqb_spec a 0); simpl; intros; try done; lia.
Qed.

Lemma splits_wf (self self' out : ResourceContainer) :
  container_wf self → splits self self' out → container_wf self'.
Proof.
  destruct self, self', out; simpl; try done; unfold amounts_wf; intros Hwf Hs;
    destruct_and!; simplify_eq; split_and?; try lia; try set_solver.
  - pose proof (len_of_nonneg token_ids1). rewrite len_of_union in * by done. lia.
Qed.

Lemma withdraw_splits (amt : Z) (self self' out : ResourceContainer) :
  container_wf self → withdraw amt self = (Ok out, self') → splits self self' out.
Proof.
  intros Hwf Hw. pose proof (withdraw_outcome amt self Hwf) as Hs. rewrite Hw in Hs.
  repeat case_decide; naive_solver.
Qed.

Lemma withdraw_all_splits (self self' out : ResourceContainer) :
  container_wf self → withdraw_all self = (Ok out, self') → splits self self' out.
Proof.
  intros Hwf. destruct self as [| |a c r lc lr|]; [by apply withdraw_splits..| |by apply withdraw_splits].
  simpl in Hwf. unfold amounts_wf in Hwf. destruct Hwf as (_ & Hr & _).
  unfold withdraw_all, confidential, bind, put, lift. rewrite is_non_negative_true by done.
  rewrite foldl_insert_iter. intros [= <- <-]. simpl.
  split_and!; try (done || lia); [by rewrite (left_id_L ∅ (∪))|apply map_disjoint_empty_l].
Qed.

Lemma withdraw_by_ids_splits (ids : gset NonFungibleId) (self self' out : ResourceContainer) :
  withdraw_by_ids ids self = (Ok out, self') → splits self self' out.
Proof.
  destruct self as [|a t l| |]; try done. unfold withdraw_by_ids.
  destruct (take_tokens _ _) as [r t'] eqn:E. intros Hw. inv_ok. subst.
  apply take_tokens_Ok in E as (-> & -> & Hd); [|apply btree_iter_NoDup].
  simpl. split_and!; done.
Qed.

Lemma recall_splits (cs : gset CommitmentBytes) (r : Z) (self self' out : ResourceContainer) :
  container_wf self → i192_in r →
  recall_confidential_commitments cs r self = (Ok out, self') → splits self self' out.
Proof.
  destruct self as [| |a c r0 lc lr|]; try done. intros (_ & Hr0 & Hlr & Hmax) Hr.
  unfold recall_confidential_commitments.
  destruct (Z.ltb_spec r0 r) as [|Hle]; [done|]. intros Hw.
  destruct (recall_entries _ _) as [q c'] eqn:E.
  apply bind_Ok in Hw as (rest & ? & Hsub & Hw). inv_ok.
  unfold confidential in *.
  destruct (Amount.is_non_negative r) eqn:Hn; [|done]. apply is_non_negative_inv in Hn.
  rewrite sub_ok in * by lia. inv_ok.
  apply recall_entries_Ok in E as (Hk & Hnd & -> & Hd).
  rewrite foldl_insert_list_to_map by by rewrite Hk.
  rewrite (right_id_L ∅ (∪)). simpl. split_and!; (done || lia).
Qed.

(** Depositing what was split off gives the container back. *)
Lemma deposit_splits (self self' out : ResourceContainer) :
  container_wf self → splits self self' out → deposit out self' = (Ok tt, self).
Proof.
  destruct self as [a x l|a ids l|a c r lc lr|a x l], self', out; simpl; try done;
    unfold amounts_wf; intros Hwf Hs; destruct_and!; simplify_eq;
    unfold deposit; rewrite bool_decide_false by (simpl; auto); simpl.
  - unfold bind, lift, put. by rewrite add_ok by lia.
  - rewrite len_of_union in * by done. pose proof (len_of_nonneg l).
    by destruct (Z.leb_spec USIZE_LIMIT (len_of token_ids + len_of token_ids0)); [lia|].
  - rewrite insert_commitments_Ok; rewrite ?list_to_map_btree_iter;
      [|apply btree_map_iter_NoDup|by apply map_disjoint_sym].
    unfold bind, lift, put. rewrite add_ok by lia. by rewrite map_union_comm.
  - unfold bind, lift, put. by rewrite add_ok by lia.
Qed.

(** [withdraw] is total on well-formed containers and never panics.  It
    refuses an amount that is not positive, or larger than the available
    balance, and then changes nothing.  Otherwise it splits off exactly the
    requested amount: nothing is created or lost, the locked part is not
    touched, and for non-fungible tokens the smallest ids are taken. *)
Theorem withdraw_spec (amt : Z) (self : ResourceContainer) :
  container_wf self →
  if decide (amt ≤ 0) then withdraw amt self = (Err InvariantError, self)
  else if decide (amount self < amt) then withdraw amt self = (Err InsufficientBalance, self)
  else ∃ out self', withdraw amt self = (Ok out, self') ∧
         splits self self' out ∧ container_wf self' ∧ amount out = amt ∧
         (∀ x y, x ∈ non_fungible_token_ids out → y ∈ non_fungible_token_ids self' →
                 ord_le x y).
Proof. apply withdraw_outcome. Qed.

(** C30: taking a part out of a well-formed container and depositing it again is
    the identity, for [withdraw], [withdraw_all], [withdraw_by_ids] and
    [recall_confidential_commitments]; in between, the container and the part
    together hold exactly what the container held, and the container is
    well-formed. *)
Theorem take_deposit_roundtrip (self self' out : ResourceContainer) :
  container_wf self → takes_out self self' out →
  splits self self' out ∧ container_wf self' ∧ deposit out self' = (Ok tt, self).
Proof.
  intros Hwf Ht. assert (splits self self' out) as Hs.
  { destruct Ht; eauto using withdraw_splits, withdraw_all_splits, withdraw_by_ids_splits,
      recall_splits. }
  eauto using splits_wf, deposit_splits.
Qed.

(** Locking a part of a container, as the engine does to create a proof.
    [lock_all] of the two kinds whose lock it records faithfully. *)
Inductive locks_out (self self' out : ResourceContainer) : Prop :=
  | locks_by_amount amt :
      i192_in amt → lock_by_amount amt self = (Ok out, self') → locks_out self self' out
  | locks_by_ids ids :
      lock_by_non_fungible_ids ids self = (Ok out, self') → locks_out self self' out
  | locks_lock_all :
      resource_type self = RtFungible ∨ resource_type self = RtNonFungible →
      lock_all self = (Ok out, self') → locks_out self self' out.

Lemma locks_wf (self self' out : ResourceContainer) :
  container_wf self → locks self self' out → container_wf self'.
Proof.
  destruct self, self', out; simpl; try done; unfold amounts_wf; intros Hwf Hs;
    destruct_and!; simplify_eq; split_and?; try lia; try set_solver.
  - rewrite !len_of_union in * by set_solver. lia.
Qed.

Lemma lock_by_amount_locks (amt : Z) (self self' out : ResourceContainer) :
  container_wf self → i192_in amt →
  lock_by_amount amt self = (Ok out, self') → locks self self' out.
Proof.
  intros Hwf Hin.
  destruct self as [a x l|a ids l|a c r lc lr|a x l]; simpl in Hwf |- *; unfold amounts_wf in Hwf.
  1, 3, 4: match goal with |- context [?v <? ?w] => destruct (Z.ltb_spec v w); [done|] end;
    unfold bind, lift, put, fungible, confidential, stealth;
    destruct (Amount.is_non_negative amt) eqn:Hn;
    [apply is_non_negative_inv in Hn; rewrite sub_ok, add_ok by lia; simpl; intros [= <- <-];
     simpl; rewrite ?(right_id_L ∅ (∪)), ?(left_id_L ∅ (∪));
     split_and!; (done || lia || apply map_disjoint_empty_r)
    |case_all; intros ?; simplify_eq/=].
  - unfold bind, lift, put, ret. destruct (decide (0 ≤ amt)) as [Hn|Hn].
    + pose proof (pop_tokens_spec amt ids Hn) as Hp. pose proof (len_of_nonneg l).
      case_decide; [by rewrite Hp by lia|].
      destruct Hp as (taken & rest & -> & -> & Hdt & _); [lia|]. intros [= <- <-].
      simpl. by split_and!.
    + unfold pop_tokens, Amount.partial_cmp_usize, Amount.is_negative, Amount.to_u64_checked.
      destruct (Z.ltb_spec amt 0); [|lia]. by destruct (Z.leb_spec 0 amt); [lia|].
Qed.

Lemma lock_by_ids_locks (ids : gset NonFungibleId) (self self' out : ResourceContainer) :
  lock_by_non_fungible_ids ids self = (Ok out, self') → locks self self' out.
Proof.
  destruct self as [|a t l| |]; try done. unfold lock_by_non_fungible_ids.
  destruct (lock_tokens _ _) as [r [t' l']] eqn:E. intros Hw. inv_ok. subst.
  apply lock_tokens_Ok in E as (-> & -> & Hd & ->); [|apply btree_iter_NoDup].
  simpl. by split_and!.
Qed.

Lemma lock_all_locks (self self' out : ResourceContainer) :
  container_wf self → resource_type self = RtFungible ∨ resource_type self = RtNonFungible →
  lock_all self = (Ok out, self') → locks self self' out.
Proof.
  intros Hwf Ht. destruct self as [a x l|a t l| |]; [| |naive_solver..]; simpl in Hwf |- *.
  - unfold Amount.is_zero, amounts_wf in *. destruct (Z.eqb_spec x 0); [done|].
    unfold bind, lift, put, fungible. rewrite is_non_negative_true by lia.
    rewrite add_ok by lia. simpl. intros [= <- <-]. split_and!; (done || lia).
  - case_bool_decide; [done|]. intros [= <- <-]. simpl. split_and!; set_solver.
Qed.

(** Unlocking what was locked gives the container back. *)
Lemma unlock_locks (self self' out : ResourceContainer) :
  container_wf self → locks self self' out → unlock out self' = (Ok tt, self).
Proof.
  destruct self as [a x l|a ids l|a c r lc lr|a x l], self', out; simpl; try done;
    unfold amounts_wf; intros Hwf Hs; destruct_and!; simplify_eq;
    unfold unlock; rewrite !bool_decide_false by (simpl; auto); simpl.
  - destruct (Z.ltb_spec (l + amount1) amount1); [lia|].
    unfold bind, lift, put. rewrite add_ok, sub_ok by lia. do 2 f_equal. lia.
  - rewrite len_of_union by set_solver. pose proof (len_of_nonneg l).
    destruct (Z.ltb_spec (len_of l + len_of token_ids0) (len_of token_ids0)); [lia|].
    rewrite unlock_tokens_Ok; [|apply btree_iter_NoDup|intros id; rewrite elem_of_btree_iter; set_solver].
    rewrite list_to_set_btree_iter. unfold bind, put, lift. do 2 f_equal; set_solver.
  - assert (commitments0 ##ₘ lc) by (by eapply map_disjoint_union_l).
    destruct (Z.ltb_spec (Z.of_nat (size (commitments0 ∪ lc))) (Z.of_nat (size commitments0))) as [Hlt|_].
    { rewrite map_size_disj_union in Hlt by done. lia. }
    destruct (Z.ltb_spec (lr + revealed_amount0) revealed_amount0); [lia|].
    pose proof (unlock_commitments_Ok (btree_map_iter commitments0) commitments lc) as Hu.
    rewrite list_to_map_btree_iter in Hu. rewrite Hu; [|apply btree_map_iter_NoDup| |done].
    + unfold bind, lift, put. rewrite add_ok, sub_ok by lia.
      do 2 f_equal; [by apply map_union_comm|lia].
    + intros k v Hk%elem_of_btree_map_iter. by eapply map_disjoint_Some_r.
  - destruct (Z.ltb_spec (l + revealed_amount0) revealed_amount0); [lia|].
    unfold bind, lift, put. rewrite add_ok, sub_ok by lia. do 2 f_equal. lia.
Qed.

(** locking a part of a well-formed container and unlocking it again is the
    identity, for [lock_by_amount], [lock_by_non_fungible_ids] and, on fungible
    and non-fungible containers, [lock_all]; in between the container is
    well-formed and the part has moved from its available to its locked side. *)
Theorem lock_unlock_roundtrip (self self' out : ResourceContainer) :
  container_wf self → locks_out self self' out →
  locks self self' out ∧ container_wf self' ∧ unlock out self' = (Ok tt, self).
Proof.
  intros Hwf Ht. assert (locks self self' out) as Hs.
  { destruct Ht; eauto using lock_by_amount_locks, lock_by_ids_locks, lock_all_locks. }
  eauto using locks_wf, unlock_locks.
Qed.

(** [lock_all] on a confidential container moves its commitments to the
    locked side but leaves the revealed amount available while also counting it
    as locked; unlocking the returned proof afterwards therefore leaves the
    container with twice the revealed amount it started with. *)
Theorem lock_all_confidential_doubles_revealed (a : ResourceAddress)
    (c lc : gmap CommitmentBytes PrivateOutput) (r lr : Z) :
  container_wf (CtConfidential a c r lc lr) → c ≠ ∅ → r + r ≤ i192_MAX →
  ∃ out self',
    lock_all (CtConfidential a c r lc lr) = (Ok out, self') ∧
    amount self' = r ∧ locked_amount self' = lr + r ∧
    unlock out self' = (Ok tt, CtConfidential a c (r + r) lc lr).
Proof.
  intros (Hd & Hr & Hlr & Hmax) Hc Hrr. unfold lock_all.
  rewrite bool_decide_false by done. unfold bind, lift, put, confidential.
  rewrite add_ok, is_non_negative_true, foldl_insert_iter by lia.
  do 2 eexists. split; [done|]. simpl. split_and!; [done..|].
  unfold unlock. rewrite !bool_decide_false by (simpl; auto). simpl.
  destruct (Z.ltb_spec (Z.of_nat (size (c ∪ lc))) (Z.of_nat (size c))) as [Hlt|_].
  { rewrite map_size_disj_union in Hlt by done. lia. }
  destruct (Z.ltb_spec (lr + r) r); [lia|].
  pose proof (unlock_commitments_Ok (btree_map_iter c) ∅ lc) as Hu.
  rewrite list_to_map_btree_iter in Hu.
  rewrite Hu; [|apply btree_map_iter_NoDup|intros; apply lookup_empty|done].
  unfold bind, lift, put. rewrite add_ok, sub_ok by lia.
  rewrite (right_id_L ∅ (∪)). do 2 f_equal. lia.
Qed.

(** [lock_all] on a stealth container returns its lock as a fungible
    container, which [unlock] then refuses as being of the wrong type: the
    revealed funds stay locked. *)
Theorem lock_all_stealth_not_unlockable (a : ResourceAddress) (r l : Z) :
  container_wf (Stealth a r l) → r ≠ 0 →
  ∃ out,
    lock_all (Stealth a r l) = (Ok out, Stealth a 0 (l + r)) ∧
    unlock out (Stealth a 0 (l + r)) =
      (Err (ResourceTypeMismatch "unlock" RtStealth RtFungible), Stealth a 0 (l + r)).
Proof.
  intros (Hr & Hl & Hmax) Hnz. unfold lock_all, Amount.is_zero.
  destruct (Z.eqb_spec r 0); [done|]. unfold bind, lift, put, fungible.
  rewrite add_ok, is_non_negative_true by lia. by eexists.
Qed.

Lemma sub_no_err {E : Type} (x y : Z) (e : E) : Amount.sub x y ≠ Err e.
Proof. unfold Amount.sub. by destruct (i192_sub x y). Qed.

Lemma add_no_err {E : Type} (x y : Z) (e : E) : Amount.add x y ≠ Err e.
Proof. unfold Amount.add. by destruct (i192_add x y). Qed.

(** [lock_by_amount] does not refuse a negative amount: on every container
    it passes the balance check and then panics, either in the arithmetic or in
    the assertion that the locked part is non-negative. *)
Theorem lock_by_amount_negative_panics (amt : Z) (self : ResourceContainer) :
  container_wf self → amt < 0 → (lock_by_amount amt self).1 = Panic.
Proof.
  intros Hwf Hneg. assert (Amount.is_non_negative amt = false) as Hn.
  { unfold Amount.is_non_negative, Amount.is_positive, Amount.is_zero.
    by destruct (Z.ltb_spec 0 amt), (Z.eqb_spec amt 0); simpl; try lia. }
  destruct self as [a x l|a ids l|a c r lc lr|a x l]; simpl in Hwf |- *; unfold amounts_wf in Hwf.
  1, 3, 4: match goal with |- context [?v <? ?w] => destruct (Z.ltb_spec v w); [lia|] end;
    unfold bind, lift, put, fungible, confidential, stealth; rewrite Hn;
    match goal with |- context [@Amount.sub _ ?E ?u ?w] =>
      pose proof (λ e : E, sub_no_err u w e) as Hs; destruct (Amount.sub u w) as [v|e|] end;
    [|by destruct (Hs e)|done];
    match goal with |- context [@Amount.add _ ?E ?u ?w] =>
      pose proof (λ e : E, add_no_err u w e) as Ha; destruct (Amount.add u w) as [v'|e|] end;
    [done|by destruct (Ha e)|done].
  unfold bind, lift, pop_tokens, Amount.partial_cmp_usize, Amount.is_negative, Amount.to_u64_checked.
  destruct (Z.ltb_spec amt 0); [|lia]. by destruct (Z.leb_spec 0 amt); [lia|].
Qed.

(** ** Confidential withdrawals *)
Lemma remove_inputs_Ok (inputs : list CommitmentBytes)
    (m m' : gmap CommitmentBytes PrivateOutput) (ps : list Point) :
  remove_inputs inputs m = (Ok ps, m') →
  Forall2 (λ b p, point_from_canonical_bytes b = Some p) inputs ps ∧ NoDup inputs ∧
  (∀ k, m' !! k = if decide (k ∈ inputs) then None else m !! k) ∧
  (∀ k, k ∈ inputs → is_Some (m !! k)).
Proof.
  revert m ps. induction inputs as [|b inputs IH]; intros m ps; simpl.
  - intros ?. inv_ok. split_and!; [constructor|constructor| |set_solver].
    intros k. done.
  - destruct (point_from_canonical_bytes b) as [p|] eqn:Hb; [|done].
    destruct (m !! b) as [o|] eqn:Hm; [|done]. intros ?. inv_ok.
    match goal with H : remove_inputs _ _ = _ |- _ => apply IH in H as (Hf & Hn & Hl & Hs) end.
    assert (b ∉ inputs) as Hbi.
    { intros Hin. destruct (Hs b Hin) as [? Hx]. by rewrite lookup_delete_eq in Hx. }
    split_and!; [by constructor|by constructor| |].
    + intros k. rewrite Hl. destruct (decide (k = b)) as [->|].
      * rewrite lookup_delete_eq. by repeat case_decide; set_solver.
      * rewrite lookup_delete_ne by done. repeat case_decide; set_solver.
    + intros k [->|Hk]%elem_of_cons; [by eauto|]. destruct (Hs k Hk) as [v Hv].
      apply lookup_delete_Some in Hv as [_ ?]. by eauto.
Qed.

(** The revealed change reaches the container only with a change output. *)
Definition change_credit (vp : ValidatedConfidentialWithdrawProof) : Z :=
  match vcw_change_output vp with
  | Some _ => vcw_change_revealed_amount vp
  | None => 0
  end.

(** a successful confidential withdrawal has removed each input commitment,
    all of them different and present before, has added the change commitment,
    a new one, and nothing else; its output holds the output commitment and the
    revealed output amount.  The revealed balance goes down by the revealed
    input amount, and is credited with the revealed change only when there is a
    change output. *)
Theorem withdraw_confidential_spec (a : ResourceAddress)
    (c lc : gmap CommitmentBytes PrivateOutput) (r lr : Z)
    (proof : ConfidentialWithdrawProof) (view_key : option Point)
    (self' out : ResourceContainer) :
  container_wf (CtConfidential a c r lc lr) →
  r + cos_change_revealed_amount (cwp_output_proof proof) ≤ i192_MAX →
  withdraw_confidential proof view_key (CtConfidential a c r lc lr) = (Ok out, self') →
  ∃ inputs vp c' r',
    Forall2 (λ b p, point_from_canonical_bytes b = Some p) (cwp_inputs proof) inputs ∧
    validate_confidential_withdraw inputs view_key proof = Ok vp ∧
    NoDup (cwp_inputs proof) ∧
    (∀ b, b ∈ cwp_inputs proof → is_Some (c !! b)) ∧
    self' = CtConfidential a c' r' lc lr ∧
    r' = r - vcw_input_revealed_amount vp + change_credit vp ∧
    (∀ b, c' !! b =
       match vcw_change_output vp with
       | Some o => if decide (b = (output_entry o).1) then Some (output_entry o).2
                   else if decide (b ∈ cwp_inputs proof) then None else c !! b
       | None => if decide (b ∈ cwp_inputs proof) then None else c !! b
       end) ∧
    out = CtConfidential a (list_to_map (map output_entry (option_list (vcw_output vp))))
            (vcw_output_revealed_amount vp) ∅ 0.
Proof.
  intros (_ & Hr & Hlr & Hmax) Hov. unfold withdraw_confidential.
  destruct (remove_inputs _ _) as [q c1] eqn:Eq. intros Hw.
  apply bind_Ok in Hw as (_ & s1 & [= <-] & Hw). inv_ok.
  apply remove_inputs_Ok in Eq as (Hf & Hn & Hl & Hs).
  match goal with H : validate_confidential_withdraw ?i _ _ = Ok ?v |- _ =>
    rename H into Hval; rename i into inputs; rename v into vp end.
  pose proof (validate_confidential_withdraw_Ok _ _ _ _ Hval) as (Hi & Ein & Eout & Ech & Ho & Hch & _).
  destruct (Z.ltb_spec r (vcw_input_revealed_amount vp)); [done|].
  rewrite sub_ok in Hw by lia. inv_ok.
  unfold confidential in *. rewrite is_non_negative_true in * by done.
  rewrite foldl_insert_list_to_map, (right_id_L ∅ (∪)) in *
    by (destruct (vcw_output vp); repeat constructor; set_solver).
  exists inputs, vp. unfold change_credit.
  destruct (vcw_change_output vp) as [o|]; inv_ok.
  - case_bool_decide as Hk; inv_ok.
    destruct (Z.ltb_spec (r - vcw_input_revealed_amount vp) (vcw_change_revealed_amount vp)); inv_ok.
    rewrite add_ok in * by lia. inv_ok.
    do 2 eexists; split_and!; [done..| |done].
    intros b. destruct (decide (b = _)) as [->|].
    + by rewrite lookup_insert_eq.
    + rewrite lookup_insert_ne by done. apply Hl.
  - do 2 eexists; split_and!; [done..|lia|done|done].
Qed.

(** a withdrawal of revealed funds only that asks for revealed change is
    accepted as balanced, but the change is not credited back: the container
    loses the whole revealed input and the output receives it less the change,
    so that the change disappears. *)
Theorem revealed_change_is_lost (a : ResourceAddress)
    (c lc : gmap CommitmentBytes PrivateOutput) (r lr out_amt change_amt : Z)
    (view_key : option Point) :
  container_wf (CtConfidential a c r lc lr) →
  0 ≤ out_amt → 0 < change_amt → out_amt + change_amt ≤ r →
  withdraw_confidential
    (MkConfidentialWithdrawProof [] (out_amt + change_amt)
       (MkConfidentialOutputStatement None None [] out_amt change_amt)
       SchnorrSignatureBytes_zero) view_key (CtConfidential a c r lc lr) =
  (Ok (CtConfidential a ∅ out_amt ∅ 0),
   CtConfidential a c (r - (out_amt + change_amt)) lc lr).
Proof.
  intros (_ & Hr & Hlr & Hmax) Ho Hch Hle. unfold withdraw_confidential. simpl.
  assert (∀ z, 0 ≤ z → z ≤ r → i192_in z) as Hin
    by (intros; unfold i192_in, i192_MIN in *; lia).
  assert (validate_confidential_withdraw [] view_key
    (MkConfidentialWithdrawProof [] (out_amt + change_amt)
       (MkConfidentialOutputStatement None None [] out_amt change_amt)
       SchnorrSignatureBytes_zero) =
    Ok (MkValidatedConfidentialWithdrawProof None None (out_amt + change_amt) out_amt change_amt))
    as Hv.
  { unfold validate_confidential_withdraw, validate_confidential_statement, Amount.is_negative.
    simpl. destruct (Z.ltb_spec out_amt 0), (Z.ltb_spec change_amt 0); try lia. simpl.
    destruct (Z.ltb_spec (out_amt + change_amt) 0); [lia|].
    rewrite (proj2 (checked_add_positive_Some out_amt change_amt (out_amt + change_amt)
      ltac:(apply Hin; lia) ltac:(apply Hin; lia))) by (unfold i192_in in *; lia).
    simpl. unfold is_revealed_only. simpl.
    rewrite (proj2 (checked_add_Some out_amt change_amt (out_amt + change_amt)
      ltac:(apply Hin; lia) ltac:(apply Hin; lia))) by (split; [done|apply Hin; lia]).
    destruct (Z.ltb_spec 0 (out_amt + change_amt)); [|lia]. simpl.
    rewrite (proj2 (checked_sub_Some (out_amt + change_amt) (out_amt + change_amt) 0
      ltac:(apply Hin; lia) ltac:(apply Hin; lia))) by (split; [lia|apply Hin; lia]).
    done. }
  unfold bind, lift, put, ret. rewrite Hv. simpl.
  destruct (Z.ltb_spec r (out_amt + change_amt)); [lia|].
  rewrite sub_ok by lia. unfold confidential. by rewrite is_non_negative_true.
Qed.
End container_theorems.

(** ** Witnesses *)
Definition example_output : PrivateOutput := MkPrivateOutput 1 [] 0 None.

Lemma withdraw_spec_witness :
  ∃ out self', @withdraw i192_panicking 4 (Fungible 1 10 2) = (Ok out, self') ∧
               amount out = 4 ∧ splits (Fungible 1 10 2) self' out.
Proof.
  destruct (@withdraw_spec i192_panicking 4 (Fungible 1 10 2))
    as (out & self' & Hw & Hs & _ & Ha & _).
  - unfold container_wf, amounts_wf, i192_MAX. lia.
  - by exists out, self'.
Defined.

Lemma take_deposit_roundtrip_witness :
  @deposit i192_panicking (NonFungible 1 {[Uint32 1]} ∅)
    (NonFungible 1 {[Uint32 2]} {[Uint32 7]}) =
  (Ok tt, NonFungible 1 {[Uint32 1; Uint32 2]} {[Uint32 7]}).
Proof.
  apply (@take_deposit_roundtrip i192_panicking
    (NonFungible 1 {[Uint32 1; Uint32 2]} {[Uint32 7]})
    (NonFungible 1 {[Uint32 2]} {[Uint32 7]}) (NonFungible 1 {[Uint32 1]} ∅)).
  - split; [set_solver|vm_compute; reflexivity].
  - apply (takes_withdraw _ _ _ 1). vm_compute. reflexivity.
Defined.

Lemma lock_unlock_roundtrip_witness :
  @unlock i192_panicking (Stealth 1 3 0) (Stealth 1 7 5) = (Ok tt, Stealth 1 10 2).
Proof.
  apply (@lock_unlock_roundtrip i192_panicking
    (Stealth 1 10 2) (Stealth 1 7 5) (Stealth 1 3 0)).
  - unfold container_wf, amounts_wf, i192_MAX. lia.
  - apply (locks_by_amount _ _ _ 3); [unfold i192_in, i192_MIN, i192_MAX; lia|].
    vm_compute. reflexivity.
Defined.

Lemma lock_all_confidential_witness :
  ∃ out self',
    @lock_all i192_panicking (CtConfidential 1 {[5%N := example_output]} 100 ∅ 0)
      = (Ok out, self') ∧
    @unlock i192_panicking out self'
      = (Ok tt, CtConfidential 1 {[5%N := example_output]} 200 ∅ 0).
Proof.
  destruct (@lock_all_confidential_doubles_revealed i192_panicking 1
    {[5%N := example_output]} ∅ 100 0) as (out & self' & Hl & _ & _ & Hu).
  - split; [apply map_disjoint_empty_r|]. unfold amounts_wf, i192_MAX. lia.
  - apply map_non_empty_singleton.
  - unfold i192_MAX. lia.
  - by exists out, self'.
Defined.

Lemma lock_all_stealth_witness :
  ∃ out,
    @lock_all i192_panicking (Stealth 1 100 0) = (Ok out, Stealth 1 0 100) ∧
    @unlock i192_panicking out (Stealth 1 0 100) =
      (Err (ResourceTypeMismatch "unlock" RtStealth RtFungible), Stealth 1 0 100).
Proof.
  apply (@lock_all_stealth_not_unlockable i192_panicking 1 100 0); [|lia].
  unfold container_wf, amounts_wf, i192_MAX. lia.
Defined.

Lemma lock_by_amount_negative_witness :
  (@lock_by_amount i192_wrapping (-1) (Fungible 1 100 0)).1 = Panic.
Proof.
  apply (@lock_by_amount_negative_panics i192_wrapping (-1) (Fungible 1 100 0)); [|lia].
  unfold container_wf, amounts_wf, i192_MAX. lia.
Defined.

(** The withdrawal of [example_withdraw_proof] from a container that holds the
    commitment it spends. *)
Definition example_container : ResourceContainer :=
  CtConfidential 1 {[1797%N := example_output]} 50 ∅ 0.

Lemma withdraw_confidential_spec_witness :
  ∃ out self',
    @withdraw_confidential i192_panicking ideal_crypto example_withdraw_proof None
      example_container = (Ok out, self') ∧ amount out = 1 ∧ amount self' = 50.
Proof.
  destruct (@withdraw_confidential i192_panicking ideal_crypto example_withdraw_proof None
    example_container) as [[out| |] self'] eqn:E;
    [|exfalso; vm_compute in E; discriminate E..].
  exists out, self'. split; [done|].
  destruct (@withdraw_confidential_spec i192_panicking ideal_crypto 1
    {[1797%N := example_output]} ∅ 50 0 example_withdraw_proof None self' out)
    as (inputs & vp & c' & r' & _ & Hv & _ & _ & Hs & Hr & _ & Ho).
  - split; [apply map_disjoint_empty_r|]. unfold amounts_wf, i192_MAX. lia.
  - vm_compute. discriminate.
  - exact E.
  - vm_compute in E. injection E as <- <-. done.
Defined.

Lemma revealed_change_witness :
  @withdraw_confidential i192_panicking ideal_crypto
    (MkConfidentialWithdrawProof [] 100
       (MkConfidentialOutputStatement None None [] 60 40) SchnorrSignatureBytes_zero)
    None (CtConfidential 1 ∅ 100 ∅ 0) =
  (Ok (CtConfidential 1 ∅ 60 ∅ 0), CtConfidential 1 ∅ 0 ∅ 0).
Proof.
  apply (@revealed_change_is_lost i192_panicking ideal_crypto 1 ∅ ∅ 100 0 60 40 None);
    try lia.
  split; [apply map_disjoint_empty_r|]. unfold amounts_wf, i192_MAX. lia.
Defined.
