(* ===== verification/FreezeFlags.v ===== *)
(** * Vault freeze flags

    [template_lib/src/args/freeze_flags.rs]: a set of two flags in a byte. *)
From stdpp Require Import base list numbers.
From S2P Require Import Prelude.
Open Scope Z_scope.

Inductive VaultFreezeFlag := Deposits | Withdrawals.
#[export] Instance VaultFreezeFlag_eq_dec : EqDecision VaultFreezeFlag.
Proof. solve_decision. Defined.

Definition flag_byte (f : VaultFreezeFlag) : Z :=
  match f with
  | Deposits => Z.shiftl 1 0
  | Withdrawals => Z.shiftl 1 1
  end.

Definition from_byte (b : Z) : option VaultFreezeFlag :=
  if b =? flag_byte Deposits then Some Deposits
  else if b =? flag_byte Withdrawals then Some Withdrawals
  else None.

Definition ALL_FLAGS : Z := 3.

Record VaultFreezeFlags := MkFlags { raw : Z }.

Definition flags_empty : VaultFreezeFlags := MkFlags 0.
Definition flags_all : VaultFreezeFlags := MkFlags ALL_FLAGS.
Definition flags_is_empty (self : VaultFreezeFlags) : bool := raw self =? 0.
Definition flags_contains (self : VaultFreezeFlags) (flag : VaultFreezeFlag) : bool :=
  negb (Z.land (raw self) (flag_byte flag) =? 0).
Definition flags_validate (self : VaultFreezeFlags) : bool :=
  Z.land (raw self) (raw flags_all) =? raw self.
Definition flag_bitor (f g : VaultFreezeFlag) : VaultFreezeFlags :=
  MkFlags (Z.lor (flag_byte f) (flag_byte g)).

(** One call of the closure of [VaultFreezeFlags::iter]: what it returns and the
    next mask.  The mask is a byte. *)
Definition iter_next {E : Type} (self : VaultFreezeFlags) (mask : Z) :
    res E (option VaultFreezeFlag * Z) :=
  if ALL_FLAGS <? mask then Ok (None, mask)
  else if negb (Z.land (raw self) mask =? 0) then
    let? flag := expect (from_byte mask) in
    Ok (Some flag, Z.shiftl mask 1 mod 256)
  else Ok (None, Z.shiftl mask 1 mod 256).

(** A [for] loop over the iterator takes items until it returns [None]; the fuel
    bounds the number of items. *)
Fixpoint iter_collect {E : Type} (fuel : nat) (self : VaultFreezeFlags) (mask : Z) :
    res E (list VaultFreezeFlag) :=
  match fuel with
  | O => Panic
  | S fuel' =>
      let? step := iter_next self mask in
      match step with
      | (None, _) => Ok []
      | (Some flag, mask') =>
          let? rest := iter_collect fuel' self mask' in Ok (flag :: rest)
      end
  end.
Definition flags_iter {E : Type} (self : VaultFreezeFlags) : res E (list VaultFreezeFlag) :=
  iter_collect 3 self 1.

(** Iterating over a byte of freeze flags ends at the first flag that is not
    set instead of skipping it: a vault whose withdrawals alone are frozen
    iterates as if it had no flag, although [contains] reports the flag. *)
Theorem flags_iter_stops_early (self : VaultFreezeFlags) :
  @flags_iter Empty_set self =
    Ok (if flags_contains self Deposits
        then if flags_contains self Withdrawals then [Deposits; Withdrawals] else [Deposits]
        else []).
Proof.
  unfold flags_iter, flags_contains. cbn [iter_collect]. unfold iter_next at 1.
  change (ALL_FLAGS <? 1) with false. change (flag_byte Deposits) with 1.
  change (flag_byte Withdrawals) with 2. cbv iota.
  destruct (Z.land (raw self) 1 =? 0); [done|].
  change (@from_byte 1) with (Some Deposits). cbn [negb expect res_bind].
  change (Z.shiftl 1 1 mod 256) with 2. unfold iter_next at 1.
  change (ALL_FLAGS <? 2) with false. cbv iota.
  by destruct (Z.land (raw self) 2 =? 0).
Qed.
