(* ===== verification/Proof.v ===== *)
(** * Proofs

    [engine_types/src/proof.rs]: a proof is a part locked in a bucket or vault,
    with a reference to the container that holds the lock. *)
From stdpp Require Import base gmap list numbers.
From S2P Require Import Prelude Ids ResourceContainer.

Inductive ContainerRef :=
  | RefBucket (id : BucketId)
  | RefVault (id : VaultId).
#[export] Instance ContainerRef_eq_dec : EqDecision ContainerRef.
Proof. solve_decision. Defined.

Record LockedResource := MkLockedResource {
  lr_container : ContainerRef;
  lr_locked : ResourceContainer;
}.

Record Proof := MkProof { proof_locked : LockedResource }.

Definition proof_amount (self : Proof) : Z := amount (lr_locked (proof_locked self)).
Definition proof_resource_address (self : Proof) : ResourceAddress :=
  resource_address (lr_locked (proof_locked self)).
Definition proof_non_fungible_token_ids (self : Proof) : gset NonFungibleId :=
  non_fungible_token_ids (lr_locked (proof_locked self)).
Definition proof_resource_type (self : Proof) : ResourceType :=
  resource_type (lr_locked (proof_locked self)).
Definition proof_container (self : Proof) : ContainerRef := lr_container (proof_locked self).
Definition proof_into_resource_container (self : Proof) : ResourceContainer :=
  lr_locked (proof_locked self).
