(* ===== verification/Bucket.v ===== *)
(** * Buckets

    [engine_types/src/bucket.rs]: resources in transit during a transaction. *)
From stdpp Require Import base gmap list numbers.
From S2P Require Import Prelude Ids Amount Crypto Confidential ResourceContainer Proof.

Record Bucket := MkBucket {
  bucket_id : BucketId;
  bucket_container : ResourceContainer;
}.

(** The borrow [&mut self.resource_container]. *)
Definition in_bucket {E A : Type} (m : M ResourceContainer E A) : M Bucket E A :=
  zoom bucket_container (λ c b, MkBucket (bucket_id b) c) m.

Section bucket.
Context `{Ii : !I192} `{Ic : !Crypto}.

Definition bucket_amount (self : Bucket) : Z := amount (bucket_container self).
Definition bucket_locked_amount (self : Bucket) : Z := locked_amount (bucket_container self).
Definition bucket_commitments (self : Bucket) : Z :=
  number_of_confidential_commitments (bucket_container self).
Definition bucket_resource_address (self : Bucket) : ResourceAddress :=
  resource_address (bucket_container self).
Definition bucket_resource_type (self : Bucket) : ResourceType :=
  resource_type (bucket_container self).
Definition bucket_non_fungible_ids (self : Bucket) : gset NonFungibleId :=
  non_fungible_token_ids (bucket_container self).

Definition take (amount : Z) : M Bucket ResourceError ResourceContainer :=
  in_bucket (withdraw amount).
Definition take_confidential (proof : ConfidentialWithdrawProof) (view_key : option Point) :
    M Bucket ResourceError ResourceContainer :=
  in_bucket (withdraw_confidential proof view_key).
Definition join (other : Bucket) : M Bucket ResourceError unit :=
  in_bucket (deposit (bucket_container other)).

Definition bucket_lock_all : M Bucket ResourceError LockedResource := λ self,
  (let! locked := in_bucket lock_all in
   ret (MkLockedResource (RefBucket (bucket_id self)) locked)) self.
Definition bucket_lock_by_non_fungible_ids (ids : gset NonFungibleId) :
    M Bucket ResourceError LockedResource := λ self,
  (let! locked := in_bucket (lock_by_non_fungible_ids ids) in
   ret (MkLockedResource (RefBucket (bucket_id self)) locked)) self.
Definition bucket_lock_by_amount (amount : Z) : M Bucket ResourceError LockedResource := λ self,
  (let! locked := in_bucket (lock_by_amount amount) in
   ret (MkLockedResource (RefBucket (bucket_id self)) locked)) self.
Definition bucket_unlock (proof : Proof) : M Bucket ResourceError unit :=
  in_bucket (unlock (proof_into_resource_container proof)).
End bucket.
