(* ===== verification/Vault.v ===== *)
(** * Vaults

    [engine_types/src/vault.rs]: a resource container owned by a component, with
    its freeze flags.  The class [ProofSource] is what the engine relies on when
    it creates a proof over a bucket or vault and later drops it. *)
From stdpp Require Import base gmap list numbers.
From S2P Require Import Prelude Ids Amount Crypto Confidential ResourceContainer.
From S2P Require Import FreezeFlags Proof Bucket.
Open Scope Z_scope.

Record Vault := MkVault {
  vault_container : ResourceContainer;
  vault_freeze_flags : VaultFreezeFlags;
}.

Definition in_vault {E A : Type} (m : M ResourceContainer E A) : M Vault E A :=
  zoom vault_container (λ c v, MkVault c (vault_freeze_flags v)) m.

Section vault.
Context `{Ii : !I192} `{Ic : !Crypto}.

Definition vault_new (resource : ResourceContainer) : Vault := MkVault resource flags_empty.
Definition vault_deposit (bucket : Bucket) : M Vault ResourceError unit :=
  in_vault (deposit (bucket_container bucket)).
Definition vault_withdraw (amount : Z) : M Vault ResourceError ResourceContainer :=
  in_vault (withdraw amount).
Definition vault_withdraw_non_fungibles (ids : gset NonFungibleId) :
    M Vault ResourceError ResourceContainer := in_vault (withdraw_by_ids ids).
Definition vault_withdraw_confidential (proof : ConfidentialWithdrawProof)
    (view_key : option Point) : M Vault ResourceError ResourceContainer :=
  in_vault (withdraw_confidential proof view_key).
Definition recall_all : M Vault ResourceError ResourceContainer := in_vault withdraw_all.
Definition recall_confidential (commitments : gset CommitmentBytes) (revealed_amount : Z) :
    M Vault ResourceError ResourceContainer :=
  in_vault (recall_confidential_commitments commitments revealed_amount).
Definition set_freeze {E : Type} (flags : VaultFreezeFlags) : M Vault E unit :=
  modify (λ v, MkVault (vault_container v) flags).
Definition unfreeze {E : Type} : M Vault E unit := set_freeze flags_empty.
Definition vault_balance (self : Vault) : Z := amount (vault_container self).
Definition vault_locked_balance (self : Vault) : Z := locked_amount (vault_container self).
Definition vault_resource_address (self : Vault) : ResourceAddress :=
  resource_address (vault_container self).
Definition vault_resource_type (self : Vault) : ResourceType :=
  resource_type (vault_container self).
Definition get_non_fungible_ids (self : Vault) : gset NonFungibleId :=
  non_fungible_token_ids (vault_container self).

Definition vault_lock_all (vault_id : VaultId) : M Vault ResourceError LockedResource :=
  let! locked := in_vault lock_all in ret (MkLockedResource (RefVault vault_id) locked).
Definition vault_lock_by_non_fungible_ids (vault_id : VaultId) (ids : gset NonFungibleId) :
    M Vault ResourceError LockedResource :=
  let! locked := in_vault (lock_by_non_fungible_ids ids) in
  ret (MkLockedResource (RefVault vault_id) locked).
Definition vault_lock_by_amount (vault_id : VaultId) (amount : Z) :
    M Vault ResourceError LockedResource :=
  let! locked := in_vault (lock_by_amount amount) in
  ret (MkLockedResource (RefVault vault_id) locked).
Definition vault_unlock (proof : Proof) : M Vault ResourceError unit :=
  in_vault (unlock (proof_into_resource_container proof)).
End vault.

(** ** What a bucket and a vault promise to the code that manages proofs *)
Class ProofSource `{Ii : !I192} (C : Type) := {
  ps_container : C → ResourceContainer;
  ps_ref : C → option VaultId → ContainerRef;
  ps_lock_by_amount : option VaultId → Z → M C ResourceError LockedResource;
  ps_lock_by_ids : option VaultId → gset NonFungibleId → M C ResourceError LockedResource;
  ps_unlock : Proof → M C ResourceError unit;
  ps_locks c c' vid lr amt ids :
    container_wf (ps_container c) →
    (i192_in amt ∧ ps_lock_by_amount vid amt c = (Ok lr, c')) ∨
      ps_lock_by_ids vid ids c = (Ok lr, c') →
    lr_container lr = ps_ref c vid ∧
    locks (ps_container c) (ps_container c') (lr_locked lr) ∧
    ps_unlock (MkProof lr) c' = (Ok tt, c);
}.

Section proof_source.
Context `{Ii : !I192}.

Lemma zoom_unlock {S : Type} (rd : S → ResourceContainer) wr (s : S)
    (c' out : ResourceContainer) :
  (∀ c s, rd (wr c s) = c) → (∀ c1 c2 s, wr c1 (wr c2 s) = wr c1 s) → wr (rd s) s = s →
  container_wf (rd s) → locks (rd s) c' out →
  zoom rd wr (unlock out) (wr c' s) = (Ok tt, s).
Proof.
  intros Hrw Hww Hwr Hwf Hl. unfold zoom. rewrite Hrw.
  rewrite (unlock_locks _ _ _ Hwf Hl), Hww. by rewrite Hwr.
Qed.

Lemma lock_either_locks (c c' out : ResourceContainer) (amt : Z) (ids : gset NonFungibleId) :
  container_wf c →
  (i192_in amt ∧ lock_by_amount amt c = (Ok out, c')) ∨
    lock_by_non_fungible_ids ids c = (Ok out, c') →
  locks c c' out.
Proof. intros ? [[? ?]|?]; eauto using lock_by_amount_locks, lock_by_ids_locks. Qed.

#[export] Program Instance vault_proof_source : ProofSource Vault := {|
  ps_container := vault_container;
  ps_ref _ vid := RefVault (default 0%N vid);
  ps_lock_by_amount vid := vault_lock_by_amount (default 0%N vid);
  ps_lock_by_ids vid := vault_lock_by_non_fungible_ids (default 0%N vid);
  ps_unlock := vault_unlock;
|}.
Next Obligation.
  intros c c' vid lr amt ids Hwf Hlock.
  assert (∃ r, lr = MkLockedResource (RefVault (default 0%N vid)) (lr_locked lr) ∧
    c' = MkVault r (vault_freeze_flags c) ∧
    ((i192_in amt ∧ lock_by_amount amt (vault_container c) = (Ok (lr_locked lr), r)) ∨
     lock_by_non_fungible_ids ids (vault_container c) = (Ok (lr_locked lr), r)))
    as (r & Hlr & -> & Hl).
  { destruct Hlock as [[? Hl]|Hl]; unfold vault_lock_by_amount, vault_lock_by_non_fungible_ids,
      in_vault in Hl; inv_ok; eauto 10. }
  apply lock_either_locks in Hl; [|done]. split_and!; [by rewrite Hlr|done|].
  apply (zoom_unlock vault_container (λ c v, MkVault c (vault_freeze_flags v)) c r);
    simpl; try done. by destruct c.
Qed.

#[export] Program Instance bucket_proof_source : ProofSource Bucket := {|
  ps_container := bucket_container;
  ps_ref b _ := RefBucket (bucket_id b);
  ps_lock_by_amount _ := bucket_lock_by_amount;
  ps_lock_by_ids _ := bucket_lock_by_non_fungible_ids;
  ps_unlock := bucket_unlock;
|}.
Next Obligation.
  intros c c' vid lr amt ids Hwf Hlock.
  assert (∃ r, lr = MkLockedResource (RefBucket (bucket_id c)) (lr_locked lr) ∧
    c' = MkBucket (bucket_id c) r ∧
    ((i192_in amt ∧ lock_by_amount amt (bucket_container c) = (Ok (lr_locked lr), r)) ∨
     lock_by_non_fungible_ids ids (bucket_container c) = (Ok (lr_locked lr), r)))
    as (r & Hlr & -> & Hl).
  { destruct Hlock as [[? Hl]|Hl]; unfold bucket_lock_by_amount,
      bucket_lock_by_non_fungible_ids, in_bucket in Hl; inv_ok; eauto 10. }
  apply lock_either_locks in Hl; [|done]. split_and!; [by rewrite Hlr|done|].
  apply (zoom_unlock bucket_container (λ c b, MkBucket (bucket_id b) c) c r);
    simpl; try done. by destruct c.
Qed.
End proof_source.
