(* ===== verification/AccessRules.v ===== *)
(** * Access rules

    [template_lib/src/auth/access_rules.rs] and [owner_rule.rs]. *)
From stdpp Require Import base gmap list strings stringmap.
From S2P Require Import Prelude Ids.

Inductive RuleRequirement :=
  | ReqResource (address : ResourceAddress)
  | ReqNonFungibleAddress (address : NonFungibleAddress)
  | ScopedToComponent (address : ComponentAddress)
  | ScopedToTemplate (address : TemplateAddress).

Inductive RequireRule :=
  | RuleRequire (requirement : RuleRequirement)
  | RuleAnyOf (requirements : list RuleRequirement)
  | RuleAllOf (requirements : list RuleRequirement).

Inductive RestrictedAccessRule :=
  | Require_ (rule : RequireRule)
  | AnyOf (rules : list RestrictedAccessRule)
  | AllOf (rules : list RestrictedAccessRule).

Inductive AccessRule :=
  | AllowAll
  | DenyAll
  | Restricted (rule : RestrictedAccessRule).

#[export] Instance RuleRequirement_eq_dec : EqDecision RuleRequirement.
Proof. solve_decision. Defined.
#[export] Instance RequireRule_eq_dec : EqDecision RequireRule.
Proof. solve_decision. Defined.
#[export] Instance RestrictedAccessRule_eq_dec : EqDecision RestrictedAccessRule.
Proof.
  refine (fix go x y {struct x} : Decision (x = y) :=
    match x, y with
    | Require_ r, Require_ r' => cast_if (decide (r = r'))
    | AnyOf rs, AnyOf rs' => cast_if (@list_eq_dec _ go rs rs')
    | AllOf rs, AllOf rs' => cast_if (@list_eq_dec _ go rs rs')
    | _, _ => right _
    end); clear go; abstract congruence.
Defined.
#[export] Instance AccessRule_eq_dec : EqDecision AccessRule.
Proof. solve_decision. Defined.

Definition restricted_and (self other : RestrictedAccessRule) : RestrictedAccessRule :=
  AllOf [self; other].
Definition restricted_or (self other : RestrictedAccessRule) : RestrictedAccessRule :=
  AnyOf [self; other].

Definition rule_and (self other : AccessRule) : AccessRule :=
  match self, other with
  | AllowAll, AllowAll => AllowAll
  | DenyAll, _ | _, DenyAll => DenyAll
  | Restricted rule1, Restricted rule2 => Restricted (restricted_and rule1 rule2)
  | Restricted rule, AllowAll | AllowAll, Restricted rule => Restricted rule
  end.

Definition rule_or (self other : AccessRule) : AccessRule :=
  match self, other with
  | AllowAll, _ | _, AllowAll => AllowAll
  | DenyAll, DenyAll => DenyAll
  | Restricted rule1, Restricted rule2 => Restricted (restricted_or rule1 rule2)
  | Restricted rule, DenyAll | DenyAll, Restricted rule => Restricted rule
  end.

Record ComponentAccessRules := MkComponentAccessRules {
  method_access : gmap string AccessRule;
  default_rule : AccessRule;
}.
#[export] Instance ComponentAccessRules_eq_dec : EqDecision ComponentAccessRules.
Proof. solve_decision. Defined.
Definition component_rules_new : ComponentAccessRules := MkComponentAccessRules ∅ DenyAll.
Definition component_rules_allow_all : ComponentAccessRules := MkComponentAccessRules ∅ AllowAll.
Definition add_method_rule (name : string) (rule : AccessRule) (self : ComponentAccessRules) :
    ComponentAccessRules :=
  MkComponentAccessRules (<[name := rule]> (method_access self)) (default_rule self).
Definition set_default (rule : AccessRule) (self : ComponentAccessRules) : ComponentAccessRules :=
  MkComponentAccessRules (method_access self) rule.
Definition get_method_access_rule (self : ComponentAccessRules) (name : string) : AccessRule :=
  default (default_rule self) (method_access self !! name).

Inductive ResourceAuthAction :=
  | Mint | Burn | Recall | Withdraw | Deposit
  | UpdateNonFungibleData | UpdateAccessRules | Freeze.
#[export] Instance ResourceAuthAction_eq_dec : EqDecision ResourceAuthAction.
Proof. solve_decision. Defined.
Definition is_recall (a : ResourceAuthAction) : bool :=
  match a with Recall => true | _ => false end.

Record ResourceAccessRules := MkResourceAccessRules {
  mintable : AccessRule;
  burnable : AccessRule;
  recallable : AccessRule;
  withdrawable : AccessRule;
  depositable : AccessRule;
  update_non_fungible_data : AccessRule;
  update_access_rules : AccessRule;
  freeze : AccessRule;
}.
Definition resource_rules_new : ResourceAccessRules :=
  MkResourceAccessRules DenyAll DenyAll DenyAll AllowAll AllowAll AllowAll DenyAll DenyAll.
Definition resource_rules_deny_all : ResourceAccessRules :=
  MkResourceAccessRules DenyAll DenyAll DenyAll DenyAll DenyAll DenyAll DenyAll DenyAll.
Definition get_access_rule (self : ResourceAccessRules) (action : ResourceAuthAction) : AccessRule :=
  match action with
  | Mint => mintable self
  | Burn => burnable self
  | Recall => recallable self
  | Withdraw => withdrawable self
  | Deposit => depositable self
  | UpdateNonFungibleData => update_non_fungible_data self
  | UpdateAccessRules => update_access_rules self
  | Freeze => freeze self
  end.

Inductive OwnerRule :=
  | OwnedBySigner
  | OwnerNone
  | ByAccessRule (rule : AccessRule)
  | ByPublicKey (key : PublicKeyBytes).

Record Ownership := MkOwnership {
  owner_key : option PublicKeyBytes;
  owner_rule : OwnerRule;
}.

(** [NonFungibleAddress::from_public_key]. *)
Definition from_public_key (key : PublicKeyBytes) : NonFungibleAddress :=
  MkNonFungibleAddress PUBLIC_IDENTITY_RESOURCE_ADDRESS (U256 key).
