(* ===== verification/RuntimeError.v ===== *)
(** * Errors of the engine runtime

    The variants of [RuntimeError], [LockError], [TransactionCommitError] and
    [WorkspaceError] that the modelled code returns, without the message
    texts. *)
From stdpp Require Import base list strings.
From S2P Require Import Prelude Ids IndexedValue Crypto FreezeFlags AccessRules.

Inductive ActionIdent :=
  | NativeResource (action : ResourceAuthAction)
  | NativeOther (name : string)
  | ComponentCallMethod (component : ComponentAddress) (method : string).

Inductive LockFlag := LockRead | LockWrite.
#[export] Instance LockFlag_eq_dec : EqDecision LockFlag.
Proof. solve_decision. Defined.
Definition is_read (f : LockFlag) : bool := match f with LockRead => true | _ => false end.
Definition is_write (f : LockFlag) : bool := match f with LockWrite => true | _ => false end.

(** [LockState] of [locking.rs]; the errors mention it. *)
Inductive LockState := StRead (count : Z) | StWrite.
#[export] Instance LockState_eq_dec : EqDecision LockState.
Proof. solve_decision. Defined.

Inductive LockError :=
  | LockIdNotFound (lock_id : Z)
  | SubstateNotLocked (address : SubstateId)
  | LockInvariantError
  | InvalidLockRequest (address : SubstateId) (requested : LockFlag) (lock_state : LockState)
  | MultipleWriteLockRequested (address : SubstateId)
  | InvalidLockAccess (address : SubstateId) (requested actual : LockFlag).

Inductive TransactionCommitError :=
  | DanglingBuckets (count : Z)
  | DanglingProofs (count : Z)
  | DanglingLockedValueInVault (vault_id : VaultId) (locked_amount : Z)
  | DanglingAddressAllocations (count : Z)
  | TceOther.

Inductive ArgumentValidationError :=
  | MaxStealthOutputsExceeded (max_outputs actual_outputs : nat)
  | MaxStealthInputsExceeded (max_inputs actual_inputs : nat)
  | TooManyArguments (got max : nat).

Inductive AssertError :=
  | AssertInvalidBucket
  | AssertInvalidResource (expected got : ResourceAddress)
  | AssertInvalidAmount (expected got : Z).

Inductive RuntimeError :=
  | SubstateNotFound (id : SubstateId)
  | RootSubstateNotFound (id : SubstateId)
  | ReferencedSubstateNotFound (id : SubstateId)
  | SubstateOutOfScope (id : SubstateId)
  | SubstateNotOwned (id requested_owner : SubstateId)
  | LockSubstateMismatch (lock_id : Z) (id : SubstateId)
  | ValidationFailedBucketNotInScope (bucket_id : BucketId)
  | ValidationFailedProofNotInScope (proof_id : ProofId)
  | InvalidArgument
  | InvalidAmount (amount : Z)
  | VaultFrozen (vault_id : VaultId) (flag : VaultFreezeFlag)
  | NonFungibleNotFound (address : ResourceAddress) (id : NonFungibleId)
  | BucketNotFound (bucket_id : BucketId)
  | ProofNotFound (proof_id : ProofId)
  | RuntimeResourceError (e : ResourceError)
  | ResourceSupplyWouldOverflow (address : ResourceAddress) (current amount : Z)
  | BucketNotEmpty (bucket_id : BucketId)
  | RuntimeCommitError (e : TransactionCommitError)
  | DuplicateNonFungibleId (token_id : NonFungibleId)
  | AccessDenied (action : ActionIdent)
  | AccessDeniedOwnerRequired (action : ActionIdent)
  | AccessDeniedSetComponentState (attempted_on attempted_by : SubstateId)
  | InsufficientFeesPaid (required_fee fees_paid : Z)
  | NoFeeCheckpoint
  | DuplicateSubstate (address : SubstateId)
  | OrphanedSubstates (substates : list SubstateId)
  | CallFrameRemainingOnStack (remaining : Z)
  | RuntimeInvariantError
  | RuntimeLockError (e : LockError)
  | DanglingSubstateLocks (count : Z)
  | NoActiveCallFrame
  | MaxCallDepthExceeded (max_depth : Z)
  | NotInComponentContext (action : ActionIdent)
  | DuplicateBucket (bucket_id : BucketId)
  | DuplicateProof (proof_id : ProofId)
  | AddressAllocationNotFound (id : N)
  | InvalidOpDepositLockedBucket (bucket_id : BucketId) (locked_amount : Z)
  | InvalidOpNonFungibleBurnt (address : ResourceAddress) (id : NonFungibleId)
  | OrphanedSubstate (address : SubstateId)
  | DuplicateReference (address : SubstateId)
  | AddressAllocationNotUsed (id : N)
  | AddressAllocationNoTemplate
  | ValidationFailedAddressAllocationNotInScope (id : N)
  | RuntimeIndexedValueError (e : IndexedValueError)
  | RuntimeArgumentError (e : ArgumentValidationError)
  | VirtualSubstateNotFound
  | EncodingError
  | NumericConversionError
  | RuntimeIdProviderError (max : Z)
  | RuntimeModuleError
  | NotSupported
  | NoFeesPaid
  | CrossTemplateCallMethodError (component : ComponentAddress) (method : string)
  | AccessDeniedAuthHook (action : ActionIdent)
  | UnexpectedNonNullInAuthHookReturn
  | AddressAllocationTypeMismatch (id : SubstateId)
  | ComponentAlreadyExists (address : ComponentAddress)
  | ComponentNotFound (address : ComponentAddress)
  | CrossTemplateCallFunctionError (template_address : TemplateAddress) (function : string)
  | FailedToLoadTemplate (address : TemplateAddress)
  | TemplateNotFound (template_address : TemplateAddress)
  | ItemNotOnWorkspace (id : N)
  | NonExistentSubstateReturned (id : SubstateId)
  | InvalidEventTopic (topic : string)
  | NoLastInstructionOutput
  | RuntimeAssertError (e : AssertError)
  | InvalidClaimProof
  | InvalidMethodAccessRule
  | EntityIdProviderError (max : Z)
  | RuntimeBorError
  | LimitError
  | StateStoreError.
