(* ===== verification/Auth.v ===== *)
(** * Authorization

    [engine/src/runtime/auth.rs] and [tracker_auth.rs].  The checks read the
    state only through the class [AuthState]: the proofs by id, the component
    and template being executed and the scope of the current call.  The theorems
    are proved against that interface; [WorkingState] is its implementation. *)
From stdpp Require Import base gmap list strings.
From S2P Require Import Prelude Ids ResourceContainer Proof AccessRules RuntimeError.

Record AuthorizationScope := MkAuthorizationScope {
  virtual_proofs : list NonFungibleAddress;
  scope_proofs : list ProofId;
}.

Definition auth_scope_new (virtual_proofs : list NonFungibleAddress) : AuthorizationScope :=
  MkAuthorizationScope virtual_proofs [].
Definition add_proof (proof_id : ProofId) (self : AuthorizationScope) : AuthorizationScope :=
  MkAuthorizationScope (virtual_proofs self) (scope_proofs self ++ [proof_id]).

(** [Vec::remove] at the first position of the id. *)
Fixpoint remove_first (x : ProofId) (l : list ProofId) : list ProofId :=
  match l with
  | [] => []
  | y :: l' => if decide (y = x) then l' else y :: remove_first x l'
  end.
Definition remove_proof (proof_id : ProofId) (self : AuthorizationScope) :
    option ProofId * AuthorizationScope :=
  if decide (proof_id ∈ scope_proofs self)
  then (Some proof_id,
        MkAuthorizationScope (virtual_proofs self) (remove_first proof_id (scope_proofs self)))
  else (None, self).
Definition update_from_child (child self : AuthorizationScope) : AuthorizationScope :=
  MkAuthorizationScope (virtual_proofs self) (scope_proofs self ++ scope_proofs child).

(** What the checks need of the state of the engine. *)
Class AuthState (S : Type) := {
  get_proof : S → ProofId → res RuntimeError Proof;
  current_component : S → res RuntimeError (option ComponentAddress);
  current_template : S → res RuntimeError TemplateAddress;
  current_auth_scope : S → res RuntimeError AuthorizationScope;
}.

(** [for x in xs { if f(x)? { return Ok(true) } } Ok(false)] and its dual. *)
Definition any_loop {E A : Type} (f : A → res E bool) : list A → res E bool :=
  fix go xs :=
    match xs with
    | [] => Ok false
    | x :: xs' => let? b := f x in if b then Ok true else go xs'
    end.
Definition all_loop {E A : Type} (f : A → res E bool) : list A → res E bool :=
  fix go xs :=
    match xs with
    | [] => Ok true
    | x :: xs' => let? b := f x in if b then go xs' else Ok false
    end.

Section auth.
Context {S : Type} `{!AuthState S}.

Definition check_requirement (state : S) (scope : AuthorizationScope)
    (requirement : RuleRequirement) : res RuntimeError bool :=
  match requirement with
  | ReqResource resx =>
      if existsb (λ addr, bool_decide (nfa_resource addr = resx)) (virtual_proofs scope)
      then Ok true
      else
        any_loop (λ proof_id,
          let? proof := get_proof state proof_id in
          Ok (bool_decide (resx = proof_resource_address proof))) (scope_proofs scope)
  | ReqNonFungibleAddress addr =>
      if bool_decide (addr ∈ virtual_proofs scope) then Ok true
      else
        any_loop (λ proof_id,
          let? proof := get_proof state proof_id in
          Ok (bool_decide (nfa_resource addr = proof_resource_address proof) &&
              bool_decide (nfa_id addr ∈ proof_non_fungible_token_ids proof)))
          (scope_proofs scope)
  | ScopedToComponent address =>
      let? current := current_component state in Ok (bool_decide (current = Some address))
  | ScopedToTemplate address =>
      let? current := current_template state in Ok (bool_decide (current = address))
  end.

Definition check_require_rule (state : S) (scope : AuthorizationScope) (rule : RequireRule) :
    res RuntimeError bool :=
  match rule with
  | RuleRequire requirement => check_requirement state scope requirement
  | RuleAnyOf requirements => any_loop (check_requirement state scope) requirements
  | RuleAllOf requirements => all_loop (check_requirement state scope) requirements
  end.

Fixpoint check_restricted_access_rule (state : S) (scope : AuthorizationScope)
    (rule : RestrictedAccessRule) : res RuntimeError bool :=
  match rule with
  | Require_ rule => check_require_rule state scope rule
  | AnyOf rules => any_loop (check_restricted_access_rule state scope) rules
  | AllOf rules => all_loop (check_restricted_access_rule state scope) rules
  end.

Definition check_access_rule (state : S) (scope : AuthorizationScope) (rule : AccessRule) :
    res RuntimeError bool :=
  match rule with
  | AllowAll => Ok true
  | DenyAll => Ok false
  | Restricted rule => check_restricted_access_rule state scope rule
  end.

Definition check_ownership (state : S) (scope : AuthorizationScope) (ownership : Ownership) :
    res RuntimeError bool :=
  match owner_rule ownership with
  | OwnedBySigner =>
      match owner_key ownership with
      | None => Ok false
      | Some key => Ok (bool_decide (from_public_key key ∈ virtual_proofs scope))
      end
  | OwnerNone => Ok false
  | ByAccessRule rule => check_access_rule state scope rule
  | ByPublicKey key =>
      match owner_key ownership with
      | None => Ok false
      | Some owner_key =>
          if bool_decide (key ≠ owner_key) then Ok false
          else Ok (bool_decide (from_public_key key ∈ virtual_proofs scope))
      end
  end.

(** The component is given by its address, ownership and rules. *)
Definition check_component_access_rules (state : S) (method : string)
    (component_address : ComponentAddress) (ownership : Ownership)
    (access_rules : ComponentAccessRules) : res RuntimeError unit :=
  let? scope := current_auth_scope state in
  let? owner := check_ownership state scope ownership in
  if owner then Ok tt
  else
    match get_method_access_rule access_rules method with
    | AllowAll => Ok tt
    | DenyAll => Err (AccessDenied (ComponentCallMethod component_address method))
    | Restricted rule =>
        let? allowed := check_restricted_access_rule state scope rule in
        if negb allowed
        then Err (AccessDenied (ComponentCallMethod component_address method))
        else Ok tt
    end.

Definition check_resource_access_rules (state : S) (action : ResourceAuthAction)
    (resource_ownership : Ownership) (resource_access_rules : ResourceAccessRules) :
    res RuntimeError unit :=
  let? scope := current_auth_scope state in
  let? owner :=
    (if negb (is_recall action) then check_ownership state scope resource_ownership
     else Ok false) in
  if owner then Ok tt
  else
    let? allowed := check_access_rule state scope (get_access_rule resource_access_rules action) in
    if negb allowed then Err (AccessDenied (NativeResource action)) else Ok tt.

Definition require_ownership (state : S) (action : ActionIdent) (ownership : Ownership) :
    res RuntimeError unit :=
  let? scope := current_auth_scope state in
  let? owner := check_ownership state scope ownership in
  if negb owner then Err (AccessDeniedOwnerRequired action) else Ok tt.

(** ** What the rules mean

    A badge held is a system-issued proof or a proof of the scope; [none] of the
    checks then fails, and each gives the truth of the rule. *)
Record auth_ready (state : S) (scope : AuthorizationScope)
    (proofs : ProofId → option Proof) (component : option ComponentAddress)
    (template : TemplateAddress) : Prop := {
  ready_proofs id : id ∈ scope_proofs scope →
    ∃ p, proofs id = Some p ∧ get_proof state id = Ok p;
  ready_component : current_component state = Ok component;
  ready_template : current_template state = Ok template;
}.

Definition holds_requirement (scope : AuthorizationScope) (proofs : ProofId → option Proof)
    (component : option ComponentAddress) (template : TemplateAddress)
    (r : RuleRequirement) : Prop :=
  match r with
  | ReqResource resx =>
      (∃ addr, addr ∈ virtual_proofs scope ∧ nfa_resource addr = resx) ∨
      (∃ id p, id ∈ scope_proofs scope ∧ proofs id = Some p ∧ proof_resource_address p = resx)
  | ReqNonFungibleAddress addr =>
      addr ∈ virtual_proofs scope ∨
      (∃ id p, id ∈ scope_proofs scope ∧ proofs id = Some p ∧
               proof_resource_address p = nfa_resource addr ∧
               nfa_id addr ∈ proof_non_fungible_token_ids p)
  | ScopedToComponent a => component = Some a
  | ScopedToTemplate a => template = a
  end.

Section meaning.
Context (holds : RuleRequirement → Prop).

Definition require_holds (r : RequireRule) : Prop :=
  match r with
  | RuleRequire q => holds q
  | RuleAnyOf qs => Exists holds qs
  | RuleAllOf qs => Forall holds qs
  end.

Fixpoint restricted_holds (r : RestrictedAccessRule) : Prop :=
  match r with
  | Require_ q => require_holds q
  | AnyOf rs => foldr (λ x acc, restricted_holds x ∨ acc) False rs
  | AllOf rs => foldr (λ x acc, restricted_holds x ∧ acc) True rs
  end.

Definition rule_holds (r : AccessRule) : Prop :=
  match r with
  | AllowAll => True
  | DenyAll => False
  | Restricted r => restricted_holds r
  end.
End meaning.
End auth.

(** ** Lemmas *)
Lemma any_loop_spec {E A : Type} (f : A → res E bool) (P : A → Prop) (xs : list A) :
  (∀ x, x ∈ xs → ∃ b, f x = Ok b ∧ (b = true ↔ P x)) →
  ∃ b, any_loop f xs = Ok b ∧ (b = true ↔ Exists P xs).
Proof.
  induction xs as [|x xs IH]; intros Hf; simpl.
  - exists false. split; [done|]. rewrite Exists_nil. naive_solver.
  - destruct (Hf x) as (b & -> & Hb); [left|]. simpl. destruct b.
    + exists true. rewrite Exists_cons. naive_solver.
    + destruct IH as (b & -> & Hbs); [intros; apply Hf; by right|].
      exists b. rewrite Exists_cons, Hbs. naive_solver.
Qed.

Lemma all_loop_spec {E A : Type} (f : A → res E bool) (P : A → Prop) (xs : list A) :
  (∀ x, x ∈ xs → ∃ b, f x = Ok b ∧ (b = true ↔ P x)) →
  ∃ b, all_loop f xs = Ok b ∧ (b = true ↔ Forall P xs).
Proof.
  induction xs as [|x xs IH]; intros Hf; simpl.
  - exists true. split; [done|]. split; [constructor|done].
  - destruct (Hf x) as (b & -> & Hb); [left|]. simpl. destruct b.
    + destruct IH as (b & -> & Hbs); [intros; apply Hf; by right|].
      exists b. rewrite Forall_cons_iff, Hbs. naive_solver.
    + exists false. rewrite Forall_cons_iff. naive_solver.
Qed.

Lemma Exists_foldr {A : Type} (P : A → Prop) (xs : list A) :
  Exists P xs ↔ foldr (λ x acc, P x ∨ acc) False xs.
Proof. induction xs; simpl; rewrite ?Exists_nil, ?Exists_cons; naive_solver. Qed.

Lemma Forall_foldr {A : Type} (P : A → Prop) (xs : list A) :
  Forall P xs ↔ foldr (λ x acc, P x ∧ acc) True xs.
Proof. induction xs; simpl; rewrite ?Forall_cons_iff; naive_solver. Qed.

Section restricted_ind.
Context (P : RestrictedAccessRule → Prop).
Hypothesis Hreq : ∀ r, P (Require_ r).
Hypothesis Hany : ∀ rs, Forall P rs → P (AnyOf rs).
Hypothesis Hall : ∀ rs, Forall P rs → P (AllOf rs).

Fixpoint restricted_rule_ind (r : RestrictedAccessRule) : P r :=
  let all := fix go (rs : list RestrictedAccessRule) : Forall P rs :=
    match rs with
    | [] => @List.Forall_nil _ P
    | x :: rs' => @List.Forall_cons _ P x rs' (restricted_rule_ind x) (go rs')
    end in
  match r with
  | Require_ q => Hreq q
  | AnyOf rs => Hany rs (all rs)
  | AllOf rs => Hall rs (all rs)
  end.
End restricted_ind.

Section auth_theorems.
Context {S : Type} `{!AuthState S}.
Context (state : S) (scope : AuthorizationScope) (proofs : ProofId → option Proof).
Context (component : option ComponentAddress) (template : TemplateAddress).
Context (Hready : auth_ready state scope proofs component template).

Local Notation holds := (holds_requirement scope proofs component template).

Lemma existsb_resource (resx : ResourceAddress) :
  existsb (λ addr, bool_decide (nfa_resource addr = resx)) (virtual_proofs scope) = true ↔
  ∃ addr, addr ∈ virtual_proofs scope ∧ nfa_resource addr = resx.
Proof.
  rewrite existsb_exists. setoid_rewrite bool_decide_eq_true.
  by setoid_rewrite list_elem_of_In.
Qed.

Lemma check_requirement_spec (r : RuleRequirement) :
  ∃ b, check_requirement state scope r = Ok b ∧ (b = true ↔ holds r).
Proof.
  destruct Hready as [Hp Hc Ht]. destruct r as [resx|addr|a|a]; simpl.
  - destruct (existsb _ _) eqn:Ev.
    { apply existsb_resource in Ev. exists true. naive_solver. }
    destruct (any_loop_spec (λ proof_id,
      let? proof := get_proof state proof_id in
      Ok (bool_decide (resx = proof_resource_address proof)))
      (λ id, ∃ p, proofs id = Some p ∧ proof_resource_address p = resx) (scope_proofs scope))
      as (b & -> & Hb).
    { intros id (p & Hid & ->)%Hp. simpl. eexists; split; [done|].
      rewrite bool_decide_eq_true. naive_solver. }
    exists b. split; [done|]. rewrite Hb, Exists_exists, <- existsb_resource, Ev. naive_solver.
  - case_bool_decide as Hv; [exists true; naive_solver|].
    destruct (any_loop_spec (λ proof_id,
      let? proof := get_proof state proof_id in
      Ok (bool_decide (nfa_resource addr = proof_resource_address proof) &&
          bool_decide (nfa_id addr ∈ proof_non_fungible_token_ids proof)))
      (λ id, ∃ p, proofs id = Some p ∧ proof_resource_address p = nfa_resource addr ∧
                  nfa_id addr ∈ proof_non_fungible_token_ids p) (scope_proofs scope))
      as (b & -> & Hb).
    { intros id (p & Hid & ->)%Hp. simpl. eexists; split; [done|].
      rewrite andb_true_iff, !bool_decide_eq_true. naive_solver. }
    exists b. split; [done|]. rewrite Hb, Exists_exists. naive_solver.
  - rewrite Hc. simpl. eexists; split; [done|]. by rewrite bool_decide_eq_true.
  - rewrite Ht. simpl. eexists; split; [done|]. by rewrite bool_decide_eq_true.
Qed.

Lemma check_require_rule_spec (r : RequireRule) :
  ∃ b, check_require_rule state scope r = Ok b ∧ (b = true ↔ require_holds holds r).
Proof.
  destruct r; simpl; [apply check_requirement_spec|apply any_loop_spec|apply all_loop_spec];
    intros; apply check_requirement_spec.
Qed.

Lemma check_restricted_spec (r : RestrictedAccessRule) :
  ∃ b, check_restricted_access_rule state scope r = Ok b ∧
       (b = true ↔ restricted_holds holds r).
Proof.
  induction r as [r|rs IH|rs IH] using restricted_rule_ind; simpl.
  - apply check_require_rule_spec.
  - setoid_rewrite <- Exists_foldr. apply any_loop_spec.
    intros x Hx. by apply (proj1 (Forall_forall _ _) IH).
  - setoid_rewrite <- Forall_foldr. apply all_loop_spec.
    intros x Hx. by apply (proj1 (Forall_forall _ _) IH).
Qed.

Lemma check_rule_spec (r : AccessRule) :
  ∃ b, check_access_rule state scope r = Ok b ∧ (b = true ↔ rule_holds holds r).
Proof.
  destruct r; simpl; [by exists true|by exists false|apply check_restricted_spec].
Qed.

(** Ownership: the signer's key, the configured key, or the owner rule. *)
Definition owner_holds (ownership : Ownership) : Prop :=
  match owner_rule ownership with
  | OwnedBySigner =>
      ∃ key, owner_key ownership = Some key ∧ from_public_key key ∈ virtual_proofs scope
  | OwnerNone => False
  | ByAccessRule rule => rule_holds holds rule
  | ByPublicKey key =>
      owner_key ownership = Some key ∧ from_public_key key ∈ virtual_proofs scope
  end.

Lemma check_ownership_spec (o : Ownership) :
  ∃ b, check_ownership state scope o = Ok b ∧ (b = true ↔ owner_holds o).
Proof.
  unfold check_ownership, owner_holds. destruct (owner_rule o) as [| |rule|key].
  - destruct (owner_key o) as [key|]; [|exists false; naive_solver].
    eexists; split; [done|]. rewrite bool_decide_eq_true. naive_solver.
  - by exists false.
  - apply check_rule_spec.
  - destruct (owner_key o) as [key'|]; [|exists false; naive_solver].
    case_bool_decide; [exists false; naive_solver|].
    eexists; split; [done|]. rewrite bool_decide_eq_true. naive_solver.
Qed.

(** access rules combine as their names say: in a state whose scope has no
    stale proof, checking [and]/[or] of two rules gives the conjunction or
    disjunction of checking each, and checking any rule gives its truth: which
    badges are held and which component or template is executing. *)
Theorem check_access_rule_correct (r1 r2 : AccessRule) :
  ∃ b1 b2,
    check_access_rule state scope r1 = Ok b1 ∧ (b1 = true ↔ rule_holds holds r1) ∧
    check_access_rule state scope r2 = Ok b2 ∧ (b2 = true ↔ rule_holds holds r2) ∧
    check_access_rule state scope (rule_and r1 r2) = Ok (b1 && b2) ∧
    check_access_rule state scope (rule_or r1 r2) = Ok (b1 || b2).
Proof.
  destruct (check_rule_spec r1) as (b1 & H1 & Hb1), (check_rule_spec r2) as (b2 & H2 & Hb2).
  exists b1, b2. split_and!; [done..| |].
  - destruct (check_rule_spec (rule_and r1 r2)) as (b & -> & Hb). f_equal.
    apply eq_true_iff_eq. rewrite Hb, andb_true_iff, Hb1, Hb2.
    destruct r1, r2; simpl; tauto.
  - destruct (check_rule_spec (rule_or r1 r2)) as (b & -> & Hb). f_equal.
    apply eq_true_iff_eq. rewrite Hb, orb_true_iff, Hb1, Hb2.
    destruct r1, r2; simpl; tauto.
Qed.

(** C34: in a state where every proof of the scope exists and the current
    component and template can be read ([auth_ready]), an action on a resource is
    allowed exactly when the rule for it holds, or when the caller owns the
    resource and the action is not a recall: ownership alone never allows a recall.
    In every other case the answer is that access is denied.  In other states the
    check can fail with another error: a proof that was dropped but is still in
    the scope gives ProofNotFound. *)
Theorem check_resource_access_rules_correct (action : ResourceAuthAction)
    (o : Ownership) (rules : ResourceAccessRules) :
  current_auth_scope state = Ok scope →
  let allowed := (action ≠ Recall ∧ owner_holds o)
                 ∨ rule_holds holds (get_access_rule rules action) in
  (allowed ∧ check_resource_access_rules state action o rules = Ok tt) ∨
  (¬ allowed ∧ check_resource_access_rules state action o rules =
                 Err (AccessDenied (NativeResource action))).
Proof.
  intros Hs allowed. unfold check_resource_access_rules. rewrite Hs. simpl.
  destruct (check_rule_spec (get_access_rule rules action)) as (b & -> & Hb).
  destruct (check_ownership_spec o) as (bo & Ho & Hbo). rewrite Ho.
  assert (is_recall action = true ↔ action = Recall) as Hr by (destruct action; naive_solver).
  unfold allowed. destruct (is_recall action), bo, b; simpl; naive_solver.
Qed.
End auth_theorems.

(** ** States that agree on what the checks read

    The checks read the state only through the class, so that they respect the
    equivalence [auth_agree]. *)
Section auth_agree.
Context {S : Type} `{!AuthState S}.

Record auth_agree (s s' : S) : Prop := {
  agree_proofs id : get_proof s' id = get_proof s id;
  agree_component : current_component s' = current_component s;
  agree_template : current_template s' = current_template s;
  agree_scope : current_auth_scope s' = current_auth_scope s;
}.
#[export] Instance auth_agree_equiv : Equivalence auth_agree.
Proof.
  split.
  - done.
  - by intros x y [? ? ? ?].
  - intros x y z [? ? ? ?] [Hp ? ? ?]. split; [intros; rewrite Hp; auto|congruence..].
Qed.

Lemma any_loop_ext {E A : Type} (f g : A → res E bool) (xs : list A) :
  (∀ x, x ∈ xs → f x = g x) → any_loop f xs = any_loop g xs.
Proof.
  induction xs as [|x xs IH]; intros Hf; simpl; [done|].
  rewrite (Hf x) by left. destruct (g x) as [[]| |]; simpl; try done.
  apply IH. intros. apply Hf. by right.
Qed.
Lemma all_loop_ext {E A : Type} (f g : A → res E bool) (xs : list A) :
  (∀ x, x ∈ xs → f x = g x) → all_loop f xs = all_loop g xs.
Proof.
  induction xs as [|x xs IH]; intros Hf; simpl; [done|].
  rewrite (Hf x) by left. destruct (g x) as [[]| |]; simpl; try done.
  apply IH. intros. apply Hf. by right.
Qed.

#[export] Instance check_requirement_proper :
  Proper (auth_agree ==> eq ==> eq ==> eq) check_requirement.
Proof.
  intros s s' [Hp Hc Ht Hs] scope ? <- q ? <-. destruct q; simpl; rewrite ?Hc, ?Ht; try done;
    (case_match; [done|]); apply any_loop_ext; intros; by rewrite Hp.
Qed.
#[export] Instance check_access_rule_proper :
  Proper (auth_agree ==> eq ==> eq ==> eq) check_access_rule.
Proof.
  intros s s' Ha scope ? <- rule ? <-. destruct rule as [| |rule]; simpl; [done..|].
  induction rule as [q|rs IH|rs IH] using restricted_rule_ind; simpl.
  - destruct q; simpl; [by rewrite Ha|apply any_loop_ext|apply all_loop_ext]; intros; by rewrite Ha.
  - apply any_loop_ext. by apply list.Forall_forall.
  - apply all_loop_ext. by apply list.Forall_forall.
Qed.
#[export] Instance check_resource_access_rules_proper :
  Proper (auth_agree ==> eq ==> eq ==> eq ==> eq) check_resource_access_rules.
Proof.
  intros s s' Ha action ? <- o ? <- rules ? <-. unfold check_resource_access_rules.
  rewrite (agree_scope _ _ Ha). destruct (current_auth_scope s) as [scope| |]; simpl; try done.
  assert (check_ownership s scope o = check_ownership s' scope o) as ->
    by (unfold check_ownership; destruct (owner_rule o); try done; by rewrite Ha).
  assert (check_access_rule s scope (get_access_rule rules action) =
          check_access_rule s' scope (get_access_rule rules action)) as -> by by rewrite Ha.
  done.
Qed.
End auth_agree.

(** ** A snapshot of what the checks read *)
Record AuthSnapshot := MkAuthSnapshot {
  snap_proofs : gmap ProofId Proof;
  snap_component : option ComponentAddress;
  snap_template : TemplateAddress;
  snap_scope : AuthorizationScope;
}.
#[export] Instance AuthSnapshot_state : AuthState AuthSnapshot := {|
  get_proof s id := ok_or (snap_proofs s !! id) (ProofNotFound id);
  current_component s := Ok (snap_component s);
  current_template s := Ok (snap_template s);
  current_auth_scope s := Ok (snap_scope s);
|}.

Definition example_snapshot : AuthSnapshot :=
  MkAuthSnapshot
    {[ 7%N := MkProof (MkLockedResource (RefBucket 1) (Fungible 5 10 0)) ]} (Some 3%N) 4
    (MkAuthorizationScope [from_public_key 9] [7%N]).

Lemma example_snapshot_ready :
  auth_ready example_snapshot (snap_scope example_snapshot)
    (λ id, snap_proofs example_snapshot !! id) (Some 3%N) 4%N.
Proof.
  split; [|done..]. intros id Hid. apply list_elem_of_singleton in Hid as ->.
  eexists. split; vm_compute; reflexivity.
Qed.

(** A badge of resource 5 is held, so the conjunction with a rule on the
    component holds and a recall restricted to it is allowed. *)
Lemma check_access_rule_correct_witness :
  ∃ b1 b2,
    check_access_rule example_snapshot (snap_scope example_snapshot)
      (rule_and (Restricted (Require_ (RuleRequire (ReqResource 5)))) DenyAll) = Ok (b1 && b2).
Proof.
  destruct (check_access_rule_correct _ _ _ _ _ example_snapshot_ready
    (Restricted (Require_ (RuleRequire (ReqResource 5)))) DenyAll)
    as (b1 & b2 & _ & _ & _ & _ & H & _).
  by exists b1, b2.
Defined.

Lemma check_resource_access_witness :
  check_resource_access_rules example_snapshot Recall (MkOwnership (Some 9%N) OwnedBySigner)
    resource_rules_new = Err (AccessDenied (NativeResource Recall)).
Proof.
  destruct (check_resource_access_rules_correct _ _ _ _ _ example_snapshot_ready
    Recall (MkOwnership (Some 9%N) OwnedBySigner) resource_rules_new) as [[[[]|[]] _]|[_ H]];
    [reflexivity|done|exact H].
Defined.
