(* ===== verification/Locking.v ===== *)
(** * Substate locks

    [engine/src/runtime/locking.rs]: the read and write locks a transaction
    holds on substates, each with an id. *)
From stdpp Require Import base gmap list numbers.
From S2P Require Import Prelude Ids RuntimeError.
Open Scope Z_scope.

Notation LockId := Z (only parsing).

Definition state_is_read (s : LockState) : bool :=
  match s with StRead _ => true | StWrite => false end.
Definition state_is_write (s : LockState) : bool :=
  match s with StRead _ => false | StWrite => true end.
Definition as_flag (s : LockState) : LockFlag :=
  match s with StRead _ => LockRead | StWrite => LockWrite end.
Definition has_access (s : LockState) (lock_flag : LockFlag) : bool :=
  match lock_flag with
  | LockRead => state_is_read s || state_is_write s
  | LockWrite => state_is_write s
  end.
Definition lock_state_from (flag : LockFlag) : LockState :=
  match flag with LockRead => StRead 1 | LockWrite => StWrite end.

Record LockedSubstate := MkLockedSubstate {
  ls_address : SubstateId;
  ls_lock_id : LockId;
  ls_lock_flag : LockFlag;
}.

Definition check_access (self : LockedSubstate) (lock_flag : LockFlag) : res LockError unit :=
  let has_access :=
    match lock_flag with
    | LockRead => is_read (ls_lock_flag self) || is_write (ls_lock_flag self)
    | LockWrite => is_write (ls_lock_flag self)
    end in
  if negb has_access
  then Err (InvalidLockAccess (ls_address self) lock_flag (ls_lock_flag self))
  else Ok tt.

Record LockedSubstates := MkLockedSubstates {
  lock_ids : gmap LockId SubstateId;
  locks : gmap SubstateId LockState;
  id_counter : LockId;
}.
Definition locked_default : LockedSubstates := MkLockedSubstates ∅ ∅ 0.

Definition next_id : M LockedSubstates LockError LockId := λ self,
  let id := id_counter self in
  match u32_checked_add id 1 with
  | None => (Err LockInvariantError, self)
  | Some next => (Ok id, MkLockedSubstates (lock_ids self) (locks self) next)
  end.

Definition set_lock (addr : SubstateId) (st : LockState) : M LockedSubstates LockError unit :=
  modify (λ self,
    MkLockedSubstates (lock_ids self) (<[addr := st]> (locks self)) (id_counter self)).

(** [let id = self.next_id()?; self.lock_ids.insert(id, addr.clone()); Ok(id)]. *)
Definition register_lock (addr : SubstateId) : M LockedSubstates LockError LockId :=
  let! id := next_id in
  do! modify (λ self,
        MkLockedSubstates (<[id := addr]> (lock_ids self)) (locks self) (id_counter self)) in
  ret id.

Definition try_lock (addr : SubstateId) (lock_flag : LockFlag) :
    M LockedSubstates LockError LockId := λ self,
  match locks self !! addr with
  | Some (StRead count) =>
      if is_write lock_flag then (Err (InvalidLockRequest addr lock_flag (StRead count)), self)
      else
        (let! count' := lift (u64_add count 1) in
         do! set_lock addr (StRead count') in
         register_lock addr) self
  | Some StWrite =>
      if is_write lock_flag then (Err (MultipleWriteLockRequested addr), self)
      else (Err (InvalidLockRequest addr lock_flag StWrite), self)
  | None =>
      (do! set_lock addr (lock_state_from lock_flag) in register_lock addr) self
  end.

Definition try_unlock (lock_id : LockId) : M LockedSubstates LockError unit := λ self,
  match lock_ids self !! lock_id with
  | None => (Err (LockIdNotFound lock_id), self)
  | Some addr =>
      let ids := delete lock_id (lock_ids self) in
      let removed := MkLockedSubstates ids (delete addr (locks self)) (id_counter self) in
      match locks self !! addr with
      | Some (StRead count) =>
          match u64_checked_sub count 1 with
          | None => (Panic, MkLockedSubstates ids (locks self) (id_counter self))
          | Some count' =>
              if count' =? 0 then (Ok tt, removed)
              else (Ok tt, MkLockedSubstates ids (<[addr := StRead count']> (locks self))
                             (id_counter self))
          end
      | Some StWrite => (Ok tt, removed)
      | None => (Err LockInvariantError,
                 MkLockedSubstates ids (locks self) (id_counter self))
      end
  end.

Definition get_lock (self : LockedSubstates) (lock_id : LockId) (lock_flag : LockFlag) :
    res LockError LockedSubstate :=
  let? addr := ok_or (lock_ids self !! lock_id) (LockIdNotFound lock_id) in
  let? lock_state := ok_or (locks self !! addr) LockInvariantError in
  if negb (has_access lock_state lock_flag)
  then Err (InvalidLockAccess addr lock_flag (as_flag lock_state))
  else Ok (MkLockedSubstate addr lock_id lock_flag).

(** ** The invariant: the lock table counts the outstanding lock ids *)
Definition holders (self : LockedSubstates) (addr : SubstateId) : gmap LockId SubstateId :=
  filter (λ p, p.2 = addr) (lock_ids self).
Definition held (self : LockedSubstates) (addr : SubstateId) : Z :=
  Z.of_nat (size (holders self addr)).

Record locks_wf (self : LockedSubstates) : Prop := {
  wf_fresh id : is_Some (lock_ids self !! id) → 0 ≤ id < id_counter self;
  wf_counter : 0 ≤ id_counter self ≤ U32_MAX;
  wf_count addr :
    match locks self !! addr with
    | None => held self addr = 0
    | Some (StRead n) => held self addr = n ∧ 1 ≤ n
    | Some StWrite => held self addr = 1
    end;
}.

Inductive lock_op := OpLock (addr : SubstateId) (flag : LockFlag) | OpUnlock (id : LockId).
Definition run_lock_op (op : lock_op) (s : LockedSubstates) : LockedSubstates :=
  match op with
  | OpLock addr flag => (try_lock addr flag s).2
  | OpUnlock id => (try_unlock id s).2
  end.

(** ** Lemmas *)
Lemma holders_insert_same (ids : gmap LockId SubstateId) id addr :
  ids !! id = None →
  filter (λ p, p.2 = addr) (<[id := addr]> ids) = <[id := addr]> (filter (λ p, p.2 = addr) ids).
Proof. intros. by rewrite map_filter_insert_True. Qed.

Lemma held_insert (ids : gmap LockId SubstateId) lks c id addr addr' :
  ids !! id = None →
  held (MkLockedSubstates (<[id := addr]> ids) lks c) addr' =
    held (MkLockedSubstates ids lks c) addr' + (if decide (addr = addr') then 1 else 0).
Proof.
  intros Hid. unfold held, holders. simpl. case_decide as E.
  - subst. rewrite map_filter_insert_True by done.
    rewrite map_size_insert_None by (apply map_lookup_filter_None; auto). lia.
  - rewrite map_filter_insert_False by done. by rewrite delete_id, Z.add_0_r by done.
Qed.

Lemma held_delete (ids : gmap LockId SubstateId) lks c id addr addr' :
  ids !! id = Some addr →
  held (MkLockedSubstates (delete id ids) lks c) addr' =
    held (MkLockedSubstates ids lks c) addr' - (if decide (addr = addr') then 1 else 0).
Proof.
  intros Hid. rewrite <- (insert_delete_id ids id addr Hid) at 2.
  rewrite held_insert by apply lookup_delete_eq. lia.
Qed.

Lemma held_ext (s : LockedSubstates) lks c addr :
  held (MkLockedSubstates (lock_ids s) lks c) addr = held s addr.
Proof. done. Qed.

Lemma wf_id_fresh (s : LockedSubstates) : locks_wf s → lock_ids s !! id_counter s = None.
Proof.
  intros [Hf _ _]. destruct (lock_ids s !! id_counter s) eqn:E; [|done].
  specialize (Hf (id_counter s) ltac:(eauto)). lia.
Qed.

Lemma held_nonneg (s : LockedSubstates) addr : 0 ≤ held s addr.
Proof. unfold held. lia. Qed.

Lemma map_size_le_range (m : gmap Z SubstateId) (c : Z) :
  0 ≤ c → (∀ id, is_Some (m !! id) → 0 ≤ id < c) → Z.of_nat (size m) ≤ c.
Proof.
  intros Hc Hm. rewrite <- size_dom.
  assert (dom m ⊆ (list_to_set (Z.of_nat <$> seq 0 (Z.to_nat c)) : gset Z)) as Hsub.
  { intros id Hid%elem_of_dom%Hm. apply elem_of_list_to_set, list_elem_of_fmap.
    exists (Z.to_nat id). rewrite elem_of_seq. lia. }
  apply subseteq_size in Hsub. rewrite size_list_to_set in Hsub.
  - rewrite length_fmap, length_seq in Hsub. lia.
  - apply NoDup_fmap_2; [apply _|apply NoDup_seq].
Qed.

Lemma held_le_counter (s : LockedSubstates) addr : locks_wf s → held s addr ≤ id_counter s.
Proof.
  intros Hwf. apply map_size_le_range; [apply (wf_counter s Hwf)|].
  intros id [v Hv]. apply map_lookup_filter_Some in Hv as [Hv _].
  apply (wf_fresh s Hwf). eauto.
Qed.

(** What taking a lock does, on every branch. *)
Lemma try_lock_cases (addr : SubstateId) (flag : LockFlag) (s : LockedSubstates) :
  locks_wf s → id_counter s < U32_MAX →
  match locks s !! addr with
  | Some StWrite => ∃ e, try_lock addr flag s = (Err e, s)
  | Some (StRead n) =>
      if is_write flag then ∃ e, try_lock addr flag s = (Err e, s)
      else try_lock addr flag s =
             (Ok (id_counter s),
              MkLockedSubstates (<[id_counter s := addr]> (lock_ids s))
                (<[addr := StRead (n + 1)]> (locks s)) (id_counter s + 1))
  | None =>
      try_lock addr flag s =
        (Ok (id_counter s),
         MkLockedSubstates (<[id_counter s := addr]> (lock_ids s))
           (<[addr := lock_state_from flag]> (locks s)) (id_counter s + 1))
  end.
Proof.
  intros Hwf Hc. pose proof (wf_count s Hwf addr) as Hn. pose proof (wf_counter s Hwf) as Hb.
  pose proof (held_le_counter s addr Hwf) as Hle.
  assert (u32_checked_add (id_counter s) 1 = Some (id_counter s + 1)) as Hadd
    by (apply uint_checked_in; lia).
  unfold try_lock, register_lock, next_id, set_lock, bind, modify, lift, ret.
  destruct (locks s !! addr) as [[n|]|]; cbn [id_counter lock_ids locks]; rewrite ?Hadd.
  - destruct (is_write flag); [by eauto|]. destruct Hn as [Hn Hn1].
    unfold u64_add, u64_checked_add. rewrite uint_checked_in
      by (unfold U32_MAX, U64_MAX in *; lia).
    done.
  - destruct (is_write flag); by eauto.
  - done.
Qed.

(** A lock request leaves the write locks there are alone. *)
Lemma try_lock_Ok (addr : SubstateId) (flag : LockFlag) (s s' : LockedSubstates) lid :
  locks_wf s → id_counter s < U32_MAX → try_lock addr flag s = (Ok lid, s') →
  id_counter s' = id_counter s + 1 ∧
  (∀ a, locks s !! a = Some StWrite → locks s' !! a = Some StWrite) ∧
  (flag = LockWrite → locks s' !! addr = Some StWrite).
Proof.
  intros Hwf Hc Ht. pose proof (try_lock_cases addr flag s Hwf Hc) as Hcases.
  destruct (locks s !! addr) as [[n|]|] eqn:Ha.
  - destruct flag; simpl in Hcases; [|destruct Hcases; congruence].
    rewrite Hcases in Ht. simplify_eq. simpl. split_and!; [done| |done].
    intros a Hw. rewrite lookup_insert_ne; [done|]. intros ->. congruence.
  - destruct Hcases. congruence.
  - rewrite Hcases in Ht. simplify_eq. simpl. split_and!; [done| |].
    + intros a Hw. rewrite lookup_insert_ne; [done|]. intros ->. congruence.
    + intros ->. by rewrite lookup_insert_eq.
Qed.

Lemma try_lock_wf (addr : SubstateId) (flag : LockFlag) (s : LockedSubstates) :
  locks_wf s → id_counter s < U32_MAX → locks_wf (try_lock addr flag s).2.
Proof.
  intros Hwf Hc. pose proof (try_lock_cases addr flag s Hwf Hc) as Ht.
  pose proof (wf_id_fresh s Hwf) as Hid. pose proof (wf_counter s Hwf) as Hb.
  assert (∀ st : LockState,
    match st with StRead n => held s addr + 1 = n ∧ 1 ≤ n | StWrite => held s addr = 0 end →
    locks_wf (MkLockedSubstates (<[id_counter s := addr]> (lock_ids s))
                (<[addr := st]> (locks s)) (id_counter s + 1))) as Hadd.
  { intros st Hst. split; simpl.
    - intros id. rewrite lookup_insert_is_Some. intros [<-|[_ Hf%(wf_fresh s Hwf)]]; lia.
    - lia.
    - intros addr'. rewrite held_insert, held_ext by done.
      pose proof (wf_count s Hwf addr') as Hn. case_decide as E.
      + subst. rewrite lookup_insert_eq. destruct st; lia.
      + rewrite lookup_insert_ne, Z.add_0_r by done. done. }
  pose proof (wf_count s Hwf addr) as Hn. pose proof (held_nonneg s addr).
  destruct (locks s !! addr) as [[n|]|]; [destruct (is_write flag)|..].
  - by destruct Ht as [e ->].
  - rewrite Ht. apply Hadd. lia.
  - by destruct Ht as [e ->].
  - rewrite Ht. apply Hadd. destruct flag; simpl; lia.
Qed.

Lemma try_unlock_spec (id : LockId) (s : LockedSubstates) :
  locks_wf s →
  match lock_ids s !! id with
  | None => try_unlock id s = (Err (LockIdNotFound id), s)
  | Some addr => ∃ s', try_unlock id s = (Ok tt, s') ∧ locks_wf s' ∧
      lock_ids s' = delete id (lock_ids s) ∧ id_counter s' = id_counter s
  end.
Proof.
  intros Hwf. unfold try_unlock. destruct (lock_ids s !! id) as [addr|] eqn:Hid; [|done].
  pose proof (wf_count s Hwf addr) as Hn. pose proof (wf_counter s Hwf) as Hb.
  pose proof (held_delete _ (locks s) (id_counter s) _ _ addr Hid) as Hdel.
  rewrite held_ext, decide_True in Hdel by done.
  pose proof (held_nonneg (MkLockedSubstates (delete id (lock_ids s)) (locks s) (id_counter s)) addr)
    as Hpos. rewrite Hdel in Hpos.
  assert (∀ lks, (∀ a, a ≠ addr → lks !! a = locks s !! a) →
    match lks !! addr with
    | None => held s addr = 1
    | Some (StRead n) => held s addr = n + 1 ∧ 1 ≤ n
    | Some StWrite => held s addr = 2
    end →
    locks_wf (MkLockedSubstates (delete id (lock_ids s)) lks (id_counter s))) as Hkeep.
  { intros lks Hne Haddr. split; simpl; [|done|].
    - intros id' Hs. apply (wf_fresh s Hwf). by apply lookup_delete_is_Some in Hs as [_ ?].
    - intros a. rewrite (held_delete _ lks _ _ _ a Hid), held_ext. case_decide as E.
      + subst. destruct (lks !! a) as [[]|]; lia.
      + rewrite Hne by done. rewrite Z.sub_0_r. apply (wf_count s Hwf a). }
  pose proof (held_le_counter s addr Hwf) as Hle.
  destruct (locks s !! addr) as [[n|]|].
  - destruct Hn as [Hn H1]. unfold u64_checked_sub.
    rewrite uint_checked_in by (unfold U32_MAX, U64_MAX in *; lia).
    destruct (Z.eqb_spec (n - 1) 0).
    + eexists. split_and!; [done| |done|done]. apply Hkeep.
      * intros. by apply lookup_delete_ne.
      * rewrite lookup_delete_eq. lia.
    + eexists. split_and!; [done| |done|done]. apply Hkeep.
      * intros. by apply lookup_insert_ne.
      * rewrite lookup_insert_eq. lia.
  - eexists. split_and!; [done| |done|done]. apply Hkeep.
    + intros. by apply lookup_delete_ne.
    + by rewrite lookup_delete_eq.
  - lia.
Qed.

Lemma locked_default_wf : locks_wf locked_default.
Proof.
  split; simpl.
  - intros id [? Hx]. by rewrite lookup_empty in Hx.
  - unfold U32_MAX. lia.
  - intros addr. rewrite lookup_empty. unfold held, holders. simpl.
    by rewrite map_filter_empty, map_size_empty.
Qed.

Lemma try_lock_counter (addr : SubstateId) (flag : LockFlag) (s : LockedSubstates) :
  locks_wf s → id_counter s < U32_MAX → id_counter (try_lock addr flag s).2 ≤ id_counter s + 1.
Proof.
  intros Hwf Hc. pose proof (try_lock_cases addr flag s Hwf Hc) as Ht.
  destruct (locks s !! addr) as [[n|]|]; [destruct (is_write flag)|..];
    try (destruct Ht as [e ->]; simpl; lia); rewrite Ht; simpl; lia.
Qed.

(** Any sequence of fewer than 2^32 - 1 operations keeps the invariant. *)
Lemma run_lock_ops_wf (ops : list lock_op) (s : LockedSubstates) :
  locks_wf s → id_counter s + Z.of_nat (length ops) ≤ U32_MAX →
  locks_wf (foldl (λ s op, run_lock_op op s) s ops) ∧
  id_counter (foldl (λ s op, run_lock_op op s) s ops) ≤ id_counter s + Z.of_nat (length ops).
Proof.
  revert s. induction ops as [|op ops IH]; intros s Hwf Hlen; simpl in *; [split; [done|lia]|].
  assert (locks_wf (run_lock_op op s) ∧ id_counter (run_lock_op op s) ≤ id_counter s + 1)
    as [Hwf' Hc'].
  { destruct op as [addr flag|id]; simpl.
    - split; [apply try_lock_wf|apply try_lock_counter]; (done || lia).
    - pose proof (try_unlock_spec id s Hwf) as Hu. destruct (lock_ids s !! id).
      + destruct Hu as (s' & -> & ? & _ & Hc). simpl. split; [done|lia].
      + rewrite Hu. simpl. split; [done|lia]. }
  destruct (IH _ Hwf') as [? ?]; [lia|]. split; [done|lia].
Qed.

Lemma held_two (s : LockedSubstates) (id id' : LockId) addr :
  lock_ids s !! id = Some addr → lock_ids s !! id' = Some addr → id ≠ id' → 2 ≤ held s addr.
Proof.
  intros H1 H2 Hne. unfold held, holders.
  assert ({[id := addr; id' := addr]} ⊆ filter (λ p, p.2 = addr) (lock_ids s)) as Hsub.
  { apply map_subseteq_spec. intros k v Hk. apply map_lookup_filter_Some.
    destruct (decide (k = id)) as [->|]; [rewrite lookup_insert_eq in Hk; by simplify_eq|].
    rewrite lookup_insert_ne in Hk by done. apply lookup_singleton_Some in Hk as [<- <-]. done. }
  apply map_subseteq_size in Hsub.
  rewrite map_size_insert_None, map_size_singleton in Hsub; [lia|].
  by apply lookup_singleton_None.
Qed.

(** ** Theorems *)

(** C33: starting from no locks, after any sequence of lock and unlock requests
    that stays below the limit of the 32-bit id counter, the lock table is
    consistent: a lock id that grants write access is the only outstanding lock
    id on its substate, every outstanding id grants at least read access, and
    the read count of a substate is the number of outstanding ids. *)
Theorem locks_mutual_exclusion (ops : list lock_op) (id : LockId) (addr : SubstateId) :
  Z.of_nat (length ops) ≤ U32_MAX →
  let s := foldl (λ s op, run_lock_op op s) locked_default ops in
  lock_ids s !! id = Some addr →
  (get_lock s id LockRead = Ok (MkLockedSubstate addr id LockRead)) ∧
  (get_lock s id LockWrite = Ok (MkLockedSubstate addr id LockWrite) →
     ∀ id', lock_ids s !! id' = Some addr → id' = id) ∧
  (∀ n, locks s !! addr = Some (StRead n) → n = held s addr ∧ 1 ≤ n).
Proof.
  intros Hlen s Hid.
  destruct (run_lock_ops_wf ops locked_default locked_default_wf) as [Hwf _]; [simpl; lia|].
  fold s in Hwf. pose proof (wf_count s Hwf addr) as Hn. unfold get_lock. rewrite Hid. simpl.
  assert (held s addr ≠ 0) as Hne.
  { unfold held, holders. intros H0. assert (size (holders s addr) = 0%nat) as Hz
      by (unfold holders; lia).
    apply map_size_empty_inv in Hz. assert (holders s addr !! id = Some addr) as Hl
      by by apply map_lookup_filter_Some.
    by rewrite Hz, lookup_empty in Hl. }
  destruct (locks s !! addr) as [st|] eqn:Hst; [|lia]. simpl. split_and!.
  - by destruct st.
  - destruct st as [n|]; [done|]. intros _ id' Hid'.
    destruct (decide (id' = id)); [done|]. pose proof (held_two s _ _ _ Hid' Hid). lia.
  - intros n [= ->]. lia.
Qed.

Lemma locks_mutual_exclusion_witness :
  let s := foldl (λ s op, run_lock_op op s) locked_default
             [OpLock (SidVault 1) LockRead; OpLock (SidVault 2) LockWrite;
              OpLock (SidVault 1) LockRead; OpUnlock 0] in
  get_lock s 1 LockRead = Ok (MkLockedSubstate (SidVault 2) 1 LockRead).
Proof.
  apply (locks_mutual_exclusion
    [OpLock (SidVault 1) LockRead; OpLock (SidVault 2) LockWrite;
     OpLock (SidVault 1) LockRead; OpUnlock 0] 1 (SidVault 2)).
  - vm_compute. discriminate.
  - vm_compute. reflexivity.
Defined.
