(* ===== verification/Fees.v ===== *)
(** * Fee receipts

    [engine_types/src/fees.rs]: the breakdown of the charges by source and the
    receipt of a transaction. *)
From stdpp Require Import base list sorting numbers.
From S2P Require Import Prelude BTree.
Open Scope Z_scope.

Inductive FeeSource :=
  | Initial | RuntimeCall | Storage | Events | Logs | TransactionWeight | SignatureVerification.
#[export] Instance FeeSource_eq_dec : EqDecision FeeSource.
Proof. solve_decision. Defined.

(** The derived order of the variants. *)
Definition source_index (s : FeeSource) : N :=
  match s with
  | Initial => 0 | RuntimeCall => 1 | Storage => 2 | Events => 3 | Logs => 4
  | TransactionWeight => 5 | SignatureVerification => 6
  end%N.
Definition source_le (p q : FeeSource * Z) : Prop := (source_index p.1 ≤ source_index q.1)%N.
#[export] Instance source_le_dec : RelDecision source_le.
Proof. intros p q. unfold source_le. apply _. Defined.

(** An [IndexMap] whose keys are sorted after each new key. *)
Record FeeBreakdown := MkFeeBreakdown { breakdown : list (FeeSource * Z) }.
Definition breakdown_default : FeeBreakdown := MkFeeBreakdown [].

Definition breakdown_add {E : Type} (source : FeeSource) (amount : Z) : M FeeBreakdown E unit :=
  λ self,
  match im_get source (breakdown self) with
  | Some old =>
      (let! sum := lift (u64_add old amount) in
       put (MkFeeBreakdown (im_insert source sum (breakdown self)))) self
  | None =>
      (Ok tt, MkFeeBreakdown (merge_sort source_le (im_insert source amount (breakdown self))))
  end.

Fixpoint u64_sum {E : Type} (acc : Z) (l : list Z) : res E Z :=
  match l with
  | [] => Ok acc
  | x :: l' => let? acc' := u64_add acc x in u64_sum acc' l'
  end.
Definition get_total {E : Type} (self : FeeBreakdown) : res E Z := u64_sum 0 (breakdown self).*2.

Record FeeReceipt := MkFeeReceipt {
  total_fee_payment : Z;
  total_fees_paid : Z;
  total_fee_overcharge : Z;
  cost_breakdown : FeeBreakdown;
}.

Definition total_fees_charged {E : Type} (self : FeeReceipt) : res E Z :=
  get_total (cost_breakdown self).
Definition total_refunded {E : Type} (self : FeeReceipt) : res E Z :=
  let? charged := total_fees_charged self in
  Ok (default 0 (u64_checked_sub (total_fee_payment self) charged)).
Definition unpaid_debt {E : Type} (self : FeeReceipt) : res E Z :=
  let? charged := total_fees_charged self in
  Ok (default 0 (u64_checked_sub charged (total_fees_paid self))).
Definition is_paid_in_full {E : Type} (self : FeeReceipt) : res E bool :=
  let? debt := unpaid_debt self in Ok (debt =? 0).

(** ** Lemmas *)
Fixpoint sum_Z (l : list Z) : Z :=
  match l with
  | [] => 0
  | x :: l' => x + sum_Z l'
  end.

Lemma sum_Z_app (xs ys : list Z) : sum_Z (xs ++ ys) = sum_Z xs + sum_Z ys.
Proof. induction xs as [|x xs IH]; simpl; [done|]. rewrite IH. lia. Qed.

Lemma sum_Z_nonneg (l : list Z) : Forall (λ x, 0 ≤ x) l → 0 ≤ sum_Z l.
Proof. induction 1; simpl; lia. Qed.

Lemma sum_Z_perm (xs ys : list Z) : xs ≡ₚ ys → sum_Z xs = sum_Z ys.
Proof. induction 1; simpl; lia. Qed.

Lemma u64_sum_Ok {E : Type} (acc : Z) (l : list Z) :
  0 ≤ acc → Forall (λ x, 0 ≤ x) l → acc + sum_Z l ≤ U64_MAX →
  @u64_sum E acc l = Ok (acc + sum_Z l).
Proof.
  intros Ha Hl. revert acc Ha. induction Hl as [|x l Hx Hl IH]; intros acc Ha Hs; simpl in *.
  - by rewrite Z.add_0_r.
  - pose proof (sum_Z_nonneg l Hl). unfold u64_add, u64_checked_add.
    rewrite uint_checked_in by lia. simpl. rewrite IH by lia. f_equal. lia.
Qed.

Lemma sum_im_insert_old (m : list (FeeSource * Z)) k old new :
  im_get k m = Some old → sum_Z (im_insert k new m).*2 = sum_Z m.*2 - old + new.
Proof.
  induction m as [|[k' v'] m IH]; csimpl; [done|]. case_decide as E; csimpl.
  - intros [= ->]. lia.
  - intros H. rewrite IH by done. lia.
Qed.

Lemma sum_im_insert_new (m : list (FeeSource * Z)) k new :
  im_get k m = None → sum_Z (im_insert k new m).*2 = sum_Z m.*2 + new.
Proof.
  induction m as [|[k' v'] m IH]; csimpl; [lia|]. case_decide as E; csimpl; [done|].
  intros H. rewrite IH by done. lia.
Qed.
