(* ===== verification/Substate.v ===== *)
(** * Substates

    [engine_types/src/substate.rs] and the substate values it wraps:
    components, resources ([resource.rs]), vaults, non-fungibles
    ([non_fungible.rs]), validator fee pools ([validator_fee.rs]), UTXOs
    ([utxo.rs]), templates and receipts. *)
From stdpp Require Import base gmap list strings numbers.
From S2P Require Import Prelude Bor Ids Amount Crypto ResourceContainer Vault AccessRules Fees.
Open Scope Z_scope.

Section substate.
Context `{Ii : !I192}.

(** ** Components *)
Record ComponentHeader := MkComponentHeader {
  template_address : TemplateAddress;
  module_name : string;
  component_owner_key : option PublicKeyBytes;
  component_owner_rule : OwnerRule;
  component_access_rules : ComponentAccessRules;
  entity_id : N;
  component_state : Value;
}.
Definition component_as_ownership (self : ComponentHeader) : Ownership :=
  MkOwnership (component_owner_key self) (component_owner_rule self).
Definition set_access_rules (rules : ComponentAccessRules) (self : ComponentHeader) :
    ComponentHeader :=
  MkComponentHeader (template_address self) (module_name self) (component_owner_key self)
    (component_owner_rule self) rules (entity_id self) (component_state self).
Definition set_component_state (state : Value) (self : ComponentHeader) : ComponentHeader :=
  MkComponentHeader (template_address self) (module_name self) (component_owner_key self)
    (component_owner_rule self) (component_access_rules self) (entity_id self) state.

(** ** Resources *)
Record Resource := MkResource {
  res_type : ResourceType;
  res_owner_rule : OwnerRule;
  res_owner_key : option PublicKeyBytes;
  res_access_rules : ResourceAccessRules;
  res_metadata : gmap string string;
  total_supply : option Z;
  res_view_key : option PublicKeyBytes;
  res_auth_hook : option (ComponentAddress * string);
  divisibility : Z;
}.
Definition resource_new (resource_type : ResourceType) (owner_key : option PublicKeyBytes)
    (owner_rule : OwnerRule) (access_rules : ResourceAccessRules)
    (metadata : gmap string string) (view_key : option PublicKeyBytes)
    (auth_hook : option (ComponentAddress * string)) (divisibility : Z)
    (is_total_supply_tracking_enabled : bool) : Resource :=
  MkResource resource_type owner_rule owner_key access_rules metadata
    (if is_total_supply_tracking_enabled then Some 0 else None) view_key auth_hook
    (match resource_type with RtNonFungible => 0 | _ => divisibility end).
Definition resource_as_ownership (self : Resource) : Ownership :=
  MkOwnership (res_owner_key self) (res_owner_rule self).
Definition set_total_supply (s : option Z) (self : Resource) : Resource :=
  MkResource (res_type self) (res_owner_rule self) (res_owner_key self) (res_access_rules self)
    (res_metadata self) s (res_view_key self) (res_auth_hook self) (divisibility self).

Definition increase_total_supply {E : Type} (amount : Z) : M Resource E bool := λ self,
  if negb (Amount.is_non_negative amount) then (Panic, self)
  else
    match total_supply self with
    | None => (Ok true, self)
    | Some supply =>
        match Amount.checked_add supply amount with
        | Some new_supply => (Ok true, set_total_supply (Some new_supply) self)
        | None => (Ok false, self)
        end
    end.

Definition decrease_total_supply {E : Type} (amount : Z) : M Resource E unit := λ self,
  if negb (Amount.is_non_negative amount) then (Panic, self)
  else
    match total_supply self with
    | None => (Ok tt, self)
    | Some supply =>
        (let! rest := lift (Amount.checked_sub_positive supply amount) in
         let! rest := lift (expect rest) in
         put (set_total_supply (Some rest) self)) self
    end.

(** ** Non-fungibles, UTXOs and fee pools *)
Record NonFungible := MkNonFungible { nf_data : Value; nf_mutable_data : Value }.
Record NonFungibleContainer := MkNonFungibleContainer { nf_contents : option NonFungible }.
Definition nf_new (data mutable_data : Value) : NonFungibleContainer :=
  MkNonFungibleContainer (Some (MkNonFungible data mutable_data)).
Definition nf_no_data : NonFungibleContainer := nf_new VNull VNull.
Definition nf_is_burnt (self : NonFungibleContainer) : bool :=
  match nf_contents self with None => true | Some _ => false end.
Definition nf_burn (self : NonFungibleContainer) : NonFungibleContainer :=
  MkNonFungibleContainer None.

Record UtxoOutput := MkUtxoOutput {
  utxo_private_output : PrivateOutput;
  utxo_owner_public_key : PublicKeyBytes;
  utxo_tag : N;
}.
Record Utxo := MkUtxo { utxo_output : option UtxoOutput; is_frozen : bool }.
Definition utxo_new (output : UtxoOutput) : Utxo := MkUtxo (Some output) false.
Definition utxo_freeze (self : Utxo) : Utxo := MkUtxo (utxo_output self) true.
Definition utxo_unfreeze (self : Utxo) : Utxo := MkUtxo (utxo_output self) false.
Definition utxo_burn (self : Utxo) : Utxo := MkUtxo None (is_frozen self).
Definition is_burnt (self : Utxo) : bool :=
  match utxo_output self with None => true | Some _ => false end.

Record ValidatorFeePool := MkValidatorFeePool {
  claim_public_key : PublicKeyBytes;
  pool_amount : Z;
}.
Definition pool_as_ownership (self : ValidatorFeePool) : Ownership :=
  MkOwnership (Some (claim_public_key self)) OwnedBySigner.
Definition withdraw_direct {E : Type} (amount : Z) : M ValidatorFeePool E bool := λ self,
  match u64_checked_sub (pool_amount self) amount with
  | Some new_amount => (Ok true, MkValidatorFeePool (claim_public_key self) new_amount)
  | None => (Ok false, self)
  end.
Definition deposit_direct {E : Type} (amount : Z) : M ValidatorFeePool E bool := λ self,
  match u64_checked_add (pool_amount self) amount with
  | Some new_amount => (Ok true, MkValidatorFeePool (claim_public_key self) new_amount)
  | None => (Ok false, self)
  end.
Definition pool_withdraw_all : M ValidatorFeePool ResourceError ResourceContainer := λ self,
  if pool_amount self =? 0 then (Err InsufficientBalance, self)
  else (Ok (Stealth XTR (pool_amount self) 0), MkValidatorFeePool (claim_public_key self) 0).

(** ** Templates and receipts *)
Record PublishedTemplate := MkPublishedTemplate { author : PublicKeyBytes; binary_hash : N }.
Record Event := MkEvent {
  event_substate_id : option SubstateId;
  event_template_address : TemplateAddress;
  event_tx_hash : N;
  event_topic : string;
  event_payload : gmap string string;
}.
Record LogEntry := MkLogEntry { log_message : string; log_level : N }.
Record TransactionReceipt := MkTransactionReceipt {
  receipt_transaction_hash : N;
  receipt_events : list Event;
  receipt_logs : list LogEntry;
  receipt_fee_receipt : FeeReceipt;
}.

Inductive SubstateValue :=
  | SvComponent (c : ComponentHeader)
  | SvResource (r : Resource)
  | SvVault (v : Vault)
  | SvNonFungible (n : NonFungibleContainer)
  | SvClaimedOutputTombstone (value : Z)
  | SvTransactionReceipt (r : TransactionReceipt)
  | SvTemplate (t : PublishedTemplate)
  | SvValidatorFeePool (p : ValidatorFeePool)
  | SvUtxo (u : Utxo).

Definition as_component (v : SubstateValue) : option ComponentHeader :=
  match v with SvComponent c => Some c | _ => None end.
Definition as_resource (v : SubstateValue) : option Resource :=
  match v with SvResource r => Some r | _ => None end.
Definition as_vault (v : SubstateValue) : option Vault :=
  match v with SvVault x => Some x | _ => None end.
Definition as_non_fungible (v : SubstateValue) : option NonFungibleContainer :=
  match v with SvNonFungible n => Some n | _ => None end.
Definition as_validator_fee_pool (v : SubstateValue) : option ValidatorFeePool :=
  match v with SvValidatorFeePool p => Some p | _ => None end.
Definition into_utxo (v : SubstateValue) : option Utxo :=
  match v with SvUtxo u => Some u | _ => None end.

Record Substate := MkSubstate { substate_value : SubstateValue; version : Z }.

Record ValidatorFeeWithdrawal := MkValidatorFeeWithdrawal {
  withdrawal_address : N;
  withdrawal_amount : Z;
}.
Record SubstateDiff := MkSubstateDiff {
  up_substates : list (SubstateId * Substate);
  down_substates : list (SubstateId * Z);
  fee_withdrawals : list ValidatorFeeWithdrawal;
}.
Definition diff_new : SubstateDiff := MkSubstateDiff [] [] [].
Definition diff_up (id : SubstateId) (value : Substate) (d : SubstateDiff) : SubstateDiff :=
  MkSubstateDiff (up_substates d ++ [(id, value)]) (down_substates d) (fee_withdrawals d).
Definition diff_down (id : SubstateId) (v : Z) (d : SubstateDiff) : SubstateDiff :=
  MkSubstateDiff (up_substates d) (down_substates d ++ [(id, v)]) (fee_withdrawals d).
Definition set_once_fee_withdrawals {E : Type} (ws : list ValidatorFeeWithdrawal)
    (d : SubstateDiff) : res E SubstateDiff :=
  match fee_withdrawals d with
  | [] => Ok (MkSubstateDiff (up_substates d) (down_substates d) ws)
  | _ => Panic
  end.
End substate.
