(* ===== verification/Stealth.v ===== *)
(** * Stealth transfers

    [engine_types/src/stealth/outputs.rs], [transfer.rs] and [value_proof.rs],
    [engine_types/src/crypto/utxo_spend.rs], the statements of
    [template_lib/src/models/stealth.rs] and the limits of
    [engine/src/runtime/validation.rs]. *)
From stdpp Require Import base gmap list strings numbers.
From S2P Require Import Prelude Ids Amount Crypto Confidential RuntimeError Substate.
Open Scope Z_scope.

Record StealthUnspentOutput := MkStealthUnspentOutput {
  suo_output : UnspentOutput;
  suo_owner_public_key : PublicKeyBytes;
  suo_tag : N;
}.
Record StealthOutputsStatement := MkStealthOutputsStatement {
  sos_outputs : list StealthUnspentOutput;
  sos_revealed_output_amount : Z;
  sos_agg_range_proof : list N;
}.
Record StealthInput := MkStealthInput {
  si_commitment : CommitmentBytes;
  si_owner_proof : SchnorrSignatureBytes;
}.
Record StealthInputsStatement := MkStealthInputsStatement {
  sis_inputs : list StealthInput;
  sis_revealed_amount : Z;
}.
Record StealthTransferStatement := MkStealthTransferStatement {
  inputs_statement : StealthInputsStatement;
  outputs_statement : StealthOutputsStatement;
  balance_proof : SchnorrSignatureBytes;
}.
Inductive ValueKnowledgeProof :=
  | CommitmentProof (mask_knowledge_proof : SchnorrSignatureBytes)
  | ElgamalEncrypted (reveal_key : PublicKeyBytes).
Record StealthValueProof := MkStealthValueProof {
  svp_value : Z;
  svp_knowledge_proof : ValueKnowledgeProof;
}.

(** [limits.rs] and [validation.rs]. *)
Record StealthLimits := MkStealthLimits { max_inputs : nat; max_outputs : nat }.
Definition STEALTH_LIMITS : StealthLimits := MkStealthLimits 1000 8.
Definition check_stealth_outputs_limits (limits : StealthLimits)
    (statement : StealthOutputsStatement) : res ArgumentValidationError unit :=
  if (max_outputs limits <? length (sos_outputs statement))%nat
  then Err (MaxStealthOutputsExceeded (max_outputs limits) (length (sos_outputs statement)))
  else Ok tt.
Definition check_stealth_transfer_limits (limits : StealthLimits)
    (statement : StealthTransferStatement) : res ArgumentValidationError unit :=
  let inputs := sis_inputs (inputs_statement statement) in
  if (max_inputs limits <? length inputs)%nat
  then Err (MaxStealthInputsExceeded (max_inputs limits) (length inputs))
  else check_stealth_outputs_limits limits (outputs_statement statement).

Section stealth.
Context `{Ii : !I192} `{Ic : !Crypto}.

Record ValidatedStealthOutput := MkValidatedStealthOutput {
  vso_output : ValidatedPrivateOutput;
  vso_owner_public_key : Point;
  vso_tag : N;
}.
Definition to_utxo_output (self : ValidatedStealthOutput) : UtxoOutput :=
  MkUtxoOutput (to_private_output (vso_output self))
    (point_to_bytes (vso_owner_public_key self)) (vso_tag self).

(** The closure over the statements. *)
Definition validate_stealth_output (view_key : option Point) (statement : StealthUnspentOutput) :
    res ResourceError ValidatedStealthOutput :=
  let output := suo_output statement in
  let? output_commitment := decode (point_from_canonical_bytes (uo_commitment output)) in
  let? output_public_nonce := decode (point_from_canonical_bytes (uo_sender_public_nonce output)) in
  let? viewable_balance := validate_elgamal_verifiable_balance_proof output_commitment view_key
                             (uo_viewable_balance_proof output) in
  let validated := MkValidatedPrivateOutput output_commitment output_public_nonce
                     (uo_encrypted_data output) (uo_minimum_value_promise output)
                     viewable_balance in
  let? owner_public_key := decode (point_from_canonical_bytes (suo_owner_public_key statement)) in
  Ok (MkValidatedStealthOutput validated owner_public_key (suo_tag statement)).

Definition validate_stealth_outputs_statement (stmt : StealthOutputsStatement)
    (view_key : option Point) : res ResourceError (list ValidatedStealthOutput) :=
  let? _ := validate_bullet_proof (sos_agg_range_proof stmt) (suo_output <$> sos_outputs stmt) in
  match sos_outputs stmt with
  | [] => Ok []
  | outputs => collect (validate_stealth_output view_key) outputs
  end.

Record ValidatedStealthTransfer := MkValidatedStealthTransfer {
  vst_outputs : list ValidatedStealthOutput;
  vst_revealed_output_amount : Z;
}.

Definition basic_validations (transfer : StealthTransferStatement) : res ResourceError unit :=
  let inputs := inputs_statement transfer in
  let outputs := outputs_statement transfer in
  if Amount.is_negative (sis_revealed_amount inputs) then Err InvalidBalanceProof
  else if Amount.is_negative (sos_revealed_output_amount outputs) then Err InvalidBalanceProof
  else if Amount.is_zero (sis_revealed_amount inputs) && bool_decide (length (sis_inputs inputs) = 0%nat)
  then Err InvalidBalanceProof
  else if bool_decide (length (sis_inputs inputs) = 0%nat)
          && bool_decide (length (sos_outputs outputs) = 0%nat)
          && bool_decide (sis_revealed_amount inputs ≠ sos_revealed_output_amount outputs)
  then Err InvalidBalanceProof
  else Ok tt.

(** [try_fold] over the inputs. *)
Fixpoint aggregate_inputs (sum : Point) (inputs : list StealthInput) : res ResourceError Point :=
  match inputs with
  | [] => Ok sum
  | input :: inputs' =>
      let? commit := decode (point_from_canonical_bytes (si_commitment input)) in
      aggregate_inputs (point_add sum commit) inputs'
  end.

Definition validate_transfer (transfer : StealthTransferStatement) (view_key : option Point) :
    res ResourceError ValidatedStealthTransfer :=
  let inputs := inputs_statement transfer in
  let outputs := outputs_statement transfer in
  let? _ := basic_validations transfer in
  let? validated_outputs := validate_stealth_outputs_statement outputs view_key in
  if (sig_public_nonce (balance_proof transfer) =? 0)%N then Err InvalidBalanceProof
  else
    let? proof := ok_or (try_decode_to_signature (balance_proof transfer)) InvalidBalanceProof in
    if bool_decide (length (sis_inputs inputs) = 0%nat)
       && bool_decide (length validated_outputs = 0%nat)
    then
      if negb (bool_decide (sos_agg_range_proof outputs = [])) then Err InvalidBalanceProof
      else if bool_decide (from_secret_key proof.2 ≠ proof.1) then Err InvalidBalanceProof
      else Ok (MkValidatedStealthTransfer [] (sos_revealed_output_amount outputs))
    else
      let agg_outputs :=
        foldl (λ acc o, point_add acc (vo_commitment (vso_output o))) point_default
          validated_outputs in
      let? agg_inputs := aggregate_inputs point_default (sis_inputs inputs) in
      let? revealed_input := commit_amount_checked scalar_default (sis_revealed_amount inputs) in
      let? revealed_input_commit := ok_or revealed_input InvalidBalanceProof in
      let? revealed_output :=
        commit_amount_checked scalar_default (sos_revealed_output_amount outputs) in
      let? revealed_output_commit := ok_or revealed_output InvalidBalanceProof in
      let public_excess :=
        point_sub (point_sub (point_add agg_inputs revealed_input_commit) agg_outputs)
          revealed_output_commit in
      let message := stealth_transfer64 public_excess proof.1 (sis_revealed_amount inputs)
                       (sos_revealed_output_amount outputs) in
      if negb (verify_raw_uniform proof public_excess message) then Err InvalidBalanceProof
      else Ok (MkValidatedStealthTransfer validated_outputs (sos_revealed_output_amount outputs)).

Definition validate_value_proof (commitment_bytes : CommitmentBytes)
    (elgamal_verifiable_balance : option ElgamalVerifiableBalanceBytes)
    (proof : StealthValueProof) : res ResourceError Z :=
  let failed := UtxoBurnFailed commitment_bytes in
  if Amount.is_negative (svp_value proof) then Err failed
  else
    let? commitment := ok_or (point_from_canonical_bytes commitment_bytes) failed in
    let? _ :=
      match svp_knowledge_proof proof with
      | CommitmentProof mask_knowledge_proof =>
          let? committed := commit_amount scalar_default (svp_value proof) in
          let public_mask := point_sub commitment committed in
          let? sig := ok_or (try_decode_to_signature mask_knowledge_proof) failed in
          let message := value_proof_message commitment_bytes (svp_value proof) in
          if negb (verify sig public_mask message) then Err failed else Ok tt
      | ElgamalEncrypted reveal_key =>
          let? elgamal := ok_or elgamal_verifiable_balance failed in
          let? encrypted := ok_or (point_from_canonical_bytes (evb_encrypted elgamal)) failed in
          let? reveal_key := ok_or (point_from_canonical_bytes reveal_key) failed in
          let check_value := point_sub encrypted reveal_key in
          let? value := convert_amount_to_secret (svp_value proof) in
          let? value := expect value in
          if bool_decide (from_secret_key value ≠ check_value) then Err failed else Ok tt
      end in
    Ok (svp_value proof).

Definition verify_utxo_spend_permission (utxo : UtxoOutput) (input : StealthInput) :
    res ResourceError unit :=
  if (sig_public_nonce (si_owner_proof input) =? 0)%N then Err InvalidSpend
  else
    let? proof := ok_or (try_decode_to_signature (si_owner_proof input)) InvalidSpend in
    let message := stealth_ownership64 (utxo_owner_public_key utxo)
                     (sig_public_nonce (si_owner_proof input)) (si_commitment input)
                     (po_public_nonce (utxo_private_output utxo)) in
    let? signer_pk := ok_or (point_from_canonical_bytes (utxo_owner_public_key utxo)) InvalidSpend in
    if negb (verify_raw_uniform proof signer_pk message) then Err InvalidSpend else Ok tt.
End stealth.

(** ** Value is conserved by a validated transfer *)
Section stealth_balance.
Context `{Ii : !I192} `{Ic : !Crypto} `{Il : !CryptoLaws}.

Add Ring stealth_scalar_ring : scalar_ring.

(** The input commits to [v]. *)
Definition input_opens (input : StealthInput) (v : Scalar) : Prop :=
  ∃ k, point_from_canonical_bytes (si_commitment input) = Some (commit k v).
Definition output_opens (output : ValidatedStealthOutput) (v : Scalar) : Prop :=
  ∃ k, vo_commitment (vso_output output) = commit k v.

Lemma aggregate_inputs_opens (inputs : list StealthInput) (vs : list Scalar) (k0 v0 : Scalar) sum :
  Forall2 input_opens inputs vs → aggregate_inputs (commit k0 v0) inputs = Ok sum →
  ∃ k, sum = commit k (scalar_add v0 (scalar_sum vs)).
Proof.
  intros Hf. revert k0 v0.
  induction Hf as [|i v rest vs [k Hk] Hf IH]; intros k0 v0; cbn [aggregate_inputs scalar_sum foldr].
  - intros [= <-]. exists k0. f_equal. ring.
  - rewrite Hk. cbn [decode ok_or res_bind]. rewrite commit_add. intros Ha.
    destruct (IH _ _ Ha) as [k' ->]. exists k'. f_equal. change (foldr _ _ vs) with (scalar_sum vs).
    ring.
Qed.

Lemma aggregate_outputs_opens (outputs : list ValidatedStealthOutput) (vs : list Scalar)
    (k0 v0 : Scalar) :
  Forall2 output_opens outputs vs →
  ∃ k, foldl (λ acc o, point_add acc (vo_commitment (vso_output o))) (commit k0 v0) outputs =
       commit k (scalar_add v0 (scalar_sum vs)).
Proof.
  intros Hf. revert k0 v0.
  induction Hf as [|o v os vs [k Hk] Hf IH]; intros k0 v0; cbn [foldl scalar_sum foldr].
  - exists k0. f_equal. ring.
  - rewrite Hk, commit_add. destruct (IH (scalar_add k0 k) (scalar_add v0 v)) as [k' ->].
    exists k'. f_equal. change (foldr _ _ vs) with (scalar_sum vs). ring.
Qed.

Lemma commit_amount_checked_eq {E : Type} (a : Z) :
  i192_in a → 0 ≤ a →
  @commit_amount_checked _ _ E scalar_default a
    = Ok (Some (commit scalar_default (scalar_of_Z a))).
Proof.
  intros Ha Hnn. pose proof (@commit_amount_eq _ _ _ E scalar_default a Ha Hnn) as H.
  unfold commit_amount in H. inv_ok. by subst.
Qed.

Lemma transfer_excess_balance (ki kr ko kt x vi vr vo vt : Scalar) :
  point_sub (point_sub (point_add (commit ki vi) (commit kr vr)) (commit ko vo)) (commit kt vt)
    = from_secret_key x →
  scalar_add vi vr = scalar_add vo vt.
Proof.
  rewrite !commit_add, !commit_sub, commit_base. intros [_ Hv]%commit_binding.
  assert (scalar_add vi vr = scalar_add
    (scalar_sub (scalar_sub (scalar_add vi vr) vo) vt) (scalar_add vo vt)) as -> by ring.
  rewrite Hv. ring.
Qed.

Lemma basic_validations_Ok (transfer : StealthTransferStatement) :
  basic_validations transfer = Ok tt →
  let inputs := inputs_statement transfer in
  let outputs := outputs_statement transfer in
  0 ≤ sis_revealed_amount inputs ∧ 0 ≤ sos_revealed_output_amount outputs ∧
  (sis_revealed_amount inputs = 0 → sis_inputs inputs ≠ []) ∧
  (sis_inputs inputs = [] → sos_outputs outputs = [] →
     sis_revealed_amount inputs = sos_revealed_output_amount outputs).
Proof.
  unfold basic_validations, Amount.is_negative, Amount.is_zero. intros Hb.
  destruct (Z.ltb_spec (sis_revealed_amount (inputs_statement transfer)) 0); [done|].
  destruct (Z.ltb_spec (sos_revealed_output_amount (outputs_statement transfer)) 0); [done|].
  case_step; [done|]. case_step; [done|]. clear Hb.
  rewrite andb_false_iff, Z.eqb_neq, bool_decide_eq_false, length_zero_iff_nil in E.
  rewrite !andb_false_iff, !bool_decide_eq_false, !length_zero_iff_nil in E0.
  split_and!; [lia..|naive_solver|]. intros Hi Ho.
  destruct E0 as [[?|?]|?]; [done..|]. by apply dec_stable.
Qed.

Lemma validate_outputs_length (stmt : StealthOutputsStatement) view_key outs :
  validate_stealth_outputs_statement stmt view_key = Ok outs →
  length outs = length (sos_outputs stmt).
Proof.
  unfold validate_stealth_outputs_statement. intros (u & _ & Hv)%res_bind_Ok.
  destruct (sos_outputs stmt) as [|o os] eqn:Ho; [by simplify_eq|].
  apply collect_Ok in Hv. symmetry. by eapply Forall2_length.
Qed.

Lemma validate_transfer_balance (transfer : StealthTransferStatement)
    (view_key : option Point) (vt : ValidatedStealthTransfer) (vs ws : list Scalar) :
  let revealed_in := sis_revealed_amount (inputs_statement transfer) in
  i192_in revealed_in → i192_in (sos_revealed_output_amount (outputs_statement transfer)) →
  validate_transfer transfer view_key = Ok vt →
  Forall2 input_opens (sis_inputs (inputs_statement transfer)) vs →
  Forall2 output_opens (vst_outputs vt) ws →
  0 ≤ revealed_in ∧ 0 ≤ vst_revealed_output_amount vt ∧
  scalar_add (scalar_sum vs) (scalar_of_Z revealed_in) =
  scalar_add (scalar_sum ws) (scalar_of_Z (vst_revealed_output_amount vt)).
Proof.
  intros revealed_in Hri Hro Hv Hin Hout. unfold validate_transfer in Hv.
  apply res_bind_Ok in Hv as ([] & Hb & Hv).
  apply basic_validations_Ok in Hb as (Hnni & Hnno & _ & Hrev).
  apply res_bind_Ok in Hv as (outs & Hso & Hv). apply validate_outputs_length in Hso.
  destruct (N.eqb_spec (sig_public_nonce (balance_proof transfer)) 0); [done|].
  apply res_bind_Ok in Hv as (proof & _ & Hv). case_step.
  - rewrite andb_true_iff, !bool_decide_eq_true, length_zero_iff_nil in E.
    destruct E as [Hi Ho]. rewrite Hso in Ho. apply length_zero_iff_nil in Ho.
    repeat (case_step; [done|]). simplify_eq/=. split_and!; [done..|].
    rewrite Hi in Hin. apply Forall2_nil_inv_l in Hin as ->.
    apply Forall2_nil_inv_l in Hout as ->. unfold revealed_in. by rewrite (Hrev Hi Ho).
  - rewrite !commit_amount_checked_eq in Hv by done. inv_ok.
    destruct (verify_raw_uniform _ _ _) eqn:Ev; [|done].
    apply verify_knows_secret in Ev as [sk Hx]. simpl in Hv. inv_ok.
    split_and!; [done..|].
    rewrite commit_default in *.
    match goal with H : aggregate_inputs _ _ = Ok _ |- _ =>
      destruct (aggregate_inputs_opens _ _ _ _ _ Hin H) as [ki ->] end.
    destruct (aggregate_outputs_opens _ _ scalar_default scalar_default Hout) as [ko Hko].
    rewrite Hko in Hx. apply transfer_excess_balance in Hx. unfold revealed_in.
    transitivity (scalar_add (scalar_add scalar_default (scalar_sum vs))
      (scalar_of_Z (sis_revealed_amount (inputs_statement transfer)))); [ring|].
    rewrite Hx. ring.
Qed.

(** A stealth transfer that validates conserves value: the values of the
    spent outputs and the revealed input add up to the values of the new outputs
    and the revealed output, and neither revealed amount is negative. *)
Theorem validate_transfer_balanced (transfer : StealthTransferStatement)
    (view_key : option Point) (vt : ValidatedStealthTransfer) (vs ws : list Scalar) :
  let revealed_in := sis_revealed_amount (inputs_statement transfer) in
  i192_in revealed_in → i192_in (sos_revealed_output_amount (outputs_statement transfer)) →
  validate_transfer transfer view_key = Ok vt →
  Forall2 input_opens (sis_inputs (inputs_statement transfer)) vs →
  Forall2 output_opens (vst_outputs vt) ws →
  0 ≤ revealed_in ∧ 0 ≤ vst_revealed_output_amount vt ∧
  scalar_add (scalar_sum vs) (scalar_of_Z revealed_in) =
  scalar_add (scalar_sum ws) (scalar_of_Z (vst_revealed_output_amount vt)).
Proof. apply validate_transfer_balance. Qed.

(** a value proof by knowledge of the mask is sound: the amount it is
    accepted for is the amount the commitment opens to. *)
Theorem mask_value_proof_sound (commitment_bytes : CommitmentBytes) elgamal
    (proof : StealthValueProof) sig (k v : Scalar) (amount : Z) :
  svp_knowledge_proof proof = CommitmentProof sig →
  i192_in (svp_value proof) →
  point_from_canonical_bytes commitment_bytes = Some (commit k v) →
  validate_value_proof commitment_bytes elgamal proof = Ok amount →
  amount = svp_value proof ∧ 0 ≤ amount ∧ v = scalar_of_Z amount.
Proof.
  intros Hp Hi Hc. unfold validate_value_proof, Amount.is_negative. rewrite Hp, Hc.
  destruct (Z.ltb_spec (svp_value proof) 0); [done|]. simpl.
  rewrite commit_amount_eq by done. simpl. intros Hv. inv_ok.
  destruct (verify _ _ _) eqn:Ev; [|done]. apply verify_message_knows_secret in Ev as [sk Hsk].
  rewrite commit_sub, commit_base in Hsk. apply commit_binding in Hsk as [_ Hv].
  split_and!; [done|done|].
  transitivity (scalar_add (scalar_sub v (scalar_of_Z (svp_value proof)))
    (scalar_of_Z (svp_value proof))); [ring|]. rewrite Hv. ring.
Qed.

(** a value proof by a reveal key is not sound: the key is not tied to the
    view key, so whatever the encrypted balance is, every amount is accepted
    with the key that the encrypted balance exceeds it by. *)
Theorem elgamal_value_proof_unsound (commitment_bytes : CommitmentBytes) (c : Point)
    (evb : ElgamalVerifiableBalanceBytes) (k v : Scalar) (amount : Z) (reveal_key : PublicKeyBytes) :
  point_from_canonical_bytes commitment_bytes = Some c →
  point_from_canonical_bytes (evb_encrypted evb) = Some (commit k v) →
  i192_in amount → 0 ≤ amount →
  point_from_canonical_bytes reveal_key =
    Some (point_sub (commit k v) (from_secret_key (scalar_of_Z amount))) →
  validate_value_proof commitment_bytes (Some evb)
    (MkStealthValueProof amount (ElgamalEncrypted reveal_key)) = Ok amount.
Proof.
  intros Hc He Hi Hnn Hr. unfold validate_value_proof, Amount.is_negative. simpl.
  destruct (Z.ltb_spec amount 0); [lia|]. rewrite Hc, He, Hr. simpl.
  pose proof (@commit_amount_checked_eq ResourceError amount Hi Hnn) as Ha.
  unfold commit_amount_checked in Ha. apply res_bind_Ok in Ha as ([s|] & -> & Hs); [|done]. simpl.
  injection Hs as [_ ->]%commit_binding.
  rewrite !commit_base, !commit_sub, bool_decide_false; [done|]. intros Hne. apply Hne.
  f_equal; ring.
Qed.
End stealth_balance.

(** ** Witnesses *)
Definition example_transfer : StealthTransferStatement :=
  MkStealthTransferStatement
    (MkStealthInputsStatement [MkStealthInput 1797 (MkSchnorr 1 (replicate 32 0))] 2)
    (MkStealthOutputsStatement
       [MkStealthUnspentOutput (MkUnspentOutput 772 1 [] 0 None) 1 0] 3 [])
    (MkSchnorr 1 (replicate 32 0)).

(** Spending an output of 5 with 2 revealed into an output of 4 and 3 revealed. *)
Definition example_valid_transfer : @ValidatedStealthTransfer ideal_crypto :=
  @MkValidatedStealthTransfer ideal_crypto
    [@MkValidatedStealthOutput ideal_crypto
       (@MkValidatedPrivateOutput ideal_crypto (3, 4) (0, 1) [] 0 None) (0, 1) 0] 3.

Lemma validate_transfer_balanced_witness :
  @validate_transfer i192_panicking ideal_crypto example_transfer None = Ok example_valid_transfer ∧
  @scalar_add ideal_crypto ideal_crypto_laws (5 + 0) 2 = (4 + 0) + 3.
Proof.
  split; [vm_compute; reflexivity|].
  refine (proj2 (proj2 (@validate_transfer_balanced i192_panicking ideal_crypto ideal_crypto_laws
    example_transfer None example_valid_transfer [5] [4] _ _ _ _ _))).
  - vm_compute. by split.
  - vm_compute. by split.
  - vm_compute. reflexivity.
  - constructor; [by exists 7|constructor].
  - constructor; [by exists 3|constructor].
Defined.

Lemma mask_value_proof_witness :
  @scalar_of_Z ideal_crypto ideal_crypto_laws 5 = 5.
Proof.
  symmetry. refine (proj2 (proj2 (@mask_value_proof_sound i192_panicking ideal_crypto
    ideal_crypto_laws 1797 None
    (MkStealthValueProof 5 (CommitmentProof (MkSchnorr 1 (replicate 32 0))))
    (MkSchnorr 1 (replicate 32 0)) 7 5 5 _ _ _ _))).
  - reflexivity.
  - vm_compute. by split.
  - reflexivity.
  - vm_compute. reflexivity.
Defined.

(** A balance of 5 is proved to be 3. *)
Lemma elgamal_value_proof_witness :
  @validate_value_proof i192_panicking ideal_crypto 1797 (Some (MkElgamalBytes 1280 0))
    (MkStealthValueProof 3 (ElgamalEncrypted 512)) = Ok 3.
Proof.
  apply (@elgamal_value_proof_unsound i192_panicking ideal_crypto ideal_crypto_laws 1797 (7, 5)
    (MkElgamalBytes 1280 0) 5 0 3 512); try reflexivity.
  - vm_compute. by split.
  - lia.
Defined.
