(* ===== verification/FeeState.v ===== *)
(** * Fee collection

    [engine/src/runtime/fee_state.rs] and [WorkingState::finalize_fees] of
    [working_state.rs]: what a transaction paid and was charged, and how the
    payments are turned into the fee, the overcharge and the refunds. *)
From stdpp Require Import base gmap list numbers.
From S2P Require Import Prelude BTree Ids Amount Crypto ResourceContainer Vault RuntimeError.
From S2P Require Import Fees Substate.
Open Scope Z_scope.

Record FeeState := MkFeeState {
  fee_payments_without_refund : list ResourceContainer;
  fee_payments : list (ResourceContainer * VaultId);
  running_total : Z;
  fee_charges : FeeBreakdown;
}.
Definition fee_state_new : FeeState := MkFeeState [] [] 0 breakdown_default.

Section fee_state.
Context `{Ii : !I192}.

Definition add_fee_payment_checked (resource_container : ResourceContainer)
    (vault_id : option VaultId) : M FeeState RuntimeError unit := λ self,
  if bool_decide (resource_address resource_container ≠ XTR) then (Err InvalidArgument, self)
  else
    match Amount.to_u64_checked (amount resource_container) with
    | None => (Err (InvalidAmount (amount resource_container)), self)
    | Some amt =>
        match u64_checked_add (running_total self) amt with
        | None => (Err (InvalidAmount (amount resource_container)), self)
        | Some new_total =>
            (Ok tt,
             match vault_id with
             | Some vault_id =>
                 MkFeeState (fee_payments_without_refund self)
                   (fee_payments self ++ [(resource_container, vault_id)]) new_total
                   (fee_charges self)
             | None =>
                 MkFeeState (fee_payments_without_refund self ++ [resource_container])
                   (fee_payments self) new_total (fee_charges self)
             end)
        end
    end.

Definition add_charge {E : Type} (source : FeeSource) (amount : Z) : M FeeState E unit :=
  zoom fee_charges
    (λ b s, MkFeeState (fee_payments_without_refund s) (fee_payments s) (running_total s) b)
    (breakdown_add source amount).
Definition total_charges {E : Type} (self : FeeState) : res E Z := get_total (fee_charges self).
Definition total_payments (self : FeeState) : Z := running_total self.

(** [for x in xs.iter_mut()]: the body changes the item and the other state; it
    returns [false] to break. *)
Fixpoint iter_mut {A S E : Type} (body : M (A * S) E bool) (xs : list A) (s : S) :
    res E unit * (list A * S) :=
  match xs with
  | [] => (Ok tt, ([], s))
  | x :: xs' =>
      match body (x, s) with
      | (Ok true, (x', s')) =>
          match iter_mut body xs' s' with (r, (xs'', s'')) => (r, (x' :: xs'', s'')) end
      | (Ok false, (x', s')) => (Ok tt, (x' :: xs', s'))
      | (Err e, (x', s')) => (Err e, (x' :: xs', s'))
      | (Panic, (x', s')) => (Panic, (x' :: xs', s'))
      end
  end.

(** The locals of [finalize_fees]. *)
Record Collected := MkCollected {
  fee_resource : ResourceContainer;
  remaining_fees : Z;
  overcharge : Z;
}.

Definition on_item {A S E B : Type} (m : M A E B) : M (A * S) E B :=
  zoom fst (λ a p, (a, p.2)) m.
Definition on_fee_resource {A E B : Type} (m : M ResourceContainer E B) :
    M (A * Collected) E B :=
  zoom (λ p, fee_resource p.2)
    (λ c p, (p.1, MkCollected c (remaining_fees p.2) (overcharge p.2))) m.
Definition set_locals {A E : Type} (remaining over : Z) : M (A * Collected) E unit :=
  modify (λ p, (p.1, MkCollected (fee_resource p.2) remaining over)).

Definition collect_non_refundable : M (ResourceContainer * Collected) RuntimeError bool := λ p,
  let resx := p.1 in
  (let! paid_amount := lift (expect (Amount.to_u64_checked (amount resx))) in
   let! taken := map_err RuntimeResourceError (on_item (withdraw (amount resx))) in
   do! map_err RuntimeResourceError (on_fee_resource (deposit taken)) in
   let remaining := remaining_fees p.2 in
   let! over :=
     lift (if remaining <? paid_amount
           then let? extra := u64_sub paid_amount remaining in u64_add (overcharge p.2) extra
           else Ok (overcharge p.2)) in
   do! set_locals (u64_saturating_sub remaining paid_amount) over in
   ret true) p.

Definition collect_refundable :
    M ((ResourceContainer * VaultId) * Collected) RuntimeError bool := λ p,
  if remaining_fees p.2 =? 0 then (Ok false, p)
  else
    let resx := p.1.1 in
    (let! paid_amount := lift (expect (Amount.to_u64_checked (amount resx))) in
     let amount_to_withdraw := Z.min paid_amount (remaining_fees p.2) in
     let! taken :=
       map_err RuntimeResourceError
         (on_item (zoom fst (λ c q, (c, q.2)) (withdraw amount_to_withdraw))) in
     do! map_err RuntimeResourceError (on_fee_resource (deposit taken)) in
     do! set_locals (u64_saturating_sub (remaining_fees p.2) amount_to_withdraw)
           (overcharge p.2) in
     ret true) p.

Notation Changeset := (list (SubstateId * SubstateValue)).

(** Refund what is left of a payment into the vault it came from. *)
Definition refund_payment (p : ResourceContainer * VaultId) : M Changeset RuntimeError unit :=
  λ persist,
  let '(resx, refund_vault) := p in
  if Amount.is_zero (amount resx) then (Ok tt, persist)
  else
    match im_get (SidVault refund_vault) persist with
    | Some (SvVault vault) =>
        match withdraw_all resx with
        | (Ok out, _) =>
            match deposit out (vault_container vault) with
            | (r, c) =>
                (res_map_err RuntimeResourceError r,
                 im_insert (SidVault refund_vault)
                   (SvVault (MkVault c (vault_freeze_flags vault))) persist)
            end
        | (Err e, _) => (Err (RuntimeResourceError e), persist)
        | (Panic, _) => (Panic, persist)
        end
    | _ => (Panic, persist)
    end.

Definition finalize_fees (transaction_hash : N) (events : list Event) (logs : list LogEntry) :
    M (FeeState * Changeset) RuntimeError TransactionReceipt := λ s0,
  let fs := s0.1 in
  let persist := s0.2 in
  (let! total_fees := lift (total_charges fs) in
   let! fee_resource0 := lift (stealth XTR 0) in
   let '(r1, (non_refundable, acc1)) :=
     iter_mut collect_non_refundable (fee_payments_without_refund fs)
       (MkCollected fee_resource0 total_fees 0) in
   do! put (MkFeeState non_refundable (fee_payments fs) (running_total fs) (fee_charges fs),
            persist) in
   do! lift r1 in
   let '(r2, (refundable, acc2)) :=
     (if 0 <? remaining_fees acc1
      then iter_mut collect_refundable (fee_payments fs) acc1
      else (Ok tt, (fee_payments fs, acc1))) in
   do! put (MkFeeState non_refundable refundable (running_total fs) (fee_charges fs), persist) in
   do! lift r2 in
   do! put (MkFeeState non_refundable [] (running_total fs) (fee_charges fs), persist) in
   do! zoom snd (λ c p, (p.1, c)) (for_each refundable refund_payment) in
   let! total_fees_paid := lift (expect (Amount.to_u64_checked (amount (fee_resource acc2)))) in
   do! modify (λ p, (MkFeeState non_refundable [] (running_total fs) breakdown_default, p.2)) in
   ret (MkTransactionReceipt transaction_hash events logs
          (MkFeeReceipt (total_payments fs) total_fees_paid (overcharge acc2)
             (fee_charges fs)))) s0.
End fee_state.

Notation Changeset := (list (SubstateId * SubstateValue)).

(** ** The amounts

    What remains of each payment when [rem] is collected from them in order. *)
Fixpoint left_over (payments : list Z) (rem : Z) : list Z :=
  match payments with
  | [] => []
  | a :: rest => if rem =? 0 then a :: rest else (a - Z.min a rem) :: left_over rest (rem - Z.min a rem)
  end.

Definition fee_container (c : ResourceContainer) : Prop :=
  ∃ a, c = Stealth XTR a 0 ∧ 0 < a.

(** The refund due to a vault. *)
Fixpoint refund_to (vault : VaultId) (payments : list (Z * VaultId)) : Z :=
  match payments with
  | [] => 0
  | (a, v) :: rest => (if decide (v = vault) then a else 0) + refund_to vault rest
  end.

Lemma sum_Z_pos_nonneg (l : list Z) : Forall (λ a, 0 < a) l → 0 ≤ sum_Z l.
Proof. intros Hl. apply sum_Z_nonneg. eapply list.Forall_impl; [exact Hl|]. simpl. intros. lia. Qed.

Lemma sum_left_over (payments : list Z) (rem : Z) :
  Forall (λ a, 0 < a) payments → 0 ≤ rem →
  sum_Z (left_over payments rem) = Z.max 0 (sum_Z payments - rem).
Proof.
  intros Hp. revert rem. induction Hp as [|a rest Ha Hp IH]; intros rem Hr; simpl; [lia|].
  pose proof (sum_Z_pos_nonneg rest Hp).
  destruct (Z.eqb_spec rem 0); [subst; simpl; lia|]. simpl. rewrite IH by lia. lia.
Qed.

Lemma left_over_0 (payments : list Z) : left_over payments 0 = payments.
Proof. by destruct payments. Qed.

Lemma left_over_nonneg (payments : list Z) (rem : Z) :
  Forall (λ a, 0 < a) payments → 0 ≤ rem → Forall (λ a, 0 ≤ a) (left_over payments rem).
Proof.
  intros Hp. revert rem. induction Hp as [|a rest Ha Hp IH]; intros rem Hr; simpl; [constructor|].
  destruct (Z.eqb_spec rem 0).
  - constructor; [lia|]. eapply list.Forall_impl; [exact Hp|]. simpl. intros. lia.
  - constructor; [lia|]. apply IH. lia.
Qed.

Lemma length_left_over (payments : list Z) (rem : Z) :
  length (left_over payments rem) = length payments.
Proof.
  revert rem. induction payments as [|a rest IH]; intros rem; simpl; [done|].
  destruct (rem =? 0); simpl; by rewrite ?IH.
Qed.

Section fee_lemmas.
Context `{Ii : !I192}.

Lemma to_u64_ok (a : Z) : 0 ≤ a ≤ U64_MAX → Amount.to_u64_checked a = Some a.
Proof.
  intros. unfold Amount.to_u64_checked, U64_MAX in *.
  destruct (Z.leb_spec 0 a), (Z.ltb_spec a (2 ^ 64)); simpl; try done; lia.
Qed.

Lemma u64_max_lt_i192 (a : Z) : a ≤ U64_MAX → a ≤ i192_MAX.
Proof. unfold U64_MAX, i192_MAX. lia. Qed.

Lemma withdraw_stealth (a l amt : Z) :
  0 < amt ≤ a → a ≤ i192_MAX →
  withdraw amt (Stealth XTR a l) = (Ok (Stealth XTR amt 0), Stealth XTR (a - amt) l).
Proof.
  intros Ha Hm. unfold withdraw, Amount.is_positive.
  destruct (Z.ltb_spec 0 amt); [|lia]. simpl. destruct (Z.ltb_spec a amt); [lia|].
  unfold bind, lift, put. rewrite sub_ok by lia. unfold stealth.
  by rewrite is_non_negative_true by lia.
Qed.

Lemma deposit_stealth (a l b : Z) :
  0 ≤ a → 0 ≤ b → a + b ≤ i192_MAX →
  deposit (Stealth XTR b 0) (Stealth XTR a l) = (Ok tt, Stealth XTR (a + b) l).
Proof.
  intros. unfold deposit. rewrite bool_decide_false by auto. unfold bind, lift, put.
  by rewrite add_ok by lia.
Qed.

Lemma collect_non_refundable_ok (a f rem over : Z) :
  0 < a → 0 ≤ f → 0 ≤ over → 0 ≤ rem → f + a ≤ U64_MAX → over + a ≤ U64_MAX →
  collect_non_refundable (Stealth XTR a 0, MkCollected (Stealth XTR f 0) rem over) =
    (Ok true, (Stealth XTR 0 0,
       MkCollected (Stealth XTR (f + a) 0) (Z.max 0 (rem - a)) (over + Z.max 0 (a - rem)))).
Proof.
  intros Ha Hf Ho Hr Hs Hov. pose proof (u64_max_lt_i192 _ Hs) as Hm.
  unfold collect_non_refundable, bind, lift, on_item, on_fee_resource, set_locals, map_err,
    zoom, modify, ret. simpl amount. rewrite to_u64_ok by lia. cbn [expect fst snd].
  rewrite withdraw_stealth by lia. cbn [fst snd res_map_err fee_resource remaining_fees overcharge].
  rewrite deposit_stealth by lia. cbn [fst snd res_map_err fee_resource remaining_fees overcharge].
  unfold u64_sub, u64_add, u64_checked_sub, u64_checked_add, u64_saturating_sub.
  destruct (Z.ltb_spec rem a).
  - rewrite uint_checked_in by lia. cbn [expect res_bind].
    rewrite uint_checked_in by lia. cbn [expect]. do 3 f_equal; [lia|f_equal; lia].
  - do 3 f_equal; [lia|f_equal; lia].
Qed.

Lemma iter_non_refundable (payments : list Z) (f rem over : Z) :
  Forall (λ a, 0 < a) payments → 0 ≤ f → 0 ≤ over → 0 ≤ rem →
  f + sum_Z payments ≤ U64_MAX → over + sum_Z payments ≤ U64_MAX →
  iter_mut collect_non_refundable ((λ a, Stealth XTR a 0) <$> payments)
    (MkCollected (Stealth XTR f 0) rem over) =
  (Ok tt, ((λ _, Stealth XTR 0 0) <$> payments,
     MkCollected (Stealth XTR (f + sum_Z payments) 0) (Z.max 0 (rem - sum_Z payments))
       (over + Z.max 0 (sum_Z payments - rem)))).
Proof.
  intros Hp. revert f rem over.
  induction Hp as [|a rest Ha Hp IH]; intros f rem over Hf Ho Hr Hs Hov; csimpl.
  - do 2 f_equal. f_equal; [f_equal; lia|lia..].
  - pose proof (sum_Z_pos_nonneg rest Hp).
    simpl in Hs, Hov. rewrite collect_non_refundable_ok by lia.
    rewrite IH by lia. do 3 f_equal; [f_equal; lia|lia|lia].
Qed.

Lemma collect_refundable_ok (a f rem over : Z) (v : VaultId) :
  0 < a → 0 ≤ f → 0 < rem → f + a ≤ U64_MAX →
  collect_refundable ((Stealth XTR a 0, v), MkCollected (Stealth XTR f 0) rem over) =
    (Ok true, ((Stealth XTR (a - Z.min a rem) 0, v),
       MkCollected (Stealth XTR (f + Z.min a rem) 0) (rem - Z.min a rem) over)).
Proof.
  intros Ha Hf Hr Hs. pose proof (u64_max_lt_i192 _ Hs) as Hm.
  unfold collect_refundable. cbn [remaining_fees snd fst].
  destruct (Z.eqb_spec rem 0); [lia|].
  unfold bind, lift, on_item, on_fee_resource, set_locals, map_err, zoom, modify, ret.
  simpl amount. rewrite to_u64_ok by lia. cbn [expect fst snd].
  rewrite withdraw_stealth by lia. cbn [fst snd res_map_err fee_resource remaining_fees overcharge].
  rewrite deposit_stealth by lia. cbn [fst snd res_map_err fee_resource remaining_fees overcharge].
  unfold u64_saturating_sub. do 3 f_equal. lia.
Qed.

Lemma iter_refundable (payments : list (Z * VaultId)) (f rem over : Z) :
  Forall (λ p, 0 < p.1) payments → 0 ≤ f → 0 ≤ rem →
  f + sum_Z payments.*1 ≤ U64_MAX →
  iter_mut collect_refundable ((λ p, (Stealth XTR p.1 0, p.2)) <$> payments)
    (MkCollected (Stealth XTR f 0) rem over) =
  (Ok tt, ((λ p, (Stealth XTR p.1 0, p.2)) <$> zip (left_over payments.*1 rem) payments.*2,
     MkCollected (Stealth XTR (f + Z.min rem (sum_Z payments.*1)) 0)
       (Z.max 0 (rem - sum_Z payments.*1)) over)).
Proof.
  intros Hp. revert f rem.
  induction Hp as [|[a v] rest Ha Hp IH]; intros f rem Hf Hr Hs; csimpl in *.
  - do 2 f_equal. f_equal; [f_equal; lia|lia].
  - assert (0 ≤ sum_Z rest.*1) as Hnn.
    { by apply sum_Z_pos_nonneg, Forall_fmap. }
    destruct (Z.eqb_spec rem 0) as [->|Hne].
    + unfold collect_refundable at 1. csimpl. rewrite zip_fst_snd.
      do 2 f_equal. f_equal; [f_equal; lia|lia].
    + rewrite collect_refundable_ok by lia. rewrite IH by lia. csimpl.
      do 3 f_equal; [f_equal; lia|lia].
Qed.

Lemma iter_refundable_guarded (payments : list (Z * VaultId)) (f rem over : Z) :
  Forall (λ p, 0 < p.1) payments → 0 ≤ f → 0 ≤ rem →
  f + sum_Z payments.*1 ≤ U64_MAX →
  (if 0 <? rem
   then iter_mut collect_refundable ((λ p, (Stealth XTR p.1 0, p.2)) <$> payments)
          (MkCollected (Stealth XTR f 0) rem over)
   else (Ok tt, ((λ p, (Stealth XTR p.1 0, p.2)) <$> payments,
           MkCollected (Stealth XTR f 0) rem over))) =
  (Ok tt, ((λ p, (Stealth XTR p.1 0, p.2)) <$> zip (left_over payments.*1 rem) payments.*2,
     MkCollected (Stealth XTR (f + Z.min rem (sum_Z payments.*1)) 0)
       (Z.max 0 (rem - sum_Z payments.*1)) over)).
Proof.
  intros Hp Hf Hr Hs. destruct (Z.ltb_spec 0 rem); [by apply iter_refundable|].
  assert (0 ≤ sum_Z payments.*1) as Hnn by by apply sum_Z_pos_nonneg, Forall_fmap.
  assert (rem = 0) as -> by lia. rewrite left_over_0, zip_fst_snd.
  do 2 f_equal. f_equal; [f_equal; lia|lia].
Qed.

(** A vault of the fee resource with [r] more available. *)
Definition credit (r : Z) (v : SubstateValue) : SubstateValue :=
  match v with
  | SvVault (MkVault (Stealth a b l) flags) => SvVault (MkVault (Stealth a (b + r) l) flags)
  | _ => v
  end.
Definition credited (payments : list (Z * VaultId)) (id : SubstateId)
    (v : option SubstateValue) : option SubstateValue :=
  match id with
  | SidVault vault => credit (refund_to vault payments) <$> v
  | _ => v
  end.

(** The vaults the payments came from are in the change set, and hold the fee
    resource with room for everything that may be refunded. *)
Definition refund_ready (room : Z) (vaults : list VaultId) (persist : Changeset) : Prop :=
  ∀ v, v ∈ vaults → ∃ b l flags,
    im_get (SidVault v) persist = Some (SvVault (MkVault (Stealth XTR b l) flags)) ∧
    0 ≤ b ∧ b + room ≤ i192_MAX.

Lemma credit_0 (v : SubstateValue) : credit 0 v = v.
Proof.
  destruct v as [| |[c f]| | | | | |]; try done. destruct c; simpl; try done.
  by rewrite Z.add_0_r.
Qed.

Lemma credit_credit (r r' : Z) (v : SubstateValue) : credit r (credit r' v) = credit (r' + r) v.
Proof.
  destruct v as [| |[c f]| | | | | |]; try done. destruct c; simpl; try done.
  by rewrite Z.add_assoc.
Qed.

Lemma credited_nil (id : SubstateId) v : credited [] id v = v.
Proof.
  destruct id; simpl; try done. destruct v; simpl; [|done]. by rewrite credit_0.
Qed.

Lemma refund_payment_ok (a : Z) (v : VaultId) (persist : Changeset) b l flags :
  im_get (SidVault v) persist = Some (SvVault (MkVault (Stealth XTR b l) flags)) →
  0 ≤ a → 0 ≤ b → b + a ≤ i192_MAX →
  refund_payment (Stealth XTR a 0, v) persist =
    (Ok tt, if a =? 0 then persist
            else im_insert (SidVault v) (SvVault (MkVault (Stealth XTR (b + a) l) flags)) persist).
Proof.
  intros Hv Ha Hb Hm. unfold refund_payment, Amount.is_zero. simpl amount.
  destruct (Z.eqb_spec a 0); [done|]. rewrite Hv. unfold withdraw_all. simpl amount.
  rewrite withdraw_stealth by lia. cbn [vault_container vault_freeze_flags].
  by rewrite deposit_stealth by lia.
Qed.

Lemma refund_payments_ok (payments : list (Z * VaultId)) (persist : Changeset) :
  Forall (λ p, 0 ≤ p.1) payments →
  refund_ready (sum_Z payments.*1) payments.*2 persist →
  ∃ persist',
    for_each ((λ p, (Stealth XTR p.1 0, p.2)) <$> payments) refund_payment persist
      = (Ok tt, persist') ∧
    ∀ id, im_get id persist' = credited payments id (im_get id persist).
Proof.
  intros Hp. revert persist. induction Hp as [|[a v] rest Ha Hp IH]; intros persist Hready.
  - exists persist. split; [done|]. intros id. by rewrite credited_nil.
  - csimpl in *. pose proof (sum_Z_nonneg rest.*1 ltac:(by apply Forall_fmap)) as Hnn.
    destruct (Hready v) as (b & l & flags & Hv & Hb & Hroom); [left|].
    unfold bind. rewrite (refund_payment_ok a v persist b l flags) by (done || lia).
    assert (∀ id, im_get id (if a =? 0 then persist
        else im_insert (SidVault v) (SvVault (MkVault (Stealth XTR (b + a) l) flags)) persist) =
      (if decide (id = SidVault v) then credit a <$> im_get id persist else im_get id persist))
      as Hone.
    { intros id. destruct (Z.eqb_spec a 0) as [->|].
      - case_decide; [|done]. subst. rewrite Hv. simpl. by rewrite Z.add_0_r.
      - rewrite im_get_insert. case_decide; [|done]. subst. by rewrite Hv. }
    destruct (IH (if a =? 0 then persist else
      im_insert (SidVault v) (SvVault (MkVault (Stealth XTR (b + a) l) flags)) persist))
      as (persist' & -> & Hget).
    { intros v' Hv'. rewrite Hone. destruct (decide (v' = v)) as [->|Hne].
      - rewrite decide_True, Hv by done. simpl. do 3 eexists. split; [done|]. lia.
      - rewrite decide_False by congruence.
        destruct (Hready v') as (b' & l' & f' & -> & ? & ?); [by right|].
        do 3 eexists. split; [done|]. lia. }
    exists persist'. split; [done|]. intros id. rewrite Hget, Hone.
    destruct id as [| |v'| | | | | |]; simpl; try done.
    destruct (decide (v' = v)) as [->|Hne].
    + rewrite !decide_True by done. destruct (im_get (SidVault v) persist); simpl; [|done].
      by rewrite credit_credit.
    + rewrite !decide_False by congruence. by rewrite Z.add_0_l.
Qed.
End fee_lemmas.

(** ** Theorem *)
Section fee_theorem.
Context `{Ii : !I192}.

(** The fee state after payments of the given amounts. *)
Definition fee_state_of (non_refundable : list Z) (refundable : list (Z * VaultId))
    (charges : FeeBreakdown) : FeeState :=
  MkFeeState ((λ a, Stealth XTR a 0) <$> non_refundable)
    ((λ p, (Stealth XTR p.1 0, p.2)) <$> refundable)
    (sum_Z non_refundable + sum_Z refundable.*1) charges.

(** C32: finalizing the fees of a transaction conserves the payments: the fee
    taken plus the refunds is what was paid in.  Non-refundable payments are
    taken in full, refundable ones in order and only as far as the charges are
    not yet covered; the overcharge is what non-refundable payments exceed the
    charges by; each refund vault is credited with what is left of its payments
    and no other substate changes; and the fee is paid in full exactly when the
    payments cover the charges. *)
Theorem finalize_fees_conserves (non_refundable : list Z) (refundable : list (Z * VaultId))
    (charges : FeeBreakdown) (total : Z) (persist : Changeset) hash events logs :
  Forall (λ a, 0 < a) non_refundable → Forall (λ p, 0 < p.1) refundable →
  sum_Z non_refundable + sum_Z refundable.*1 ≤ U64_MAX →
  @get_total RuntimeError charges = Ok total → 0 ≤ total →
  refund_ready (sum_Z refundable.*1) refundable.*2 persist →
  ∃ paid over persist' fs',
    finalize_fees hash events logs (fee_state_of non_refundable refundable charges, persist) =
      (Ok (MkTransactionReceipt hash events logs
             (MkFeeReceipt (sum_Z non_refundable + sum_Z refundable.*1) paid over charges)),
       (fs', persist')) ∧
    let rem := Z.max 0 (total - sum_Z non_refundable) in
    let refunds := zip (left_over refundable.*1 rem) refundable.*2 in
    paid + sum_Z refunds.*1 = sum_Z non_refundable + sum_Z refundable.*1 ∧
    paid = sum_Z non_refundable + Z.min rem (sum_Z refundable.*1) ∧
    over = Z.max 0 (sum_Z non_refundable - total) ∧
    (∀ id, im_get id persist' = credited refunds id (im_get id persist)) ∧
    (total ≤ paid ↔ total ≤ sum_Z non_refundable + sum_Z refundable.*1).
Proof.
  intros Hn Hr Hmax Htot Hnn Hready.
  pose proof (sum_Z_pos_nonneg _ Hn) as Hsn.
  assert (Forall (λ a, 0 < a) refundable.*1) as Hr1 by by apply Forall_fmap.
  pose proof (sum_Z_pos_nonneg _ Hr1) as Hsr.
  set (rem := Z.max 0 (total - sum_Z non_refundable)).
  set (left := left_over refundable.*1 rem).
  assert (length left = length refundable.*2) as Hlen.
  { unfold left. by rewrite length_left_over, !length_fmap. }
  assert ((zip left refundable.*2).*1 = left) as Hz1 by (apply fst_zip; lia).
  assert ((zip left refundable.*2).*2 = refundable.*2) as Hz2 by (apply snd_zip; lia).
  pose proof (sum_left_over refundable.*1 rem Hr1 ltac:(lia)) as Hleft.
  pose proof (left_over_nonneg refundable.*1 rem Hr1 ltac:(lia)) as Hleftnn.
  destruct (refund_payments_ok (zip left refundable.*2) persist) as (persist' & Href & Hget).
  { assert (Forall (λ a, 0 ≤ a) (zip left refundable.*2).*1) as Hf by by rewrite Hz1.
    by rewrite Forall_fmap in Hf. }
  { rewrite Hz1, Hz2. intros v Hv. destruct (Hready v Hv) as (b & l & f & ? & ? & ?).
    exists b, l, f. fold left in Hleft. split_and!; [done..|lia]. }
  exists (sum_Z non_refundable + Z.min rem (sum_Z refundable.*1)),
    (Z.max 0 (sum_Z non_refundable - total)), persist'. eexists. split.
  - unfold finalize_fees, total_charges, fee_state_of. cbn [fst snd fee_charges
      fee_payments_without_refund fee_payments running_total].
    unfold bind at 1. unfold lift at 1. rewrite Htot. cbv beta iota.
    unfold bind at 1. unfold lift at 1.
    assert (@stealth RuntimeError XTR 0 = Ok (Stealth XTR 0 0)) as -> by done. cbv beta iota.
    rewrite iter_non_refundable by (done || lia). cbv beta iota.
    unfold bind at 1. unfold put at 1. unfold bind at 1. unfold lift at 1. cbv beta iota.
    cbn [remaining_fees]. fold rem.
    rewrite iter_refundable_guarded by (done || lia). fold left. cbv beta iota. unfold bind, put, lift, zoom, modify, ret. cbn [fst snd].
    rewrite Href. cbn [fst snd fee_resource overcharge]. simpl amount.
    rewrite to_u64_ok by lia. cbn [expect]. unfold total_payments. cbn [running_total].
    done.
  - cbv zeta. fold rem. fold left. rewrite Hz1. fold left in Hleft. split_and!; try done; lia.
Qed.
End fee_theorem.

(** A charge of 10 paid by 4 non-refundable and 9 from vault 1, which gets 3
    back. *)
Lemma finalize_fees_witness :
  ∃ receipt fs' persist',
    @finalize_fees i192_panicking 0 [] []
      (fee_state_of [4] [(9, 1%N)] (MkFeeBreakdown [(Initial, 10)]),
       [(SidVault 1, SvVault (MkVault (Stealth XTR 100 0) (FreezeFlags.MkFlags 0)))]) =
      (Ok receipt, (fs', persist')) ∧
    total_fees_paid (receipt_fee_receipt receipt) = 10 ∧
    im_get (SidVault 1) persist' =
      Some (SvVault (MkVault (Stealth XTR 103 0) (FreezeFlags.MkFlags 0))).
Proof.
  destruct (@finalize_fees_conserves i192_panicking [4] [(9, 1%N)]
    (MkFeeBreakdown [(Initial, 10)]) 10
    [(SidVault 1, SvVault (MkVault (Stealth XTR 100 0) (FreezeFlags.MkFlags 0)))] 0 [] [])
    as (paid & over & persist' & fs' & Hf & _ & Hp & _ & Hget & _).
  - repeat constructor.
  - repeat constructor.
  - unfold U64_MAX. simpl. lia.
  - reflexivity.
  - lia.
  - intros v Hv. apply list_elem_of_singleton in Hv as ->.
    exists 100, 0, (FreezeFlags.MkFlags 0). split; [reflexivity|]. unfold i192_MAX. simpl. lia.
  - do 3 eexists. split; [exact Hf|]. split; [exact Hp|]. rewrite Hget. reflexivity.
Defined.
