(* ===== verification/Scope.v ===== *)
(** * Call scopes and frames

    [engine/src/runtime/scope.rs]: which substates, buckets, proofs and locks a
    call may use, and how they move between a call and its caller.  An
    [IndexSet] is the list of its elements in order. *)
From stdpp Require Import base gmap list strings numbers.
From S2P Require Import Prelude BTree Ids IndexedValue RuntimeError Locking Auth.
Open Scope Z_scope.

Record CallScope := MkCallScope {
  orphans : list SubstateId;
  owned : list SubstateId;
  referenced : list SubstateId;
  component_lock : option LockedSubstate;
  lock_scope : list LockId;
  proof_scope : list ProofId;
  bucket_scope : list BucketId;
  auth_scope : AuthorizationScope;
}.
Definition scope_new : CallScope := MkCallScope [] [] [] None [] [] [] (auth_scope_new []).
Definition scope_for_component (lock : LockedSubstate) : CallScope :=
  MkCallScope [] [] [] (Some lock) [] [] [] (auth_scope_new []).

Definition set_nodes (orp own refd : list SubstateId) (s : CallScope) : CallScope :=
  MkCallScope orp own refd (component_lock s) (lock_scope s) (proof_scope s) (bucket_scope s)
    (auth_scope s).
Definition set_lock_scope (l : list LockId) (s : CallScope) : CallScope :=
  MkCallScope (orphans s) (owned s) (referenced s) (component_lock s) l (proof_scope s)
    (bucket_scope s) (auth_scope s).
Definition set_auth_scope (a : AuthorizationScope) (s : CallScope) : CallScope :=
  MkCallScope (orphans s) (owned s) (referenced s) (component_lock s) (lock_scope s)
    (proof_scope s) (bucket_scope s) a.
Definition set_bucket_scope (b : list BucketId) (s : CallScope) : CallScope :=
  MkCallScope (orphans s) (owned s) (referenced s) (component_lock s) (lock_scope s)
    (proof_scope s) b (auth_scope s).
Definition set_proof_scope (p : list ProofId) (s : CallScope) : CallScope :=
  MkCallScope (orphans s) (owned s) (referenced s) (component_lock s) (lock_scope s) p
    (bucket_scope s) (auth_scope s).

Definition is_lock_in_scope (self : CallScope) (lock_id : LockId) : bool :=
  bool_decide (lock_id ∈ lock_scope self).
Definition is_proof_in_scope (self : CallScope) (proof_id : ProofId) : bool :=
  bool_decide (proof_id ∈ proof_scope self).
Definition is_bucket_in_scope (self : CallScope) (bucket_id : BucketId) : bool :=
  bool_decide (bucket_id ∈ bucket_scope self).

Definition is_substate_in_scope (self : CallScope) (address : SubstateId) : bool :=
  bool_decide (address = SidResource XTR)
  || match address with
     | SidNonFungible a => bool_decide (nfa_resource a = PUBLIC_IDENTITY_RESOURCE_ADDRESS)
     | _ => false
     end
  || bool_decide (address ∈ owned self) || bool_decide (address ∈ referenced self)
  || bool_decide (address ∈ orphans self).

Definition add_lock_to_scope (lock_id : LockId) (self : CallScope) : CallScope :=
  set_lock_scope (is_add lock_id (lock_scope self)) self.
Definition add_bucket_to_scope (bucket_id : BucketId) (self : CallScope) : CallScope :=
  set_bucket_scope (is_add bucket_id (bucket_scope self)) self.
Definition remove_bucket_from_scope (bucket_id : BucketId) (self : CallScope) : CallScope :=
  set_bucket_scope (is_discard bucket_id (bucket_scope self)) self.
Definition add_proof_to_scope (proof_id : ProofId) (self : CallScope) : CallScope :=
  set_auth_scope (add_proof proof_id (auth_scope self))
    (set_proof_scope (is_add proof_id (proof_scope self)) self).
Definition remove_lock_from_scope (lock_id : LockId) : M CallScope RuntimeError unit := λ self,
  match is_swap_remove lock_id (lock_scope self) with
  | (true, l) => (Ok tt, set_lock_scope l self)
  | (false, _) => (Err (RuntimeLockError (LockIdNotFound lock_id)), self)
  end.

Definition move_node_to_owned (address : SubstateId) : M CallScope RuntimeError unit := λ self,
  match is_swap_remove address (orphans self) with
  | (false, _) => (Ok tt, self)
  | (true, orphans') =>
      let '(fresh, owned') := is_insert address (owned self) in
      (if fresh then Ok tt else Err (DuplicateSubstate address),
       set_nodes orphans' owned' (referenced self) self)
  end.

Definition add_substate_to_scope_unchecked (address : SubstateId) (self : CallScope) : CallScope :=
  if is_root address then set_nodes (orphans self) (is_add address (owned self)) (referenced self) self
  else set_nodes (is_add address (orphans self)) (owned self) (referenced self) self.
Definition add_substate_to_scope (address : SubstateId) : M CallScope RuntimeError unit := λ self,
  if is_substate_in_scope self address then (Err (DuplicateSubstate address), self)
  else (Ok tt, add_substate_to_scope_unchecked address self).

Definition add_substate_to_owned (address : SubstateId) (self : CallScope) : CallScope :=
  set_nodes (is_discard address (orphans self)) (is_add address (owned self))
    (is_discard address (referenced self)) self.
Definition add_substate_to_referenced (address : SubstateId) (self : CallScope) : CallScope :=
  if is_substate_in_scope self address then self
  else set_nodes (orphans self) (owned self) (is_add address (referenced self)) self.

Definition update_from_parent (parent self : CallScope) : CallScope := self.
Definition update_from_child_scope (child self : CallScope) : CallScope :=
  let self := set_nodes (orphans self) (is_extend (owned child) (owned self)) (referenced self) self in
  let self := set_nodes (foldl (λ l x, is_discard x l) (orphans self) (owned child)) (owned self)
                (referenced self) self in
  let self := set_proof_scope (is_extend (proof_scope child) (proof_scope self)) self in
  let self := set_bucket_scope (is_extend (bucket_scope child) (bucket_scope self)) self in
  set_auth_scope (update_from_child (auth_scope child) (auth_scope self)) self.

Definition include_owned_in_scope (values : IndexedWellKnownTypes) (self : CallScope) : CallScope :=
  foldl (λ s addr,
    if is_public_key_identity addr || is_transaction_receipt addr || is_template addr then s
    else add_substate_to_owned addr s) self (referenced_substates values).
Definition include_refs_in_scope (values : IndexedWellKnownTypes) (self : CallScope) : CallScope :=
  let self :=
    foldl (λ s addr,
      if is_public_key_identity addr || is_vault addr || is_transaction_receipt addr then s
      else add_substate_to_referenced addr s) self (referenced_substates values) in
  let self := foldl (λ s b, add_bucket_to_scope b s) self (bucket_ids values) in
  foldl (λ s p, add_proof_to_scope p s) self (proof_ids values).

Record CallFrame := MkCallFrame {
  frame_scope : CallScope;
  frame_template : TemplateAddress;
  frame_module : string;
  frame_entity_id : N;
}.
Definition set_frame_scope (s : CallScope) (f : CallFrame) : CallFrame :=
  MkCallFrame s (frame_template f) (frame_module f) (frame_entity_id f).

Inductive PushCallFrame :=
  | ForComponent (template_address : TemplateAddress) (module_name : string)
      (component_scope : IndexedWellKnownTypes) (component_lock : LockedSubstate)
      (arg_scope : IndexedWellKnownTypes) (entity_id : N)
  | Static (template_address : TemplateAddress) (module_name : string)
      (arg_scope : IndexedWellKnownTypes) (entity_id : N).
Definition into_new_call_frame (self : PushCallFrame) : CallFrame :=
  match self with
  | ForComponent t m component_scope lock arg_scope e =>
      MkCallFrame
        (include_refs_in_scope arg_scope
           (include_owned_in_scope component_scope (scope_for_component lock))) t m e
  | Static t m arg_scope e => MkCallFrame (include_refs_in_scope arg_scope scope_new) t m e
  end.

(** ** Lemmas *)
Lemma in_scope_vault (s : CallScope) (v : VaultId) :
  is_substate_in_scope s (SidVault v) = true ↔
  SidVault v ∈ owned s ∨ SidVault v ∈ referenced s ∨ SidVault v ∈ orphans s.
Proof.
  unfold is_substate_in_scope. rewrite bool_decide_false by done. simpl.
  rewrite !orb_true_iff, !bool_decide_eq_true. tauto.
Qed.

(** The nodes of a scope that are vaults. *)
Definition vault_in (s : CallScope) (v : VaultId) : Prop :=
  SidVault v ∈ owned s ∨ SidVault v ∈ referenced s ∨ SidVault v ∈ orphans s.

Lemma add_substate_to_owned_vault (id : SubstateId) (s : CallScope) (v : VaultId) :
  vault_in (add_substate_to_owned id s) v ↔ vault_in s v ∨ id = SidVault v.
Proof.
  unfold vault_in, add_substate_to_owned. simpl. rewrite elem_of_is_add.
  pose proof (elem_of_is_discard_1 id (SidVault v) (referenced s)).
  pose proof (elem_of_is_discard_1 id (SidVault v) (orphans s)).
  pose proof (elem_of_is_discard_2 id (SidVault v) (referenced s)).
  pose proof (elem_of_is_discard_2 id (SidVault v) (orphans s)).
  destruct (decide (id = SidVault v)); naive_solver.
Qed.

Lemma include_owned_vault (values : IndexedWellKnownTypes) (s : CallScope) (v : VaultId) :
  vault_in (include_owned_in_scope values s) v ↔
  vault_in s v ∨ SidVault v ∈ referenced_substates values.
Proof.
  unfold include_owned_in_scope. generalize (referenced_substates values) as ids. intros ids.
  revert s. induction ids as [|id ids IH]; intros s; simpl; [set_solver|].
  rewrite IH, elem_of_cons. case_step.
  - destruct id; simpl in E; try done; naive_solver.
  - rewrite add_substate_to_owned_vault. naive_solver.
Qed.

Lemma foldl_vault_in {B : Type} (f : CallScope → B → CallScope) (xs : list B) (s : CallScope) v :
  (∀ s x, vault_in (f s x) v ↔ vault_in s v) → vault_in (foldl f s xs) v ↔ vault_in s v.
Proof.
  intros Hf. revert s. induction xs as [|x xs IH]; intros s; simpl; [done|]. by rewrite IH, Hf.
Qed.

Lemma include_refs_vault (values : IndexedWellKnownTypes) (s : CallScope) (v : VaultId) :
  vault_in (include_refs_in_scope values s) v ↔ vault_in s v.
Proof.
  unfold include_refs_in_scope. rewrite !foldl_vault_in; try done.
  intros s' id. case_step; [done|]. unfold add_substate_to_referenced. case_step; [done|].
  unfold vault_in. simpl. rewrite elem_of_is_add.
  destruct id; simpl in E; try done; naive_solver.
Qed.

Lemma vault_in_referenced (values : IndexedWellKnownTypes) (v : VaultId) :
  SidVault v ∈ referenced_substates values ↔ v ∈ vault_ids values.
Proof.
  unfold referenced_substates. rewrite !elem_of_app, !list_elem_of_fmap. naive_solver.
Qed.

(** ** Theorems *)

(** a vault is in the scope of a call exactly when the state of the called
    component references it: arguments never bring a vault into scope, and a
    static call starts without any. *)
Theorem callee_vault_isolation (push : PushCallFrame) (v : VaultId) :
  is_substate_in_scope (frame_scope (into_new_call_frame push)) (SidVault v) = true ↔
  match push with
  | ForComponent _ _ component_scope _ _ _ => v ∈ vault_ids component_scope
  | Static _ _ _ _ => False
  end.
Proof.
  rewrite in_scope_vault. change (vault_in (frame_scope (into_new_call_frame push)) v ↔
    match push with ForComponent _ _ cs _ _ _ => v ∈ vault_ids cs | Static _ _ _ _ => False end).
  destruct push; simpl.
  - rewrite include_refs_vault, include_owned_vault, vault_in_referenced. unfold vault_in. simpl.
    set_solver.
  - rewrite include_refs_vault. unfold vault_in. simpl. set_solver.
Qed.
