(* ===== verification/StateStore.v ===== *)
(** * The working state store

    [engine/src/runtime/state_store.rs] over the read-only store of
    [engine/src/state_store/memory.rs]: substates are read from the ledger on
    first lock, and move to the change set when they are first borrowed
    mutably. *)
From stdpp Require Import base gmap list strings numbers.
From S2P Require Import Prelude Bor BTree Ids Amount Crypto ResourceContainer Vault RuntimeError.
From S2P Require Import Locking Substate.
Open Scope Z_scope.

Record WorkingStateStore := MkStore {
  new_substates : list (SubstateId * SubstateValue);
  loaded_substates : gmap SubstateId Substate;
  locked_substates : LockedSubstates;
  downed_utxos : list UtxoAddress;
  state_store : gmap SubstateId Substate;
}.
Definition store_new (state_store : gmap SubstateId Substate) : WorkingStateStore :=
  MkStore [] ∅ locked_default [] state_store.

Definition set_new (n : list (SubstateId * SubstateValue)) (s : WorkingStateStore) :=
  MkStore n (loaded_substates s) (locked_substates s) (downed_utxos s) (state_store s).
Definition set_loaded (l : gmap SubstateId Substate) (s : WorkingStateStore) :=
  MkStore (new_substates s) l (locked_substates s) (downed_utxos s) (state_store s).
Definition set_locked (l : LockedSubstates) (s : WorkingStateStore) :=
  MkStore (new_substates s) (loaded_substates s) l (downed_utxos s) (state_store s).
Definition set_downed (d : list UtxoAddress) (s : WorkingStateStore) :=
  MkStore (new_substates s) (loaded_substates s) (locked_substates s) d (state_store s).

(** [ReadOnlyMemoryStateStore::exists] and [get_state] with [optional]. *)
Definition ledger_exists (store : gmap SubstateId Substate) (id : SubstateId) : bool :=
  match store !! id with Some _ => true | None => false end.

Definition exists_ (self : WorkingStateStore) (id : SubstateId) : bool :=
  im_contains id (new_substates self)
  || (match loaded_substates self !! id with Some _ => true | None => false end)
  || ledger_exists (state_store self) id.

Definition load_and_cache (id : SubstateId) : M WorkingStateStore RuntimeError unit := λ self,
  if im_contains id (new_substates self) then (Ok tt, self)
  else
    match loaded_substates self !! id with
    | Some _ => (Ok tt, self)
    | None =>
        match state_store self !! id with
        | Some substate => (Ok tt, set_loaded (<[id := substate]> (loaded_substates self)) self)
        | None => (Err (SubstateNotFound id), self)
        end
    end.

Definition on_locks {A : Type} (m : M LockedSubstates LockError A) :
    M WorkingStateStore RuntimeError A :=
  map_err RuntimeLockError (zoom locked_substates set_locked m).

Definition store_try_lock (id : SubstateId) (lock_flag : LockFlag) :
    M WorkingStateStore RuntimeError LockId := λ self,
  if negb (exists_ self id) then (Err (SubstateNotFound id), self)
  else
    (let! lock_id := on_locks (try_lock id lock_flag) in
     do! load_and_cache id in
     ret lock_id) self.

Definition store_try_unlock (lock_id : LockId) : M WorkingStateStore RuntimeError unit :=
  on_locks (try_unlock lock_id).

Definition get_ref (self : WorkingStateStore) (address : SubstateId) :
    res RuntimeError SubstateValue :=
  match im_get address (new_substates self) with
  | Some v => Ok v
  | None =>
      match loaded_substates self !! address with
      | Some s => Ok (substate_value s)
      | None => Err (RuntimeLockError (SubstateNotLocked address))
      end
  end.

Definition get_locked_substate (self : WorkingStateStore) (lock_id : LockId) :
    res RuntimeError (SubstateId * SubstateValue) :=
  let? lock := res_map_err RuntimeLockError (get_lock (locked_substates self) lock_id LockRead) in
  let? substate := get_ref self (ls_address lock) in
  Ok (ls_address lock, substate).

(** [get_for_mut] moves a loaded substate to the change set; the borrow it
    returns is used through [borrow_new]. *)
Definition get_for_mut (address : SubstateId) : M WorkingStateStore RuntimeError SubstateValue :=
  λ self,
  let self' :=
    match loaded_substates self !! address with
    | Some substate =>
        set_new (im_insert address (substate_value substate) (new_substates self))
          (set_loaded (delete address (loaded_substates self)) self)
    | None => self
    end in
  match im_get address (new_substates self') with
  | Some v => (Ok v, self')
  | None => (Err (RuntimeLockError (SubstateNotLocked address)), self')
  end.

(** Run [f] on the entry of the change set at [address]. *)
Definition borrow_new {A : Type} (address : SubstateId) (v : SubstateValue)
    (f : M SubstateValue RuntimeError A) : M WorkingStateStore RuntimeError A := λ self,
  match f v with
  | (r, v') => (r, set_new (im_insert address v' (new_substates self)) self)
  end.

(** [get_locked_substate_mut] with what the caller does with the borrow. *)
Definition with_locked_mut {A : Type} (lock_id : LockId)
    (f : SubstateId → M SubstateValue RuntimeError A) : M WorkingStateStore RuntimeError A :=
  λ self,
  match get_lock (locked_substates self) lock_id LockWrite with
  | Ok lock =>
      (let! v := get_for_mut (ls_address lock) in
       borrow_new (ls_address lock) v (f (ls_address lock))) self
  | Err e => (Err (RuntimeLockError e), self)
  | Panic => (Panic, self)
  end.

Definition mutate_locked_substate_with {R : Type} (lock_id : LockId)
    (callback : SubstateId → M SubstateValue RuntimeError (option R)) :
    M WorkingStateStore RuntimeError (option R) := λ self,
  match get_lock (locked_substates self) lock_id LockWrite with
  | Ok lock =>
      let id := ls_address lock in
      match loaded_substates self !! id with
      | Some substate =>
          let removed := set_loaded (delete id (loaded_substates self)) self in
          match callback id (substate_value substate) with
          | (Ok (Some r), v) => (Ok (Some r), set_new (im_insert id v (new_substates self)) removed)
          | (Ok None, v) =>
              (Ok None,
               set_loaded (<[id := MkSubstate v (version substate)]> (loaded_substates self)) self)
          | (Err e, _) => (Err e, removed)
          | (Panic, _) => (Panic, removed)
          end
      | None =>
          match im_get id (new_substates self) with
          | Some v => borrow_new id v (callback id) self
          | None => (Err (RuntimeLockError (SubstateNotLocked id)), self)
          end
      end
  | Err e => (Err (RuntimeLockError e), self)
  | Panic => (Panic, self)
  end.

Definition store_insert (id : SubstateId) (value : SubstateValue) :
    M WorkingStateStore RuntimeError unit := λ self,
  if exists_ self id then (Err (DuplicateSubstate id), self)
  else (Ok tt, set_new (im_insert id value (new_substates self)) self).

Definition take_mutated_substates :
    M WorkingStateStore RuntimeError (list (SubstateId * SubstateValue)) := λ self,
  (Ok (new_substates self), set_new [] self).
Definition take_downed_utxos : M WorkingStateStore RuntimeError (list UtxoAddress) := λ self,
  (Ok (downed_utxos self), set_downed [] self).

Definition down_utxo (lock_id : LockId) : M WorkingStateStore RuntimeError Utxo := λ self,
  match get_lock (locked_substates self) lock_id LockWrite with
  | Ok lock =>
      let substate_id := ls_address lock in
      match substate_id with
      | SidUtxo address =>
          match im_get substate_id (new_substates self) with
          | Some value =>
              (expect (into_utxo value),
               set_new (im_remove substate_id (new_substates self)) self)
          | None =>
              match loaded_substates self !! substate_id with
              | Some substate =>
                  (expect (into_utxo (substate_value substate)),
                   set_downed (is_add address (downed_utxos self))
                     (set_loaded (delete substate_id (loaded_substates self)) self))
              | None => (Err (SubstateNotFound substate_id), self)
              end
          end
      | _ => (Err RuntimeInvariantError, self)
      end
  | Err e => (Err (RuntimeLockError e), self)
  | Panic => (Panic, self)
  end.

(** The vaults of the change set; an entry at a vault id that is not a vault
    panics. *)
Definition new_vaults {E : Type} (self : WorkingStateStore) : res E (list (VaultId * Vault)) :=
  collect (λ p, match as_vault_id p.1, as_vault p.2 with
                | Some id, Some v => Ok (id, v)
                | _, _ => Panic
                end)
    (filter (λ p, is_vault p.1 = true) (new_substates self)).

Definition load_and_cache_component (address : ComponentAddress) :
    M WorkingStateStore RuntimeError ComponentHeader :=
  let addr := SidComponent address in
  do! load_and_cache addr in
  let! self := get in
  lift (let? component := get_ref self addr in
        ok_or (as_component component) RuntimeInvariantError).

Definition get_unmodified_substate (self : WorkingStateStore) (id : SubstateId) :
    res RuntimeError Substate :=
  match loaded_substates self !! id with
  | Some substate => Ok substate
  | None => ok_or (state_store self !! id) (SubstateNotFound id)
  end.

(** ** The map the store presents *)
Definition downed (s : WorkingStateStore) (id : SubstateId) : bool :=
  match id with SidUtxo a => bool_decide (a ∈ downed_utxos s) | _ => false end.
Definition view (s : WorkingStateStore) (id : SubstateId) : option SubstateValue :=
  match im_get id (new_substates s) with
  | Some v => Some v
  | None =>
      match loaded_substates s !! id with
      | Some x => Some (substate_value x)
      | None => if downed s id then None else substate_value <$> state_store s !! id
      end
  end.

(** What is stored at the address of a UTXO is a UTXO. *)
Definition typed (id : SubstateId) (v : SubstateValue) : Prop :=
  match id with SidUtxo _ => is_Some (into_utxo v) | _ => True end.

Record store_wf (s : WorkingStateStore) : Prop := {
  wf_locks : locks_wf (locked_substates s);
  wf_new : NoDup (new_substates s).*1;
  wf_new_loaded id : is_Some (im_get id (new_substates s)) → loaded_substates s !! id = None;
  wf_loaded id x : loaded_substates s !! id = Some x → state_store s !! id = Some x;
  wf_downed a : a ∈ downed_utxos s →
    im_get (SidUtxo a) (new_substates s) = None ∧ loaded_substates s !! SidUtxo a = None ∧
    is_Some (state_store s !! SidUtxo a) ∧ locks (locked_substates s) !! SidUtxo a = Some StWrite;
  wf_typed_new id v : im_get id (new_substates s) = Some v → typed id v;
  wf_typed_ledger id x : state_store s !! id = Some x → typed id (substate_value x);
}.

Inductive store_op :=
  | OLock (id : SubstateId) (flag : LockFlag)
  | OUnlock (lock_id : LockId)
  | ORead (lock_id : LockId)
  | OUpdate (lock_id : LockId) (v : SubstateValue)
  | OInsert (id : SubstateId) (v : SubstateValue)
  | OMutate (lock_id : LockId) (callback : SubstateId → M SubstateValue RuntimeError (option unit))
  | ODown (lock_id : LockId).
Inductive store_result :=
  | RLock (lock_id : LockId)
  | RUnit
  | RValue (id : SubstateId) (v : SubstateValue)
  | RMutated (changed : option unit)
  | RUtxo (u : Utxo).
Definition as_result {A : Type} (f : A → store_result) (m : M WorkingStateStore RuntimeError A) :
    M WorkingStateStore RuntimeError store_result := let! a := m in ret (f a).
Definition run_store_op (op : store_op) : M WorkingStateStore RuntimeError store_result :=
  match op with
  | OLock id flag => as_result RLock (store_try_lock id flag)
  | OUnlock lid => as_result (λ _, RUnit) (store_try_unlock lid)
  | ORead lid => λ s, as_result (λ p, RValue p.1 p.2) (lift (get_locked_substate s lid)) s
  | OUpdate lid v => as_result (λ _, RUnit) (with_locked_mut lid (λ _, put v))
  | OInsert id v => as_result (λ _, RUnit) (store_insert id v)
  | OMutate lid callback => as_result RMutated (mutate_locked_substate_with lid callback)
  | ODown lid => as_result RUtxo (down_utxo lid)
  end.

(** What the store relies on to stay well formed: the lock of a spent UTXO is
    not released, values are stored at addresses of their type, and, as the
    comment in [mutate_locked_substate_with] asks, a callback that returns
    [None] has not changed the value. *)
Definition op_safe (op : store_op) (s : WorkingStateStore) : Prop :=
  match op with
  | OUnlock lid => ∀ id, lock_ids (locked_substates s) !! lid = Some id → downed s id = false
  | OUpdate lid v => ∀ id, lock_ids (locked_substates s) !! lid = Some id → typed id v
  | OInsert id v => typed id v
  | OMutate lid callback => ∀ id v, typed id v →
      typed id (callback id v).2 ∧ ((callback id v).1 = Ok None → (callback id v).2 = v)
  | _ => True
  end.

Definition same_view (s s' : WorkingStateStore) : Prop := ∀ id, view s' id = view s id.
Definition view_set (s s' : WorkingStateStore) (id : SubstateId) (v : option SubstateValue) :=
  ∀ id', view s' id' = if decide (id' = id) then v else view s id'.

(** What the map holds at the address of a UTXO after it is spent.  A UTXO that
    was written in this transaction is only taken out of the change set, so that
    one the ledger has comes back with the ledger's value. *)
Definition after_spend (s : WorkingStateStore) (id : SubstateId) : option SubstateValue :=
  if im_contains id (new_substates s) then substate_value <$> state_store s !! id else None.

(** ** Lemmas *)
Lemma exists_view (s : WorkingStateStore) (id : SubstateId) :
  exists_ s id = true ↔ is_Some (view s id) ∨ downed s id = true ∧ is_Some (state_store s !! id).
Proof.
  unfold exists_, view, im_contains, ledger_exists.
  destruct (im_get id (new_substates s)); [naive_solver|].
  destruct (loaded_substates s !! id); [naive_solver|].
  destruct (downed s id), (state_store s !! id); simpl; naive_solver.
Qed.

Lemma get_ref_view (s : WorkingStateStore) id v : get_ref s id = Ok v → view s id = Some v.
Proof.
  unfold get_ref, view. destruct (im_get id (new_substates s)); [congruence|].
  destruct (loaded_substates s !! id); simpl; congruence.
Qed.

Lemma load_and_cache_wf (s : WorkingStateStore) (id : SubstateId) :
  store_wf s → downed s id = false →
  store_wf (load_and_cache id s).2 ∧ same_view s (load_and_cache id s).2 ∧
  locked_substates (load_and_cache id s).2 = locked_substates s ∧
  new_substates (load_and_cache id s).2 = new_substates s.
Proof.
  intros Hwf Hd. unfold load_and_cache, im_contains.
  destruct (im_get id (new_substates s)) as [v|] eqn:Hn; [done|].
  destruct (loaded_substates s !! id) as [x|] eqn:Hl; [done|].
  destruct (state_store s !! id) as [x|] eqn:Hs; [|done]. simpl. split_and!; [|..|done|done].
  - destruct Hwf as [H1 H2 H3 H4 H5 H6 H7]. split; simpl; try done.
    + intros id' Hid'. rewrite lookup_insert_ne; [by apply H3|]. intros ->. rewrite Hn in Hid'.
      by destruct Hid'.
    + intros id' x' [[<- <-]|[_ ?]]%lookup_insert_Some; [done|by apply H4].
    + intros a Ha. destruct (H5 a Ha) as (? & ? & ? & ?). split_and!; try done.
      rewrite lookup_insert_ne; [done|]. intros ->. unfold downed in Hd.
      by rewrite bool_decide_true in Hd.
  - intros id'. unfold view. simpl. destruct (decide (id' = id)) as [->|Hne].
    + rewrite Hn, lookup_insert_eq, Hl, Hs. change (downed _ id) with (downed s id). by rewrite Hd.
    + rewrite lookup_insert_ne by done. done.
Qed.

Lemma set_locked_wf (s : WorkingStateStore) (l : LockedSubstates) :
  store_wf s → locks_wf l →
  (∀ a, a ∈ downed_utxos s → locks l !! SidUtxo a = Some StWrite) →
  store_wf (set_locked l s).
Proof.
  intros [H1 H2 H3 H4 H5 H6 H7] Hl Hd. split; simpl; try done.
  intros a Ha. destruct (H5 a Ha) as (? & ? & ? & ?). auto.
Qed.

Lemma set_new_view (s : WorkingStateStore) id v :
  view_set s (set_new (im_insert id v (new_substates s)) s) id (Some v).
Proof. intros id'. unfold view. simpl. rewrite im_get_insert. by case_decide. Qed.

(** Replace or add the value at an address that is not downed. *)
Lemma set_new_wf (s : WorkingStateStore) id v :
  store_wf s → loaded_substates s !! id = None → downed s id = false → typed id v →
  store_wf (set_new (im_insert id v (new_substates s)) s) ∧
  view_set s (set_new (im_insert id v (new_substates s)) s) id (Some v).
Proof.
  intros [H1 H2 H3 H4 H5 H6 H7] Hl Hd Ht. split.
  - split; simpl; try done.
    + by apply im_insert_NoDup.
    + intros id'. rewrite im_get_insert. case_decide; [by subst|]. apply H3.
    + intros a Ha. rewrite im_get_insert, decide_False; [by apply H5|].
      intros <-. unfold downed in Hd. by rewrite bool_decide_true in Hd.
    + intros id' v'. rewrite im_get_insert. case_decide; [naive_solver|]. apply H6.
  - apply set_new_view.
Qed.

(** Forget a cached substate. *)
Lemma unload_wf (s : WorkingStateStore) id :
  store_wf s → store_wf (set_loaded (delete id (loaded_substates s)) s).
Proof.
  intros [H1 H2 H3 H4 H5 H6 H7]. split; simpl; try done.
  - intros id' Hid'. apply lookup_delete_None. right. by apply H3.
  - intros id' x' [_ ?]%lookup_delete_Some. by apply H4.
  - intros a Ha. destruct (H5 a Ha) as (? & ? & ? & ?). split_and!; try done.
    apply lookup_delete_None. by right.
Qed.
Lemma held_not_downed (s : WorkingStateStore) id :
  store_wf s →
  is_Some (im_get id (new_substates s)) ∨ is_Some (loaded_substates s !! id) → downed s id = false.
Proof.
  intros Hwf Hid. unfold downed. destruct id; try done. apply bool_decide_false. intros Hd.
  apply (wf_downed s Hwf) in Hd as (Hn & Hl & _). rewrite Hn, Hl in Hid. by destruct Hid as [[]|[]].
Qed.
Lemma unload_view (s : WorkingStateStore) id : store_wf s →
  same_view s (set_loaded (delete id (loaded_substates s)) s).
Proof.
  intros Hwf id'. unfold view. simpl. destruct (im_get id' (new_substates s)); [done|].
  destruct (decide (id' = id)) as [->|Hne]; [|by rewrite lookup_delete_ne].
  rewrite lookup_delete_eq. destruct (loaded_substates s !! id) as [x|] eqn:Hl; [|done].
  change (downed _ id) with (downed s id). rewrite (held_not_downed s id Hwf) by (right; eauto).
  by rewrite (wf_loaded s Hwf _ _ Hl).
Qed.

Lemma get_lock_write (l : LockedSubstates) lid x :
  get_lock l lid LockWrite = Ok x →
  x = MkLockedSubstate (ls_address x) lid LockWrite ∧ lock_ids l !! lid = Some (ls_address x) ∧
  locks l !! ls_address x = Some StWrite.
Proof.
  unfold get_lock. destruct (lock_ids l !! lid) as [addr|]; [|done]. simpl.
  destruct (locks l !! addr) as [[]|] eqn:E; try done. simpl. by intros [= <-].
Qed.

Lemma get_lock_no_panic (l : LockedSubstates) lid flag : get_lock l lid flag ≠ Panic.
Proof.
  unfold get_lock. destruct (lock_ids l !! lid) as [addr|]; [|done]. simpl.
  destruct (locks l !! addr) as [st|]; [|done]. simpl. by destruct (negb _).
Qed.

Lemma get_lock_ids (l : LockedSubstates) lid flag x :
  get_lock l lid flag = Ok x → lock_ids l !! lid = Some (ls_address x).
Proof.
  unfold get_lock. destruct (lock_ids l !! lid) as [addr|]; [|done]. simpl.
  destruct (locks l !! addr) as [st|]; [|done]. simpl.
  destruct (negb _); [done|]. by intros [= <-].
Qed.

Lemma get_for_mut_spec (s : WorkingStateStore) id :
  store_wf s →
  match get_ref s id with
  | Ok v => ∃ s', get_for_mut id s = (Ok v, s') ∧ store_wf s' ∧ same_view s s' ∧
              locked_substates s' = locked_substates s ∧ loaded_substates s' !! id = None ∧
              downed s' id = false
  | _ => get_for_mut id s = (Err (RuntimeLockError (SubstateNotLocked id)), s)
  end.
Proof.
  intros Hwf. unfold get_ref, get_for_mut.
  destruct (im_get id (new_substates s)) as [v|] eqn:Hn.
  - rewrite (wf_new_loaded s Hwf) by eauto. rewrite Hn. exists s. split_and!; try done.
    + apply (wf_new_loaded s Hwf). eauto.
    + apply held_not_downed; eauto.
  - destruct (loaded_substates s !! id) as [x|] eqn:Hl; [|by rewrite Hn].
    simpl. rewrite im_get_insert, decide_True by done. eexists. split; [done|].
    assert (downed s id = false) as Hd by (apply held_not_downed; eauto).
    destruct (set_new_wf _ id (substate_value x) (unload_wf s id Hwf)) as [Hw Hv]; simpl.
    { apply lookup_delete_eq. }
    { done. }
    { apply (wf_typed_ledger s Hwf), (wf_loaded s Hwf). done. }
    split_and!; [done| |done|apply lookup_delete_eq|done].
    intros id'. rewrite Hv. case_decide as E; [subst; unfold view; by rewrite Hn, Hl|].
    unfold view. simpl. by rewrite lookup_delete_ne by done.
Qed.

Lemma downed_locked (s : WorkingStateStore) id :
  store_wf s → downed s id = true → locks (locked_substates s) !! id = Some StWrite.
Proof.
  intros Hwf Hd. unfold downed in Hd. destruct id; try done. apply bool_decide_eq_true in Hd.
  by apply (wf_downed s Hwf).
Qed.

(** The outcome of locking a substate. *)
Lemma store_try_lock_spec (s : WorkingStateStore) id flag :
  store_wf s → id_counter (locked_substates s) < U32_MAX →
  let '(r, s') := store_try_lock id flag s in
  store_wf s' ∧ same_view s s' ∧ new_substates s' = new_substates s ∧
  state_store s' = state_store s ∧ downed_utxos s' = downed_utxos s ∧
  match r with
  | Ok lid => ∃ v, view s id = Some v ∧ get_ref s' id = Ok v ∧
      try_lock id flag (locked_substates s) = (Ok lid, locked_substates s') ∧
      lock_ids (locked_substates s') !! lid = Some id ∧
      (flag = LockWrite → get_lock (locked_substates s') lid LockWrite
                            = Ok (MkLockedSubstate id lid LockWrite)) ∧
      (locks (locked_substates s) !! id ≠ Some StWrite)
  | Err _ => s' = s
  | Panic => False
  end.
Proof.
  intros Hwf Hc. unfold store_try_lock.
  destruct (exists_ s id) eqn:He; simpl; [|split_and!; done].
  pose proof (try_lock_cases id flag _ (wf_locks s Hwf) Hc) as Hcases.
  pose proof (try_lock_wf id flag _ (wf_locks s Hwf) Hc) as Hlw.
  unfold on_locks, map_err, zoom, bind.
  assert (locks (locked_substates s) !! id ≠ Some StWrite ∧
    try_lock id flag (locked_substates s) =
      (Ok (id_counter (locked_substates s)), (try_lock id flag (locked_substates s)).2) ∧
    (∀ id', id' ≠ id → locks (try_lock id flag (locked_substates s)).2 !! id' =
                       locks (locked_substates s) !! id') ∧
    lock_ids (try_lock id flag (locked_substates s)).2 !! id_counter (locked_substates s) = Some id ∧
    (flag = LockWrite → locks (try_lock id flag (locked_substates s)).2 !! id = Some StWrite) ∨
    ∃ e, try_lock id flag (locked_substates s) = (Err e, locked_substates s))
    as [(Hnw & -> & Hother & Hid & Hwr)|[e ->]].
  { destruct (locks (locked_substates s) !! id) as [[n|]|].
    - destruct flag; simpl in Hcases; [left|by right]. rewrite Hcases. simpl.
      split_and!; try done; [|by rewrite lookup_insert_eq].
      intros id' ?. by rewrite lookup_insert_ne.
    - by right.
    - left. rewrite Hcases. simpl. split_and!; try done; [|by rewrite lookup_insert_eq|].
      + intros id' ?. by rewrite lookup_insert_ne.
      + intros ->. by rewrite lookup_insert_eq. }
  2: { simpl. destruct s. split_and!; done. }
  set (l' := (try_lock id flag (locked_substates s)).2) in *. simpl.
  assert (downed s id = false) as Hd.
  { destruct (downed s id) eqn:E; [|done]. by apply downed_locked in E. }
  assert (store_wf (set_locked l' s)) as Hwf'.
  { apply set_locked_wf; try done. intros a Ha. rewrite Hother.
    - by apply (wf_downed s Hwf).
    - intros <-. unfold downed in Hd. by rewrite bool_decide_true in Hd. }
  assert (∃ s', load_and_cache id (set_locked l' s) = (Ok tt, s') ∧
    state_store s' = state_store s ∧ downed_utxos s' = downed_utxos s ∧
    is_Ok (get_ref s' id) = true) as (s' & Hload & Hss & Hds & Href).
  { unfold load_and_cache, exists_, im_contains, get_ref, ledger_exists in *. simpl in *.
    destruct (im_get id (new_substates s)) eqn:Hn; [exists (set_locked l' s); simpl; by rewrite ?Hn|].
    destruct (loaded_substates s !! id) eqn:Hl; [exists (set_locked l' s); simpl; by rewrite ?Hn, ?Hl|].
    destruct (state_store s !! id); [|done]. eexists. split; [done|]. simpl.
    rewrite Hn, lookup_insert_eq. done. }
  destruct (load_and_cache_wf (set_locked l' s) id Hwf' Hd) as (Hw & Hv & Hl & Hn).
  rewrite Hload in *. simpl in *. split_and!; [done|exact Hv|done|done|done|].
  destruct (get_ref s' id) as [v| |] eqn:Hgr; try done. exists v.
  assert (view s id = Some v) as Hvs.
  { transitivity (view s' id); [symmetry; apply Hv|by apply get_ref_view]. }
  rewrite Hl. split_and!; try done. intros ->.
  unfold get_lock. rewrite Hid. simpl. by rewrite Hwr.
Qed.

Lemma store_try_unlock_spec (s : WorkingStateStore) lid :
  store_wf s →
  (∀ id, lock_ids (locked_substates s) !! lid = Some id → downed s id = false) →
  let '(r, s') := store_try_unlock lid s in
  store_wf s' ∧ same_view s s' ∧
  match r with Ok _ => True | Err _ => s' = s | Panic => False end.
Proof.
  intros Hwf Hsafe. unfold store_try_unlock, on_locks, map_err, zoom.
  pose proof (try_unlock_spec lid _ (wf_locks s Hwf)) as Hu.
  destruct (lock_ids (locked_substates s) !! lid) as [addr|] eqn:Hid.
  2: { rewrite Hu. simpl. destruct s. done. }
  destruct Hu as (l' & Heq & Hl' & Hids & _).
  assert (∀ id, id ≠ addr → locks l' !! id = locks (locked_substates s) !! id) as Hother.
  { intros id Hne. unfold try_unlock in Heq. rewrite Hid in Heq.
    repeat case_step; simplify_eq/=; by rewrite ?lookup_delete_ne, ?lookup_insert_ne. }
  rewrite Heq. simpl. split_and!; try done. apply set_locked_wf; try done.
  intros a Ha. rewrite Hother; [by apply (wf_downed s Hwf)|].
  intros <-. specialize (Hsafe _ eq_refl). unfold downed in Hsafe.
  by rewrite bool_decide_true in Hsafe.
Qed.

(** Running a function on the borrow of a write-locked substate. *)
Lemma with_locked_mut_run {A : Type} (s : WorkingStateStore) lid id v
    (f : SubstateId → M SubstateValue RuntimeError A) r v' :
  store_wf s →
  get_lock (locked_substates s) lid LockWrite = Ok (MkLockedSubstate id lid LockWrite) →
  get_ref s id = Ok v → f id v = (r, v') → typed id v' →
  ∃ s', with_locked_mut lid f s = (r, s') ∧ store_wf s' ∧ view_set s s' id (Some v') ∧
    locked_substates s' = locked_substates s ∧ get_ref s' id = Ok v'.
Proof.
  intros Hwf Hlock Hr Hf Ht. unfold with_locked_mut. rewrite Hlock. simpl. unfold bind.
  pose proof (get_for_mut_spec s id Hwf) as Hm. rewrite Hr in Hm.
  destruct Hm as (s' & -> & Hwf' & Hv & Hl & Hload & Hd). unfold borrow_new. rewrite Hf.
  destruct (set_new_wf s' id v' Hwf' Hload Hd Ht) as [Hw' Hv'].
  eexists. split; [done|]. split_and!; [done| |done|].
  - intros id'. rewrite Hv'. case_decide; [done|]. apply Hv.
  - unfold get_ref. simpl. by rewrite im_get_insert, decide_True.
Qed.

Lemma with_locked_mut_spec (s : WorkingStateStore) lid (v : SubstateValue) :
  store_wf s →
  let '(r, s') := with_locked_mut lid (λ _, put v) s in
  ((∀ id, lock_ids (locked_substates s) !! lid = Some id → typed id v) → store_wf s') ∧
  match r with
  | Ok _ => ∃ id, get_lock (locked_substates s) lid LockWrite = Ok (MkLockedSubstate id lid LockWrite)
              ∧ is_Some (view s id) ∧ view_set s s' id (Some v)
  | Err _ => same_view s s'
  | Panic => False
  end.
Proof.
  intros Hwf. unfold with_locked_mut.
  destruct (get_lock (locked_substates s) lid LockWrite) as [x|e|] eqn:Hlock; [|done|].
  2: { by apply get_lock_no_panic in Hlock. }
  pose proof (get_lock_write _ _ _ Hlock) as (Hx & Hid & _). unfold bind.
  pose proof (get_for_mut_spec s (ls_address x) Hwf) as Hm.
  destruct (get_ref s (ls_address x)) as [v0| |] eqn:Hr; [|by rewrite Hm..].
  destruct Hm as (s1 & -> & Hwf1 & Hv1 & _ & Hl1 & Hd1). unfold borrow_new, put. split.
  - intros Ht. by apply set_new_wf; auto.
  - exists (ls_address x). split_and!; [by rewrite <- Hx|by apply get_ref_view in Hr as ->|].
    intros id. rewrite set_new_view. case_decide; [done|]. apply Hv1.
Qed.

(** [mutate_locked_substate_with]: the callback's value is stored, except that
    when the callback fails on a substate that has not been written before, the
    cached copy is dropped and the ledger's value is kept. *)
Lemma mutate_locked_spec (s : WorkingStateStore) lid
    (callback : SubstateId → M SubstateValue RuntimeError (option unit)) :
  store_wf s →
  let '(r, s') := mutate_locked_substate_with lid callback s in
  (op_safe (OMutate lid callback) s → store_wf s') ∧
  ((∃ e, r = Err e ∧ s' = s) ∨
   ∃ id v v', get_lock (locked_substates s) lid LockWrite = Ok (MkLockedSubstate id lid LockWrite) ∧
     view s id = Some v ∧ callback id v = (r, v') ∧
     (view_set s s' id (Some v') ∧ (is_Ok r = true ∨ is_Some (im_get id (new_substates s))) ∨
      is_Ok r = false ∧ same_view s s')).
Proof.
  intros Hwf. unfold mutate_locked_substate_with.
  destruct (get_lock (locked_substates s) lid LockWrite) as [x|e|] eqn:Hlock; [|by eauto|].
  2: { by apply get_lock_no_panic in Hlock. }
  pose proof (get_lock_write _ _ _ Hlock) as (Hx & _ & _). simpl in *. set (id := ls_address x) in *.
  destruct (loaded_substates s !! id) as [y|] eqn:Hl.
  - assert (im_get id (new_substates s) = None) as Hn.
    { destruct (im_get id (new_substates s)) eqn:Hn; [|done].
      by rewrite (wf_new_loaded s Hwf id) in Hl by eauto. }
    assert (view s id = Some (substate_value y)) as Hv by (unfold view; by rewrite Hn, Hl).
    pose proof (wf_loaded s Hwf _ _ Hl) as Hs. pose proof (wf_typed_ledger s Hwf _ _ Hs) as Ht.
    pose proof (unload_wf s id Hwf) as Hu. pose proof (unload_view s id Hwf) as Huv.
    destruct (callback id (substate_value y)) as [[[[]|]|e|] v'] eqn:Hc; split.
    + intros Hsafe. destruct (Hsafe _ _ Ht) as [Ht' _]. rewrite Hc in Ht'.
      refine (proj1 (set_new_wf _ id v' Hu _ _ Ht')); [apply lookup_delete_eq|].
      by apply (held_not_downed s id Hwf); eauto.
    + right. exists id, (substate_value y), v'. split_and!; [by rewrite Hx|done..|]. left.
      split; [|by left].
      intros id'. rewrite (set_new_view (set_loaded _ s) id v' id'). case_decide; [done|]. apply Huv.
    + intros Hsafe. destruct (Hsafe _ _ Ht) as [_ Hsame]. rewrite Hc in Hsame.
      simpl in Hsame. rewrite (Hsame eq_refl).
      replace (MkSubstate _ _) with y by by destruct y. rewrite insert_id by done. by destruct s.
    + right. exists id, (substate_value y), v'. split_and!; [by rewrite Hx|done..|]. left.
      split; [|by left].
      intros id'. unfold view. simpl. case_decide as E; [rewrite E; by rewrite Hn, lookup_insert_eq|].
      by rewrite lookup_insert_ne.
    + done.
    + right. exists id, (substate_value y), v'. split_and!; [by rewrite Hx|done..|]. by right.
    + done.
    + right. exists id, (substate_value y), v'. split_and!; [by rewrite Hx|done..|]. by right.
  - destruct (im_get id (new_substates s)) as [v|] eqn:Hn; [|by eauto].
    unfold borrow_new. destruct (callback id v) as [r v'] eqn:Hc. split.
    + intros Hsafe. destruct (Hsafe _ _ (wf_typed_new s Hwf _ _ Hn)) as [Ht' _]. rewrite Hc in Ht'.
      apply set_new_wf; try done. apply held_not_downed; eauto.
    + right. exists id, v, v'. split_and!; [by rewrite Hx|unfold view; by rewrite Hn|done|].
      left. split; [apply set_new_view|by eauto].
Qed.

(** A substate that nobody has locked can be locked. *)
Lemma store_try_lock_free (s : WorkingStateStore) id flag v :
  store_wf s → id_counter (locked_substates s) < U32_MAX →
  view s id = Some v → locks (locked_substates s) !! id = None →
  ∃ lid s', store_try_lock id flag s = (Ok lid, s').
Proof.
  intros Hwf Hc Hv Hfree. pose proof (store_try_lock_spec s id flag Hwf Hc) as Hspec.
  destruct (store_try_lock id flag s) as [[lid|e|] s'] eqn:Hl; [by eauto| |].
  - exfalso. unfold store_try_lock in Hl.
    rewrite (proj2 (exists_view s id)) in Hl by (left; eauto). simpl in Hl.
    pose proof (try_lock_cases id flag _ (wf_locks s Hwf) Hc) as Ht. rewrite Hfree in Ht.
    unfold on_locks, map_err, zoom, bind in Hl. rewrite Ht in Hl. simpl in Hl.
    unfold load_and_cache, im_contains in Hl. simpl in Hl. unfold view in Hv.
    destruct (im_get id (new_substates s)); [done|].
    destruct (loaded_substates s !! id); [done|].
    destruct (downed s id); [done|]. by destruct (state_store s !! id).
  - by destruct Hspec as (_ & _ & _ & _ & _ & []).
Qed.

Lemma store_insert_spec (s : WorkingStateStore) id v :
  store_wf s →
  let '(r, s') := store_insert id v s in
  (typed id v → store_wf s') ∧
  match r with
  | Ok _ => view s id = None ∧ view_set s s' id (Some v)
  | Err e => e = DuplicateSubstate id ∧ s' = s ∧ exists_ s id = true
  | Panic => False
  end.
Proof.
  intros Hwf. unfold store_insert. destruct (exists_ s id) eqn:He; [done|].
  assert (view s id = None ∧ downed s id = false ∧ loaded_substates s !! id = None)
    as (Hv & Hd & Hl).
  { split_and!.
    - destruct (view s id) eqn:Hv; [|done]. by rewrite (proj2 (exists_view s id)) in He by eauto.
    - destruct (downed s id) eqn:Hd; [|done]. exfalso. unfold exists_, ledger_exists in He.
      bool_to_prop. unfold downed in Hd. destruct id; try done. apply bool_decide_eq_true in Hd.
      apply (wf_downed s Hwf) in Hd as (_ & _ & [x Hx] & _). by rewrite Hx in *.
    - unfold exists_ in He. bool_to_prop. by destruct (loaded_substates s !! id). }
  split; [|split; [done|apply set_new_view]]. intros Ht. by apply set_new_wf.
Qed.

Lemma down_utxo_spec (s : WorkingStateStore) lid :
  store_wf s →
  let '(r, s') := down_utxo lid s in
  store_wf s' ∧
  match r with
  | Ok u => ∃ a, get_lock (locked_substates s) lid LockWrite
                   = Ok (MkLockedSubstate (SidUtxo a) lid LockWrite) ∧
      view s (SidUtxo a) = Some (SvUtxo u) ∧
      view_set s s' (SidUtxo a) (after_spend s (SidUtxo a)) ∧
      locked_substates s' = locked_substates s
  | Err _ => s' = s
  | Panic => False
  end.
Proof.
  intros Hwf. unfold down_utxo.
  destruct (get_lock (locked_substates s) lid LockWrite) as [x|e|] eqn:Hlock; [|done|].
  2: { by apply get_lock_no_panic in Hlock. }
  pose proof (get_lock_write _ _ _ Hlock) as (Hx & Hid & Hw).
  destruct (ls_address x) as [| | | | | | | |a] eqn:Ha; try done.
  pose proof (wf_typed_ledger s Hwf (SidUtxo a)) as Htl.
  destruct (im_get (SidUtxo a) (new_substates s)) as [v|] eqn:Hn.
  - destruct (wf_typed_new s Hwf _ _ Hn) as [u Hu]. rewrite Hu. simpl.
    pose proof (wf_new_loaded s Hwf (SidUtxo a) ltac:(eauto)) as Hl.
    assert (downed s (SidUtxo a) = false) as Hd by (apply held_not_downed; eauto).
    split.
    + destruct Hwf as [H1 H2 H3 H4 H5 H6 H7]. split; simpl; try done.
      * by apply im_remove_NoDup.
      * intros id. rewrite im_get_remove by done. case_decide; [by intros []|]. apply H3.
      * intros b Hb. destruct (H5 b Hb) as (? & ? & ? & ?). split_and!; try done.
        rewrite im_get_remove by done. by case_decide.
      * intros id v'. rewrite im_get_remove by done. case_decide; [done|]. apply H6.
    + exists a. rewrite Hx at 1. split_and!; [done| | |done].
      * unfold view. rewrite Hn. destruct v; simplify_eq/=. done.
      * intros id. unfold view. simpl. rewrite im_get_remove by apply (wf_new s Hwf).
        case_decide as E; [|done]. subst. rewrite Hl. unfold after_spend, im_contains.
        rewrite Hn. change (downed _ (SidUtxo a)) with (downed s (SidUtxo a)). by rewrite Hd.
  - destruct (loaded_substates s !! SidUtxo a) as [y|] eqn:Hl; [|done].
    pose proof (wf_loaded s Hwf _ _ Hl) as Hs. destruct (Htl _ Hs) as [u Hu]. rewrite Hu. simpl.
    split.
    + destruct Hwf as [H1 H2 H3 H4 H5 H6 H7]. split; simpl; try done.
      * intros id Hs'. apply lookup_delete_None. right. by apply H3.
      * intros id z [_ ?]%lookup_delete_Some. by apply H4.
      * intros b Hb. destruct (decide (b = a)) as [->|Hne].
        -- split_and!; [done|apply lookup_delete_eq|by eauto|done].
        -- destruct (H5 b) as (? & ? & ? & ?).
           { apply elem_of_is_add in Hb as [|]; done. }
           split_and!; try done. apply lookup_delete_None. by right.
    + exists a. rewrite Hx at 1. split_and!; [done| | |done].
      * unfold view. rewrite Hn, Hl. destruct (substate_value y); simplify_eq/=. done.
      * intros id. unfold view. simpl. case_decide as E.
        -- subst. unfold after_spend, im_contains. rewrite Hn, lookup_delete_eq. simpl.
           rewrite bool_decide_true; [done|]. apply elem_of_is_add. by left.
        -- rewrite lookup_delete_ne by done. unfold downed. simpl.
           destruct id as [| | | | | | | |b]; try done.
           erewrite (bool_decide_ext (b ∈ is_add _ _)); [done|].
           rewrite elem_of_is_add. naive_solver.
Qed.

(** What a spend leaves alone. *)
Lemma down_utxo_frame (s : WorkingStateStore) lid :
  store_wf s →
  let s' := (down_utxo lid s).2 in
  state_store s' = state_store s ∧ locked_substates s' = locked_substates s ∧
  (∀ id, lock_ids (locked_substates s) !! lid ≠ Some id →
     im_get id (new_substates s') = im_get id (new_substates s)).
Proof.
  intros Hwf. unfold down_utxo.
  destruct (get_lock (locked_substates s) lid LockWrite) as [x|e|] eqn:Hl; simpl; [|done..].
  apply get_lock_ids in Hl. destruct (ls_address x) eqn:Ha; simpl; try done. case_step; simpl.
  - split_and!; [done..|]. intros id Hid. rewrite im_get_remove by apply (wf_new s Hwf).
    rewrite decide_False; [done|]. congruence.
  - case_step; simpl; done.
Qed.

(** ** Theorems *)

Lemma store_try_unlock_view (s : WorkingStateStore) lid :
  store_wf s →
  let '(r, s') := store_try_unlock lid s in same_view s s' ∧ r ≠ Panic.
Proof.
  intros Hwf. unfold store_try_unlock, on_locks, map_err, zoom.
  pose proof (try_unlock_spec lid _ (wf_locks s Hwf)) as Hu.
  destruct (lock_ids (locked_substates s) !! lid) as [addr|]; [|by rewrite Hu].
  destruct Hu as (l' & -> & _). done.
Qed.

(** C29: the working store implements a map from substate ids to values with
    write locks.  From a well-formed store no operation panics (a callback that
    panics apart).  Locking, unlocking and a failing operation leave the map
    alone; a read returns the map's value; an update through a write lock changes
    the map at the locked address only; an insert succeeds only at a free
    address.  [mutate_locked_substate_with] stores the callback's value at the
    locked address, even if the callback fails on a substate that was written
    before.  A spend returns the UTXO of the map and removes it, except that a
    UTXO of the ledger that was rewritten in this transaction comes back with the
    ledger's value.  The store stays well formed under operations that respect
    [op_safe]: values are of their address's type, the lock of a spent UTXO is
    not released, and a callback that returns [None] has not changed the value. *)
Theorem store_refines_map (op : store_op) (s : WorkingStateStore) :
  store_wf s → id_counter (locked_substates s) < U32_MAX →
  let '(r, s') := run_store_op op s in
  (op_safe op s → store_wf s') ∧
  match r, op with
  | Ok (RLock lid), OLock id _ => is_Some (view s id) ∧ same_view s s' ∧
      lock_ids (locked_substates s') !! lid = Some id
  | Ok RUnit, OUnlock _ => same_view s s'
  | Ok (RValue id v), ORead lid => lock_ids (locked_substates s) !! lid = Some id ∧
      view s id = Some v ∧ s' = s
  | Ok RUnit, OUpdate lid v => ∃ id,
      get_lock (locked_substates s) lid LockWrite = Ok (MkLockedSubstate id lid LockWrite) ∧
      is_Some (view s id) ∧ view_set s s' id (Some v)
  | Ok RUnit, OInsert id v => view s id = None ∧ view_set s s' id (Some v)
  | Ok (RMutated c), OMutate lid callback => ∃ id v v',
      get_lock (locked_substates s) lid LockWrite = Ok (MkLockedSubstate id lid LockWrite) ∧
      view s id = Some v ∧ callback id v = (Ok c, v') ∧ view_set s s' id (Some v')
  | Err e, OMutate lid callback => same_view s s' ∨ ∃ id v v',
      get_lock (locked_substates s) lid LockWrite = Ok (MkLockedSubstate id lid LockWrite) ∧
      view s id = Some v ∧ callback id v = (Err e, v') ∧
      is_Some (im_get id (new_substates s)) ∧ view_set s s' id (Some v')
  | Panic, OMutate lid callback => ∃ id v v', view s id = Some v ∧ callback id v = (Panic, v')
  | Ok (RUtxo u), ODown lid => ∃ a,
      get_lock (locked_substates s) lid LockWrite
        = Ok (MkLockedSubstate (SidUtxo a) lid LockWrite) ∧
      view s (SidUtxo a) = Some (SvUtxo u) ∧
      view_set s s' (SidUtxo a) (after_spend s (SidUtxo a))
  | Err _, _ => same_view s s'
  | _, _ => False
  end.
Proof.
  intros Hwf Hc. destruct op as [id flag|lid|lid|lid v|id v|lid callback|lid]; simpl;
    unfold as_result, bind, ret, lift.
  - pose proof (store_try_lock_spec s id flag Hwf Hc) as H.
    destruct (store_try_lock id flag s) as [[l|e|] s'].
    + destruct H as (? & ? & _ & _ & _ & v & -> & ? & ? & ? & ?). eauto.
    + by destruct H as (? & ? & _ & _ & _ & _).
    + by destruct H as (_ & _ & _ & _ & _ & []).
  - pose proof (store_try_unlock_spec s lid Hwf) as H.
    pose proof (store_try_unlock_view s lid Hwf) as Hv.
    destruct (store_try_unlock lid s) as [[l|e|] s']; naive_solver.
  - unfold get_locked_substate.
    destruct (get_lock (locked_substates s) lid LockRead) as [x|e|] eqn:Hl; simpl; [|done|].
    + destruct (get_ref s (ls_address x)) as [v|e|] eqn:Hr; simpl; [|done|].
      * split_and!; [done|by eapply get_lock_ids|by apply get_ref_view|done].
      * unfold get_ref in Hr. repeat case_step; simplify_eq.
    + by apply get_lock_no_panic in Hl.
  - pose proof (with_locked_mut_spec s lid v Hwf) as H.
    destruct (with_locked_mut lid (λ _, put v) s) as [[l|e|] s']; naive_solver.
  - pose proof (store_insert_spec s id v Hwf) as H.
    destruct (store_insert id v s) as [[l|e|] s']; [done| |by destruct H].
    by destruct H as (? & _ & -> & _).
  - pose proof (mutate_locked_spec s lid callback Hwf) as H.
    destruct (mutate_locked_substate_with lid callback s) as [r s'].
    destruct H as [Hw [(e & -> & ->)|(id & v & v' & Hl & Hv & Hcb & [[Hset Hr]|[Hr Hsame]])]].
    + split; [done|by left].
    + destruct r as [c|e|]; (split; [done|]); [by eauto 10| |by eauto].
      right. destruct Hr as [|Hr]; [done|]. exists id, v, v'. by split_and!.
    + destruct r; [done|split; [done|by left]|split; [done|by eauto]].
  - pose proof (down_utxo_spec s lid Hwf) as H.
    destruct (down_utxo lid s) as [[l|e|] s']; [|by destruct H as [? ->]|by destruct H].
    destruct H as (? & a & ? & ? & ? & _). eauto 10.
Qed.

(** A ledger with a frozen UTXO of resource 1. *)
Definition frozen_utxo : SubstateValue :=
  SvUtxo (MkUtxo (Some (MkUtxoOutput (MkPrivateOutput 0 [] 0 None) 3 0)) true).
Definition utxo_ledger : gmap SubstateId Substate :=
  {[ SidUtxo (MkUtxoAddress 1 7) := MkSubstate frozen_utxo 0 ]}.

Lemma store_new_wf (ledger : gmap SubstateId Substate) :
  (∀ id x, ledger !! id = Some x → typed id (substate_value x)) → store_wf (store_new ledger).
Proof.
  intros Ht. split; simpl; try done.
  - apply locked_default_wf.
  - constructor.
  - intros a Ha. by apply elem_of_nil in Ha.
Qed.

Lemma utxo_ledger_typed id x : utxo_ledger !! id = Some x → typed id (substate_value x).
Proof. unfold utxo_ledger. intros [<- <-]%lookup_singleton_Some. simpl. eauto. Qed.

Lemma store_refines_map_witness :
  is_Some (view (store_new utxo_ledger) (SidUtxo (MkUtxoAddress 1 7))).
Proof.
  pose proof (store_refines_map (OLock (SidUtxo (MkUtxoAddress 1 7)) LockWrite)
    (store_new utxo_ledger)
    (store_new_wf _ utxo_ledger_typed) ltac:(vm_compute; reflexivity)) as H.
  vm_compute in H. vm_compute. exact (proj1 (proj2 H)).
Defined.

(** Rewrite a UTXO of the ledger, as [SetStealthUtxosFreeze] does, and then
    spend it. *)
Definition rewrite_then_spend (a : UtxoAddress) (v : SubstateValue) :
    M WorkingStateStore RuntimeError Utxo :=
  let! lock := store_try_lock (SidUtxo a) LockWrite in
  do! with_locked_mut lock (λ _, put v) in
  do! store_try_unlock lock in
  let! lock := store_try_lock (SidUtxo a) LockWrite in
  down_utxo lock.

(** a UTXO of the ledger that was rewritten in the same transaction (for
    example unfrozen) and is then spent is handed to the spender, but it is not
    recorded as spent: nothing is downed, the change set forgets it, and it is
    still there for the next transaction in its state before the rewrite. *)
Theorem rewritten_utxo_is_not_downed (ledger : gmap SubstateId Substate) (a : UtxoAddress)
    (x : Substate) (u : Utxo) :
  ledger !! SidUtxo a = Some x →
  ∃ s', rewrite_then_spend a (SvUtxo u) (store_new ledger) = (Ok u, s') ∧
    new_substates s' = [] ∧ downed_utxos s' = [] ∧
    view s' (SidUtxo a) = Some (substate_value x).
Proof.
  intros Hx.
  set (locked := MkLockedSubstates {[0 := SidUtxo a]} {[SidUtxo a := StWrite]} 1).
  set (unlocked := MkLockedSubstates (delete 0 {[0 := SidUtxo a]})
         (delete (SidUtxo a) {[SidUtxo a := StWrite]}) 1).
  set (relocked := MkLockedSubstates (<[1 := SidUtxo a]> (lock_ids unlocked))
         (<[SidUtxo a := StWrite]> (locks unlocked)) 2).
  set (gone := delete (SidUtxo a) {[SidUtxo a := x]} : gmap SubstateId Substate).
  assert (store_try_lock (SidUtxo a) LockWrite (store_new ledger) =
    (Ok 0, MkStore [] {[SidUtxo a := x]} locked [] ledger)) as H1.
  { unfold store_try_lock, exists_, ledger_exists, bind. simpl. rewrite ?lookup_empty, Hx. simpl.
    unfold on_locks, map_err, zoom. simpl.
    assert (try_lock (SidUtxo a) LockWrite locked_default = (Ok 0, locked)) as -> by done. simpl.
    unfold load_and_cache. simpl. by rewrite ?lookup_empty, Hx. }
  assert (with_locked_mut 0 (λ _, put (SvUtxo u))
      (MkStore [] {[SidUtxo a := x]} locked [] ledger) =
    (Ok tt, MkStore [(SidUtxo a, SvUtxo u)] gone locked [] ledger)) as H2.
  { unfold with_locked_mut, get_lock. simpl. rewrite lookup_singleton_eq. simpl.
    rewrite lookup_singleton_eq. simpl. unfold bind, get_for_mut. simpl.
    rewrite lookup_singleton_eq. simpl. rewrite decide_True by done. unfold borrow_new. simpl.
    by rewrite decide_True. }
  assert (store_try_unlock 0 (MkStore [(SidUtxo a, SvUtxo u)] gone locked [] ledger) =
    (Ok tt, MkStore [(SidUtxo a, SvUtxo u)] gone unlocked [] ledger)) as H3.
  { unfold store_try_unlock, on_locks, map_err, zoom, try_unlock. simpl.
    rewrite lookup_singleton_eq. simpl. by rewrite lookup_singleton_eq. }
  assert (store_try_lock (SidUtxo a) LockWrite
      (MkStore [(SidUtxo a, SvUtxo u)] gone unlocked [] ledger) =
    (Ok 1, MkStore [(SidUtxo a, SvUtxo u)] gone relocked [] ledger)) as H4.
  { unfold store_try_lock, exists_, im_contains. simpl. rewrite decide_True by done. simpl.
    unfold bind, on_locks, map_err, zoom, try_lock. simpl. rewrite lookup_delete_eq. simpl.
    unfold load_and_cache, im_contains. simpl. by rewrite decide_True. }
  assert (down_utxo 1 (MkStore [(SidUtxo a, SvUtxo u)] gone relocked [] ledger) =
    (Ok u, MkStore [] gone relocked [] ledger)) as H5.
  { unfold down_utxo, get_lock. simpl. rewrite lookup_insert_eq. simpl.
    rewrite lookup_insert_eq. simpl. by rewrite !decide_True. }
  exists (MkStore [] gone relocked [] ledger). split_and!; [|done..|].
  - unfold rewrite_then_spend, bind. by rewrite H1, H2, H3, H4, H5.
  - unfold view. simpl. unfold gone. by rewrite lookup_delete_eq, Hx.
Qed.

Lemma rewritten_utxo_witness :
  ∃ s', rewrite_then_spend (MkUtxoAddress 1 7) (SvUtxo (MkUtxo None false)) (store_new utxo_ledger)
          = (Ok (MkUtxo None false), s') ∧
    view s' (SidUtxo (MkUtxoAddress 1 7)) = Some frozen_utxo.
Proof.
  destruct (rewritten_utxo_is_not_downed utxo_ledger (MkUtxoAddress 1 7) (MkSubstate frozen_utxo 0)
    (MkUtxo None false)) as (s' & Hs & _ & _ & Hv); [vm_compute; reflexivity|].
  exists s'. split; [exact Hs|exact Hv].
Defined.
