(* ===== verification/WorkingState.v ===== *)
(** * The working state of a transaction

    [engine/src/runtime/working_state.rs]: the buckets, proofs, address
    allocations, call frames, fees and substates of a running transaction, and
    the operations the runtime performs on them.  The frames are listed with the
    current one first.  The counter of entity ids, which the source keeps in the
    runtime interface next to the state, is a field here.  The encoded length of a
    substate is a function of the serializer and so an argument. *)
From stdpp Require Import base gmap list strings numbers.
From S2P Require Import Prelude Bor BTree Ids IndexedValue Amount Crypto Confidential.
From S2P Require Import ResourceContainer FreezeFlags Proof Bucket Vault AccessRules RuntimeError.
From S2P Require Import Auth Locking Fees Substate Stealth FeeState Scope StateStore.
From S2P Require Import IdProvider Workspace.
Open Scope Z_scope.

Record AllocatedAddress := MkAllocatedAddress {
  alloc_substate_id : SubstateId;
  alloc_template_address : option TemplateAddress;
}.

Inductive MintArg :=
  | MintFungible (amount : Z)
  | MintNonFungible (tokens : gmap NonFungibleId (Value * Value))
  | MintConfidential (statement : ConfidentialOutputStatement)
  | MintStealth (amount : Z).
Definition as_resource_type (arg : MintArg) : ResourceType :=
  match arg with
  | MintFungible _ => RtFungible
  | MintNonFungible _ => RtNonFungible
  | MintConfidential _ => RtConfidential
  | MintStealth _ => RtStealth
  end.

Inductive ResourceDiscriminator :=
  | Everything
  | DiscFungible (amount : Z)
  | DiscNonFungible (tokens : gset NonFungibleId)
  | DiscConfidential (commitments : gset CommitmentBytes) (revealed_amount : Z).

Definition max_substate_outputs : Z := 1000.
Definition max_substate_size : Z := 2 * 1024 * 1024.
Definition max_logs : nat := 256.
Definition max_log_size_bytes : nat := 32 * 1024.
Definition max_events : nat := 256.

Inductive ResourceAddressRef :=
  | RefAddress (address : ResourceAddress)
  | RefWorkspace (id : WorkspaceOffsetId).

Record WorkingState := MkWorkingState {
  transaction_hash : N;
  events : list Event;
  logs : list LogEntry;
  buckets : gmap BucketId Bucket;
  address_allocations : gmap N AllocatedAddress;
  used_address_allocations : gmap N SubstateId;
  address_allocation_id : Z;
  proofs : gmap ProofId Proof;
  object_ids : ObjectIds;
  store : WorkingStateStore;
  current_epoch : option Z;
  validator_fee_withdrawals : list ValidatorFeeWithdrawal;
  call_frames : list CallFrame;
  initial_call_scope : CallScope;
  fee_state : FeeState;
  workspace : Workspace;
  last_instruction_output : option IndexedValue;
  entity_ids : Z;
}.
Definition state_new (state_store : gmap SubstateId Substate) (current_epoch : option Z)
    (initial_call_scope : CallScope) (transaction_hash : N) : WorkingState :=
  MkWorkingState transaction_hash [] [] ∅ ∅ ∅ 0 ∅ (object_ids_new max_substate_outputs)
    (store_new state_store) current_epoch [] []
    initial_call_scope fee_state_new workspace_new None 0.

#[local] Notation "'W'" := (M WorkingState RuntimeError) (only parsing).

Definition set_events (e : list Event) (s : WorkingState) : WorkingState :=
  MkWorkingState (transaction_hash s) e (logs s) (buckets s) (address_allocations s)
    (used_address_allocations s) (address_allocation_id s) (proofs s) (object_ids s) (store s) (current_epoch s)
    (validator_fee_withdrawals s) (call_frames s) (initial_call_scope s) (fee_state s) (workspace s)
    (last_instruction_output s) (entity_ids s).
Definition set_logs (l : list LogEntry) (s : WorkingState) : WorkingState :=
  MkWorkingState (transaction_hash s) (events s) l (buckets s) (address_allocations s)
    (used_address_allocations s) (address_allocation_id s) (proofs s) (object_ids s) (store s) (current_epoch s)
    (validator_fee_withdrawals s) (call_frames s) (initial_call_scope s) (fee_state s) (workspace s)
    (last_instruction_output s) (entity_ids s).
Definition set_buckets (b : gmap BucketId Bucket) (s : WorkingState) : WorkingState :=
  MkWorkingState (transaction_hash s) (events s) (logs s) b (address_allocations s)
    (used_address_allocations s) (address_allocation_id s) (proofs s) (object_ids s) (store s) (current_epoch s)
    (validator_fee_withdrawals s) (call_frames s) (initial_call_scope s) (fee_state s) (workspace s)
    (last_instruction_output s) (entity_ids s).
Definition set_allocations (a : gmap N AllocatedAddress) (u : gmap N SubstateId) (n : Z)
    (s : WorkingState) : WorkingState :=
  MkWorkingState (transaction_hash s) (events s) (logs s) (buckets s) a u n (proofs s) (object_ids s) (store s)
    (current_epoch s) (validator_fee_withdrawals s) (call_frames s) (initial_call_scope s)
    (fee_state s) (workspace s)
    (last_instruction_output s) (entity_ids s).
Definition set_proofs (p : gmap ProofId Proof) (s : WorkingState) : WorkingState :=
  MkWorkingState (transaction_hash s) (events s) (logs s) (buckets s) (address_allocations s)
    (used_address_allocations s) (address_allocation_id s) p (object_ids s) (store s) (current_epoch s)
    (validator_fee_withdrawals s) (call_frames s) (initial_call_scope s) (fee_state s) (workspace s)
    (last_instruction_output s) (entity_ids s).
Definition set_object_ids (o : ObjectIds) (s : WorkingState) : WorkingState :=
  MkWorkingState (transaction_hash s) (events s) (logs s) (buckets s) (address_allocations s)
    (used_address_allocations s) (address_allocation_id s) (proofs s) o (store s)
    (current_epoch s) (validator_fee_withdrawals s) (call_frames s) (initial_call_scope s)
    (fee_state s) (workspace s)
    (last_instruction_output s) (entity_ids s).
Definition set_store (st : WorkingStateStore) (s : WorkingState) : WorkingState :=
  MkWorkingState (transaction_hash s) (events s) (logs s) (buckets s) (address_allocations s)
    (used_address_allocations s) (address_allocation_id s) (proofs s) (object_ids s) st (current_epoch s)
    (validator_fee_withdrawals s) (call_frames s) (initial_call_scope s) (fee_state s) (workspace s)
    (last_instruction_output s) (entity_ids s).
Definition set_withdrawals (w : list ValidatorFeeWithdrawal) (s : WorkingState) : WorkingState :=
  MkWorkingState (transaction_hash s) (events s) (logs s) (buckets s) (address_allocations s)
    (used_address_allocations s) (address_allocation_id s) (proofs s) (object_ids s) (store s) (current_epoch s)
    w (call_frames s) (initial_call_scope s) (fee_state s) (workspace s)
    (last_instruction_output s) (entity_ids s).
Definition set_frames (f : list CallFrame) (i : CallScope) (s : WorkingState) : WorkingState :=
  MkWorkingState (transaction_hash s) (events s) (logs s) (buckets s) (address_allocations s)
    (used_address_allocations s) (address_allocation_id s) (proofs s) (object_ids s) (store s) (current_epoch s)
    (validator_fee_withdrawals s) f i (fee_state s) (workspace s)
    (last_instruction_output s) (entity_ids s).
Definition set_fee_state (f : FeeState) (s : WorkingState) : WorkingState :=
  MkWorkingState (transaction_hash s) (events s) (logs s) (buckets s) (address_allocations s)
    (used_address_allocations s) (address_allocation_id s) (proofs s) (object_ids s) (store s) (current_epoch s)
    (validator_fee_withdrawals s) (call_frames s) (initial_call_scope s) f (workspace s)
    (last_instruction_output s) (entity_ids s).

Definition set_workspace (w : Workspace) (s : WorkingState) : WorkingState :=
  MkWorkingState (transaction_hash s) (events s) (logs s) (buckets s) (address_allocations s)
    (used_address_allocations s) (address_allocation_id s) (proofs s) (object_ids s) (store s) (current_epoch s)
    (validator_fee_withdrawals s) (call_frames s) (initial_call_scope s) (fee_state s) w
    (last_instruction_output s) (entity_ids s).
Definition set_last_output (o : option IndexedValue) (s : WorkingState) : WorkingState :=
  MkWorkingState (transaction_hash s) (events s) (logs s) (buckets s) (address_allocations s)
    (used_address_allocations s) (address_allocation_id s) (proofs s) (object_ids s) (store s) (current_epoch s)
    (validator_fee_withdrawals s) (call_frames s) (initial_call_scope s) (fee_state s) (workspace s)
    o (entity_ids s).
Definition set_entity_ids (n : Z) (s : WorkingState) : WorkingState :=
  MkWorkingState (transaction_hash s) (events s) (logs s) (buckets s) (address_allocations s)
    (used_address_allocations s) (address_allocation_id s) (proofs s) (object_ids s) (store s) (current_epoch s)
    (validator_fee_withdrawals s) (call_frames s) (initial_call_scope s) (fee_state s) (workspace s)
    (last_instruction_output s) n.

Definition on_store {A : Type} (m : M WorkingStateStore RuntimeError A) : W A :=
  zoom store set_store m.

(** ** Scopes and frames *)
Definition current_call_scope (self : WorkingState) : CallScope :=
  match call_frames self with
  | f :: _ => frame_scope f
  | [] => initial_call_scope self
  end.
Definition set_current_call_scope (c : CallScope) (self : WorkingState) : WorkingState :=
  match call_frames self with
  | f :: fs => set_frames (set_frame_scope c f :: fs) (initial_call_scope self) self
  | [] => set_frames [] c self
  end.
(** [self.current_call_scope_mut()?] and what is done with the borrow. *)
Definition on_scope {A : Type} (m : M CallScope RuntimeError A) : W A :=
  zoom current_call_scope set_current_call_scope m.
Definition call_frame_depth (self : WorkingState) : nat := length (call_frames self).
Definition state_current_template (self : WorkingState) :
    res RuntimeError (TemplateAddress * string) :=
  match call_frames self with
  | f :: _ => Ok (frame_template f, frame_module f)
  | [] => Err NoActiveCallFrame
  end.
Definition state_current_component (self : WorkingState) :
    res RuntimeError (option ComponentAddress) :=
  match call_frames self with
  | f :: _ =>
      Ok (match component_lock (frame_scope f) with
          | Some lock => as_component_address (ls_address lock)
          | None => None
          end)
  | [] => Err NoActiveCallFrame
  end.
Definition state_get_proof (self : WorkingState) (proof_id : ProofId) : res RuntimeError Proof :=
  ok_or (proofs self !! proof_id) (ProofNotFound proof_id).

(** The authorization checks run against the working state. *)
#[export] Instance working_state_auth : AuthState WorkingState := {|
  get_proof := state_get_proof;
  current_component := state_current_component;
  current_template s := let? t := state_current_template s in Ok t.1;
  current_auth_scope s := Ok (auth_scope (current_call_scope s));
|}.

(** ** Operations *)
Section working_state.
Context `{Ii : !I192} `{Ic : !Crypto} `{Cb : !Cbor}.
(** [tari_bor::encoded_len] of a substate value; [None] is an encoding error. *)
Variable encoded_len : SubstateValue → option Z.

Definition event_std (substate_id : option SubstateId) (template_address : TemplateAddress)
    (tx_hash : N) (object_name action_name : string) (payload : gmap string string) : Event :=
  MkEvent substate_id template_address tx_hash
    ("std." +:+ object_name +:+ "." +:+ action_name) payload.

Definition push_event (event : Event) : W unit := λ self,
  if (max_events <=? length (events self))%nat then (Err LimitError, self)
  else (Ok tt, set_events (events self ++ [event]) self).
Definition push_log (log : LogEntry) : W unit := λ self,
  if (max_log_size_bytes <? String.length (log_message log))%nat then (Err LimitError, self)
  else if (max_logs <=? length (logs self))%nat then (Err LimitError, self)
  else (Ok tt, set_logs (logs self ++ [log]) self).

Definition substate_exists (self : WorkingState) (address : SubstateId) : bool :=
  is_public_key_identity address || exists_ (store self) address.

Definition enforce_substate_size_limit {S : Type} (value : SubstateValue) : M S RuntimeError unit :=
  lift (let? size := ok_or (encoded_len value) EncodingError in
        if max_substate_size <? size then Err LimitError else Ok tt).
Definition new_substate (address : SubstateId) (value : SubstateValue) : W unit :=
  do! enforce_substate_size_limit value in
  do! on_scope (add_substate_to_scope address) in
  on_store (store_insert address value).

Definition lock_substate (addr : SubstateId) (lock_flag : LockFlag) : W LockedSubstate :=
  let! lock_id := on_store (store_try_lock addr lock_flag) in
  ret (MkLockedSubstate addr lock_id lock_flag).
Definition unlock_substate (lock : LockedSubstate) : W unit :=
  on_store (store_try_unlock (ls_lock_id lock)).

(** Read the substate of a lock as a component, resource, vault or
    non-fungible; the wrong type is an error. *)
Definition get_as {A : Type} (f : SubstateValue → option A) (self : WorkingState)
    (locked : LockedSubstate) : res RuntimeError A :=
  let? p := StateStore.get_locked_substate (store self) (ls_lock_id locked) in
  ok_or (f p.2) (LockSubstateMismatch (ls_lock_id locked) p.1).
Definition get_component := get_as as_component.
Definition get_resource := get_as as_resource.
Definition get_vault := get_as as_vault.
Definition get_non_fungible := get_as as_non_fungible.

(** The mutable counterparts, with what is done with the borrow. *)
Definition on_value {A B : Type} (f : SubstateValue → option B) (up : B → SubstateValue)
    (locked : LockedSubstate) (m : M B RuntimeError A) : W A :=
  on_store (with_locked_mut (ls_lock_id locked) (λ addr v,
    match f v with
    | Some b => let '(r, b') := m b in (r, up b')
    | None => (Err (LockSubstateMismatch (ls_lock_id locked) addr), v)
    end)).
Definition on_vault_mut {A : Type} (locked : LockedSubstate) (m : M Vault RuntimeError A) : W A :=
  on_value as_vault SvVault locked m.
Definition on_resource_mut {A : Type} (locked : LockedSubstate) (m : M Resource RuntimeError A) :
    W A := on_value as_resource SvResource locked m.
Definition on_non_fungible_mut {A : Type} (locked : LockedSubstate)
    (m : M NonFungibleContainer RuntimeError A) : W A :=
  on_value as_non_fungible SvNonFungible locked m.

(** ** Buckets and proofs *)
Definition get_bucket (self : WorkingState) (bucket_id : BucketId) : res RuntimeError Bucket :=
  if negb (is_bucket_in_scope (current_call_scope self) bucket_id)
  then Err (BucketNotFound bucket_id)
  else ok_or (buckets self !! bucket_id) (BucketNotFound bucket_id).
Definition on_bucket_mut {A : Type} (bucket_id : BucketId) (m : M Bucket RuntimeError A) : W A :=
  λ self,
  match get_bucket self bucket_id with
  | Ok b => let '(r, b') := m b in (r, set_buckets (<[bucket_id := b']> (buckets self)) self)
  | Err e => (Err e, self)
  | Panic => (Panic, self)
  end.
Definition take_bucket (bucket_id : BucketId) : W Bucket := λ self,
  match get_bucket self bucket_id with
  | Ok bucket =>
      (do! modify (set_buckets (delete bucket_id (buckets self))) in
       do! on_scope (modify (remove_bucket_from_scope bucket_id)) in
       do! on_scope (modify (add_substate_to_owned (SidResource (bucket_resource_address bucket)))) in
       ret bucket) self
  | Err e => (Err e, self)
  | Panic => (Panic, self)
  end.

Definition burn_token (resource_address : ResourceAddress) (token_id : NonFungibleId) : W unit :=
  let! locked_nft :=
    lock_substate (SidNonFungible (MkNonFungibleAddress resource_address token_id)) LockWrite in
  do! on_non_fungible_mut locked_nft (λ nft,
        if nf_is_burnt nft then (Err (InvalidOpNonFungibleBurnt resource_address token_id), nft)
        else (Ok tt, nf_burn nft)) in
  unlock_substate locked_nft.
Definition burn_bucket (bucket : Bucket) : W unit :=
  if Amount.is_zero (bucket_amount bucket) then ret tt
  else
    match into_non_fungible_ids (bucket_container bucket) with
    | Some ids => for_each (btree_iter ids) (burn_token (bucket_resource_address bucket))
    | None => ret tt
    end.

Definition new_bucket (bucket_id : BucketId) (resource : ResourceContainer) : W unit := λ self,
  (do! on_scope (move_node_to_owned (SidResource (resource_address resource))) in
   do! for_each (btree_iter (non_fungible_token_ids resource)) (λ id,
         on_scope (move_node_to_owned
           (SidNonFungible (MkNonFungibleAddress (resource_address resource) id)))) in
   let bucket := MkBucket bucket_id resource in
   let! old := (λ s, (Ok (buckets s !! bucket_id),
                      set_buckets (<[bucket_id := bucket]> (buckets s)) s)) in
   match old with
   | Some _ => throw (DuplicateBucket bucket_id)
   | None => on_scope (modify (add_bucket_to_scope bucket_id))
   end) self.
Definition new_proof (proof_id : ProofId) (locked_funds : LockedResource) : W unit := λ self,
  let self' := set_proofs (<[proof_id := MkProof locked_funds]> (proofs self)) self in
  match proofs self !! proof_id with
  | Some _ => (Err (DuplicateProof proof_id), self')
  | None => on_scope (modify (add_proof_to_scope proof_id)) self'
  end.

Definition drop_proof (proof_id : ProofId) : W unit := λ self,
  if negb (is_proof_in_scope (current_call_scope self) proof_id)
  then (Err (ProofNotFound proof_id), self)
  else
    (do! on_scope (modify (λ c, set_auth_scope (remove_proof proof_id (auth_scope c)).2 c)) in
     let! proof := (λ s, (ok_or (proofs s !! proof_id) (ProofNotFound proof_id),
                          set_proofs (delete proof_id (proofs s)) s)) in
     match proof_container proof with
     | RefBucket bucket_id => λ s,
         match buckets s !! bucket_id with
         | Some b =>
             let '(r, b') := map_err RuntimeResourceError (bucket_unlock proof) b in
             (r, set_buckets (<[bucket_id := b']> (buckets s)) s)
         | None => (Err (BucketNotFound bucket_id), s)
         end
     | RefVault vault_id =>
         let! vault_lock := lock_substate (SidVault vault_id) LockWrite in
         do! on_vault_mut vault_lock (map_err RuntimeResourceError (vault_unlock proof)) in
         unlock_substate vault_lock
     end) self.

(** ** Resources *)
Definition mint_token (resource_address : ResourceAddress)
    (token : NonFungibleId * (Value * Value)) : W unit := λ self,
  let '(id, (data, mut_data)) := token in
  let addr := SidNonFungible (MkNonFungibleAddress resource_address id) in
  if substate_exists self addr then (Err (DuplicateNonFungibleId id), self)
  else new_substate addr (SvNonFungible (nf_new data mut_data)) self.

(** [Resource::to_view_key_public_key] with the error the caller maps it to. *)
Definition to_view_key_public_key (self : Resource) (e : RuntimeError) :
    res RuntimeError (option Point) :=
  match res_view_key self with
  | Some view_key =>
      let? p := ok_or (point_from_canonical_bytes view_key) e in Ok (Some p)
  | None => Ok None
  end.

Definition is_supply_tracking_enabled (self : Resource) : bool :=
  match total_supply self with Some _ => true | None => false end.

Definition mint_container (locked_resource : LockedSubstate) (resource_address : ResourceAddress)
    (mint_arg : MintArg) : W ResourceContainer :=
  match mint_arg with
  | MintFungible amount =>
      if Amount.is_negative amount then throw (InvalidAmount amount)
      else lift (fungible resource_address amount)
  | MintNonFungible tokens =>
      do! for_each (btree_map_iter tokens) (mint_token resource_address) in
      ret (non_fungible resource_address (dom tokens))
  | MintConfidential statement =>
      let! self := get in
      lift (let? resource := get_resource self locked_resource in
            let? maybe_view_key := to_view_key_public_key resource RuntimeInvariantError in
            res_map_err RuntimeResourceError
              (mint_confidential resource_address statement maybe_view_key))
  | MintStealth amount =>
      if Amount.is_negative amount then throw (InvalidAmount amount)
      else lift (stealth resource_address amount)
  end.

Definition mint_resource (locked_resource : LockedSubstate) (mint_arg : MintArg) :
    W ResourceContainer := λ self,
  (let! resource_address :=
     lift (ok_or (as_resource_address (ls_address locked_resource)) RuntimeInvariantError) in
   let! resource := lift (get_resource self locked_resource) in
   if bool_decide (res_type resource ≠ as_resource_type mint_arg)
   then throw (RuntimeResourceError
                 (ResourceTypeMismatch "mint" (res_type resource) (as_resource_type mint_arg)))
   else
     let! resource_container := mint_container locked_resource resource_address mint_arg in
     if is_supply_tracking_enabled resource then
       do! on_resource_mut locked_resource
             (let! increased := increase_total_supply (amount resource_container) in
              if increased then ret tt
              else
                let! r := get in
                let! current_supply := lift (expect (total_supply r)) in
                throw (ResourceSupplyWouldOverflow resource_address current_supply
                         (amount resource_container))) in
       ret resource_container
     else ret resource_container) self.

(** [Display for VaultFreezeFlag]. *)
Definition flag_name (f : VaultFreezeFlag) : string :=
  match f with Deposits => "Deposits" | Withdrawals => "Withdrawals" end.

Definition set_vault_freeze (vault_lock : LockedSubstate) (flags : VaultFreezeFlags) : W unit :=
  do! on_vault_mut vault_lock (set_freeze flags) in
  let! self := get in
  let! template := lift (state_current_template self) in
  let! event :=
    lift (if flags_is_empty flags
          then Ok (event_std (Some (ls_address vault_lock)) template.1 (transaction_hash self)
                     "vault" "unfrozen" ∅)
          else
            let? fs := flags_iter flags in
            Ok (event_std (Some (ls_address vault_lock)) template.1 (transaction_hash self)
                  "vault" "set_freeze"
                  (list_to_map ((λ f, (flag_name f, "true")) <$> fs)))) in
  push_event event.

Definition recall_resource_from_vault (vault_lock : LockedSubstate)
    (resource_discriminator : ResourceDiscriminator) : W ResourceContainer :=
  do! lift (ok_or (as_vault_id (ls_address vault_lock)) RuntimeInvariantError) in
  on_vault_mut vault_lock (λ vault,
    match resource_discriminator with
    | Everything => map_err RuntimeResourceError recall_all vault
    | DiscFungible amount =>
        if Amount.is_negative amount then (Err (InvalidAmount amount), vault)
        else if bool_decide (vault_resource_type vault ≠ RtFungible)
                && bool_decide (vault_resource_type vault ≠ RtStealth)
        then (Err InvalidArgument, vault)
        else map_err RuntimeResourceError (vault_withdraw amount) vault
    | DiscNonFungible tokens =>
        if bool_decide (vault_resource_type vault ≠ RtNonFungible)
        then (Err InvalidArgument, vault)
        else map_err RuntimeResourceError (vault_withdraw_non_fungibles tokens) vault
    | DiscConfidential commitments revealed_amount =>
        if bool_decide (vault_resource_type vault ≠ RtConfidential)
        then (Err InvalidArgument, vault)
        else map_err RuntimeResourceError (recall_confidential commitments revealed_amount) vault
    end).

(** ** Address allocations *)
Definition new_address_allocation (address : SubstateId) : W N := λ self,
  let id := address_allocation_id self in
  match u32_checked_add id 1 with
  | None => (Panic, self)
  | Some next =>
      let current_template :=
        match state_current_template self with Ok t => Some t.1 | _ => None end in
      (Ok (Z.to_N id),
       set_allocations
         (<[Z.to_N id := MkAllocatedAddress address current_template]> (address_allocations self))
         (used_address_allocations self) next self)
  end.
Definition use_allocated_address (id : N) : W AllocatedAddress := λ self,
  match address_allocations self !! id with
  | None => (Err (AddressAllocationNotFound id), self)
  | Some alloc =>
      (Ok alloc,
       set_allocations (delete id (address_allocations self))
         (<[id := alloc_substate_id alloc]> (used_address_allocations self))
         (address_allocation_id self) self)
  end.
Definition get_allocated_address (self : WorkingState) (id : N) :
    res RuntimeError AllocatedAddress :=
  ok_or (address_allocations self !! id) (AddressAllocationNotFound id).
Definition get_used_address (self : WorkingState) (id : N) : res RuntimeError SubstateId :=
  ok_or (used_address_allocations self !! id) (AddressAllocationNotUsed id).
(** [values().find(..).is_some()]. *)
Definition is_allocated (self : WorkingState) (id : SubstateId) : bool :=
  existsb (λ p, bool_decide (alloc_substate_id p.2 = id)) (map_to_list (address_allocations self)).

(** ** Fees *)
Definition pay_fee (resource : ResourceContainer) (return_vault : option VaultId) : W unit :=
  zoom fee_state set_fee_state (add_fee_payment_checked resource return_vault).

Definition withdraw_all_fees_from_pool (address : N) : W ResourceContainer :=
  let! locked := lock_substate (SidValidatorFeePool address) LockWrite in
  let! self := get in
  do! lift (let? p := StateStore.get_locked_substate (store self) (ls_lock_id locked) in
            let? fee_pool := ok_or (as_validator_fee_pool p.2) RuntimeInvariantError in
            require_ownership self (NativeOther "withdraw_validator_funds")
              (pool_as_ownership fee_pool)) in
  let! withdrawn :=
    on_store (with_locked_mut (ls_lock_id locked) (λ _ v,
      match v with
      | SvValidatorFeePool pool =>
          let '(r, pool') := pool_withdraw_all pool in
          (let? c := res_map_err RuntimeResourceError r in Ok (c, pool_amount pool),
           SvValidatorFeePool pool')
      | _ => (Err RuntimeInvariantError, v)
      end)) in
  do! modify (λ s, set_withdrawals
        (validator_fee_withdrawals s ++ [MkValidatorFeeWithdrawal address withdrawn.2]) s) in
  ret withdrawn.1.

(** ** Component state *)
(** Every item passes the check, in order. *)
Definition check_each {A : Type} (xs : list A) (f : A → res RuntimeError unit) :
    res RuntimeError unit :=
  foldl (λ acc x, let? _ := acc in f x) (Ok tt) xs.

Definition check_all_substates_known (self : WorkingState) (value : IndexedWellKnownTypes) :
    res RuntimeError unit :=
  let? _ := check_each (referenced_substates value) (λ id,
    if negb (substate_exists self id) then Err (ReferencedSubstateNotFound id) else Ok tt) in
  let? _ := check_each (bucket_ids value) (λ b,
    match buckets self !! b with
    | None => Err (ValidationFailedBucketNotInScope b)
    | Some _ => Ok tt
    end) in
  let? _ := check_each (proof_ids value) (λ p,
    match proofs self !! p with
    | None => Err (ValidationFailedProofNotInScope p)
    | Some _ => Ok tt
    end) in
  check_each (component_address_allocations value ++ resource_address_allocations value) (λ a,
    match address_allocations self !! a with
    | None => Err (ValidationFailedAddressAllocationNotInScope a)
    | Some _ => Ok tt
    end).

Definition check_all_substates_in_scope (self : WorkingState) (value : IndexedWellKnownTypes) :
    res RuntimeError unit :=
  let scope := current_call_scope self in
  let? _ := check_each (referenced_substates value) (λ id,
    if is_root id then
      if negb (substate_exists self id) && negb (is_allocated self id)
      then Err (RootSubstateNotFound id) else Ok tt
    else if negb (is_substate_in_scope scope id) && negb (is_allocated self id) then
      if negb (substate_exists self id) then Err (ReferencedSubstateNotFound id)
      else Err (SubstateOutOfScope id)
    else Ok tt) in
  let? _ := check_each (bucket_ids value) (λ b,
    if negb (is_bucket_in_scope scope b) then Err (ValidationFailedBucketNotInScope b)
    else Ok tt) in
  check_each (proof_ids value) (λ p,
    if negb (is_proof_in_scope scope p) then Err (ValidationFailedProofNotInScope p)
    else Ok tt).

(** The first id that occurs before. *)
Fixpoint check_duplicates (seen vaults : list VaultId) : res RuntimeError unit :=
  match vaults with
  | [] => Ok tt
  | v :: vaults' =>
      if decide (v ∈ seen) then Err (DuplicateReference (SidVault v))
      else check_duplicates (v :: seen) vaults'
  end.

Definition validate_component_state (previous_state : option IndexedWellKnownTypes)
    (next_state : IndexedWellKnownTypes) : W unit := λ self,
  (do! lift (match previous_state with
             | Some prev_state =>
                 check_each (vault_ids prev_state) (λ existing_vault,
                   if decide (existing_vault ∈ vault_ids next_state) then Ok tt
                   else Err (OrphanedSubstate (SidVault existing_vault)))
             | None => Ok tt
             end) in
   do! lift (check_duplicates [] (vault_ids next_state)) in
   let new_values :=
     match previous_state with
     | Some prev_state => diff next_state prev_state
     | None => next_state
     end in
   do! lift (check_all_substates_in_scope self new_values) in
   on_scope (for_each (referenced_substates next_state) move_node_to_owned)) self.

(** The callback of [modify_component_with]: [f] returns whether it changed the
    component. *)
Definition modify_callback (locked : LockedSubstate) (f : ComponentHeader → bool * ComponentHeader)
    (_ : SubstateId) :
    M SubstateValue RuntimeError (option (IndexedWellKnownTypes * IndexedWellKnownTypes)) := λ v,
  match v with
  | SvComponent component =>
      match res_map_err RuntimeIndexedValueError (from_value (component_state component)) with
      | Ok before =>
          let '(changed, component') := f component in
          if negb changed then (Ok None, SvComponent component')
          else
            (let? after :=
               res_map_err RuntimeIndexedValueError (from_value (component_state component')) in
             Ok (Some (before, after)),
             SvComponent component')
      | Err e => (Err e, v)
      | Panic => (Panic, v)
      end
  | _ => (Err (LockSubstateMismatch (ls_lock_id locked) (ls_address locked)), v)
  end.
Definition modify_component_with (locked : LockedSubstate)
    (f : ComponentHeader → bool * ComponentHeader) : W unit :=
  let! maybe_before_and_after :=
    on_store (mutate_locked_substate_with (ls_lock_id locked) (modify_callback locked f)) in
  match maybe_before_and_after with
  | None => ret tt
  | Some (before, after) =>
      do! validate_component_state (Some before) after in
      let! self := get in
      let! template := lift (state_current_template self) in
      push_event (event_std (Some (ls_address locked)) template.1 (transaction_hash self)
                    "component" "updated" {["module_name" := template.2]})
  end.

(** [ComponentHeader::contains_substate] is the search of the state. *)
Definition check_component_scope (self : WorkingState) (address : SubstateId)
    (action : ActionIdent) : res RuntimeError unit :=
  if is_substate_in_scope (current_call_scope self) address then Ok tt
  else
    let? lock := ok_or (component_lock (current_call_scope self)) (NotInComponentContext action) in
    let? component := get_component self lock in
    let? found := res_map_err RuntimeIndexedValueError
                    (value_contains_substate (component_state component) address) in
    if negb found then Err (SubstateNotOwned address (ls_address lock)) else Ok tt.

(** ** Frames *)
Definition push_frame (new_frame : CallFrame) (max_call_depth : nat) : W unit := λ self,
  if (max_call_depth <? call_frame_depth self + 1)%nat
  then (Err (MaxCallDepthExceeded (Z.of_nat max_call_depth)), self)
  else
    let scope := update_from_parent (current_call_scope self) (frame_scope new_frame) in
    let scope :=
      if (call_frame_depth self =? 0)%nat
      then set_auth_scope (auth_scope (initial_call_scope self)) scope
      else scope in
    (Ok tt, set_frames (set_frame_scope scope new_frame :: call_frames self)
              (initial_call_scope self) self).

Definition pop_frame : W unit := λ self,
  match call_frames self with
  | [] => (Err NoActiveCallFrame, self)
  | current_frame :: rest =>
      let scope := frame_scope current_frame in
      (do! put (set_frames rest (initial_call_scope self) self) in
       do! match component_lock scope with
           | Some lock => unlock_substate lock
           | None => ret tt
           end in
       do! guard_err (negb (bool_decide (lock_scope scope = [])))
             (DanglingSubstateLocks (Z.of_nat (length (lock_scope scope)))) in
       do! guard_err (negb (bool_decide (orphans scope = []))) (OrphanedSubstates (orphans scope)) in
       on_scope (modify (update_from_child_scope scope))) self
  end.

(** ** Finalization *)
Definition validate_finalized (self : WorkingState) : res RuntimeError unit :=
  if negb (bool_decide (size (buckets self) = 0%nat))
  then Err (RuntimeCommitError (DanglingBuckets (Z.of_nat (size (buckets self)))))
  else if negb (bool_decide (size (proofs self) = 0%nat))
  then Err (RuntimeCommitError (DanglingProofs (Z.of_nat (size (proofs self)))))
  else if negb (bool_decide (size (address_allocations self) = 0%nat))
  then Err (RuntimeCommitError
              (DanglingAddressAllocations (Z.of_nat (size (address_allocations self)))))
  else
    let? vaults := new_vaults (store self) in
    let? _ := check_each vaults (λ p,
      if negb (Amount.is_zero (vault_locked_balance p.2))
      then Err (RuntimeCommitError (DanglingLockedValueInVault p.1 (vault_locked_balance p.2)))
      else Ok tt) in
    if negb (call_frame_depth self =? 0)%nat
    then Err (CallFrameRemainingOnStack (Z.of_nat (call_frame_depth self)))
    else if negb (bool_decide (orphans (initial_call_scope self) = []))
    then Err (OrphanedSubstates (orphans (initial_call_scope self)))
    else Ok tt.

Definition diff_substate (st : WorkingStateStore) (diff : SubstateDiff)
    (p : SubstateId * SubstateValue) : res RuntimeError SubstateDiff :=
  let '(id, substate) := p in
  match get_unmodified_substate st id with
  | Ok existing_state =>
      let diff := diff_down id (version existing_state) diff in
      if match as_validator_fee_pool substate with
         | Some fee => pool_amount fee =? 0
         | None => false
         end
      then Ok diff
      else
        let? next := u32_add (version existing_state) 1 in
        Ok (diff_up id (MkSubstate substate next) diff)
  | Err (SubstateNotFound _) => Ok (diff_up id (MkSubstate substate 0) diff)
  | Err e => Err e
  | Panic => Panic
  end.
Definition diff_downed_utxo (st : WorkingStateStore) (diff : SubstateDiff) (utxo : UtxoAddress) :
    res RuntimeError SubstateDiff :=
  let? spent_utxo := get_unmodified_substate st (SidUtxo utxo) in
  Ok (diff_down (SidUtxo utxo) (version spent_utxo) diff).
Fixpoint fold_res {A B : Type} (f : A → B → res RuntimeError A) (a : A) (xs : list B) :
    res RuntimeError A :=
  match xs with
  | [] => Ok a
  | x :: xs' => let? a' := f a x in fold_res f a' xs'
  end.
Definition generate_substate_diff (self : WorkingState) (transaction_receipt : TransactionReceipt)
    (substates_to_persist : list (SubstateId * SubstateValue)) (downed : list UtxoAddress)
    (fee_withdrawals : list ValidatorFeeWithdrawal) : res RuntimeError SubstateDiff :=
  let? diff := set_once_fee_withdrawals fee_withdrawals diff_new in
  let? diff := fold_res (diff_substate (store self)) diff substates_to_persist in
  let? diff := fold_res (diff_downed_utxo (store self)) diff downed in
  Ok (diff_up (SidTransactionReceipt (receipt_transaction_hash transaction_receipt))
        (MkSubstate (SvTransactionReceipt transaction_receipt) 0) diff).

(** ** Stealth transfers *)
Definition spend_stealth_utxo (resource_address : ResourceAddress) (input : StealthInput) : W unit :=
  let address := SidUtxo (MkUtxoAddress resource_address (si_commitment input)) in
  let! lock_id := on_store (store_try_lock address LockWrite) in
  let! utxo := on_store (down_utxo lock_id) in
  if is_frozen utxo then throw (RuntimeResourceError InvalidSpend)
  else
    let! output := lift (ok_or (utxo_output utxo) (RuntimeResourceError InvalidSpend)) in
    lift (res_map_err RuntimeResourceError (verify_utxo_spend_permission output input)).
Definition spend_stealth_utxos (resource_address : ResourceAddress)
    (stmt : StealthInputsStatement) : W unit :=
  for_each (sis_inputs stmt) (spend_stealth_utxo resource_address).

(** The checks on the bucket that pays for the revealed input. *)
Definition check_revealed_funds (resource_address : ResourceAddress) (revealed_amount : Z)
    (bucket : option Bucket) : res RuntimeError unit :=
  match bucket with
  | Some b =>
      if bool_decide (bucket_resource_address b ≠ resource_address) then Err InvalidArgument
      else if bool_decide (bucket_amount b ≠ revealed_amount) then Err InvalidArgument
      else Ok tt
  | None => if Amount.is_positive revealed_amount then Err InvalidArgument else Ok tt
  end.

Definition new_stealth_output (resource_address : ResourceAddress)
    (output : ValidatedStealthOutput) : W unit :=
  new_substate
    (SidUtxo (MkUtxoAddress resource_address
                (point_to_bytes (vo_commitment (vso_output output)))))
    (SvUtxo (utxo_new (to_utxo_output output))).

Definition resolve_resource_address_ref (self : WorkingState) (addr_ref : ResourceAddressRef) :
    res RuntimeError ResourceAddress :=
  match addr_ref with
  | RefAddress addr => Ok addr
  | RefWorkspace id =>
      let? value := ok_or (workspace_get (workspace self) id) (ItemNotOnWorkspace (offset_id id)) in
      let? allocation_id :=
        ok_or (bor_tag_u32 TagAllocatedResourceAddress value) InvalidArgument in
      let? substate_id := get_used_address self allocation_id in
      ok_or (as_resource_address substate_id) InvalidArgument
  end.

(** What follows once the limits are checked and the address is resolved. *)
Definition transfer_stealth (resource_address : ResourceAddress)
    (statement : StealthTransferStatement) (revealed_funds_bucket_id : option BucketId) :
    W (option ResourceContainer) :=
  let! resource_lock := lock_substate (SidResource resource_address) LockRead in
  let! self := get in
  do! lift (let? resource := get_resource self resource_lock in
            if bool_decide (res_type resource ≠ RtStealth)
            then Err (RuntimeResourceError OperationNotAllowed)
            else check_resource_access_rules self Withdraw (resource_as_ownership resource)
                   (res_access_rules resource)) in
  let! revealed_funds_bucket :=
    match revealed_funds_bucket_id with
    | Some id => let! b := take_bucket id in ret (Some b)
    | None => ret None
    end in
  do! lift (check_revealed_funds resource_address
              (sis_revealed_amount (inputs_statement statement)) revealed_funds_bucket) in
  do! spend_stealth_utxos resource_address (inputs_statement statement) in
  let! self := get in
  let! resource := lift (get_resource self resource_lock) in
  let! view_key := lift (to_view_key_public_key resource InvalidArgument) in
  let! valid_transfer :=
    lift (res_map_err RuntimeResourceError (validate_transfer statement view_key)) in
  do! for_each (vst_outputs valid_transfer) (new_stealth_output resource_address) in
  do! unlock_substate resource_lock in
  if Amount.is_zero (vst_revealed_output_amount valid_transfer) then ret None
  else
    let! container := lift (stealth resource_address (vst_revealed_output_amount valid_transfer)) in
    ret (Some container).
Definition execute_stealth_transfer (resource_address : ResourceAddressRef)
    (statement : StealthTransferStatement) (revealed_funds_bucket_id : option BucketId) :
    W (option ResourceContainer) := λ self,
  (do! lift (res_map_err RuntimeArgumentError
               (check_stealth_transfer_limits STEALTH_LIMITS statement)) in
   let! resource_address := lift (resolve_resource_address_ref self resource_address) in
   transfer_stealth resource_address statement revealed_funds_bucket_id) self.
End working_state.
