(* ===== verification/LedgerDiff.v ===== *)
(** * The substate diff of a transaction and the ledger

    [WorkingState::generate_substate_diff] turns the change set into the
    substates to take down and to put up.  The diff is given a meaning as an
    update of the ledger that only succeeds when every version it takes down is
    the current one and every address it puts up is free.  The file shows what the
    generated diff consists of, when it applies and what it leads to. *)
From stdpp Require Import base gmap list strings numbers.
From S2P Require Import Prelude Bor BTree Ids IndexedValue Amount Crypto.
From S2P Require Import ResourceContainer Vault RuntimeError.
From S2P Require Import Locking Fees Substate StateStore WorkingState.
Open Scope Z_scope.

Notation Ledger := (gmap SubstateId Substate).

(** ** The meaning of a diff *)
Definition apply_down (ledger : Ledger) (d : SubstateId * Z) : option Ledger :=
  match ledger !! d.1 with
  | Some x => if version x =? d.2 then Some (delete d.1 ledger) else None
  | None => None
  end.
Definition apply_up (ledger : Ledger) (u : SubstateId * Substate) : option Ledger :=
  match ledger !! u.1 with
  | Some _ => None
  | None => Some (<[u.1 := u.2]> ledger)
  end.
Fixpoint fold_opt {A B : Type} (f : A → B → option A) (a : A) (xs : list B) : option A :=
  match xs with
  | [] => Some a
  | x :: xs' => match f a x with Some a' => fold_opt f a' xs' | None => None end
  end.
Definition apply_diff (d : SubstateDiff) (ledger : Ledger) : option Ledger :=
  match fold_opt apply_down ledger (down_substates d) with
  | Some ledger' => fold_opt apply_up ledger' (up_substates d)
  | None => None
  end.

(** ** What the diff consists of *)
Definition is_empty_pool (v : SubstateValue) : bool :=
  match as_validator_fee_pool v with Some fee => pool_amount fee =? 0 | None => false end.
(** The substate a change puts up, given the substate before. *)
Definition up_of (ledger : Ledger) (p : SubstateId * SubstateValue) :
    option (SubstateId * Substate) :=
  match ledger !! p.1 with
  | Some x => if is_empty_pool p.2 then None else Some (p.1, MkSubstate p.2 (version x + 1))
  | None => Some (p.1, MkSubstate p.2 0)
  end.
Definition down_of (ledger : Ledger) (id : SubstateId) : option (SubstateId * Z) :=
  match ledger !! id with Some x => Some (id, version x) | None => None end.

Lemma apply_downs_spec (ds : list (SubstateId * Z)) (ledger : Ledger) :
  NoDup ds.*1 →
  Forall (λ d, version <$> ledger !! d.1 = Some d.2) ds →
  ∃ ledger', fold_opt apply_down ledger ds = Some ledger' ∧
    ∀ id, ledger' !! id = if decide (id ∈ ds.*1) then None else ledger !! id.
Proof.
  revert ledger. induction ds as [|[id v] ds IH]; intros ledger Hn Hv; csimpl in *.
  { exists ledger. split; [done|]. intros id. repeat case_decide; set_solver. }
  apply list.NoDup_cons in Hn as [Hid Hn]. apply Forall_cons_iff in Hv as [Hv Hvs]. simpl in Hv.
  unfold apply_down at 1. simpl. destruct (ledger !! id) as [x|] eqn:Hx; simplify_eq/=.
  rewrite Z.eqb_refl. destruct (IH (delete id ledger)) as (ledger' & -> & Hl'); [done| |].
  { apply list.Forall_forall. intros [id' v'] Hin. simpl.
    rewrite lookup_delete_ne; [by apply (proj1 (list.Forall_forall _ _) Hvs (id', v'))|].
    intros <-. apply Hid, list_elem_of_fmap. by exists (id, v'). }
  exists ledger'. split; [done|]. intros id'. rewrite Hl'.
  destruct (decide (id' = id)) as [->|Hne].
  - rewrite (decide_True (P := id ∈ id :: _)) by set_solver. rewrite lookup_delete_eq.
    by destruct (decide _).
  - rewrite lookup_delete_ne by done. apply decide_ext. set_solver.
Qed.

(** A diff that applies takes no address down twice. *)
Lemma apply_downs_NoDup (ds : list (SubstateId * Z)) (ledger mid : Ledger) :
  fold_opt apply_down ledger ds = Some mid →
  NoDup ds.*1 ∧ ∀ id, id ∈ ds.*1 → is_Some (ledger !! id).
Proof.
  revert ledger. induction ds as [|[id v] ds IH]; intros ledger; csimpl.
  { split; [constructor|set_solver]. }
  unfold apply_down at 1. simpl. destruct (ledger !! id) as [x|] eqn:Hx; [|done].
  destruct (version x =? v); [|done]. intros [Hn Hin]%IH. split.
  - constructor; [|done]. intros [y Hy]%Hin. by rewrite lookup_delete_eq in Hy.
  - intros id' [->|[y Hy]%Hin]%elem_of_cons; [by eauto|]. by apply lookup_delete_Some in Hy as [_ ?]; eauto.
Qed.

Lemma apply_ups_spec (us : list (SubstateId * Substate)) (ledger : Ledger) :
  NoDup us.*1 → Forall (λ u, ledger !! u.1 = None) us →
  ∃ ledger', fold_opt apply_up ledger us = Some ledger' ∧
    (∀ id x, (id, x) ∈ us → ledger' !! id = Some x) ∧
    (∀ id, id ∉ us.*1 → ledger' !! id = ledger !! id).
Proof.
  revert ledger. induction us as [|[id x] us IH]; intros ledger Hn Hv; csimpl in *.
  { exists ledger. split_and!; [done|set_solver|done]. }
  apply list.NoDup_cons in Hn as [Hid Hn]. apply Forall_cons_iff in Hv as [Hv Hvs]. simpl in Hv.
  unfold apply_up at 1. simpl. rewrite Hv.
  destruct (IH (<[id := x]> ledger)) as (ledger' & -> & Hin & Hout); [done| |].
  { apply list.Forall_forall. intros [id' x'] Hu. simpl.
    rewrite lookup_insert_ne; [by apply (proj1 (list.Forall_forall _ _) Hvs (id', x'))|].
    intros <-. apply Hid, list_elem_of_fmap. by exists (id, x'). }
  exists ledger'. split_and!; [done| |].
  - intros id' x' [[= -> ->]|Hu]%elem_of_cons; [|by apply Hin].
    by rewrite Hout, lookup_insert_eq by done.
  - intros id' [Hne ?]%not_elem_of_cons. rewrite Hout by done. by rewrite lookup_insert_ne.
Qed.

Section diff.
Context (st : WorkingStateStore).

Lemma get_unmodified_ledger (id : SubstateId) :
  store_wf st → get_unmodified_substate st id = ok_or (state_store st !! id) (SubstateNotFound id).
Proof.
  intros Hwf. unfold get_unmodified_substate.
  destruct (loaded_substates st !! id) as [x|] eqn:Hl; [|done].
  by rewrite (wf_loaded st Hwf _ _ Hl).
Qed.

Lemma fold_diff_substates (ps : list (SubstateId * SubstateValue)) (d : SubstateDiff) :
  store_wf st →
  Forall (λ p, ∀ x, state_store st !! p.1 = Some x → 0 ≤ version x < U32_MAX) ps →
  fold_res (diff_substate st) d ps =
    Ok (MkSubstateDiff (up_substates d ++ omap (up_of (state_store st)) ps)
          (down_substates d ++ omap (down_of (state_store st)) ps.*1) (fee_withdrawals d)).
Proof.
  intros Hwf Hv. revert d. induction Hv as [|[id v] ps Hp Hv IH]; intros d; csimpl.
  { rewrite !app_nil_r. by destruct d. }
  simpl in Hp. rewrite get_unmodified_ledger by done. unfold up_of at 1, down_of at 1. simpl.
  destruct (state_store st !! id) as [x|] eqn:Hx; simpl.
  - fold (is_empty_pool v). destruct (is_empty_pool v); simpl.
    + rewrite IH. simpl. by rewrite <- app_assoc.
    + specialize (Hp x eq_refl). unfold u32_add, u32_checked_add.
      rewrite uint_checked_in by lia. simpl. rewrite IH. simpl. by rewrite <- !app_assoc.
  - rewrite IH. simpl. by rewrite <- app_assoc.
Qed.

Lemma fold_diff_downed (us : list UtxoAddress) (d : SubstateDiff) :
  store_wf st → Forall (λ a, is_Some (state_store st !! SidUtxo a)) us →
  fold_res (diff_downed_utxo st) d us =
    Ok (MkSubstateDiff (up_substates d)
          (down_substates d ++ omap (down_of (state_store st)) (SidUtxo <$> us))
          (fee_withdrawals d)).
Proof.
  intros Hwf Hu. revert d. induction Hu as [|a us [x Hx] Hu IH]; intros d; csimpl.
  { rewrite app_nil_r. by destruct d. }
  unfold diff_downed_utxo at 1. rewrite get_unmodified_ledger by done.
  unfold down_of at 1. rewrite Hx. simpl. rewrite IH. simpl. by rewrite <- app_assoc.
Qed.
End diff.

(** The diff that was generated, in terms of the ledger: the substates to persist are
    not cached, and a cached one has the version of the ledger. *)
Section exact.
Context (st : WorkingStateStore).

Lemma diff_substates_exact (ps : list (SubstateId * SubstateValue)) (d d' : SubstateDiff) :
  (∀ id, id ∈ ps.*1 → loaded_substates st !! id = None) →
  fold_res (diff_substate st) d ps = Ok d' →
  d' = MkSubstateDiff (up_substates d ++ omap (up_of (state_store st)) ps)
         (down_substates d ++ omap (down_of (state_store st)) ps.*1) (fee_withdrawals d).
Proof.
  revert d. induction ps as [|[id v] ps IH]; intros d Hl H; csimpl in *.
  { injection H as <-. rewrite !app_nil_r. by destruct d. }
  apply res_bind_Ok in H as (d1 & H1 & H). apply IH in H as ->; [|set_solver].
  unfold get_unmodified_substate in H1. rewrite Hl in H1 by set_solver.
  unfold up_of at 2, down_of at 2. simpl. fold (is_empty_pool v) in H1.
  destruct (state_store st !! id) as [x|]; simpl in H1.
  - destruct (is_empty_pool v); simpl in *; [injection H1 as <-; simpl; by rewrite <- app_assoc|].
    apply res_bind_Ok in H1 as (n & Hn & [= <-]). simpl. rewrite <- !app_assoc.
    unfold u32_add, u32_checked_add, expect in Hn. destruct (uint_checked _ _) as [k|] eqn:Hk; [|done].
    injection Hn as <-. apply uint_checked_Some in Hk as [-> _]. done.
  - injection H1 as <-. simpl. by rewrite <- !app_assoc.
Qed.
Lemma diff_downed_exact (us : list UtxoAddress) (d d' : SubstateDiff) :
  (∀ id x, loaded_substates st !! id = Some x → version <$> state_store st !! id = Some (version x)) →
  fold_res (diff_downed_utxo st) d us = Ok d' →
  d' = MkSubstateDiff (up_substates d)
         (down_substates d ++ omap (down_of (state_store st)) (SidUtxo <$> us)) (fee_withdrawals d) ∧
  ∀ a, a ∈ us → is_Some (state_store st !! SidUtxo a).
Proof.
  intros Hl. revert d. induction us as [|a us IH]; intros d H; csimpl in *.
  { injection H as <-. rewrite app_nil_r. split; [by destruct d|set_solver]. }
  apply res_bind_Ok in H as (d1 & H1 & H). apply IH in H as [-> Hin].
  apply res_bind_Ok in H1 as (x & Hx & [= <-]). simpl.
  assert (version <$> state_store st !! SidUtxo a = Some (version x)) as Hv.
  { unfold get_unmodified_substate in Hx. destruct (loaded_substates st !! SidUtxo a) as [y|] eqn:Hy.
    - injection Hx as <-. by apply Hl.
    - destruct (state_store st !! SidUtxo a); simplify_eq/=. done. }
  unfold down_of at 2. destruct (state_store st !! SidUtxo a) as [y|] eqn:Hy; simplify_eq/=.
  rewrite <- app_assoc, Hv. split; [done|]. intros b [->|Hb]%elem_of_cons; [by eauto|by apply Hin].
Qed.
End exact.

Lemma omap_keys {V U : Type} (f : SubstateId * V → option (SubstateId * U))
    (l : list (SubstateId * V)) :
  (∀ p q, f p = Some q → q.1 = p.1) → (omap f l).*1 `sublist_of` l.*1.
Proof.
  intros Hf. induction l as [|p l IH]; csimpl; [done|].
  destruct (f p) as [q|] eqn:Hq; csimpl; [|by apply sublist_cons].
  rewrite (Hf _ _ Hq). by apply sublist_skip.
Qed.

Lemma down_of_keys (ledger : Ledger) (ids : list SubstateId) :
  (omap (down_of ledger) ids).*1 `sublist_of` ids.
Proof.
  induction ids as [|id ids IH]; csimpl; [done|]. unfold down_of at 1.
  destruct (ledger !! id); csimpl; [by apply sublist_skip|by apply sublist_cons].
Qed.

Lemma elem_of_down_keys (ledger : Ledger) (ids : list SubstateId) (id : SubstateId) :
  id ∈ (omap (down_of ledger) ids).*1 ↔ id ∈ ids ∧ is_Some (ledger !! id).
Proof.
  rewrite list_elem_of_fmap. split.
  - intros ([id' v] & -> & (id'' & Hin & Hd)%list_elem_of_omap). unfold down_of in Hd.
    destruct (ledger !! id'') eqn:Hx; simplify_eq/=. split; [done|]. rewrite Hx. eauto.
  - intros [Hin [x Hx]]. exists (id, version x). split; [done|].
    apply list_elem_of_omap. exists id. split; [done|]. unfold down_of. by rewrite Hx.
Qed.

Lemma up_of_key (ledger : Ledger) p q : up_of ledger p = Some q → q.1 = p.1.
Proof. unfold up_of. destruct (ledger !! p.1), (is_empty_pool p.2); naive_solver. Qed.

(** The substates to persist and the downed UTXOs name different addresses. *)
Lemma diff_keys_NoDup (st : WorkingStateStore) :
  store_wf st → NoDup (downed_utxos st) →
  NoDup ((new_substates st).*1 ++ (SidUtxo <$> downed_utxos st)).
Proof.
  intros Hwf Hd. apply list.NoDup_app. split_and!.
  - apply (wf_new st Hwf).
  - intros id Hid (a & -> & Ha)%list_elem_of_fmap.
    apply (wf_downed st Hwf) in Ha as (Hn & _). by apply im_get_None_keys in Hn.
  - by apply NoDup_fmap_2; [intros ?? [=]|].
Qed.

(** What the view becomes on the ledger: an emptied fee pool is not put up. *)
Definition committed (st : WorkingStateStore) (id : SubstateId) : option SubstateValue :=
  match view st id with
  | Some v =>
      if is_empty_pool v && im_contains id (new_substates st) && ledger_exists (state_store st) id
      then None else Some v
  | None => None
  end.

Lemma im_get_elem_NoDup {V : Type} (m : list (SubstateId * V)) id v :
  NoDup m.*1 → (id, v) ∈ m → im_get id m = Some v.
Proof.
  induction m as [|[id' v'] m IH]; csimpl; [set_solver|].
  intros [Hid Hm]%list.NoDup_cons [[= -> ->]|Hin]%elem_of_cons; [by rewrite decide_True|].
  rewrite decide_False; [by apply IH|]. intros ->. apply Hid, list_elem_of_fmap.
  by exists (id', v).
Qed.

(** The substate at an address after the diff. *)
Definition committed_substate (st : WorkingStateStore) (id : SubstateId) : option Substate :=
  match im_get id (new_substates st) with
  | Some v => snd <$> up_of (state_store st) (id, v)
  | None => if downed st id then None else state_store st !! id
  end.

Lemma committed_substate_value (st : WorkingStateStore) (id : SubstateId) :
  store_wf st → substate_value <$> committed_substate st id = committed st id.
Proof.
  intros Hwf. unfold committed_substate, committed, view, up_of, im_contains, ledger_exists.
  destruct (im_get id (new_substates st)) as [v|] eqn:Hn; simpl.
  - by destruct (state_store st !! id), (is_empty_pool v).
  - destruct (loaded_substates st !! id) as [x|] eqn:Hl.
    + rewrite (wf_loaded st Hwf _ _ Hl), andb_false_r.
      destruct (downed st id) eqn:Hd; [|done].
      unfold downed in Hd. destruct id; try done. apply bool_decide_eq_true in Hd.
      apply (wf_downed st Hwf) in Hd as (_ & ? & _). congruence.
    + destruct (downed st id), (state_store st !! id); simpl; try done. by rewrite andb_false_r.
Qed.

(** ** What a diff leads to *)
Section diff_theorem.
Context (ledger : Ledger) (persist : list (SubstateId * SubstateValue)) (spent : list UtxoAddress).
Context (receipt_id : SubstateId) (receipt : Substate).
Hypothesis Hnew : NoDup persist.*1.
Hypothesis Hrledger : ledger !! receipt_id = None.
Hypothesis Hrnew : im_get receipt_id persist = None.

Definition diff_ups : list (SubstateId * Substate) :=
  omap (up_of ledger) persist ++ [(receipt_id, receipt)].
Definition diff_downs : list (SubstateId * Z) :=
  omap (down_of ledger) (persist.*1 ++ (SidUtxo <$> spent)).
(** The substate at an address after the diff. *)
Definition after_diff (id : SubstateId) : option Substate :=
  match im_get id persist with
  | Some v => snd <$> up_of ledger (id, v)
  | None =>
      match id with
      | SidUtxo a => if bool_decide (a ∈ spent) then None else ledger !! id
      | _ => ledger !! id
      end
  end.

Lemma diff_downs_version id v : (id, v) ∈ diff_downs → version <$> ledger !! id = Some v.
Proof.
  intros (id' & _ & Hx)%list_elem_of_omap. unfold down_of in Hx.
  destruct (ledger !! id') eqn:Hl; simplify_eq/=. by rewrite Hl.
Qed.
Lemma diff_ups_version id x :
  (id, x) ∈ diff_ups →
  version x = match ledger !! id with Some old => version old + 1 | None => version x end ∧
  (ledger !! id = None → id ≠ receipt_id → version x = 0).
Proof.
  intros [([id' v] & _ & Hu)%list_elem_of_omap|[= -> ->]%list_elem_of_singleton]%elem_of_app.
  - pose proof (up_of_key _ _ _ Hu) as Hk. simpl in Hk. subst id'. unfold up_of in Hu. simpl in Hu.
    destruct (ledger !! id), (is_empty_pool v); simplify_eq/=; done.
  - by rewrite Hrledger.
Qed.
Lemma up_keys_sublist : (omap (up_of ledger) persist).*1 `sublist_of` persist.*1.
Proof. apply omap_keys, up_of_key. Qed.
Lemma elem_of_diff_ups_keys (id : SubstateId) :
  id ≠ receipt_id → id ∈ diff_ups.*1 →
  ∃ v x, im_get id persist = Some v ∧ up_of ledger (id, v) = Some (id, x).
Proof.
  unfold diff_ups. rewrite fmap_app, elem_of_app. csimpl. rewrite list_elem_of_singleton.
  intros Hne [Hk|?]; [|done].
  apply list_elem_of_fmap in Hk as ([id' x] & -> & ([id2 v] & Hin & Hu)%list_elem_of_omap).
  pose proof (up_of_key _ _ _ Hu) as Hk. simpl in Hk. subst. simpl in *.
  exists v, x. split; [|done]. by apply im_get_elem_NoDup.
Qed.

Lemma diff_ups_ok (mid : Ledger) :
  (∀ id, mid !! id = if decide (id ∈ diff_downs.*1) then None else ledger !! id) →
  NoDup diff_ups.*1 ∧ Forall (λ u, mid !! u.1 = None) diff_ups.
Proof.
  intros Hmid. unfold diff_ups. split.
  - rewrite fmap_app. apply list.NoDup_app. split_and!.
    + eapply sublist_NoDup; [exact Hnew|apply up_keys_sublist].
    + intros id Hid. eapply elem_of_sublist in Hid; [|apply up_keys_sublist].
      apply im_get_None_keys in Hrnew. csimpl. set_solver.
    + apply NoDup_singleton.
  - apply list.Forall_forall. intros [id x] [Hu|Hu]%elem_of_app; simpl; rewrite Hmid.
    + destruct (decide (id ∈ diff_downs.*1)) as [|Hnd]; [done|].
      destruct (ledger !! id) eqn:Hl; [|done]. exfalso. apply Hnd, elem_of_down_keys.
      split; [|by eauto]. apply elem_of_app. left. eapply elem_of_sublist; [|apply up_keys_sublist].
      apply list_elem_of_fmap. by exists (id, x).
    + apply list_elem_of_singleton in Hu as [= -> ->]. by destruct (decide _).
Qed.

(** The diff applies when it takes no address down twice, and this is what it leads
    to. *)
Lemma apply_diff_lookup (ws : list ValidatorFeeWithdrawal) :
  NoDup diff_downs.*1 → (∀ a, a ∈ spent → is_Some (ledger !! SidUtxo a)) →
  ∃ ledger', apply_diff (MkSubstateDiff diff_ups diff_downs ws) ledger = Some ledger' ∧
    ledger' !! receipt_id = Some receipt ∧
    ∀ id, id ≠ receipt_id → ledger' !! id = after_diff id.
Proof.
  intros Hdn Hspent.
  destruct (apply_downs_spec diff_downs ledger Hdn) as (mid & Hmid & Hmidl).
  { apply list.Forall_forall. intros [id v]. apply diff_downs_version. }
  destruct (diff_ups_ok mid Hmidl) as [Hun Huv].
  destruct (apply_ups_spec _ _ Hun Huv) as (ledger' & Hup & Hin & Hout).
  exists ledger'. split_and!.
  - unfold apply_diff. simpl. by rewrite Hmid.
  - apply Hin, elem_of_app. right. by left.
  - intros id Hne. unfold after_diff. destruct (im_get id persist) as [v|] eqn:Hn.
    + pose proof (im_get_Some_elem _ _ _ Hn) as Hnin.
      destruct (up_of ledger (id, v)) as [[id' x]|] eqn:Hu; simpl.
      * pose proof (up_of_key _ _ _ Hu) as Hk. simpl in Hk. subst id'.
        apply Hin, elem_of_app. left. apply list_elem_of_omap. eauto.
      * rewrite Hout, Hmidl, decide_True; [done|..].
        -- apply elem_of_down_keys. split.
           ++ apply elem_of_app. left. apply list_elem_of_fmap. by exists (id, v).
           ++ unfold up_of in Hu. simpl in Hu. destruct (ledger !! id); [eauto|done].
        -- intros (v' & x & ? & ?)%elem_of_diff_ups_keys; [congruence|done].
    + rewrite Hout, Hmidl; [|intros (v' & x & ? & ?)%elem_of_diff_ups_keys; [congruence|done]].
      assert (id ∈ diff_downs.*1 ↔ ∃ a, id = SidUtxo a ∧ a ∈ spent) as Hiff.
      { unfold diff_downs. rewrite elem_of_down_keys, elem_of_app. apply im_get_None_keys in Hn. split.
        - intros [[?|(a & -> & Ha)%list_elem_of_fmap] _]; [done|by eauto].
        - intros (a & -> & Ha). split; [right; by apply list_elem_of_fmap_2|by apply Hspent]. }
      destruct (decide (id ∈ diff_downs.*1)) as [(a & -> & Ha)%Hiff|Hnd].
      * by rewrite bool_decide_true.
      * destruct id; try done. rewrite bool_decide_false; [done|]. intros Ha. apply Hnd, Hiff. eauto.
Qed.
End diff_theorem.

(** In a well-formed store no address is taken down twice, and the diff leads to the
    view. *)
Section store_diff.
Context (st : WorkingStateStore) (persist : list (SubstateId * SubstateValue)).
Hypothesis Hwf : store_wf st.
Hypothesis Hdowned : NoDup (downed_utxos st).
Hypothesis Hkeys : persist.*1 = (new_substates st).*1.

Lemma same_keys id : is_Some (im_get id persist) ↔ is_Some (im_get id (new_substates st)).
Proof.
  rewrite <- !not_eq_None_Some, !im_get_None_keys, Hkeys. done.
Qed.
Lemma store_downs_NoDup : NoDup (diff_downs (state_store st) persist (downed_utxos st)).*1.
Proof.
  eapply sublist_NoDup; [by apply (diff_keys_NoDup st)|]. unfold diff_downs. rewrite Hkeys.
  apply down_of_keys.
Qed.
Lemma after_diff_view id :
  substate_value <$> after_diff (state_store st) persist (downed_utxos st) id =
    committed (set_new persist st) id.
Proof.
  unfold after_diff, committed, view, up_of, im_contains, ledger_exists. simpl.
  destruct (im_get id persist) as [v|] eqn:Hn; simpl.
  { by destruct (state_store st !! id), (is_empty_pool v). }
  change (downed (set_new persist st) id) with (downed st id).
  destruct (loaded_substates st !! id) as [x|] eqn:Hl.
  - rewrite andb_false_r. pose proof (held_not_downed st id Hwf ltac:(eauto)) as Hd.
    rewrite (wf_loaded st Hwf _ _ Hl). unfold downed in Hd. destruct id; try done. by rewrite Hd.
  - unfold downed. destruct id; try (destruct (state_store st !! _); simpl; by rewrite ?andb_false_r).
    destruct (bool_decide _); [done|]. destruct (state_store st !! _); simpl; by rewrite ?andb_false_r.
Qed.
End store_diff.
