(* ===== verification/StealthSpend.v ===== *)
(** * Spending stealth outputs

    What [WorkingState::spend_stealth_utxos] and
    [WorkingState::execute_stealth_transfer] guarantee: a call spends no output
    twice, every spent output existed, was neither frozen nor burnt and was
    released by its owner, spent outputs are gone unless they are outputs of the
    ledger that the transaction rewrote before, and a transfer conserves value
    between the spent outputs, the bucket that pays, the new outputs and the bucket
    returned. *)
From stdpp Require Import base gmap list strings numbers.
From S2P Require Import Prelude Bor BTree Ids IndexedValue Amount Crypto Confidential.
From S2P Require Import ResourceContainer FreezeFlags Proof Bucket Vault AccessRules RuntimeError.
From S2P Require Import Auth Locking Fees Substate Stealth FeeState Scope StateStore WorkingState.
Open Scope Z_scope.

Definition utxo_of (resource_address : ResourceAddress) (input : StealthInput) : SubstateId :=
  SidUtxo (MkUtxoAddress resource_address (si_commitment input)).

Section spend.
Context `{Ii : !I192} `{Ic : !Crypto}.

Definition spendable (st : WorkingStateStore) (resource_address : ResourceAddress)
    (input : StealthInput) : Prop :=
  ∃ u out, view st (utxo_of resource_address input) = Some (SvUtxo u) ∧
    is_frozen u = false ∧ utxo_output u = Some out ∧
    verify_utxo_spend_permission out input = Ok tt.

(** What one spend does. *)
Record spends (st st' : WorkingStateStore) (id : SubstateId) : Prop := {
  sp_wf : store_wf st';
  sp_view : view_set st st' id (after_spend st id);
  sp_counter : id_counter (locked_substates st') = id_counter (locked_substates st) + 1;
  sp_unlocked : locks (locked_substates st) !! id ≠ Some StWrite;
  sp_locked : locks (locked_substates st') !! id = Some StWrite;
  sp_keeps id' : locks (locked_substates st) !! id' = Some StWrite →
    locks (locked_substates st') !! id' = Some StWrite;
  sp_after id' : id' ≠ id → after_spend st' id' = after_spend st id';
}.

Lemma spend_stealth_utxo_spec (r : ResourceAddress) (input : StealthInput) (s s' : WorkingState) :
  store_wf (store s) → id_counter (locked_substates (store s)) < U32_MAX →
  spend_stealth_utxo r input s = (Ok tt, s') →
  spendable (store s) r input ∧ spends (store s) (store s') (utxo_of r input).
Proof.
  intros Hwf Hc. unfold spend_stealth_utxo. fold (utxo_of r input).
  intros (lid & s1 & Hlock & H)%bind_Ok. unfold on_store in Hlock.
  apply zoom_Ok in Hlock as (st1 & Hlock & ->).
  pose proof (store_try_lock_spec (store s) (utxo_of r input) LockWrite Hwf Hc) as Hspec.
  rewrite Hlock in Hspec. destruct Hspec as (Hwf1 & Hv1 & Hn1 & Hs1 & _ & v & Hview & _ & Hlk &
    Hids & Hget & Hnw). specialize (Hget eq_refl).
  destruct (try_lock_Ok _ _ _ _ _ (wf_locks _ Hwf) Hc Hlk) as (Hcnt & Hkeep & Hw).
  apply bind_Ok in H as (u & s2 & Hdown & H). unfold on_store in Hdown.
  apply zoom_Ok in Hdown as (st2 & Hdown & ->). simpl in Hdown.
  pose proof (down_utxo_spec st1 lid Hwf1) as Hspec. rewrite Hdown in Hspec.
  destruct Hspec as (Hwf2 & a & Ha & Hu & Hset & _).
  rewrite Hget in Ha. injection Ha as Ha. rewrite <- Ha in *.
  pose proof (down_utxo_frame st1 lid Hwf1) as (Hs2 & Hl2 & Hn2). rewrite Hdown in *. simpl in *.
  destruct (is_frozen u) eqn:Hf; [done|]. apply bind_Ok in H as (out & s3 & Ho & H). inv_ok.
  split.
  - exists u, out. split_and!; try done. by rewrite <- Hv1.
  - split; simpl; try done.
    + intros id. fold (utxo_of r input) in Hset. rewrite Hset. case_decide; [|apply Hv1].
      unfold after_spend. by rewrite Hn1, Hs1.
    + rewrite Hl2, Hcnt. done.
    + rewrite Hl2. by apply Hw.
    + intros id Hid. rewrite Hl2. by apply Hkeep.
    + intros id Hne. unfold after_spend, im_contains. rewrite Hs2, Hs1, Hn2 by congruence.
      by rewrite Hn1.
Qed.

Lemma view_set_ne (st st' : WorkingStateStore) id v id' :
  view_set st st' id v → id' ≠ id → view st' id' = view st id'.
Proof. intros Hs Hne. rewrite Hs. by rewrite decide_False. Qed.

(** The whole loop. *)
Lemma spend_stealth_utxos_all (r : ResourceAddress) (inputs : list StealthInput)
    (s s' : WorkingState) :
  store_wf (store s) →
  id_counter (locked_substates (store s)) + Z.of_nat (length inputs) ≤ U32_MAX →
  for_each inputs (spend_stealth_utxo r) s = (Ok tt, s') →
  NoDup (utxo_of r <$> inputs) ∧ Forall (spendable (store s) r) inputs ∧
  Forall (λ i, locks (locked_substates (store s)) !! utxo_of r i ≠ Some StWrite) inputs ∧
  store_wf (store s') ∧
  (∀ id, view (store s') id =
     if decide (id ∈ utxo_of r <$> inputs) then after_spend (store s) id else view (store s) id).
Proof.
  revert s. induction inputs as [|i inputs IH]; intros s Hwf Hc Hrun; csimpl in *.
  { unfold ret in Hrun. simplify_eq. split_and!; [constructor|constructor|constructor|done|].
    intros id. repeat case_decide; set_solver. }
  apply bind_Ok in Hrun as ([] & s1 & H1 & Hrun).
  apply spend_stealth_utxo_spec in H1 as [Hsp Hspent]; [|done|lia].
  destruct (IH s1 (sp_wf _ _ _ Hspent)) as (Hnd & Hall & Hfree & Hwf' & Hview); [|done|].
  { rewrite (sp_counter _ _ _ Hspent). lia. }
  assert (∀ j, j ∈ inputs → utxo_of r j ≠ utxo_of r i) as Hne.
  { intros j Hj E. apply (proj1 (list.Forall_forall _ _) Hfree j Hj). rewrite E.
    apply (sp_locked _ _ _ Hspent). }
  split_and!; [| | |done|].
  - constructor; [|done]. intros (j & E & Hj)%list_elem_of_fmap. by apply (Hne j).
  - constructor; [done|]. apply list.Forall_forall. intros j Hj.
    destruct (proj1 (list.Forall_forall _ _) Hall j Hj) as (u & out & Hv & ?).
    exists u, out. split; [|done]. rewrite <- Hv. symmetry.
    eapply view_set_ne; [apply (sp_view _ _ _ Hspent)|by apply Hne].
  - constructor; [apply (sp_unlocked _ _ _ Hspent)|]. apply list.Forall_forall. intros j Hj Hw.
    apply (proj1 (list.Forall_forall _ _) Hfree j Hj), (sp_keeps _ _ _ Hspent), Hw.
  - intros id. rewrite Hview, (sp_view _ _ _ Hspent id).
    destruct (decide (id ∈ utxo_of r <$> inputs)) as [(j & -> & Hj)%list_elem_of_fmap|Hni].
    + rewrite decide_True; [|right; by apply list_elem_of_fmap_2].
      by apply (sp_after _ _ _ Hspent), Hne.
    + repeat case_decide; set_solver.
Qed.

(** C31: spending a list of stealth inputs either fails or spends each of them
    exactly once: the inputs are distinct, and every one names a UTXO that is
    present, not frozen and not burnt, whose owner signed the spend.  Afterwards
    the UTXOs that were not written earlier in the transaction, and those that
    were created in it, are gone; one of the ledger that was rewritten earlier in
    the transaction is back with the ledger's value.  All other substates are as
    before. *)
Theorem no_double_spend (r : ResourceAddress) (stmt : StealthInputsStatement)
    (s s' : WorkingState) :
  store_wf (store s) →
  id_counter (locked_substates (store s)) + Z.of_nat (length (sis_inputs stmt)) ≤ U32_MAX →
  spend_stealth_utxos r stmt s = (Ok tt, s') →
  NoDup (si_commitment <$> sis_inputs stmt) ∧
  Forall (spendable (store s) r) (sis_inputs stmt) ∧
  store_wf (store s') ∧
  (∀ id, id ∉ utxo_of r <$> sis_inputs stmt → view (store s') id = view (store s) id) ∧
  (∀ id, id ∈ utxo_of r <$> sis_inputs stmt →
     view (store s') id =
       if im_contains id (new_substates (store s))
       then substate_value <$> state_store (store s) !! id else None).
Proof.
  intros Hwf Hc Hrun.
  destruct (spend_stealth_utxos_all r _ s s' Hwf Hc Hrun) as (Hnd & Hsp & _ & Hwf' & Hv).
  split_and!; try done.
  2: { intros id Hid. by rewrite Hv, decide_False. }
  2: { intros id Hid. by rewrite Hv, decide_True. }
  apply (NoDup_fmap_1 (λ c, SidUtxo (MkUtxoAddress r c))). by rewrite <- list_fmap_compose.
Qed.
End spend.

(** ** A transfer conserves value *)
Lemma preserves_on_store {A B : Type} (f : WorkingState → B) (m : M WorkingStateStore RuntimeError A) :
  (∀ st s, f (set_store st s) = f s) → preserves f (on_store m).
Proof. intros. by apply preserves_zoom. Qed.
Lemma preserves_on_scope {A B : Type} (f : WorkingState → B) (m : M CallScope RuntimeError A) :
  (∀ fs i s, f (set_frames fs i s) = f s) → preserves f (on_scope m).
Proof.
  intros Hf. apply preserves_zoom. intros c s. unfold set_current_call_scope.
  by destruct (call_frames s).
Qed.
#[export] Hint Resolve preserves_on_store preserves_on_scope : ootle.

Section transfer.
Context `{Ii : !I192} `{Ic : !Crypto} `{Il : !CryptoLaws} `{Cb : !Cbor}.

Lemma preserves_spend (r : ResourceAddress) (stmt : StealthInputsStatement) :
  preserves buckets (spend_stealth_utxos r stmt).
Proof.
  apply preserves_for_each. intros i. unfold spend_stealth_utxo.
  apply preserves_bind; [eauto with ootle|]. intros lid.
  apply preserves_bind; [eauto with ootle|]. intros u.
  destruct (is_frozen u); eauto with ootle.
Qed.

Lemma preserves_outputs (encoded_len : SubstateValue → option Z) (r : ResourceAddress)
    (outputs : list ValidatedStealthOutput) :
  preserves buckets (for_each outputs (new_stealth_output encoded_len r)).
Proof.
  apply preserves_for_each. intros o. unfold new_stealth_output, new_substate.
  apply preserves_bind; [apply preserves_lift|]. intros _.
  apply preserves_bind; eauto with ootle.
Qed.

(** The statement's output commits to [v]. *)
Definition statement_opens (output : StealthUnspentOutput) (v : Scalar) : Prop :=
  ∃ k, point_from_canonical_bytes (uo_commitment (suo_output output)) = Some (commit k v).

Lemma validated_outputs_open view_key os outs ws :
  Forall2 (λ o v, validate_stealth_output view_key o = Ok v) os outs →
  Forall2 statement_opens os ws → Forall2 output_opens outs ws.
Proof.
  intros Hso. revert ws. induction Hso as [|o v os outs Hov _ IH]; intros ws Hws.
  - apply Forall2_nil_inv_l in Hws as ->. constructor.
  - apply Forall2_cons_inv_l in Hws as (w & ws' & [k Hk] & Hws & ->).
    constructor; [|by apply IH]. unfold validate_stealth_output in Hov. rewrite Hk in Hov.
    simpl in Hov. inv_ok. by exists k.
Qed.

Lemma validate_transfer_outputs (transfer : StealthTransferStatement) view_key vt ws :
  validate_transfer transfer view_key = Ok vt →
  Forall2 statement_opens (sos_outputs (outputs_statement transfer)) ws →
  Forall2 output_opens (vst_outputs vt) ws ∧
  vst_revealed_output_amount vt = sos_revealed_output_amount (outputs_statement transfer).
Proof.
  unfold validate_transfer. intros Hv Hws.
  apply res_bind_Ok in Hv as (u & _ & Hv). apply res_bind_Ok in Hv as (outs & Hso & Hv).
  pose proof (validate_outputs_length _ _ _ Hso) as Hlen.
  assert (Forall2 output_opens outs ws) as Houts.
  { unfold validate_stealth_outputs_statement in Hso. apply res_bind_Ok in Hso as (? & _ & Hso).
    destruct (sos_outputs (outputs_statement transfer)) as [|o os].
    - apply Forall2_nil_inv_l in Hws as ->. simplify_eq. constructor.
    - apply collect_Ok in Hso. by eapply validated_outputs_open. }
  destruct (N.eqb_spec (sig_public_nonce (balance_proof transfer)) 0); [done|].
  apply res_bind_Ok in Hv as (proof & _ & Hv). case_step.
  - rewrite andb_true_iff, !bool_decide_eq_true in E. destruct E as [_ Ho].
    apply length_zero_iff_nil in Ho as ->. repeat (case_step; [done|]). by simplify_eq/=.
  - inv_ok. destruct (verify_raw_uniform _ _ _); [|done]. simpl in Hv. by simplify_eq/=.
Qed.

Definition paid_by (s : WorkingState) (bucket_id : option BucketId) : Z :=
  match bucket_id with
  | Some id => match buckets s !! id with Some b => bucket_amount b | None => 0 end
  | None => 0
  end.
Definition received (out : option ResourceContainer) : Z :=
  match out with Some c => amount c | None => 0 end.

Lemma take_bucket_Ok (id : BucketId) (b : Bucket) (s s' : WorkingState) :
  take_bucket id s = (Ok b, s') →
  buckets s !! id = Some b ∧ buckets s' = delete id (buckets s).
Proof.
  unfold take_bucket, get_bucket.
  destruct (negb (is_bucket_in_scope (current_call_scope s) id)); [done|].
  destruct (buckets s !! id) as [b'|]; [|done]. simpl.
  intros ([] & s1 & H1 & H)%bind_Ok. unfold modify in H1. simplify_eq.
  apply bind_Ok in H as ([] & s2 & H2 & H). apply bind_Ok in H as ([] & s3 & H3 & H).
  unfold ret in H. simplify_eq. split; [done|].
  apply (preserves_Ok buckets) in H2; [|eauto with ootle].
  apply (preserves_Ok buckets) in H3; [|eauto with ootle]. by rewrite H3, H2.
Qed.

(** Taking the bucket that pays and checking it against the statement. *)
Lemma payment_Ok (r : ResourceAddress) (revealed : Z) (bucket_id : option BucketId)
    (ob : option Bucket) (s s' : WorkingState) :
  0 ≤ revealed →
  match bucket_id with
  | Some id => let! b := take_bucket id in ret (Some b)
  | None => ret None
  end s = (Ok ob, s') →
  check_revealed_funds r revealed ob = Ok tt →
  paid_by s bucket_id = revealed ∧
  match bucket_id with
  | Some id => ∃ b, buckets s !! id = Some b ∧ bucket_resource_address b = r ∧
                    buckets s' = delete id (buckets s)
  | None => buckets s' = buckets s
  end.
Proof.
  intros Hnn. destruct bucket_id as [id|]; simpl.
  - intros (b & s1 & Hb & H)%bind_Ok. unfold ret in H. simplify_eq. unfold check_revealed_funds.
    apply take_bucket_Ok in Hb as [Hb Hs]. rewrite Hb.
    case_bool_decide as E1; [done|]. case_bool_decide as E2; [done|]. intros _.
    eauto.
  - intros [= <- <-]. simpl. unfold Amount.is_positive.
    destruct (Z.ltb_spec 0 revealed); [done|]. intros _. split; [lia|done].
Qed.

Lemma validate_transfer_nonneg (transfer : StealthTransferStatement) view_key vt :
  validate_transfer transfer view_key = Ok vt →
  0 ≤ sis_revealed_amount (inputs_statement transfer).
Proof.
  unfold validate_transfer. intros ([] & Hb & _)%res_bind_Ok.
  by apply basic_validations_Ok in Hb as (? & _).
Qed.

(** C18: a stealth transfer that is executed conserves value: the values of the
    spent outputs and the amount of the bucket that pays add up to the values of
    the new outputs and the amount of the bucket handed back.  The paying bucket
    holds the transferred resource and is consumed; what is handed back is of
    the same resource. *)
Theorem stealth_transfer_conserves (encoded_len : SubstateValue → option Z)
    (addr_ref : ResourceAddressRef) (statement : StealthTransferStatement) (bucket_id : option BucketId) (s s' : WorkingState)
    (out : option ResourceContainer) (vs ws : list Scalar) :
  i192_in (sis_revealed_amount (inputs_statement statement)) →
  i192_in (sos_revealed_output_amount (outputs_statement statement)) →
  Forall2 input_opens (sis_inputs (inputs_statement statement)) vs →
  Forall2 statement_opens (sos_outputs (outputs_statement statement)) ws →
  execute_stealth_transfer encoded_len addr_ref statement bucket_id s = (Ok out, s') →
  ∃ r, resolve_resource_address_ref s addr_ref = Ok r ∧
  scalar_add (scalar_sum vs) (scalar_of_Z (paid_by s bucket_id)) =
    scalar_add (scalar_sum ws) (scalar_of_Z (received out)) ∧
  0 ≤ paid_by s bucket_id ∧ 0 ≤ received out ∧
  match bucket_id with
  | Some id => ∃ b, buckets s !! id = Some b ∧ bucket_resource_address b = r ∧
                    buckets s' = delete id (buckets s)
  | None => buckets s' = buckets s
  end ∧
  match out with Some c => resource_address c = r | None => True end.
Proof.
  intros Hri Hro Hin Hout. unfold execute_stealth_transfer.
  intros ([] & s0 & H0 & H)%bind_Ok. unfold lift in H0. injection H0 as _ <-.
  apply bind_Ok in H as (r & s0 & Hr0 & H). injection Hr0 as Hr0 <-. exists r. split; [done|].
  unfold transfer_stealth in H.
  apply bind_Ok in H as (lock & s1 & Hlock & H).
  apply (preserves_Ok buckets) in Hlock; [|unfold lock_substate; eauto with ootle].
  apply bind_Ok in H as (s1' & s1'' & Hg & H). injection Hg as <- <-.
  apply bind_Ok in H as ([] & s2 & Hauth & H). injection Hauth as _ <-.
  apply bind_Ok in H as (ob & s3 & Hpay & H).
  apply bind_Ok in H as ([] & s3' & Hcheck & H). injection Hcheck as Hcheck <-.
  apply bind_Ok in H as ([] & s4 & Hspend & H).
  apply (preserves_Ok buckets _ _ _ _ (preserves_spend _ _)) in Hspend.
  apply bind_Ok in H as (s4' & s4'' & Hg & H). injection Hg as <- <-.
  apply bind_Ok in H as (resource & s5 & Hres & H). injection Hres as _ <-.
  apply bind_Ok in H as (view_key & s5 & Hvk & H). injection Hvk as _ <-.
  apply bind_Ok in H as (vt & s5 & Hvt & H). injection Hvt as Hvt <-.
  apply res_map_err_Ok in Hvt.
  apply bind_Ok in H as ([] & s6 & Houts & H).
  apply (preserves_Ok buckets _ _ _ _ (preserves_outputs _ _ _)) in Houts.
  apply bind_Ok in H as ([] & s7 & Hunlock & H).
  apply (preserves_Ok buckets) in Hunlock; [|unfold unlock_substate; eauto with ootle].
  destruct (payment_Ok _ _ _ _ _ _ (validate_transfer_nonneg _ _ _ Hvt) Hpay Hcheck) as [Hpaid Hb].
  assert (paid_by s bucket_id = sis_revealed_amount (inputs_statement statement)) as Hp
    by (rewrite <- Hpaid; unfold paid_by; by rewrite Hlock).
  destruct (validate_transfer_outputs _ _ _ _ Hvt Hout) as [Hopen Hrev].
  destruct (validate_transfer_balance _ _ _ _ _ Hri Hro Hvt Hin Hopen) as (Hi & Ho & Hbal).
  assert (received out = vst_revealed_output_amount vt ∧ s' = s7 ∧
    match out with Some c => resource_address c = r | None => True end) as (Hrec & -> & Hr).
  { unfold Amount.is_zero in H. destruct (Z.eqb_spec (vst_revealed_output_amount vt) 0) as [->|].
    - by injection H as <- <-.
    - apply bind_Ok in H as (c & s8 & Hc & H). injection Hc as Hc <-. injection H as <- <-.
      unfold stealth in Hc. rewrite is_non_negative_true in Hc by done. by injection Hc as <-. }
  rewrite Hp, Hrec. split_and!; [done|done|done| |done].
  rewrite Hunlock, Houts, Hspend, <- Hlock. by destruct bucket_id.
Qed.
End transfer.

(** ** Witnesses: the transfer of [Stealth.v], paid from bucket 5 *)
Definition owned_utxo : SubstateValue :=
  SvUtxo (utxo_new (MkUtxoOutput (MkPrivateOutput 0 [] 0 None) 256 0)).
Definition stealth_resource : SubstateValue :=
  SvResource (resource_new RtStealth None OwnerNone
    (MkResourceAccessRules AllowAll AllowAll AllowAll AllowAll AllowAll AllowAll AllowAll AllowAll)
    ∅ None None 0 false).
Definition transfer_ledger : gmap SubstateId Substate :=
  {[ SidUtxo (MkUtxoAddress 1 1797) := MkSubstate owned_utxo 0;
     SidResource 1 := MkSubstate stealth_resource 0 ]}.
Definition transfer_state : WorkingState :=
  set_buckets {[ 5%N := MkBucket 5 (Stealth 1 2 0) ]}
    (state_new transfer_ledger None (add_bucket_to_scope 5 scope_new) 0).

Lemma transfer_ledger_typed id x : transfer_ledger !! id = Some x → typed id (substate_value x).
Proof.
  unfold transfer_ledger. intros [[<- <-]|[_ [<- <-]%lookup_singleton_Some]]%lookup_insert_Some;
    simpl; eauto.
Qed.

Definition transfer_spent : WorkingState :=
  (@spend_stealth_utxos ideal_crypto 1 (inputs_statement example_transfer)
     transfer_state).2.

Lemma no_double_spend_witness :
  view (store transfer_spent) (SidUtxo (MkUtxoAddress 1 1797)) = None.
Proof.
  destruct (@no_double_spend ideal_crypto 1 (inputs_statement example_transfer)
    transfer_state transfer_spent) as (_ & _ & _ & _ & Hv).
  - apply store_new_wf, transfer_ledger_typed.
  - vm_compute. discriminate.
  - vm_compute. reflexivity.
  - rewrite Hv; [reflexivity|by left].
Defined.

Lemma stealth_transfer_conserves_witness :
  let run := @execute_stealth_transfer i192_panicking ideal_crypto int_cbor (λ _, Some 0) (RefAddress 1)
               example_transfer (Some 5%N) transfer_state in
  run.1 = Ok (Some (Stealth 1 3 0)) ∧
  @scalar_add ideal_crypto ideal_crypto_laws (5 + 0) 2 = (4 + 0) + 3.
Proof.
  simpl. split; [vm_compute; reflexivity|].
  destruct (@stealth_transfer_conserves i192_panicking ideal_crypto ideal_crypto_laws int_cbor
    (λ _, Some 0) (RefAddress 1) example_transfer (Some 5%N) transfer_state
    (@execute_stealth_transfer i192_panicking ideal_crypto int_cbor (λ _, Some 0) (RefAddress 1)
       example_transfer (Some 5%N) transfer_state).2
    (Some (Stealth 1 3 0)) [5] [4]) as (_ & _ & Hbal & _).
  - vm_compute. by split.
  - vm_compute. by split.
  - constructor; [by exists 7|constructor].
  - constructor; [by exists 3|constructor].
  - vm_compute. reflexivity.
  - exact Hbal.
Defined.
