(* ===== verification/WorkingStateProps.v ===== *)
(** * Properties of the working state

    Component state and finalization of
    [engine/src/runtime/working_state.rs]. *)
From stdpp Require Import base gmap list strings numbers.
From S2P Require Import Prelude Bor BTree Ids IndexedValue Amount Crypto Confidential.
From S2P Require Import ResourceContainer FreezeFlags Proof Bucket Vault AccessRules RuntimeError.
From S2P Require Import Auth Locking Fees Substate Stealth FeeState Scope StateStore WorkingState.
Open Scope Z_scope.

(** ** Checks over lists *)
Lemma check_each_Ok {A : Type} (xs : list A) (f : A → res RuntimeError unit) :
  check_each xs f = Ok tt ↔ Forall (λ x, f x = Ok tt) xs.
Proof.
  unfold check_each. induction xs as [|x xs IH] using rev_ind; simpl; [done|].
  rewrite foldl_app, Forall_app, Forall_singleton. simpl. rewrite <- IH.
  destruct (foldl _ _ _) as [[]| |]; simpl; naive_solver.
Qed.

Lemma check_duplicates_Ok (seen vaults : list VaultId) :
  check_duplicates seen vaults = Ok tt ↔ NoDup vaults ∧ (∀ v, v ∈ vaults → v ∉ seen).
Proof.
  revert seen. induction vaults as [|v vaults IH]; intros seen; simpl.
  - split; [|done]. intros _. split; [constructor|set_solver].
  - case_decide as E; [|rewrite IH]; rewrite list.NoDup_cons; set_solver.
Qed.

(** ** Component state *)
Lemma elem_of_diff_vec {A : Type} `{EqDecision A} (a b : list A) (x : A) :
  x ∈ diff_vec a b ↔ x ∈ a ∧ x ∉ b.
Proof. unfold diff_vec. rewrite list_elem_of_filter. naive_solver. Qed.

Lemma check_in_scope_vaults (s : WorkingState) (value : IndexedWellKnownTypes) (v : VaultId) :
  check_all_substates_in_scope s value = Ok tt → v ∈ vault_ids value →
  is_substate_in_scope (current_call_scope s) (SidVault v) = true ∨
  is_allocated s (SidVault v) = true.
Proof.
  unfold check_all_substates_in_scope. intros ([] & Hc & _)%res_bind_Ok Hv.
  rewrite check_each_Ok in Hc. apply vault_in_referenced in Hv.
  apply (proj1 (list.Forall_forall _ _) Hc (SidVault v)) in Hv as Hs. simpl in Hs. destruct (is_substate_in_scope _ _), (is_allocated _ _); auto. simpl in Hs.
  by destruct (negb _).
Qed.

(** a component state that is accepted keeps the vaults it had, names no
    vault twice, and every vault it adds is in the scope of the call or an
    allocated address, so a component can neither drop a vault nor adopt one
    that it was not given. *)
Theorem component_state_keeps_vaults (previous_state : option IndexedWellKnownTypes)
    (next_state : IndexedWellKnownTypes) (s s' : WorkingState) :
  validate_component_state previous_state next_state s = (Ok tt, s') →
  NoDup (vault_ids next_state) ∧
  (∀ prev v, previous_state = Some prev → v ∈ vault_ids prev → v ∈ vault_ids next_state) ∧
  (∀ v, v ∈ vault_ids next_state →
     (∃ prev, previous_state = Some prev ∧ v ∈ vault_ids prev) ∨
     is_substate_in_scope (current_call_scope s) (SidVault v) = true ∨
     is_allocated s (SidVault v) = true).
Proof.
  unfold validate_component_state. intros ([] & s0 & H0 & H)%bind_Ok. injection H0 as H0 <-.
  apply bind_Ok in H as ([] & s1 & H1 & H). injection H1 as H1 <-.
  apply bind_Ok in H as ([] & s2 & H2 & H). injection H2 as H2 <-.
  apply check_duplicates_Ok in H1 as [Hnd _]. split_and!; [done| |].
  - intros prev v -> Hv. rewrite check_each_Ok in H0.
    apply (proj1 (list.Forall_forall _ _) H0 v) in Hv. by case_decide.
  - intros v Hv. destruct previous_state as [prev|].
    + destruct (decide (v ∈ vault_ids prev)) as [Hp|Hp]; [by eauto|]. right.
      eapply check_in_scope_vaults; [exact H2|]. simpl. by apply elem_of_diff_vec.
    + right. by eapply check_in_scope_vaults.
Qed.

Definition example_vaults (vs : list VaultId) : IndexedWellKnownTypes :=
  MkIndexed [] [] [] [] [] [] vs [] [] [] [] [] [] [].
Definition vault_scope (v : VaultId) : CallScope :=
  MkCallScope [SidVault v] [] [] None [] [] [] (auth_scope_new []).

Lemma component_state_keeps_vaults_witness :
  let s := state_new ∅ None (vault_scope 2) 0 in
  NoDup (vault_ids (example_vaults [1; 2]%N)) ∧
  ∃ s', validate_component_state (Some (example_vaults [1]%N)) (example_vaults [1; 2]%N) s = (Ok tt, s').
Proof.
  intros s. assert (∃ s', validate_component_state (Some (example_vaults [1]%N))
    (example_vaults [1; 2]%N) s = (Ok tt, s')) as [s' Hs].
  { eexists. vm_compute. reflexivity. }
  split; [|by exists s'].
  exact (proj1 (component_state_keeps_vaults _ _ _ _ Hs)).
Defined.

(** ** Finalization *)

Lemma check_vaults_Ok (vaults : list (VaultId * Vault)) :
  check_each vaults (λ p,
    if negb (Amount.is_zero (vault_locked_balance p.2))
    then Err (RuntimeCommitError (DanglingLockedValueInVault p.1 (vault_locked_balance p.2)))
    else Ok tt) = Ok tt ↔
  Forall (λ p, vault_locked_balance p.2 = 0) vaults.
Proof.
  rewrite check_each_Ok. apply Forall_iff. intros p. unfold Amount.is_zero.
  destruct (Z.eqb_spec (vault_locked_balance p.2) 0); naive_solver.
Qed.

(** a transaction is finalized only when it has settled everything: no
    bucket, proof, address allocation or call frame is left, nothing is locked
    in a vault it touched, and no substate it created is without an owner. *)
Theorem finalized_is_settled (s : WorkingState) (vaults : list (VaultId * Vault)) :
  @new_vaults RuntimeError (store s) = Ok vaults →
  validate_finalized s = Ok tt ↔
  buckets s = ∅ ∧ proofs s = ∅ ∧ address_allocations s = ∅ ∧ call_frames s = [] ∧
  Forall (λ p, vault_locked_balance p.2 = 0) vaults ∧ orphans (initial_call_scope s) = [].
Proof.
  intros Hv. unfold validate_finalized. rewrite Hv. simpl.
  rewrite <- (map_size_empty_iff (buckets s)), <- (map_size_empty_iff (proofs s)),
    <- (map_size_empty_iff (address_allocations s)), <- (length_zero_iff_nil (call_frames s)).
  fold (call_frame_depth s).
  case_bool_decide; simpl; [|naive_solver]. case_bool_decide; simpl; [|naive_solver].
  case_bool_decide; simpl; [|naive_solver].
  pose proof (check_vaults_Ok vaults) as Hc.
  destruct (check_each vaults _) as [[]|e|]; simpl; [|naive_solver..].
  destruct (Nat.eqb_spec (call_frame_depth s) 0); simpl; [|naive_solver].
  case_bool_decide; simpl; naive_solver.
Qed.

Lemma finalized_is_settled_witness :
  let s := state_new ∅ None scope_new 0 in
  validate_finalized s = Ok tt ∧ proofs s = ∅.
Proof.
  intros s. split; [reflexivity|].
  exact (proj1 (proj2 (proj1 (finalized_is_settled s [] eq_refl) eq_refl))).
Defined.
