(* ===== verification/HandlerRuns.v ===== *)
(** * Running the handlers

    Lemmas that run the operations of the working state forward: a lock on a free
    substate, the borrow of a locked substate, the release of a lock, a new
    bucket.  [holds st lk v] says that the lock [lk] is held in [st] on a substate
    whose value is [v]. *)
From stdpp Require Import base gmap list strings numbers.
From S2P Require Import Prelude Bor BTree Ids IndexedValue IdProvider Amount Crypto Confidential.
From S2P Require Import ResourceContainer FreezeFlags Proof Bucket Vault AccessRules RuntimeError.
From S2P Require Import Auth Locking Fees Substate Stealth FeeState Scope StateStore WorkingState.
Open Scope Z_scope.

Lemma bind_run {S E A B : Type} (m : M S E A) (k : A → M S E B) (s s' : S) (a : A) :
  m s = (Ok a, s') → bind m k s = k a s'.
Proof. intros H. unfold bind. by rewrite H. Qed.
Lemma bind_fail {S E A B : Type} (m : M S E A) (k : A → M S E B) (s s' : S) (e : E) :
  m s = (Err e, s') → bind m k s = (Err e, s').
Proof. intros H. unfold bind. by rewrite H. Qed.

(** ** The store *)
Record holds (st : WorkingStateStore) (lk : LockedSubstate) (v : SubstateValue) : Prop := {
  holds_id : lock_ids (locked_substates st) !! ls_lock_id lk = Some (ls_address lk);
  holds_state :
    locks (locked_substates st) !! ls_address lk = Some (lock_state_from (ls_lock_flag lk));
  holds_ref : get_ref st (ls_address lk) = Ok v;
}.
Definition free (st : WorkingStateStore) (id : SubstateId) : Prop :=
  locks (locked_substates st) !! id = None.
Definition locks_left (st : WorkingStateStore) : Z :=
  U32_MAX - id_counter (locked_substates st).

Lemma get_ref_not_downed (st : WorkingStateStore) id v :
  store_wf st → get_ref st id = Ok v → downed st id = false.
Proof.
  intros Hwf Hr. unfold downed. destruct id; try done. apply bool_decide_false. intros Hd.
  apply (wf_downed st Hwf) in Hd as (Hn & Hl & _). unfold get_ref in Hr. by rewrite Hn, Hl in Hr.
Qed.

Lemma load_get_ref (st : WorkingStateStore) id id' v :
  get_ref st id' = Ok v → get_ref (load_and_cache id st).2 id' = Ok v.
Proof.
  unfold load_and_cache, get_ref, im_contains. intros Hr.
  destruct (im_get id (new_substates st)) eqn:Hn; [done|].
  destruct (loaded_substates st !! id) eqn:Hl; [done|].
  destruct (state_store st !! id); [|done]. simpl.
  destruct (decide (id' = id)) as [->|]; [by rewrite Hn, Hl in Hr|].
  by rewrite lookup_insert_ne.
Qed.

Lemma store_lock_run (st : WorkingStateStore) id flag v :
  store_wf st → 0 < locks_left st → view st id = Some v → free st id →
  ∃ lid st', store_try_lock id flag st = (Ok lid, st') ∧ store_wf st' ∧ same_view st st' ∧
    holds st' (MkLockedSubstate id lid flag) v ∧
    lock_ids (locked_substates st) !! lid = None ∧
    lock_ids (locked_substates st') = <[lid := id]> (lock_ids (locked_substates st)) ∧
    locks (locked_substates st') = <[id := lock_state_from flag]> (locks (locked_substates st)) ∧
    locks_left st' = locks_left st - 1 ∧
    (∀ lk' v', holds st lk' v' → holds st' lk' v').
Proof.
  intros Hwf Hc Hv Hfree. unfold locks_left in *.
  destruct (store_try_lock_free st id flag v Hwf ltac:(lia) Hv Hfree) as (lid & st' & Hl).
  pose proof (store_try_lock_spec st id flag Hwf ltac:(lia)) as Hspec. rewrite Hl in Hspec.
  destruct Hspec as (Hwf' & Hsv & Hn & Hs & Hd & w & Hw & Hr & Ht & Hid & _ & _).
  pose proof (try_lock_cases id flag _ (wf_locks st Hwf) ltac:(lia)) as Hcase.
  unfold free in Hfree. rewrite Hfree in Hcase. rewrite Hcase in Ht. injection Ht as <- Ht.
  assert (w = v) as -> by congruence.
  pose proof (wf_id_fresh _ (wf_locks st Hwf)) as Hfr.
  exists (id_counter (locked_substates st)), st'. rewrite <- Ht. simpl.
  split_and!; try done; [|lia|].
  - split; simpl; [by rewrite <- Ht; simpl; rewrite lookup_insert_eq..|done].
  - intros lk' v' [H1 H2 H3].
    assert (ls_address lk' ≠ id) by (intros E; rewrite E, Hfree in H2; done).
    split; rewrite <- ?Ht; simpl.
    + rewrite lookup_insert_ne; [done|]. intros E. rewrite <- E, Hfr in H1. done.
    + by rewrite lookup_insert_ne.
    + unfold store_try_lock in Hl. destruct (negb (exists_ st id)); [done|].
      unfold on_locks, map_err, zoom, bind in Hl. rewrite Hcase in Hl. simpl in Hl.
      match type of Hl with context [load_and_cache id ?x] =>
        pose proof (load_get_ref x id (ls_address lk') v' H3) as Hg;
        destruct (load_and_cache id x) as [[[]| |] st1]; simpl in Hg; [|done..] end.
      unfold ret in Hl. injection Hl as <-. done.
Qed.

Lemma holds_write (st : WorkingStateStore) lk v :
  holds st lk v → ls_lock_flag lk = LockWrite →
  get_lock (locked_substates st) (ls_lock_id lk) LockWrite = Ok lk.
Proof.
  intros [H1 H2 _] Hf. unfold get_lock. rewrite H1. simpl. rewrite H2, Hf. simpl.
  rewrite <- Hf. by destruct lk.
Qed.

Lemma get_ref_other (st st' : WorkingStateStore) id id' :
  (∀ i, i ≠ id → im_get i (new_substates st') = im_get i (new_substates st)) →
  (∀ i, i ≠ id → loaded_substates st' !! i = loaded_substates st !! i) →
  id' ≠ id → get_ref st' id' = get_ref st id'.
Proof. intros Hn Hl Hne. unfold get_ref. by rewrite Hn, Hl. Qed.

Lemma store_mutate_run {A : Type} (st : WorkingStateStore) lk v
    (f : SubstateId → M SubstateValue RuntimeError A) r v' :
  store_wf st → holds st lk v → ls_lock_flag lk = LockWrite →
  f (ls_address lk) v = (r, v') → typed (ls_address lk) v' →
  ∃ st', with_locked_mut (ls_lock_id lk) f st = (r, st') ∧ store_wf st' ∧
    view_set st st' (ls_address lk) (Some v') ∧
    locked_substates st' = locked_substates st ∧ holds st' lk v' ∧
    (∀ lk' w, ls_address lk' ≠ ls_address lk → holds st lk' w → holds st' lk' w).
Proof.
  intros Hwf Hh Hf Hfv Ht. pose proof (holds_write st lk v Hh Hf) as Hg.
  assert (lk = MkLockedSubstate (ls_address lk) (ls_lock_id lk) LockWrite) as Hlk
    by (destruct lk; simpl in *; congruence).
  rewrite Hlk in Hg at 2.
  destruct (with_locked_mut_run st (ls_lock_id lk) _ v f r v' Hwf Hg (holds_ref _ _ _ Hh) Hfv Ht)
    as (st' & Hrun & Hwf' & Hvs & Hl & Hr').
  exists st'. destruct Hh as [H1 H2 H3]. split_and!; try done.
  - split; by rewrite ?Hl.
  - intros lk' w Hne [G1 G2 G3]. split; rewrite ?Hl; try done.
    rewrite <- G3. apply (get_ref_other st st' (ls_address lk)); try done.
    all: unfold with_locked_mut in Hrun; rewrite Hg in Hrun; simpl in Hrun;
      unfold bind, get_for_mut in Hrun; intros i Hi; repeat case_match; simplify_eq/=;
      unfold borrow_new in *; rewrite ?Hfv in *; repeat case_match; simplify_eq/=;
      rewrite ?im_get_insert, ?decide_False, ?lookup_delete_ne by done; done.
Qed.

Lemma store_unlock_run (st : WorkingStateStore) lk v :
  store_wf st → holds st lk v →
  ∃ st', store_try_unlock (ls_lock_id lk) st = (Ok tt, st') ∧ store_wf st' ∧ same_view st st' ∧
    lock_ids (locked_substates st') = delete (ls_lock_id lk) (lock_ids (locked_substates st)) ∧
    locks (locked_substates st') = delete (ls_address lk) (locks (locked_substates st)) ∧
    locks_left st' = locks_left st ∧
    (∀ lk' w, ls_address lk' ≠ ls_address lk → holds st lk' w → holds st' lk' w).
Proof.
  intros Hwf [H1 H2 H3].
  pose proof (store_try_unlock_spec st (ls_lock_id lk) Hwf) as Hu.
  assert (∀ id, lock_ids (locked_substates st) !! ls_lock_id lk = Some id → downed st id = false)
    as Hnd.
  { intros id Hid. rewrite H1 in Hid. injection Hid as <-. by eapply get_ref_not_downed. }
  specialize (Hu Hnd).
  unfold store_try_unlock, on_locks, map_err, zoom, try_unlock in *. rewrite H1, H2 in *.
  destruct (ls_lock_flag lk); simpl in *;
    (eexists; split; [reflexivity|]); simpl; destruct Hu as (Hwf' & Hv & _);
    split_and!; try done; intros lk' w Hne [G1 G2 G3]; split; simpl; try done;
    rewrite lookup_delete_ne; try done; intros E; rewrite <- E, H1 in G1; by simplify_eq.
Qed.

(** ** Scopes *)
Record scope_wf (c : CallScope) : Prop := {
  swf_orphans : NoDup (orphans c);
  swf_disjoint id : id ∈ orphans c → id ∉ owned c;
}.
(** The scope keeps its substates, proofs and authorizations. *)
Record scope_kept (c c' : CallScope) : Prop := {
  sk_wf : scope_wf c → scope_wf c';
  sk_component : component_lock c' = component_lock c;
  sk_auth : auth_scope c' = auth_scope c;
  sk_proofs : proof_scope c' = proof_scope c;
  sk_nodes id : is_substate_in_scope c id = true → is_substate_in_scope c' id = true;
}.

Lemma scope_kept_refl (c : CallScope) : scope_kept c c.
Proof. done. Qed.
Lemma scope_kept_trans (c1 c2 c3 : CallScope) :
  scope_kept c1 c2 → scope_kept c2 c3 → scope_kept c1 c3.
Proof. intros [? ? ? ? ?] [? ? ? ? Hn]. split; [tauto|congruence..|intros; auto]. Qed.
Lemma scope_kept_buckets (c : CallScope) (b : list BucketId) : scope_kept c (set_bucket_scope b c).
Proof. split; try done. by intros [? ?]. Qed.

Lemma scope_nodes (c c' : CallScope) :
  (∀ id, id ∈ owned c ∨ id ∈ referenced c ∨ id ∈ orphans c →
         id ∈ owned c' ∨ id ∈ referenced c' ∨ id ∈ orphans c') →
  ∀ id, is_substate_in_scope c id = true → is_substate_in_scope c' id = true.
Proof.
  intros Hn id. specialize (Hn id). unfold is_substate_in_scope.
  rewrite !orb_true_iff, !bool_decide_eq_true. tauto.
Qed.

Lemma move_node_run (c : CallScope) (id : SubstateId) :
  scope_wf c → ∃ c', move_node_to_owned id c = (Ok tt, c') ∧ scope_kept c c' ∧
                     bucket_scope c' = bucket_scope c.
Proof.
  intros [Hd Hdis]. unfold move_node_to_owned.
  pose proof (is_swap_remove_spec id (orphans c)) as Hr.
  destruct (is_swap_remove id (orphans c)) as [[] l'].
  2: { eexists. split; [done|]. split; [apply scope_kept_refl|done]. }
  unfold is_insert. assert (id ∉ owned c) by (apply Hdis; rewrite Hr; set_solver).
  rewrite decide_False by done. eexists. split; [done|]. split; [|done].
  assert (NoDup (id :: l')) as Hd' by by rewrite <- Hr.
  apply list.NoDup_cons in Hd' as [Hnid Hd']. split; try done; simpl.
  - intros _. split; simpl; [done|]. intros i Hi Ho.
    assert (i ∈ orphans c) as Hio by (rewrite Hr; set_solver). specialize (Hdis i Hio).
    set_solver.
  - apply scope_nodes. intros i. simpl. rewrite Hr. set_solver.
Qed.

Lemma take_scope_kept (c : CallScope) (bid : BucketId) (id : SubstateId) :
  scope_kept c (add_substate_to_owned id (remove_bucket_from_scope bid c)).
Proof.
  split; try done; simpl.
  - intros [Hd Hdis]. unfold add_substate_to_owned. split; simpl.
    + pose proof (is_swap_remove_spec id (orphans c)) as Hr. unfold is_discard.
      destruct (is_swap_remove id (orphans c)) as [[] l']; simpl; [|by destruct Hr as [-> _]].
      rewrite Hr in Hd. by apply list.NoDup_cons in Hd as [_ ?].
    + intros i Hi. rewrite elem_of_is_discard in Hi by done. rewrite elem_of_is_add.
      destruct Hi as [Hi Hne]. specialize (Hdis i Hi). naive_solver.
  - apply scope_nodes. intros i. simpl. rewrite elem_of_is_add.
    destruct (decide (i = id)) as [->|Hne]; [by auto|]. intros [?|[?|?]]; [by auto|..].
    + right; left. by apply elem_of_is_discard_2.
    + right; right. by apply elem_of_is_discard_2.
Qed.

Lemma move_nodes_run (c : CallScope) (ids : list SubstateId) :
  scope_wf c → ∃ c', for_each ids move_node_to_owned c = (Ok tt, c') ∧ scope_kept c c' ∧
                     bucket_scope c' = bucket_scope c.
Proof.
  revert c. induction ids as [|id ids IH]; intros c Hwf; simpl.
  { exists c. split; [done|]. split; [apply scope_kept_refl|done]. }
  destruct (move_node_run c id Hwf) as (c1 & Hrun & Hk & Hb).
  destruct (IH c1 (sk_wf _ _ Hk Hwf)) as (c2 & Hrun' & Hk' & Hb').
  exists c2. rewrite (bind_run _ _ _ _ _ Hrun), Hrun'. split; [done|].
  split; [by eapply scope_kept_trans|congruence].
Qed.

(** ** The working state *)
Lemma current_set_scope (c : CallScope) (s : WorkingState) :
  current_call_scope (set_current_call_scope c s) = c.
Proof. unfold current_call_scope, set_current_call_scope. by destruct (call_frames s). Qed.
Lemma set_set_scope (c c' : CallScope) (s : WorkingState) :
  set_current_call_scope c (set_current_call_scope c' s) = set_current_call_scope c s.
Proof. unfold set_current_call_scope. by destruct (call_frames s). Qed.
Lemma on_scope_run {A : Type} (m : M CallScope RuntimeError A) (s : WorkingState) r c' :
  m (current_call_scope s) = (r, c') → on_scope m s = (r, set_current_call_scope c' s).
Proof. intros Hm. unfold on_scope, zoom. by rewrite Hm. Qed.
Lemma on_scope_for_each {A : Type} (xs : list A) (f : A → M CallScope RuntimeError unit)
    (s : WorkingState) c' :
  for_each xs f (current_call_scope s) = (Ok tt, c') →
  for_each xs (λ x, on_scope (f x)) s = (Ok tt, set_current_call_scope c' s).
Proof.
  revert s. induction xs as [|x xs IH]; intros s; simpl.
  - intros [= <-]. unfold ret, set_current_call_scope, current_call_scope.
    destruct s as [? ? ? ? ? ? ? ? ? ? ? ? fs ? ?]; simpl. destruct fs as [|[]]; done.
  - intros Hrun. apply bind_Ok in Hrun as ([] & c1 & H1 & H2).
    rewrite (bind_run _ _ _ _ _ (on_scope_run _ _ _ _ H1)).
    rewrite (IH _); rewrite ?current_set_scope, ?set_set_scope; done.
Qed.

(** The parts of the state that scope changes leave alone. *)
Definition outside_scope (s : WorkingState) :=
  (transaction_hash s, events s, logs s, buckets s, address_allocations s,
   used_address_allocations s, address_allocation_id s, proofs s, object_ids s, store s,
   current_epoch s, validator_fee_withdrawals s, fee_state s).
Lemma set_scope_outside (c : CallScope) (s : WorkingState) :
  outside_scope (set_current_call_scope c s) = outside_scope s.
Proof. unfold set_current_call_scope. by destruct (call_frames s). Qed.

(** What locking, changing and releasing a substate do to the store. *)
Record locked_run (st st' : WorkingStateStore) (lk : LockedSubstate) (v : SubstateValue) : Prop := {
  lr_wf : store_wf st';
  lr_view : same_view st st';
  lr_holds : holds st' lk v;
  lr_fresh : lock_ids (locked_substates st) !! ls_lock_id lk = None;
  lr_ids : lock_ids (locked_substates st') =
             <[ls_lock_id lk := ls_address lk]> (lock_ids (locked_substates st));
  lr_locks : locks (locked_substates st') =
               <[ls_address lk := lock_state_from (ls_lock_flag lk)]> (locks (locked_substates st));
  lr_left : locks_left st' = locks_left st - 1;
  lr_keep lk' v' : holds st lk' v' → holds st' lk' v';
}.
Record mutated_run (st st' : WorkingStateStore) (lk : LockedSubstate) (v' : SubstateValue) : Prop := {
  mr_wf : store_wf st';
  mr_view : view_set st st' (ls_address lk) (Some v');
  mr_locks : locked_substates st' = locked_substates st;
  mr_holds : holds st' lk v';
  mr_keep lk' w : ls_address lk' ≠ ls_address lk → holds st lk' w → holds st' lk' w;
}.
Record released_run (st st' : WorkingStateStore) (lk : LockedSubstate) : Prop := {
  rr_wf : store_wf st';
  rr_view : same_view st st';
  rr_ids : lock_ids (locked_substates st') =
             delete (ls_lock_id lk) (lock_ids (locked_substates st));
  rr_locks : locks (locked_substates st') = delete (ls_address lk) (locks (locked_substates st));
  rr_left : locks_left st' = locks_left st;
  rr_keep lk' w : ls_address lk' ≠ ls_address lk → holds st lk' w → holds st' lk' w;
}.
(** The same locks are held. *)
Definition same_locks (st st' : WorkingStateStore) : Prop :=
  lock_ids (locked_substates st') = lock_ids (locked_substates st) ∧
  locks (locked_substates st') = locks (locked_substates st).

Section runs.
Context `{Ii : !I192}.

Lemma lock_run (s : WorkingState) id flag v :
  store_wf (store s) → 0 < locks_left (store s) → view (store s) id = Some v →
  free (store s) id →
  ∃ lk st', lock_substate id flag s = (Ok lk, set_store st' s) ∧ ls_address lk = id ∧
    ls_lock_flag lk = flag ∧ locked_run (store s) st' lk v.
Proof.
  intros Hwf Hl Hv Hf.
  destruct (store_lock_run (store s) id flag v Hwf Hl Hv Hf)
    as (lid & st' & Hrun & Hwf' & Hsv & Hh & Hfr & Hids & Hlocks & Hleft & Hkeep).
  exists (MkLockedSubstate id lid flag), st'. split; [|by split_and!].
  unfold lock_substate. erewrite bind_run; [reflexivity|]. unfold on_store, zoom. by rewrite Hrun.
Qed.

Lemma get_as_run {A : Type} (f : SubstateValue → option A) (s : WorkingState) lk v a :
  holds (store s) lk v → f v = Some a → get_as f s lk = Ok a.
Proof.
  intros [H1 H2 H3] Hf. unfold get_as, StateStore.get_locked_substate.
  assert (get_lock (locked_substates (store s)) (ls_lock_id lk) LockRead =
    Ok (MkLockedSubstate (ls_address lk) (ls_lock_id lk) LockRead)) as Hg.
  { unfold get_lock. rewrite H1. simpl. rewrite H2. by destruct (ls_lock_flag lk). }
  rewrite Hg. simpl. rewrite H3. simpl. by rewrite Hf.
Qed.

Lemma on_value_run {A B : Type} (f : SubstateValue → option B) (up : B → SubstateValue)
    (s : WorkingState) lk v b (m : M B RuntimeError A) r b' :
  store_wf (store s) → holds (store s) lk v → ls_lock_flag lk = LockWrite →
  f v = Some b → m b = (r, b') → typed (ls_address lk) (up b') →
  ∃ st', on_value f up lk m s = (r, set_store st' s) ∧ mutated_run (store s) st' lk (up b').
Proof.
  intros Hwf Hh Hf Hfv Hm Ht. unfold on_value.
  destruct (store_mutate_run (store s) lk v (λ addr v,
    match f v with
    | Some b => let '(r, b') := m b in (r, up b')
    | None => (Err (LockSubstateMismatch (ls_lock_id lk) addr), v)
    end) r (up b') Hwf Hh Hf) as (st' & Hrun & ? & ? & ? & ? & ?).
  - by rewrite Hfv, Hm.
  - done.
  - exists st'. unfold on_store, zoom. by rewrite Hrun.
Qed.

Lemma unlock_run (s : WorkingState) lk v :
  store_wf (store s) → holds (store s) lk v →
  ∃ st', unlock_substate lk s = (Ok tt, set_store st' s) ∧ released_run (store s) st' lk.
Proof.
  intros Hwf Hh. destruct (store_unlock_run (store s) lk v Hwf Hh)
    as (st' & Hrun & ? & ? & ? & ? & ? & ?).
  exists st'. unfold unlock_substate, on_store, zoom. by rewrite Hrun.
Qed.

Lemma new_bucket_run (s : WorkingState) (bid : BucketId) (cont : ResourceContainer) :
  scope_wf (current_call_scope s) → buckets s !! bid = None →
  ∃ c', new_bucket bid cont s =
          (Ok tt, set_current_call_scope c'
                    (set_buckets (<[bid := MkBucket bid cont]> (buckets s)) s)) ∧
        scope_kept (current_call_scope s) c' ∧
        bucket_scope c' = is_add bid (bucket_scope (current_call_scope s)).
Proof.
  intros Hwf Hb.
  destruct (move_node_run _ (SidResource (resource_address cont)) Hwf) as (c1 & H1 & Hk1 & Hb1).
  destruct (move_nodes_run c1 ((λ id, SidNonFungible (MkNonFungibleAddress (resource_address cont) id))
    <$> btree_iter (non_fungible_token_ids cont)) (sk_wf _ _ Hk1 Hwf)) as (c2 & H2 & Hk2 & Hb2).
  exists (add_bucket_to_scope bid c2). split_and!.
  - unfold new_bucket. rewrite (bind_run _ _ _ _ _ (on_scope_run _ _ _ _ H1)).
    erewrite bind_run.
    2: { apply on_scope_for_each. rewrite current_set_scope.
         rewrite <- H2. clear. generalize (btree_iter (non_fungible_token_ids cont)) as l. intros l.
         revert c1. induction l as [|x l IH]; intros c1; simpl; [done|].
         apply bind_ext; [done|]. auto. }
    destruct s as [? ? ? bs ? ? ? ? ? ? ? ? fs ? ?]; simpl in *. unfold bind.
    destruct fs as [|fr fs]; simpl in *; by rewrite Hb.
  - eapply scope_kept_trans; [exact Hk1|]. eapply scope_kept_trans; [exact Hk2|].
    apply scope_kept_buckets.
  - simpl. congruence.
Qed.

Lemma take_bucket_run (s : WorkingState) (bid : BucketId) (b : Bucket) :
  get_bucket s bid = Ok b →
  ∃ c', take_bucket bid s =
          (Ok b, set_current_call_scope c' (set_buckets (delete bid (buckets s)) s)) ∧
        scope_kept (current_call_scope s) c'.
Proof.
  intros Hb. eexists. split; [|apply take_scope_kept]. unfold take_bucket. rewrite Hb.
  destruct s as [? ? ? bs ? ? ? ? ? ? ? ? fs ? ?]. by destruct fs as [|fr fs].
Qed.
End runs.
