(* ===== verification/Runtime.v ===== *)
(** * The runtime interface

    [engine/src/runtime/impl.rs]: the calls a template makes on vaults, buckets,
    proofs and resources, as the runtime handles them.  The arguments are given
    decoded.  A call of a method of another component, which runs the component's
    WASM, is the parameter [call_method]; the texts of addresses and amounts in
    event payloads are those of the class [Display]; the modules the runtime
    notifies of each call are a list of [RuntimeModule]s, of which [FeeModule]
    ([engine/src/fees]) is one. *)
From stdpp Require Import base gmap list strings numbers.
From S2P Require Import Prelude Bor BTree Ids IndexedValue IdProvider Amount Crypto Confidential.
From S2P Require Import ResourceContainer FreezeFlags Proof Bucket Vault AccessRules RuntimeError.
From S2P Require Import Auth Locking Fees Substate Stealth FeeState Scope StateStore Workspace WorkingState.
Open Scope Z_scope.

#[local] Notation "'W'" := (M WorkingState RuntimeError) (only parsing).

Class Display := {
  show_resource : ResourceAddress → string;
  show_vault : VaultId → string;
  show_amount : Z → string;
  show_flags : VaultFreezeFlags → string;
  show_discriminator : ResourceDiscriminator → string;
}.
Definition show_resource_type (t : ResourceType) : string :=
  match t with
  | RtFungible => "Fungible"
  | RtNonFungible => "NonFungible"
  | RtConfidential => "Confidential"
  | RtStealth => "Stealth"
  end.

(** ** Runtime modules *)
Inductive RuntimeEvent := SignatureVerified.
Record RuntimeModule := MkRuntimeModule {
  on_initialize : W unit;
  on_runtime_call : string → W unit;
  on_before_finalize : W unit;
  on_runtime_event : RuntimeEvent → W unit;
}.

Record FeeTable := MkFeeTable {
  per_transaction_weight_cost : Z;
  per_module_call_cost : Z;
  per_byte_storage_cost : Z;
  per_event_cost : Z;
  per_log_cost : Z;
  per_signature_verification_cost : Z;
}.

(** [StateTracker::add_fee_charge]. *)
Definition add_fee_charge (source : FeeSource) (amount : Z) : W unit :=
  if amount =? 0 then ret tt else zoom fee_state set_fee_state (add_charge source amount).

Definition u64_mul {E : Type} (a b : Z) : res E Z := expect (uint_checked U64_MAX (a * b)).

Section fee_module.
Context `{Ii : !I192}.
Variable encoded_len : SubstateValue → option Z.

Definition total_storage (changes : list (SubstateId * SubstateValue)) : res RuntimeError Z :=
  foldl (λ acc p, let? n := acc in
                  let? k := ok_or (encoded_len p.2) RuntimeModuleError in Ok (n + k))
    (Ok 0) changes.

Definition fee_module (initial_cost transaction_weight : Z) (table : FeeTable) : RuntimeModule := {|
  on_initialize :=
    do! add_fee_charge Initial initial_cost in
    let! cost := lift (u64_mul transaction_weight (per_transaction_weight_cost table)) in
    add_fee_charge TransactionWeight cost;
  on_runtime_call _ := add_fee_charge RuntimeCall (per_module_call_cost table);
  on_before_finalize :=
    let! s := get in
    let! total := lift (total_storage (new_substates (store s))) in
    let! cost := lift (ok_or (uint_checked U64_MAX (per_byte_storage_cost table * total))
                         RuntimeModuleError) in
    do! add_fee_charge Storage (cost / 4) in
    let! log_cost := lift (u64_mul (Z.of_nat (length (logs s))) (per_log_cost table)) in
    do! add_fee_charge Logs log_cost in
    let! event_cost := lift (u64_mul (Z.of_nat (length (events s))) (per_event_cost table)) in
    add_fee_charge Events event_cost;
  on_runtime_event _ := add_fee_charge SignatureVerification (per_signature_verification_cost table);
|}.
End fee_module.

(** ** Arguments and results of the calls *)
Inductive VaultRef := VaultOf (address : ResourceAddress) | VaultById (id : VaultId).
Definition vault_ref_resource (r : VaultRef) : option ResourceAddress :=
  match r with VaultOf a => Some a | VaultById _ => None end.
Definition vault_ref_id (r : VaultRef) : option VaultId :=
  match r with VaultOf _ => None | VaultById id => Some id end.

Inductive VaultWithdrawArg :=
  | WithdrawFungible (amount : Z)
  | WithdrawNonFungible (ids : gset NonFungibleId)
  | WithdrawConfidential (proof : ConfidentialWithdrawProof)
  | WithdrawStealth (amount : Z).
Record PayFeeArg := MkPayFeeArg {
  pay_amount : Z;
  pay_statement : option StealthTransferStatement;
}.

(** An action on a vault with its decoded argument. *)
Inductive VaultAction :=
  | VaCreate
  | VaDeposit (bucket_id : BucketId)
  | VaWithdraw (arg : VaultWithdrawArg)
  | VaGetBalance
  | VaGetLockedBalance
  | VaGetResourceAddress
  | VaGetNonFungibleIds
  | VaGetCommitmentCount
  | VaPayFee (arg : PayFeeArg)
  | VaCreateProofByResource
  | VaCreateProofByFungibleAmount (amount : Z)
  | VaCreateProofByNonFungibles (ids : gset NonFungibleId)
  | VaCreateProofByConfidentialResource
  | VaGetNonFungibles.
Definition requires_write_access (self : VaultAction) : bool :=
  match self with
  | VaGetBalance | VaGetLockedBalance | VaGetResourceAddress | VaGetNonFungibleIds
  | VaGetCommitmentCount | VaGetNonFungibles => false
  | _ => true
  end.

Inductive InvokeResult :=
  | IrUnit
  | IrVault (id : VaultId)
  | IrBucket (id : BucketId)
  | IrProof (id : ProofId)
  | IrAmount (amount : Z)
  | IrSupply (supply : option Z)
  | IrResource (address : ResourceAddress)
  | IrNewResource (address : ResourceAddress) (bucket : option BucketId)
  | IrResourceType (t : ResourceType)
  | IrIds (ids : gset NonFungibleId)
  | IrNonFungibles (nfts : list NonFungibleAddress)
  | IrOptBucket (bucket : option BucketId)
  | IrAuthorized (ok : bool)
  | IrValue (value : Value)
  | IrComponent (address : ComponentAddress)
  | IrOptComponent (address : option ComponentAddress)
  | IrTemplate (address : TemplateAddress)
  | IrAllocation (id : AddressAllocationId)
  | IrKey (key : PublicKeyBytes)
  | IrEpoch (epoch : Z)
  | IrBytes (bytes : list N)
  | IrBool (b : bool).

Record AuthHookCaller := MkAuthHookCaller {
  caller_component : option ComponentAddress;
  caller_template : TemplateAddress;
  caller_state : option Value;
}.
Definition with_component_state (v : Value) (c : AuthHookCaller) : AuthHookCaller :=
  MkAuthHookCaller (caller_component c) (caller_template c) (Some v).

(** [Resource::set_access_rules], [NonFungible::set_mutable_data] through
    [contents_mut]. *)
Definition set_resource_access_rules (rules : ResourceAccessRules) (self : Resource) : Resource :=
  MkResource (res_type self) (res_owner_rule self) (res_owner_key self) rules (res_metadata self)
    (total_supply self) (res_view_key self) (res_auth_hook self) (divisibility self).
Definition set_mutable_data (data : Value) (self : NonFungibleContainer) :
    option NonFungibleContainer :=
  match nf_contents self with
  | Some nf => Some (MkNonFungibleContainer (Some (MkNonFungible (nf_data nf) data)))
  | None => None
  end.

(** The parts of a template's definition that the check of a hook reads. *)
Inductive AbiType := AtUnit | AtOther (name : string) | AtBuiltin.
Definition abi_other (t : AbiType) : option string :=
  match t with AtOther name => Some name | _ => None end.
Record FunctionDef := MkFunctionDef {
  fn_name : string;
  fn_arguments : list AbiType;
  fn_output : AbiType;
  fn_is_mut : bool;
}.

Section runtime.
Context `{Ii : !I192} `{Ic : !Crypto} `{Cb : !Cbor} `{Ih : !IdHashes} `{Dp : !Display}.
Variable encoded_len : SubstateValue → option Z.
Variable modules : list RuntimeModule.
(** [TransactionProcessor::call_method] on an authorization hook: it runs the
    method of the component and returns its value. *)
Variable call_method :
  ComponentAddress → string → ResourceAuthAction → AuthHookCaller → M WorkingState unit Value.

(** [TemplateProvider::get_template_module] and the functions of the template. *)
Variable get_template_def : TemplateAddress → res RuntimeError (list FunctionDef).
(** The key that sealed the transaction. *)
Variable seal_signer_public_key : PublicKeyBytes.

Definition invoke_modules_on_runtime_call (function : string) : W unit :=
  for_each modules (λ m, on_runtime_call m function).

Definition emit_std_event (object_name action : string) (substate_id : SubstateId)
    (payload : list (string * string)) : W unit := λ state,
  (let! template := lift (state_current_template state) in
   push_event (event_std (Some substate_id) template.1 (transaction_hash state) object_name action
                 (list_to_map payload))) state.

(** [state.id_provider()?] and the id drawn from it. *)
Definition with_ids {A : Type} (m : N → N → M ObjectIds IdProviderError A) : W A := λ state,
  match call_frames state with
  | [] => (Err NoActiveCallFrame, state)
  | f :: _ =>
      zoom object_ids set_object_ids
        (map_err (λ e, match e with MaxIdsExceeded max => RuntimeIdProviderError max end)
           (m (frame_entity_id f) (transaction_hash state))) state
  end.
Definition provide_bucket_id : W BucketId := with_ids (λ _ _, next_bucket_id).
Definition provide_proof_id : W ProofId := with_ids (λ _ _, next_proof_id).

Definition get_auth_caller (self : WorkingState) : res RuntimeError AuthHookCaller :=
  match call_frames self with
  | [] => Err NoActiveCallFrame
  | f :: _ =>
      Ok (MkAuthHookCaller
            (match component_lock (frame_scope f) with
             | Some lock => as_component_address (ls_address lock)
             | None => None
             end) (frame_template f) None)
  end.

Definition invoke_component_method (component_address : ComponentAddress) (method : string)
    (action : ResourceAuthAction) (caller : AuthHookCaller) : W Value :=
  map_err (λ _, CrossTemplateCallMethodError component_address method)
    (call_method component_address method action caller).

Definition load_component (address : ComponentAddress) : W ComponentHeader :=
  do! invoke_modules_on_runtime_call "load_component" in
  on_store (load_and_cache_component address).

Definition invoke_resource_access_hook (auth_hook : ComponentAddress * string)
    (auth_caller : AuthHookCaller) (action : ResourceAuthAction) : W unit :=
  do! invoke_modules_on_runtime_call "invoke_resource_access_hook" in
  let! state := get in
  let! skip_hook :=
    lift (let? current := state_current_component state in
          if bool_decide (current = Some auth_hook.1) then Ok true
          else Ok (negb (exists_ (store state) (SidComponent auth_hook.1)))) in
  if skip_hook then ret tt
  else
    let! auth_caller :=
      match caller_component auth_caller with
      | Some component =>
          let! caller := load_component component in
          ret (with_component_state (component_state caller) auth_caller)
      | None => ret auth_caller
      end in
    let! value :=
      map_err (λ e, match e with
                    | CrossTemplateCallMethodError _ _ => AccessDeniedAuthHook (NativeResource action)
                    | _ => e
                    end)
        (invoke_component_method auth_hook.1 auth_hook.2 action auth_caller) in
    match value with
    | VNull => ret tt
    | _ => throw UnexpectedNonNullInAuthHookReturn
    end.
Definition invoke_hook (maybe_auth_hook : option (ComponentAddress * string))
    (auth_caller : AuthHookCaller) (action : ResourceAuthAction) : W unit :=
  match maybe_auth_hook with
  | Some auth_hook => invoke_resource_access_hook auth_hook auth_caller action
  | None => ret tt
  end.

(** The access check of a locked resource, with its hook and the caller. *)
Definition check_access_rules (resource_lock : LockedSubstate) (action : ResourceAuthAction) :
    W (option (ComponentAddress * string) * AuthHookCaller) := λ state,
  (let? resource := get_resource state resource_lock in
   let? _ := check_resource_access_rules state action (resource_as_ownership resource)
               (res_access_rules resource) in
   let? auth_caller := get_auth_caller state in
   Ok (res_auth_hook resource, auth_caller), state).

(** ** Vaults *)
(** The first block of the deposit, withdraw and proof actions: lock the vault,
    refuse it when it is frozen, lock its resource and check the access rules. *)
Definition lock_vault_for (vault_id : VaultId) (freeze_flag : VaultFreezeFlag)
    (action : ResourceAuthAction) :
    W (LockedSubstate * LockedSubstate * option (ComponentAddress * string) * AuthHookCaller) :=
  let! vault_lock := lock_substate (SidVault vault_id) LockWrite in
  let! state := get in
  let! vault := lift (get_vault state vault_lock) in
  if flags_contains (vault_freeze_flags vault) freeze_flag
  then throw (VaultFrozen vault_id freeze_flag)
  else
    let! resource_lock := lock_substate (SidResource (vault_resource_address vault)) LockRead in
    let! checked := check_access_rules resource_lock action in
    ret (vault_lock, resource_lock, checked.1, checked.2).

Definition empty_container (resource_type : ResourceType) (resource_address : ResourceAddress) :
    res RuntimeError ResourceContainer :=
  match resource_type with
  | RtFungible => fungible resource_address 0
  | RtNonFungible => Ok (non_fungible resource_address ∅)
  | RtConfidential => confidential resource_address [] 0
  | RtStealth => stealth resource_address 0
  end.

Definition vault_create (vault_ref : VaultRef) : W InvokeResult :=
  let! resource_address := lift (ok_or (vault_ref_resource vault_ref) InvalidArgument) in
  let! resource_lock := lock_substate (SidResource resource_address) LockRead in
  let! state := get in
  let! resource := lift (get_resource state resource_lock) in
  do! lift (check_resource_access_rules state Deposit (resource_as_ownership resource)
              (res_access_rules resource)) in
  let! vault_id := with_ids new_vault_id in
  let! container := lift (empty_container (res_type resource) resource_address) in
  do! new_substate encoded_len (SidVault vault_id) (SvVault (vault_new container)) in
  do! unlock_substate resource_lock in
  do! on_scope (move_node_to_owned (SidResource resource_address)) in
  ret (IrVault vault_id).

Definition vault_invoke_deposit (vault_ref : VaultRef) (bucket_id : BucketId) : W InvokeResult :=
  let! vault_id := lift (ok_or (vault_ref_id vault_ref) InvalidArgument) in
  let! (vault_lock, resource_lock, maybe_auth_hook, auth_caller) :=
    lock_vault_for vault_id Deposits Deposit in
  do! invoke_hook maybe_auth_hook auth_caller Deposit in
  let! bucket := take_bucket bucket_id in
  do! guard_err (negb (Amount.is_zero (bucket_locked_amount bucket)))
        (InvalidOpDepositLockedBucket bucket_id (bucket_locked_amount bucket)) in
  do! emit_std_event "vault" "deposit" (SidVault vault_id)
        [("resource_address", show_resource (bucket_resource_address bucket));
         ("resource_type", show_resource_type (bucket_resource_type bucket));
         ("amount", show_amount (bucket_amount bucket))] in
  do! on_vault_mut vault_lock (map_err RuntimeResourceError (vault_deposit bucket)) in
  do! unlock_substate resource_lock in
  do! unlock_substate vault_lock in
  ret IrUnit.

(** What is taken out of the vault, and the amount the event reports. *)
Definition withdraw_from (view_key : option Point) (arg : VaultWithdrawArg) :
    M Vault RuntimeError (ResourceContainer * Z) :=
  match arg with
  | WithdrawFungible amount | WithdrawStealth amount =>
      let! container := map_err RuntimeResourceError (vault_withdraw amount) in
      ret (container, amount)
  | WithdrawNonFungible ids =>
      let! container := map_err RuntimeResourceError (vault_withdraw_non_fungibles ids) in
      ret (container, Z.of_nat (size ids))
  | WithdrawConfidential proof =>
      let amount := cwp_input_revealed_amount proof in
      let! container :=
        map_err RuntimeResourceError (vault_withdraw_confidential proof view_key) in
      ret (container, amount)
  end.

Definition vault_invoke_withdraw (vault_ref : VaultRef) (arg : VaultWithdrawArg) :
    W InvokeResult :=
  let! vault_id := lift (ok_or (vault_ref_id vault_ref) InvalidArgument) in
  let! (vault_lock, resource_lock, maybe_auth_hook, auth_caller) :=
    lock_vault_for vault_id Withdrawals Withdraw in
  do! invoke_hook maybe_auth_hook auth_caller Withdraw in
  let! state := get in
  let! resource := lift (get_resource state resource_lock) in
  let! maybe_view_key := lift (to_view_key_public_key resource RuntimeInvariantError) in
  let! (resource_container, public_amount) :=
    on_vault_mut vault_lock (withdraw_from maybe_view_key arg) in
  do! emit_std_event "vault" "withdraw" (SidVault vault_id)
        [("resource_address", show_resource (resource_address resource_container));
         ("resource_type", show_resource_type (resource_type resource_container));
         ("amount", show_amount public_amount)] in
  let! bucket_id := provide_bucket_id in
  do! new_bucket bucket_id resource_container in
  do! unlock_substate vault_lock in
  do! unlock_substate resource_lock in
  ret (IrBucket bucket_id).

(** The read-only actions: lock, read, unlock. *)
Definition vault_read (vault_ref : VaultRef) (f : Vault → InvokeResult) : W InvokeResult :=
  let! vault_id := lift (ok_or (vault_ref_id vault_ref) InvalidArgument) in
  let! vault_lock := lock_substate (SidVault vault_id) LockRead in
  let! state := get in
  let! vault := lift (get_vault state vault_lock) in
  do! unlock_substate vault_lock in
  ret (f vault).

Definition vault_pay_fee (vault_ref : VaultRef) (arg : PayFeeArg) : W InvokeResult :=
  let! vault_id := lift (ok_or (vault_ref_id vault_ref) InvalidArgument) in
  if Amount.is_negative (pay_amount arg) then throw InvalidArgument
  else
    let! vault_lock := lock_substate (SidVault vault_id) LockWrite in
    let! state := get in
    let! vault := lift (get_vault state vault_lock) in
    if flags_contains (vault_freeze_flags vault) Withdrawals
    then throw (VaultFrozen vault_id Withdrawals)
    else if bool_decide (vault_resource_address vault ≠ XTR) then throw InvalidArgument
    else
      let! resource_lock := lock_substate (SidResource XTR) LockRead in
      let! state := get in
      do! lift (let? resource := get_resource state resource_lock in
                check_resource_access_rules state Withdraw (resource_as_ownership resource)
                  (res_access_rules resource)) in
      let! container := lift (stealth XTR 0) in
      let! container :=
        on_vault_mut vault_lock
          (if Amount.is_positive (pay_amount arg) then
             map_err RuntimeResourceError (
               let! withdrawn := vault_withdraw (pay_amount arg) in
               let '(r, c) := deposit withdrawn container in lift (let? _ := r in Ok c))
           else ret container) in
      let! container :=
        match pay_statement arg with
        | Some statement =>
            let! revealed := execute_stealth_transfer encoded_len (RefAddress XTR) statement None in
            match revealed with
            | Some c =>
                lift (let '(r, c') := deposit c container in
                      let? _ := res_map_err RuntimeResourceError r in Ok c')
            | None => ret container
            end
        | None => ret container
        end in
      if Amount.is_zero (amount container) then throw InvalidArgument
      else
        do! pay_fee container (Some vault_id) in
        do! unlock_substate resource_lock in
        do! unlock_substate vault_lock in
        ret IrUnit.

(** The three actions that create a proof over the vault differ in what they
    lock in it. *)
Definition vault_create_proof (vault_ref : VaultRef)
    (lock_funds : VaultId → M Vault ResourceError LockedResource) : W InvokeResult :=
  let! vault_id := lift (ok_or (vault_ref_id vault_ref) InvalidArgument) in
  let! (vault_lock, resource_lock, maybe_auth_hook, auth_caller) :=
    lock_vault_for vault_id Withdrawals Withdraw in
  do! invoke_hook maybe_auth_hook auth_caller Withdraw in
  let! proof_id := provide_proof_id in
  let! locked_funds := on_vault_mut vault_lock (map_err RuntimeResourceError (lock_funds vault_id)) in
  do! new_proof proof_id locked_funds in
  do! unlock_substate vault_lock in
  do! unlock_substate resource_lock in
  ret (IrProof proof_id).

Definition vault_action_ident (action : VaultAction) : ActionIdent := NativeOther "vault".

Definition vault_invoke (vault_ref : VaultRef) (action : VaultAction) : W InvokeResult :=
  do! invoke_modules_on_runtime_call "vault_invoke" in
  let! state := get in
  do! lift (if requires_write_access action then
              match vault_ref_id vault_ref with
              | Some vault_id =>
                  check_component_scope state (SidVault vault_id) (vault_action_ident action)
              | None => Ok tt
              end
            else Ok tt) in
  match action with
  | VaCreate => vault_create vault_ref
  | VaDeposit bucket_id => vault_invoke_deposit vault_ref bucket_id
  | VaWithdraw arg => vault_invoke_withdraw vault_ref arg
  | VaGetBalance => vault_read vault_ref (λ v, IrAmount (vault_balance v))
  | VaGetLockedBalance => vault_read vault_ref (λ v, IrAmount (vault_locked_balance v))
  | VaGetResourceAddress => vault_read vault_ref (λ v, IrResource (vault_resource_address v))
  | VaGetNonFungibleIds => vault_read vault_ref (λ v, IrIds (get_non_fungible_ids v))
  | VaGetCommitmentCount =>
      vault_read vault_ref (λ v, IrAmount (get_commitment_count (vault_container v)))
  | VaPayFee arg => vault_pay_fee vault_ref arg
  | VaCreateProofByResource => vault_create_proof vault_ref vault_lock_all
  | VaCreateProofByFungibleAmount amount =>
      vault_create_proof vault_ref (λ id, vault_lock_by_amount id amount)
  | VaCreateProofByNonFungibles ids =>
      vault_create_proof vault_ref (λ id, vault_lock_by_non_fungible_ids id ids)
  | VaCreateProofByConfidentialResource => throw NotSupported
  | VaGetNonFungibles =>
      vault_read vault_ref (λ v,
        IrNonFungibles ((λ id, MkNonFungibleAddress (vault_resource_address v) id)
                          <$> btree_iter (get_non_fungible_ids v)))
  end.

(** ** Buckets *)
Inductive BucketAction :=
  | BaGetResourceAddress
  | BaGetResourceType
  | BaGetAmount
  | BaTake (amount : Z)
  | BaTakeConfidential (proof : ConfidentialWithdrawProof)
  | BaJoin (other : BucketId)
  | BaBurn
  | BaCreateProof
  | BaGetNonFungibleIds
  | BaGetNonFungibles
  | BaCountConfidentialCommitments.

Definition bucket_read (bucket_id : BucketId) (f : Bucket → InvokeResult) : W InvokeResult :=
  λ state, (let? bucket := get_bucket state bucket_id in Ok (f bucket), state).

Definition bucket_take (bucket_id : BucketId) (amount : Z) : W InvokeResult :=
  let! resource := on_bucket_mut bucket_id (map_err RuntimeResourceError (take amount)) in
  let! new_id := provide_bucket_id in
  do! new_bucket new_id resource in
  ret (IrBucket new_id).

Definition bucket_take_confidential (bucket_id : BucketId) (proof : ConfidentialWithdrawProof) :
    W InvokeResult :=
  let! state := get in
  let! bucket := lift (get_bucket state bucket_id) in
  let! resource_lock := lock_substate (SidResource (bucket_resource_address bucket)) LockRead in
  let! state := get in
  let! resource := lift (get_resource state resource_lock) in
  let! view_key := lift (to_view_key_public_key resource RuntimeInvariantError) in
  let! container :=
    on_bucket_mut bucket_id (map_err RuntimeResourceError (take_confidential proof view_key)) in
  let! new_id := provide_bucket_id in
  do! new_bucket new_id container in
  do! unlock_substate resource_lock in
  ret (IrBucket new_id).

Definition bucket_join (bucket_id other_bucket_id : BucketId) : W InvokeResult :=
  let! other_bucket := take_bucket other_bucket_id in
  do! on_bucket_mut bucket_id (map_err RuntimeResourceError (join other_bucket)) in
  ret (IrBucket bucket_id).

Definition bucket_burn (bucket_id : BucketId) : W InvokeResult :=
  let! state := get in
  let! bucket := lift (get_bucket state bucket_id) in
  let! resource_lock := lock_substate (SidResource (bucket_resource_address bucket)) LockWrite in
  let! checked := check_access_rules resource_lock Burn in
  do! invoke_hook checked.1 checked.2 Burn in
  let! bucket := take_bucket bucket_id in
  let burnt_amount := bucket_amount bucket in
  do! burn_bucket bucket in
  do! on_resource_mut resource_lock (decrease_total_supply burnt_amount) in
  do! unlock_substate resource_lock in
  ret IrUnit.

Definition bucket_create_proof (bucket_id : BucketId) : W InvokeResult :=
  let! state := get in
  let! bucket := lift (get_bucket state bucket_id) in
  let! resource_lock := lock_substate (SidResource (bucket_resource_address bucket)) LockRead in
  let! checked := check_access_rules resource_lock Withdraw in
  do! unlock_substate resource_lock in
  do! invoke_hook checked.1 checked.2 Withdraw in
  let! locked_funds := on_bucket_mut bucket_id (map_err RuntimeResourceError bucket_lock_all) in
  let! proof_id := provide_proof_id in
  do! new_proof proof_id locked_funds in
  ret (IrProof proof_id).

Definition bucket_invoke (bucket_ref : option BucketId) (action : BucketAction) : W InvokeResult :=
  do! invoke_modules_on_runtime_call "bucket_invoke" in
  let! bucket_id := lift (ok_or bucket_ref InvalidArgument) in
  match action with
  | BaGetResourceAddress => bucket_read bucket_id (λ b, IrResource (bucket_resource_address b))
  | BaGetResourceType => bucket_read bucket_id (λ b, IrResourceType (bucket_resource_type b))
  | BaGetAmount => bucket_read bucket_id (λ b, IrAmount (bucket_amount b))
  | BaTake amount => bucket_take bucket_id amount
  | BaTakeConfidential proof => bucket_take_confidential bucket_id proof
  | BaJoin other => bucket_join bucket_id other
  | BaBurn => bucket_burn bucket_id
  | BaCreateProof => bucket_create_proof bucket_id
  | BaGetNonFungibleIds => bucket_read bucket_id (λ b, IrIds (bucket_non_fungible_ids b))
  | BaGetNonFungibles =>
      bucket_read bucket_id (λ b,
        IrNonFungibles ((λ id, MkNonFungibleAddress (bucket_resource_address b) id)
                          <$> btree_iter (bucket_non_fungible_ids b)))
  | BaCountConfidentialCommitments => bucket_read bucket_id (λ b, IrAmount (bucket_commitments b))
  end.

(** ** Proofs *)
Inductive ProofAction :=
  | PaGetAmount
  | PaGetResourceAddress
  | PaGetResourceType
  | PaGetNonFungibles
  | PaAuthorize
  | PaDropAuthorize
  | PaDrop.

Definition proof_exists (self : WorkingState) (proof_id : ProofId) : bool :=
  match proofs self !! proof_id with Some _ => true | None => false end.

Definition proof_read (proof_id : ProofId) (f : Proof → InvokeResult) : W InvokeResult :=
  λ state, (let? proof := state_get_proof state proof_id in Ok (f proof), state).

Definition proof_authorize (proof_id : ProofId) : W InvokeResult := λ state,
  if negb (proof_exists state proof_id) then (Ok (IrAuthorized false), state)
  else
    (do! on_scope (modify (λ c, set_auth_scope (add_proof proof_id (auth_scope c)) c)) in
     ret (IrAuthorized true)) state.
Definition proof_drop_authorize (proof_id : ProofId) : W InvokeResult := λ state,
  if negb (proof_exists state proof_id) then (Err (ProofNotFound proof_id), state)
  else
    (do! on_scope (modify (λ c, set_auth_scope (remove_proof proof_id (auth_scope c)).2 c)) in
     ret IrUnit) state.

Definition proof_invoke (proof_ref : option ProofId) (action : ProofAction) : W InvokeResult :=
  do! invoke_modules_on_runtime_call "proof_invoke" in
  let! proof_id := lift (ok_or proof_ref InvalidArgument) in
  match action with
  | PaGetAmount => proof_read proof_id (λ p, IrAmount (proof_amount p))
  | PaGetResourceAddress => proof_read proof_id (λ p, IrResource (proof_resource_address p))
  | PaGetResourceType => proof_read proof_id (λ p, IrResourceType (proof_resource_type p))
  | PaGetNonFungibles => proof_read proof_id (λ p, IrIds (proof_non_fungible_token_ids p))
  | PaAuthorize => proof_authorize proof_id
  | PaDropAuthorize => proof_drop_authorize proof_id
  | PaDrop => do! drop_proof proof_id in ret IrUnit
  end.

(** ** Resources *)
Record CreateResourceArg := MkCreateResourceArg {
  cr_resource_type : ResourceType;
  cr_owner_rule : OwnerRule;
  cr_access_rules : ResourceAccessRules;
  cr_metadata : gmap string string;
  cr_mint_arg : option MintArg;
  cr_view_key : option PublicKeyBytes;
  cr_authorize_hook : option (ComponentAddress * string);
  cr_address_allocation : option N;
  cr_divisibility : Z;
  cr_tracking : bool;
}.
Definition MAX_DIVISIBILITY : Z := 18.

Inductive ResourceAction :=
  | RaCreate (arg : CreateResourceArg)
  | RaGetTotalSupply
  | RaGetResourceType
  | RaMint (mint_arg : MintArg)
  | RaRecall (vault_id : VaultId) (resource : ResourceDiscriminator)
  | RaGetNonFungible (id : NonFungibleId)
  | RaUpdateNonFungibleData (id : NonFungibleId) (data : Value)
  | RaUpdateAccessRules (rules : ResourceAccessRules)
  | RaSetVaultFreeze (vault_id : VaultId) (flags : VaultFreezeFlags)
  | RaStealthTransfer (transfer : StealthTransferStatement) (input_bucket : option BucketId)
  | RaSetStealthUtxosFreeze (utxos : list CommitmentBytes) (freeze : bool)
  | RaStealthUtxoBurn (utxo_id : CommitmentBytes) (value_proof : option StealthValueProof).

Definition get_template_for_component (component_address : ComponentAddress) :
    W TemplateAddress := λ self,
  match list_find (λ p, alloc_substate_id p.2 = SidComponent component_address)
          (map_to_list (address_allocations self)) with
  | Some (_, (_, alloc)) =>
      (ok_or (alloc_template_address alloc) AddressAllocationNoTemplate, self)
  | None =>
      (let! component := on_store (load_and_cache_component component_address) in
       ret (template_address component)) self
  end.

Definition check_resource_auth_hook (hook : ComponentAddress * string) : W unit :=
  let! template_address := get_template_for_component hook.1 in
  let! template := lift (get_template_def template_address) in
  let! func := lift (ok_or (snd <$> list_find (λ f, fn_name f = hook.2) template) InvalidArgument) in
  do! guard_err (fn_is_mut func) InvalidArgument in
  do! guard_err (match fn_output func with AtUnit => false | _ => true end) InvalidArgument in
  do! guard_err (negb (length (fn_arguments func) =? 3)%nat) InvalidArgument in
  let! a1 := lift (expect (fn_arguments func !! 1%nat)) in
  do! guard_err (negb (bool_decide (abi_other a1 = Some "ResourceAuthAction"))) InvalidArgument in
  let! a2 := lift (expect (fn_arguments func !! 2%nat)) in
  guard_err (negb (bool_decide (abi_other a2 = Some "AuthHookCaller"))) InvalidArgument.

Definition resource_create (arg : CreateResourceArg) : W InvokeResult :=
  do! guard_err (match cr_mint_arg arg with
                 | Some mint => bool_decide (as_resource_type mint ≠ cr_resource_type arg)
                 | None => false
                 end) InvalidArgument in
  do! guard_err (match cr_view_key arg with Some _ => true | None => false end
                 && negb (bool_decide (cr_resource_type arg = RtConfidential))
                 && negb (bool_decide (cr_resource_type arg = RtStealth))) InvalidArgument in
  do! guard_err (MAX_DIVISIBILITY <? cr_divisibility arg) InvalidArgument in
  do! guard_err (bool_decide (cr_resource_type arg = RtNonFungible) && (0 <? cr_divisibility arg))
        InvalidArgument in
  let owner_key :=
    match cr_owner_rule arg with
    | OwnedBySigner => Some seal_signer_public_key
    | ByPublicKey key => Some key
    | OwnerNone | ByAccessRule _ => None
    end in
  do! match cr_authorize_hook arg with
      | Some hook => check_resource_auth_hook hook
      | None => ret tt
      end in
  let resource :=
    resource_new (cr_resource_type arg) owner_key (cr_owner_rule arg) (cr_access_rules arg)
      (cr_metadata arg) (cr_view_key arg) (cr_authorize_hook arg) (cr_divisibility arg)
      (cr_tracking arg) in
  let! resource_address :=
    match cr_address_allocation arg with
    | Some allocation =>
        let! alloc := use_allocated_address allocation in
        lift (ok_or (as_resource_address (alloc_substate_id alloc))
                (AddressAllocationTypeMismatch (alloc_substate_id alloc)))
    | None => with_ids new_resource_address
    end in
  let payload :=
    [("resource_type", show_resource_type (res_type resource))]
    ++ match res_metadata resource !! "SYMBOL" with Some v => [("SYMBOL", v)] | None => [] end
    ++ match res_metadata resource !! "IMAGE_URL" with Some v => [("IMAGE_URL", v)] | None => [] end in
  do! emit_std_event "resource" "create" (SidResource resource_address) payload in
  do! new_substate encoded_len (SidResource resource_address) (SvResource resource) in
  let! resource_lock := lock_substate (SidResource resource_address) LockWrite in
  let! output_bucket :=
    match cr_mint_arg arg with
    | Some mint_arg =>
        let! container := mint_resource encoded_len resource_lock mint_arg in
        let! bucket_id := provide_bucket_id in
        do! new_bucket bucket_id container in
        ret (Some bucket_id)
    | None => ret None
    end in
  do! unlock_substate resource_lock in
  ret (IrNewResource resource_address output_bucket).

Definition resource_read (resource_address : ResourceAddress) (f : Resource → InvokeResult) :
    W InvokeResult :=
  let! locked := lock_substate (SidResource resource_address) LockRead in
  let! state := get in
  let! resource := lift (get_resource state locked) in
  do! unlock_substate locked in
  ret (f resource).

Definition resource_mint (resource_address : ResourceAddress) (mint_arg : MintArg) :
    W InvokeResult :=
  let! resource_lock := lock_substate (SidResource resource_address) LockWrite in
  let! checked := check_access_rules resource_lock Mint in
  do! invoke_hook checked.1 checked.2 Mint in
  let! resource := mint_resource encoded_len resource_lock mint_arg in
  let! bucket_id := provide_bucket_id in
  do! emit_std_event "resource" "mint" (SidResource resource_address)
        [("resource_type", show_resource_type (resource_type resource));
         ("amount", show_amount (amount resource))] in
  do! new_bucket bucket_id resource in
  do! unlock_substate resource_lock in
  ret (IrBucket bucket_id).

(** The first block of the actions that release the resource before the hook. *)
Definition authorize_resource (resource_address : ResourceAddress) (action : ResourceAuthAction) :
    W unit :=
  let! resource_lock := lock_substate (SidResource resource_address) LockRead in
  let! checked := check_access_rules resource_lock action in
  do! unlock_substate resource_lock in
  invoke_hook checked.1 checked.2 action.

Definition resource_recall (resource_address : ResourceAddress) (vault_id : VaultId)
    (disc : ResourceDiscriminator) : W InvokeResult :=
  do! authorize_resource resource_address Recall in
  let! vault_lock := lock_substate (SidVault vault_id) LockWrite in
  let! resource := recall_resource_from_vault vault_lock disc in
  do! emit_std_event "resource" "recall" (SidResource resource_address)
        [("resource_type", show_resource_type (resource_type resource));
         ("vault_id", show_vault vault_id);
         ("recall_desc", show_discriminator disc)] in
  let! bucket_id := provide_bucket_id in
  do! new_bucket bucket_id resource in
  do! unlock_substate vault_lock in
  ret (IrBucket bucket_id).

Definition resource_get_non_fungible (resource_address : ResourceAddress) (id : NonFungibleId) :
    W InvokeResult :=
  let addr := MkNonFungibleAddress resource_address id in
  let! nft_lock := lock_substate (SidNonFungible addr) LockRead in
  let! state := get in
  let! nf_container := lift (get_non_fungible state nft_lock) in
  if nf_is_burnt nf_container then throw (InvalidOpNonFungibleBurnt resource_address id)
  else
    do! unlock_substate nft_lock in
    ret (IrNonFungibles [addr]).

Definition resource_update_nf_data (resource_address : ResourceAddress) (id : NonFungibleId)
    (data : Value) : W InvokeResult :=
  do! authorize_resource resource_address UpdateNonFungibleData in
  let! locked :=
    lock_substate (SidNonFungible (MkNonFungibleAddress resource_address id)) LockWrite in
  do! on_non_fungible_mut locked (λ nft,
        match set_mutable_data data nft with
        | Some nft' => (Ok tt, nft')
        | None => (Err (InvalidOpNonFungibleBurnt resource_address id), nft)
        end) in
  do! emit_std_event "resource" "update_nonfungible_data" (SidResource resource_address)
        [("resource_type", show_resource_type RtNonFungible)] in
  do! unlock_substate locked in
  ret IrUnit.

Definition resource_update_access_rules (resource_address : ResourceAddress)
    (access_rules : ResourceAccessRules) : W InvokeResult :=
  let! resource_lock := lock_substate (SidResource resource_address) LockWrite in
  let! checked := check_access_rules resource_lock UpdateAccessRules in
  do! invoke_hook checked.1 checked.2 UpdateAccessRules in
  let! resource_type :=
    on_resource_mut resource_lock (λ r, (Ok (res_type r), set_resource_access_rules access_rules r)) in
  do! emit_std_event "resource" "update_access_rules" (SidResource resource_address)
        [("resource_type", show_resource_type resource_type)] in
  do! unlock_substate resource_lock in
  ret IrUnit.

Definition resource_set_vault_freeze (resource_address : ResourceAddress) (vault_id : VaultId)
    (flags : VaultFreezeFlags) : W InvokeResult :=
  if negb (flags_validate flags) then throw InvalidArgument
  else
    do! authorize_resource resource_address Freeze in
    let! vault_lock := lock_substate (SidVault vault_id) LockWrite in
    do! set_vault_freeze vault_lock flags in
    let action := if flags_is_empty flags then "freeze" else "unfreeze" in
    do! emit_std_event "resource" action (SidResource resource_address)
          [("vault_id", show_vault vault_id); ("flags", show_flags flags)] in
    do! unlock_substate vault_lock in
    ret IrUnit.

Definition stealth_transfer (resource_address : ResourceAddressRef)
    (statement : StealthTransferStatement) (revealed_funds_bucket_id : option BucketId) :
    W (option BucketId) :=
  let! maybe_container :=
    execute_stealth_transfer encoded_len resource_address statement revealed_funds_bucket_id in
  match maybe_container with
  | None => ret None
  | Some container =>
      let! bucket_id := zoom object_ids set_object_ids next_bucket_id in
      do! new_bucket bucket_id container in
      ret (Some bucket_id)
  end.

(** [RuntimeInterfaceImpl::pay_fee]: the fee paid by a stealth transfer. *)
Definition pay_fee_stealth (statement : StealthTransferStatement)
    (revealed_funds_bucket : option BucketId) : W unit :=
  let! maybe_container := execute_stealth_transfer encoded_len (RefAddress XTR) statement revealed_funds_bucket in
  match maybe_container with
  | None => throw NoFeesPaid
  | Some container => pay_fee container None
  end.

(** [state.get_locked_substate_mut(..)?.as_utxo_mut()]. *)
Definition on_utxo_mut {A : Type} (locked : LockedSubstate) (m : M Utxo RuntimeError A) : W A :=
  on_value into_utxo SvUtxo locked m.

Definition freeze_utxo (resource_address : ResourceAddress) (freeze : bool)
    (utxo : CommitmentBytes) : W unit :=
  let! locked := lock_substate (SidUtxo (MkUtxoAddress resource_address utxo)) LockWrite in
  do! on_utxo_mut locked (modify (if freeze then utxo_freeze else utxo_unfreeze)) in
  unlock_substate locked.
Definition resource_set_utxos_freeze (resource_address : ResourceAddress)
    (utxos : list CommitmentBytes) (freeze : bool) : W InvokeResult :=
  do! guard_err (bool_decide (utxos = [])) InvalidArgument in
  let! resource_lock := lock_substate (SidResource resource_address) LockRead in
  let! state := get in
  do! lift (let? resource := get_resource state resource_lock in
            if bool_decide (res_type resource ≠ RtStealth) then Err InvalidArgument
            else check_resource_access_rules state Freeze (resource_as_ownership resource)
                   (res_access_rules resource)) in
  do! for_each utxos (freeze_utxo resource_address freeze) in
  do! unlock_substate resource_lock in
  ret IrUnit.

(** The UTXO is burnt first; the value proof is checked against what is left
    in the UTXO then. *)
Definition burn_utxo (utxo_id : CommitmentBytes) (value_proof : option StealthValueProof) :
    M Utxo RuntimeError (option Z) := λ utxo,
  if is_burnt utxo then (Err (RuntimeResourceError (UtxoBurnFailed utxo_id)), utxo)
  else
    let utxo := utxo_burn utxo in
    match value_proof with
    | None => (Ok None, utxo)
    | Some value_proof =>
        let elgamal_proof :=
          match utxo_output utxo with
          | Some o => po_viewable_balance (utxo_private_output o)
          | None => None
          end in
        (let? value := res_map_err RuntimeResourceError
                         (validate_value_proof utxo_id elgamal_proof value_proof) in
         Ok (Some value), utxo)
    end.
Definition resource_stealth_burn (resource_address : ResourceAddress)
    (utxo_id : CommitmentBytes) (value_proof : option StealthValueProof) : W InvokeResult :=
  let! resource_lock := lock_substate (SidResource resource_address) LockRead in
  let! state := get in
  let! resource := lift (get_resource state resource_lock) in
  if bool_decide (res_type resource ≠ RtStealth) then throw InvalidArgument
  else
    let tracking := is_supply_tracking_enabled resource in
    do! guard_err (tracking && match value_proof with None => true | Some _ => false end)
          InvalidArgument in
    do! lift (check_resource_access_rules state Burn (resource_as_ownership resource)
                (res_access_rules resource)) in
    do! unlock_substate resource_lock in
    let! utxo_lock :=
      lock_substate (SidUtxo (MkUtxoAddress resource_address utxo_id)) LockWrite in
    let! maybe_value :=
      on_utxo_mut utxo_lock (burn_utxo utxo_id (if tracking then value_proof else None)) in
    do! match maybe_value with
        | Some value =>
            if Amount.is_positive value then
              let! resource_lock := lock_substate (SidResource resource_address) LockWrite in
              do! on_resource_mut resource_lock (decrease_total_supply value) in
              unlock_substate resource_lock
            else ret tt
        | None => ret tt
        end in
    do! unlock_substate utxo_lock in
    ret IrUnit.

Definition resource_invoke (resource_ref : option ResourceAddress) (action : ResourceAction) :
    W InvokeResult :=
  do! invoke_modules_on_runtime_call "resource_invoke" in
  match action with
  | RaCreate arg => resource_create arg
  | _ =>
      let! resource_address := lift (ok_or resource_ref InvalidArgument) in
      match action with
      | RaCreate arg => resource_create arg
      | RaGetTotalSupply => resource_read resource_address (λ r, IrSupply (total_supply r))
      | RaGetResourceType => resource_read resource_address (λ r, IrResourceType (res_type r))
      | RaMint mint_arg => resource_mint resource_address mint_arg
      | RaRecall vault_id disc => resource_recall resource_address vault_id disc
      | RaGetNonFungible id => resource_get_non_fungible resource_address id
      | RaUpdateNonFungibleData id data => resource_update_nf_data resource_address id data
      | RaUpdateAccessRules rules => resource_update_access_rules resource_address rules
      | RaSetVaultFreeze vault_id flags => resource_set_vault_freeze resource_address vault_id flags
      | RaStealthTransfer transfer input_bucket =>
          let! maybe_bucket := stealth_transfer (RefAddress resource_address) transfer input_bucket in
          ret (IrOptBucket maybe_bucket)
      | RaSetStealthUtxosFreeze utxos freeze => resource_set_utxos_freeze resource_address utxos freeze
      | RaStealthUtxoBurn utxo_id value_proof =>
          resource_stealth_burn resource_address utxo_id value_proof
      end
  end.
End runtime.
