(* ===== verification/RuntimeCalls.v ===== *)
(** * The other runtime calls

    [engine/src/runtime/impl.rs] and [tracker.rs]: the calls on components, the
    workspace, non-fungibles, address allocations, events and logs, burn and fee
    claims and templates.  The hash functions and the verifiers of signatures and
    burn claims are parameters. *)
From stdpp Require Import base gmap list strings numbers pretty.
From S2P Require Import Prelude Bor BTree Ids IndexedValue IdProvider Amount Crypto Confidential.
From S2P Require Import ResourceContainer FreezeFlags Proof Bucket Vault AccessRules RuntimeError.
From S2P Require Import Auth Locking Fees Substate Stealth FeeState Scope StateStore Workspace.
From S2P Require Import WorkingState Runtime.
Open Scope Z_scope.

#[local] Notation "'W'" := (M WorkingState RuntimeError) (only parsing).

(** ** Arguments of the calls *)
Record CreateComponentArg := MkCreateComponentArg {
  cc_encoded_state : Value;
  cc_owner_rule : OwnerRule;
  cc_access_rules : ComponentAccessRules;
  cc_address_allocation : option AddressAllocationId;
}.
Inductive ComponentAction :=
  | CaCreate (arg : CreateComponentArg)
  | CaGetState
  | CaSetState (state : Value)
  | CaSetAccessRules (rules : ComponentAccessRules)
  | CaGetTemplateAddress.
Inductive WorkspaceAction :=
  | WaPutLastInstructionOutput (key : WorkspaceId)
  | WaGet (id : WorkspaceOffsetId)
  | WaDropAllProofs
  | WaAssertBucketContains (key : WorkspaceOffsetId) (resource_address : ResourceAddress)
      (min_amount : Z).
Inductive NonFungibleAction := NaGetData | NaGetMutableData.
Inductive CallerContextAction := CcGetCallerPublicKey | CcGetComponentAddress.
Inductive AddressAllocationInvokeArg :=
  | AaGetAddress (id : AddressAllocationId)
  | AaCreateComponentAllocation (public_key : option PublicKeyBytes)
  | AaCreateResourceAllocation.
Inductive BuiltinTemplate := BtAccount | BtAccountNft.
Inductive AllocatableAddressType := AllocComponent | AllocResource.
Record SignatureVerifyArg := MkSignatureVerifyArg {
  sv_public_key : list N;
  sv_domain : list N;
  sv_message : list N;
  sv_payload : list N;
}.
Record MinotariBurnClaimProof := MkMinotariBurnClaimProof {
  burn_public_key : PublicKeyBytes;
  claim_commitment : CommitmentBytes;
  claim_proof : list N;
  claim_value : Z;
}.

(** A loaded template: its name and functions. *)
Record TemplateDef := MkTemplateDef {
  template_name : string;
  template_functions : list FunctionDef;
}.
Definition get_function (self : TemplateDef) (name : string) : option FunctionDef :=
  snd <$> list_find (λ f, fn_name f = name) (template_functions self).

(** The domain-separated hashes of these calls; a hash is a 32-byte number, or
    its bytes where the bytes are used. *)
Class EngineHashes := {
  hash_entity_id : N → Z → N;
  hash_uuid : N → N → Z → list N;
  hash_uuid_length : ∀ tx e n, length (hash_uuid tx e n) = 32%nat;
  hash_component_key : TemplateAddress → PublicKeyBytes → N;
  hash_template_code : list N → N;
  hash_template_address : PublicKeyBytes → N → N;
}.

(** [EntityId] is the first 20 bytes of an object key. *)
Definition as_entity_id (key : N) : N := (key / 256 ^ 12)%N.
Definition MAX_ENTITY_IDS : Z := 1000.
Definition ACCOUNT_TEMPLATE_ADDRESS : TemplateAddress := 0.
Definition NFT_FAUCET_TEMPLATE_ADDRESS : TemplateAddress := 1.

(** [Event::validate_custom_topic]. *)
Definition topic_char (c : Ascii.ascii) : bool :=
  let n := Ascii.N_of_ascii c in
  ((48 <=? n) && (n <=? 57) || (65 <=? n) && (n <=? 90) || (97 <=? n) && (n <=? 122)
   || (n =? 46) || (n =? 95))%N.
Definition validate_custom_topic (topic : string) : bool :=
  negb (String.prefix "std." topic) && (String.length topic <=? 255)%nat
  && forallb topic_char (String.list_ascii_of_string topic).

(** [self.tracker.get_template_address()]. *)
Definition tracker_template_address : W TemplateAddress := λ state,
  (let? t := state_current_template state in Ok t.1, state).

Section calls.
Context `{Ii : !I192} `{Ic : !Crypto} `{Cb : !Cbor} `{Ih : !IdHashes} `{Eh : !EngineHashes}.
Context `{Hi : !HashIter} `{Dp : !Display}.
Variable encoded_len : SubstateValue → option Z.
Variable modules : list RuntimeModule.
(** [RuntimeInterfaceImpl::get_template_def] through the template provider. *)
Variable get_template_def : TemplateAddress → res RuntimeError TemplateDef.
Variable seal_signer_public_key : PublicKeyBytes.
(** [ClaimProofVerifier::verify_claim_proof] and the verifier of a signature. *)
Variable verify_claim_proof : Z → PublicKeyBytes → MinotariBurnClaimProof → bool.
Variable verify_signature : SignatureVerifyArg → bool.

Notation on_call := (invoke_modules_on_runtime_call modules).

Definition invoke_modules_on_runtime_event (event : RuntimeEvent) : W unit :=
  for_each modules (λ m, on_runtime_event m event).

(** ** Ids, events and logs *)
(** [EntityIdProvider::next_entity_id]; [trailing_bytes] of 20 bytes. *)
Definition next_entity_id : W N := λ state,
  let n := entity_ids state in
  let state' := set_entity_ids (u32_wrapping_succ n) state in
  if MAX_ENTITY_IDS <=? n then (Err (EntityIdProviderError MAX_ENTITY_IDS), state')
  else (Ok (hash_entity_id (transaction_hash state) n mod 256 ^ 20)%N, state').

Definition new_uuid (entity_id tx_hash : N) : M ObjectIds IdProviderError (list N) :=
  let! n := next_uuid_id in ret (hash_uuid tx_hash entity_id n).
(** [IdProvider::get_random_bytes]: at most [len] rounds, each adds up to 32
    bytes. *)
Fixpoint random_rounds (rounds len : nat) (entity_id tx_hash : N) (result : list N) :
    M ObjectIds IdProviderError (list N) :=
  if (len <=? length result)%nat then ret result
  else
    match rounds with
    | O => ret result
    | S rounds' =>
        let! bytes := new_uuid entity_id tx_hash in
        random_rounds rounds' len entity_id tx_hash
          (result ++ firstn (length bytes `min` (len - length result))%nat bytes)
    end.
Definition get_random_bytes (len : nat) (entity_id tx_hash : N) :
    M ObjectIds IdProviderError (list N) := random_rounds len len entity_id tx_hash [].

Definition emit_event (topic : string) (payload : gmap string string) : W unit :=
  do! guard_err (negb (validate_custom_topic topic)) (InvalidEventTopic topic) in
  do! on_call "emit_event" in
  let! state := get in
  let substate_id :=
    match component_lock (current_call_scope state) with
    | Some l => SidComponent <$> as_component_address (ls_address l)
    | None => None
    end in
  let! template := lift (state_current_template state) in
  push_event (MkEvent substate_id template.1 (transaction_hash state)
                (template.2 +:+ "." +:+ topic) payload).

Definition emit_log (level : N) (message : string) : W unit :=
  do! on_call "emit_log" in push_log (MkLogEntry message level).

(** ** Components *)
(** [validate_component_access_rule_methods]. *)
Definition validate_component_access_rule_methods (access_rules : ComponentAccessRules)
    (template_def : TemplateDef) : res RuntimeError unit :=
  check_each (map_to_list (method_access access_rules)) (λ p,
    if forallb (λ f, negb (bool_decide (fn_name f = p.1))) (template_functions template_def)
    then Err InvalidMethodAccessRule else Ok tt).

(** [StateTracker::new_component]. *)
Definition new_component (component_state : Value) (owner_key : option PublicKeyBytes)
    (owner_rule : OwnerRule) (access_rules : ComponentAccessRules)
    (address_allocation : option AddressAllocationId) : W ComponentAddress := λ state,
  (let! template := lift (state_current_template state) in
   let! component_address :=
     match address_allocation with
     | Some id =>
         let! alloc := use_allocated_address id in
         lift (ok_or (as_component_address (alloc_substate_id alloc))
                 (AddressAllocationTypeMismatch (alloc_substate_id alloc)))
     | None => with_ids new_component_address
     end in
   let component :=
     MkComponentHeader template.1 template.2 owner_key owner_rule access_rules
       (as_entity_id component_address) component_state in
   let substate_id := SidComponent component_address in
   let! state := get in
   do! guard_err (substate_exists state substate_id) (ComponentAlreadyExists component_address) in
   let! indexed := lift (res_map_err RuntimeIndexedValueError (from_value component_state)) in
   do! validate_component_state None indexed in
   do! new_substate encoded_len substate_id (SvComponent component) in
   do! push_event (event_std (Some substate_id) template.1 (transaction_hash state)
                     "component" "created" {["module_name" := template.2]}) in
   ret component_address) state.

Definition component_create (arg : CreateComponentArg) : W InvokeResult :=
  let! template_addr := tracker_template_address in
  let! template_def := lift (get_template_def template_addr) in
  do! lift (validate_component_access_rule_methods (cc_access_rules arg) template_def) in
  let owner_key :=
    match cc_owner_rule arg with
    | OwnedBySigner => Some seal_signer_public_key
    | ByPublicKey key => Some key
    | OwnerNone | ByAccessRule _ => None
    end in
  let! component_address :=
    new_component (cc_encoded_state arg) owner_key (cc_owner_rule arg) (cc_access_rules arg)
      (cc_address_allocation arg) in
  ret (IrComponent component_address).

Definition read_component_state (component_address : ComponentAddress) : W InvokeResult :=
  let! component_lock := lock_substate (SidComponent component_address) LockRead in
  let! state := get in
  let! component := lift (get_component state component_lock) in
  do! unlock_substate component_lock in
  ret (IrValue (component_state component)).
Definition component_get_state (component_address : ComponentAddress) : W InvokeResult := λ state,
  match component_lock (current_call_scope state) with
  | Some lock =>
      if bool_decide (ls_address lock = SidComponent component_address)
      then (let? component := get_component state lock in Ok (IrValue (component_state component)),
            state)
      else read_component_state component_address state
  | None => read_component_state component_address state
  end.

(** The lock of the current component, which is the one a call may change. *)
Definition current_component_lock (action : string) : W LockedSubstate := λ state,
  (ok_or (component_lock (current_call_scope state)) (NotInComponentContext (NativeOther action)),
   state).

Definition component_set_state (component_address : ComponentAddress) (component_state' : Value) :
    W InvokeResult :=
  let! component_lock := current_component_lock "SetState" in
  do! guard_err (bool_decide (ls_address component_lock ≠ SidComponent component_address))
        (AccessDeniedSetComponentState (SidComponent component_address) (ls_address component_lock)) in
  do! modify_component_with component_lock (λ component,
        if value_eqb component_state' (component_state component) then (false, component)
        else (true, set_component_state component_state' component)) in
  ret IrUnit.

Definition component_set_access_rules (component_address : ComponentAddress)
    (access_rules : ComponentAccessRules) : W InvokeResult :=
  let! component_lock := current_component_lock "SetAccessRules" in
  do! guard_err (bool_decide (ls_address component_lock ≠ SidComponent component_address))
        (RuntimeLockError (SubstateNotLocked (SidComponent component_address))) in
  let! state := get in
  let! component := lift (get_component state component_lock) in
  do! lift (require_ownership state (NativeOther "SetAccessRules")
              (component_as_ownership component)) in
  do! modify_component_with component_lock (λ component,
        if bool_decide (access_rules = component_access_rules component) then (false, component)
        else (true, set_access_rules access_rules component)) in
  ret IrUnit.

Definition component_get_template (component_address : ComponentAddress) : W InvokeResult :=
  λ state,
  (let? substate := get_unmodified_substate (store state) (SidComponent component_address) in
   let? component := ok_or (as_component (substate_value substate))
                       (ComponentNotFound component_address) in
   Ok (IrTemplate (template_address component)), state).

Definition component_invoke (component_ref : option ComponentAddress) (action : ComponentAction) :
    W InvokeResult :=
  do! on_call "component_invoke" in
  match action with
  | CaCreate arg => component_create arg
  | CaGetState =>
      let! a := lift (ok_or component_ref InvalidArgument) in component_get_state a
  | CaSetState state =>
      let! a := lift (ok_or component_ref InvalidArgument) in component_set_state a state
  | CaSetAccessRules rules =>
      let! a := lift (ok_or component_ref InvalidArgument) in component_set_access_rules a rules
  | CaGetTemplateAddress =>
      let! a := lift (ok_or component_ref InvalidArgument) in component_get_template a
  end.

(** ** The workspace *)
(** [RuntimeInterfaceImpl::validate_return_value]. *)
Definition validate_output (state : WorkingState) (value : IndexedValue) : res RuntimeError unit :=
  let? _ := check_each (bucket_ids (iv_indexed value)) (λ b,
    let? _ := get_bucket state b in Ok tt) in
  let? _ := check_each (proof_ids (iv_indexed value)) (λ p,
    let? _ := state_get_proof state p in Ok tt) in
  check_each (value_referenced_substates value) (λ id,
    if negb (substate_exists state id) then Err (NonExistentSubstateReturned id) else Ok tt).

Definition workspace_item (state : WorkingState) (id : WorkspaceOffsetId) : res RuntimeError Value :=
  ok_or (workspace_get (workspace state) id) (ItemNotOnWorkspace (offset_id id)).

Definition assert_bucket_contains (state : WorkingState) (key : WorkspaceOffsetId)
    (resource_address : ResourceAddress) (min_amount : Z) : res RuntimeError unit :=
  let? value := workspace_item state key in
  let? indexed := res_map_err RuntimeIndexedValueError (from_value value) in
  let? bucket_id := ok_or (head (bucket_ids indexed)) (RuntimeAssertError AssertInvalidBucket) in
  let? bucket := get_bucket state bucket_id in
  if bool_decide (bucket_resource_address bucket ≠ resource_address) then
    Err (RuntimeAssertError (AssertInvalidResource resource_address (bucket_resource_address bucket)))
  else if bucket_amount bucket <? min_amount then
    Err (RuntimeAssertError (AssertInvalidAmount min_amount (bucket_amount bucket)))
  else Ok tt.

Definition workspace_invoke (action : WorkspaceAction) : W InvokeResult :=
  do! on_call "workspace_invoke" in
  match action with
  | WaPutLastInstructionOutput key =>
      let! maybe_output := (λ state, (Ok (last_instruction_output state), set_last_output None state)) in
      let! last_output := lift (ok_or maybe_output NoLastInstructionOutput) in
      let! state := get in
      do! lift (validate_output state last_output) in
      do! zoom workspace set_workspace (modify (workspace_insert key last_output)) in
      ret IrUnit
  | WaGet id =>
      let! state := get in
      let! value := lift (workspace_item state id) in
      ret (IrValue value)
  | WaDropAllProofs =>
      let! proofs := zoom workspace set_workspace
                       (λ w, let '(p, w') := drain_all_proofs w in (Ok p, w')) in
      do! for_each (hash_iter proofs) drop_proof in
      ret IrUnit
  | WaAssertBucketContains key resource_address min_amount =>
      let! state := get in
      do! lift (assert_bucket_contains state key resource_address min_amount) in
      ret IrUnit
  end.

Definition set_last_instruction_output (value : IndexedValue) : W unit :=
  do! on_call "set_last_instruction_output" in modify (set_last_output (Some value)).

(** ** Non-fungibles, randomness and context *)
Definition non_fungible_invoke (nf_addr : NonFungibleAddress) (action : NonFungibleAction) :
    W InvokeResult :=
  do! on_call "non_fungible_invoke" in
  let! nft_lock := lock_substate (SidNonFungible nf_addr) LockRead in
  let! state := get in
  let! nft := lift (get_non_fungible state nft_lock) in
  let! contents := lift (ok_or (nf_contents nft)
                           (InvalidOpNonFungibleBurnt (nfa_resource nf_addr) (nfa_id nf_addr))) in
  do! unlock_substate nft_lock in
  ret (IrValue (match action with
                | NaGetData => nf_data contents
                | NaGetMutableData => nf_mutable_data contents
                end)).

Definition consensus_invoke : W InvokeResult :=
  do! on_call "consensus_invoke" in
  let! state := get in
  let! epoch := lift (ok_or (current_epoch state) VirtualSubstateNotFound) in
  ret (IrEpoch epoch).

Definition generate_random_invoke (len : nat) : W InvokeResult :=
  do! on_call "generate_random_invoke" in
  let! bytes := with_ids (get_random_bytes len) in
  ret (IrBytes bytes).
Definition generate_uuid : W InvokeResult :=
  do! on_call "generate_uuid" in
  let! bytes := with_ids new_uuid in
  ret (IrBytes bytes).

Definition caller_context_invoke (action : CallerContextAction) : W InvokeResult :=
  do! on_call "caller_context_invoke" in
  match action with
  | CcGetCallerPublicKey => ret (IrKey seal_signer_public_key)
  | CcGetComponentAddress =>
      let! state := get in
      match component_lock (current_call_scope state) with
      | Some l =>
          let! a := lift (expect (as_component_address (ls_address l))) in
          ret (IrOptComponent (Some a))
      | None => ret (IrOptComponent None)
      end
  end.

(** ** Address allocations *)
Definition allocate_address_invoke (action : AddressAllocationInvokeArg) : W InvokeResult :=
  do! on_call "allocate_address_invoke" in
  match action with
  | AaGetAddress id =>
      let! state := get in
      let! allocation := lift (get_allocated_address state id) in
      match alloc_substate_id allocation with
      | SidComponent addr => ret (IrComponent addr)
      | SidResource addr => ret (IrResource addr)
      | _ => panic
      end
  | AaCreateComponentAllocation public_key =>
      do! lift (match public_key with
                | Some pk =>
                    let? _ := ok_or (point_from_canonical_bytes pk) InvalidArgument in Ok tt
                | None => Ok tt
                end) in
      let! template := tracker_template_address in
      let! address :=
        match public_key with
        | Some pk => ret (hash_component_key template pk)
        | None => with_ids new_component_address
        end in
      let! id := new_address_allocation (SidComponent address) in
      ret (IrAllocation id)
  | AaCreateResourceAllocation =>
      let! address := with_ids new_resource_address in
      let! id := new_address_allocation (SidResource address) in
      ret (IrAllocation id)
  end.

(** [RuntimeInterfaceImpl::allocate_address]: an allocation by an instruction,
    put on the workspace. *)
Definition ids_for_entity {A : Type} (entity_id : N) (m : N → N → M ObjectIds IdProviderError A) :
    W A := λ state,
  zoom object_ids set_object_ids
    (map_err (λ e, match e with MaxIdsExceeded max => RuntimeIdProviderError max end)
       (m entity_id (transaction_hash state))) state.
Definition allocate_address (substate_type : AllocatableAddressType) (entity_id : N)
    (workspace_id : WorkspaceId) : W AddressAllocationId :=
  let! (address, encode) :=
    match substate_type with
    | AllocComponent =>
        let! a := ids_for_entity entity_id new_component_address in
        ret (SidComponent a, encode_component_allocation)
    | AllocResource =>
        let! a := ids_for_entity entity_id new_resource_address in
        ret (SidResource a, encode_resource_allocation)
    end in
  let! id := new_address_allocation address in
  let! value := lift (res_map_err RuntimeIndexedValueError (indexed_from_value (encode id))) in
  do! zoom workspace set_workspace (modify (workspace_insert workspace_id value)) in
  ret id.

(** ** Claims, templates and signatures *)
Definition claim_burn (claim : MinotariBurnClaimProof) (encrypted_data : list N) : W unit :=
  let! state := get in
  let! epoch := lift (ok_or (current_epoch state) VirtualSubstateNotFound) in
  do! guard_err (negb (verify_claim_proof epoch seal_signer_public_key claim)) InvalidClaimProof in
  do! new_substate encoded_len (SidClaimedOutputTombstone (claim_commitment claim))
        (SvClaimedOutputTombstone (claim_value claim)) in
  new_substate encoded_len (SidUtxo (MkUtxoAddress XTR (claim_commitment claim)))
    (SvUtxo (utxo_new (MkUtxoOutput (MkPrivateOutput (burn_public_key claim) encrypted_data 0 None)
                         seal_signer_public_key 0))).

Definition claim_validator_fees (pool_address : N) : W unit :=
  let! resource := withdraw_all_fees_from_pool pool_address in
  let! bucket_id := zoom object_ids set_object_ids next_bucket_id in
  do! new_bucket bucket_id resource in
  let! value :=
    lift (res_map_err RuntimeIndexedValueError (indexed_from_value (encode_bucket_id bucket_id))) in
  modify (set_last_output (Some value)).

Definition publish_template (template : list N) : W unit :=
  do! on_call "publish_template" in
  let binary_hash := hash_template_code template in
  let address := hash_template_address seal_signer_public_key binary_hash in
  do! new_substate encoded_len (SidTemplate address)
        (SvTemplate (MkPublishedTemplate seal_signer_public_key binary_hash)) in
  do! on_scope (move_node_to_owned (SidTemplate address)) in
  let! state := get in
  push_event (event_std (Some (SidTemplate address)) address (transaction_hash state)
                "template" "publish" {["template_byte_size" := pretty (length template)]}).

Definition builtin_template_invoke (builtin : BuiltinTemplate) : W InvokeResult :=
  do! on_call "builtin_template_invoke" in
  ret (IrTemplate (match builtin with
                   | BtAccount => ACCOUNT_TEMPLATE_ADDRESS
                   | BtAccountNft => NFT_FAUCET_TEMPLATE_ADDRESS
                   end)).

Definition signature_invoke (arg : SignatureVerifyArg) : W InvokeResult :=
  do! on_call "signature_invoke" in
  do! invoke_modules_on_runtime_event SignatureVerified in
  ret (IrBool (verify_signature arg)).
End calls.
