(* ===== verification/Engine.v ===== *)
(** * Templates, nested calls and the dispatch of engine calls

    [engine/src/wasm/process.rs] and the calls of
    [engine/src/transaction/processor.rs].  A template is WASM: what its code
    does is known only by the engine calls it makes, so a function of a template
    is a tree of engine calls ([Prog]).  A call that fails hands a null pointer
    back, and the code is free to go on; it may also trap at any point, for
    instance when its gas runs out.  The code also allocates the memory the result
    of a call is written to; if that fails the engine writes a log entry and the
    code goes on as after any call.  Nothing else is assumed of the code.

    A call of another component or template runs its code in the same way.  The
    recursion is bounded by a fuel, which [CallDepth.v] shows to be irrelevant
    once it exceeds the maximum call depth. *)
From stdpp Require Import base gmap list strings numbers pretty.
From S2P Require Import Prelude Bor BTree Ids IndexedValue IdProvider Amount Crypto Confidential.
From S2P Require Import ResourceContainer FreezeFlags Proof Bucket Vault AccessRules RuntimeError.
From S2P Require Import Auth Locking Fees Substate Stealth FeeState Scope StateStore Workspace.
From S2P Require Import WorkingState Runtime RuntimeCalls.
Open Scope Z_scope.

#[local] Notation "'W'" := (M WorkingState RuntimeError) (only parsing).

Inductive TransactionError :=
  | TeWasm (engine_error : option RuntimeError)
  | TeTemplateNotFound (address : TemplateAddress)
  | TeRuntime (e : RuntimeError)
  | TeFailedToLoadTemplate (address : TemplateAddress)
  | TeBor
  | TeValueVisitor (e : IndexedValueError)
  | TeFunctionNotFound (name : string)
  | TeInvariant
  | TeLoadTemplate
  | TeWasmBinaryTooBig (size max : nat).
Notation "'T'" := (M WorkingState TransactionError) (only parsing).

(** [?] on a [RuntimeError] in a function that returns a [TransactionError]. *)
Definition rt {A : Type} (m : W A) : T A := map_err TeRuntime m.

(** ** Instruction arguments and calls

    A literal is its bytes in the source; [None] is a literal that does not
    decode. *)
Inductive InstructionArg :=
  | ArgWorkspace (id : WorkspaceOffsetId)
  | ArgLiteral (value : option Value).
Inductive ComponentCall :=
  | CallAddress (address : ComponentAddress)
  | CallWorkspace (id : WorkspaceId).
Inductive CallAction :=
  | CallFunction (template_address : TemplateAddress) (function : string)
      (args : list (option Value))
  | CallMethod (component_address : ComponentAddress) (method : string)
      (args : list (option Value)).

(** [EngineOp] with its decoded argument.  [OpUndecodable] is an argument that
    does not decode, [OpInvalidArgs] an argument whose own arguments do not: the
    call is charged before they are looked at. *)
Inductive EngineOp :=
  | OpEmitLog (level : N) (message : string)
  | OpComponentInvoke (component_ref : option ComponentAddress) (action : ComponentAction)
  | OpResourceInvoke (resource_ref : option ResourceAddress) (action : ResourceAction)
  | OpVaultInvoke (vault_ref : VaultRef) (action : VaultAction)
  | OpBucketInvoke (bucket_ref : option BucketId) (action : BucketAction)
  | OpWorkspaceInvoke (action : WorkspaceAction)
  | OpNonFungibleInvoke (address : NonFungibleAddress) (action : NonFungibleAction)
  | OpGenerateUniqueId
  | OpConsensusInvoke
  | OpCallerContextInvoke (action : CallerContextAction)
  | OpAddressAllocationInvoke (arg : AddressAllocationInvokeArg)
  | OpGenerateRandomInvoke (len : nat)
  | OpEmitEvent (topic : string) (payload : gmap string string)
  | OpCallInvoke (action : CallAction)
  | OpProofInvoke (proof_ref : option ProofId) (action : ProofAction)
  | OpBuiltinTemplateInvoke (builtin : BuiltinTemplate)
  | OpSignatureInvoke (arg : SignatureVerifyArg)
  | OpInvalidArgs (function : string)
  | OpUndecodable.

(** ** Template code *)
Inductive Prog :=
  | PReturn (raw : option Value)
  | PTrap
  | PEngine (op : EngineOp) (k : option InvokeResult → Prog).

Record LoadedTemplate := MkLoadedTemplate {
  template_def : TemplateDef;
  template_code : string → list Value → Prog;
}.
Record InstructionResult := MkInstructionResult {
  ir_indexed : IndexedValue;
  ir_return_type : AbiType;
}.
Definition result_empty : InstructionResult := MkInstructionResult indexed_empty AtUnit.

(** The CBOR encodings of the arguments the engine itself passes to a template. *)
Class CborEncode := {
  encode_component_address : ComponentAddress → Value;
  encode_hook_args : ResourceAuthAction → AuthHookCaller → list Value;
  encode_account_args :
    PublicKeyBytes → option OwnerRule → option ComponentAccessRules → list Value;
}.

Definition max_function_arguments : nat := 32.
Definition LOG_ERROR : N := 0.

Section engine.
Context `{Ii : !I192} `{Ic : !Crypto} `{Cb : !Cbor} `{Ih : !IdHashes} `{Eh : !EngineHashes}.
Context `{Hi : !HashIter} `{Dp : !Display} `{Ce : !CborEncode}.
Variable encoded_len : SubstateValue → option Z.
Variable modules : list RuntimeModule.
Variable template_provider : TemplateAddress → res unit (option LoadedTemplate).
Variable seal_signer_public_key : PublicKeyBytes.
Variable verify_claim_proof : Z → PublicKeyBytes → MinotariBurnClaimProof → bool.
Variable verify_signature : SignatureVerifyArg → bool.
Variable max_call_depth : nat.
(** The text of an error in the log entry of a failed call. *)
Variable error_text : option RuntimeError → string.

Notation on_call := (invoke_modules_on_runtime_call modules).

(** [RuntimeInterfaceImpl::get_template_def]. *)
Definition runtime_template_def (address : TemplateAddress) : res RuntimeError TemplateDef :=
  let? loaded := res_map_err (λ _, FailedToLoadTemplate address) (template_provider address) in
  let? loaded := ok_or loaded (TemplateNotFound address) in
  Ok (template_def loaded).
Definition runtime_template_functions (address : TemplateAddress) :
    res RuntimeError (list FunctionDef) :=
  let? def := runtime_template_def address in Ok (template_functions def).

(** The lookup at the head of each call of the processor. *)
Definition get_template_module (address : TemplateAddress) : res TransactionError LoadedTemplate :=
  let? loaded := res_map_err (λ _, TeFailedToLoadTemplate address) (template_provider address) in
  ok_or loaded (TeTemplateNotFound address).
Definition get_function_def (template : LoadedTemplate) (name : string) :
    res TransactionError FunctionDef :=
  ok_or (get_function (template_def template) name) (TeFunctionNotFound name).

(** [Runtime::resolve_args]. *)
Definition resolve_arg (arg : InstructionArg) : W Value :=
  match arg with
  | ArgWorkspace key =>
      let! result := workspace_invoke modules (WaGet key) in
      match result with IrValue v => ret v | _ => panic end
  | ArgLiteral v => lift (ok_or v RuntimeBorError)
  end.
Fixpoint resolve_each (args : list InstructionArg) : W (list Value) :=
  match args with
  | [] => ret []
  | arg :: args' =>
      let! v := resolve_arg arg in
      let! vs := resolve_each args' in
      ret (v :: vs)
  end.
Definition resolve_args (args : list InstructionArg) : W (list Value) :=
  do! guard_err (max_function_arguments <? length args)%nat
        (RuntimeArgumentError (TooManyArguments (length args) max_function_arguments)) in
  resolve_each args.

(** The scope of the arguments: their indexes, collected. *)
Definition index_args (args : list Value) : res TransactionError IndexedWellKnownTypes :=
  let? indexes := res_map_err TeValueVisitor (collect from_value args) in
  Ok (from_iter indexes).

(** [StateTracker::push_call_frame]. *)
Definition push_arg_scope (push : PushCallFrame) : IndexedWellKnownTypes :=
  match push with
  | ForComponent _ _ _ _ arg_scope _ => arg_scope
  | Static _ _ arg_scope _ => arg_scope
  end.
Definition push_call_frame (push : PushCallFrame) : W unit := λ state,
  (do! lift (check_all_substates_in_scope state (push_arg_scope push)) in
   push_frame (into_new_call_frame push) max_call_depth) state.

Definition load_component_call (call : ComponentCall) : W (ComponentAddress * ComponentHeader) :=
  match call with
  | CallAddress address =>
      let! component := load_component modules address in ret (address, component)
  | CallWorkspace id =>
      do! on_call "load_component" in
      let! state := get in
      let! address := lift (
        let? value := workspace_item state (workspace_offset_new id) in
        let? allocation_id := ok_or (bor_tag_u32 TagAllocatedComponentAddress value) InvalidArgument in
        let? substate_id := get_used_address state allocation_id in
        ok_or (as_component_address substate_id) InvalidArgument) in
      let! component := on_store (load_and_cache_component address) in
      ret (address, component)
  end.

(** [Authorization::check_component_access_rules] on a locked component. *)
Definition check_method_access (method : string) (locked : LockedSubstate) : W unit := λ state,
  (let? component := get_component state locked in
   let? component_address :=
     ok_or (as_component_address (ls_address locked)) RuntimeInvariantError in
   check_component_access_rules state method component_address (component_as_ownership component)
     (component_access_rules component), state).

(** ** Calls

    [invoke] runs the code of a template. *)
Section calls_with.
Variable invoke : LoadedTemplate → FunctionDef → list Value → T InstructionResult.

(** What every call does once the frame is pushed. *)
Definition run_in_frame (template : LoadedTemplate) (function_def : FunctionDef)
    (args : list Value) : T InstructionResult :=
  let! result := invoke template function_def args in
  do! rt (λ state, (check_all_substates_known state (iv_indexed (ir_indexed result)), state)) in
  do! rt pop_frame in
  ret result.

Definition call_function (template_address : TemplateAddress) (function : string)
    (args : list InstructionArg) : T InstructionResult :=
  let! template := lift (get_template_module template_address) in
  let! function_def := lift (get_function_def template function) in
  let! resolved_args := rt (resolve_args args) in
  let! arg_scope := lift (index_args resolved_args) in
  let! entity_id := rt next_entity_id in
  do! rt (push_call_frame (Static template_address (template_name (template_def template))
                             arg_scope entity_id)) in
  run_in_frame template function_def resolved_args.

Definition call_method (call : ComponentCall) (method : string) (args : list InstructionArg) :
    T InstructionResult :=
  let! (component_address, component) := rt (load_component_call call) in
  let! template := lift (get_template_module (template_address component)) in
  let! function_def := lift (get_function_def template method) in
  let lock_flag := if fn_is_mut function_def then LockWrite else LockRead in
  let! component_lock := rt (lock_substate (SidComponent component_address) lock_flag) in
  let! resolved_args := rt (resolve_args args) in
  let! arg_scope := lift (index_args resolved_args) in
  let! component_scope := lift (res_map_err TeValueVisitor (from_value (component_state component))) in
  do! rt (push_call_frame (ForComponent (template_address component)
                             (template_name (template_def template)) component_scope component_lock
                             arg_scope (entity_id component))) in
  do! rt (check_method_access method component_lock) in
  run_in_frame template function_def (encode_component_address component_address :: resolved_args).

(** The call of an authorization hook. *)
Definition call_hook (component : ComponentAddress) (method : string)
    (action : ResourceAuthAction) (caller : AuthHookCaller) : M WorkingState unit Value :=
  let! result :=
    map_err (λ _, tt) (call_method (CallAddress component) method
                         ((λ v, ArgLiteral (Some v)) <$> encode_hook_args action caller)) in
  ret (iv_value (ir_indexed result)).

Definition call_invoke (action : CallAction) : W InvokeResult :=
  do! on_call "call_invoke" in
  let! exec_result :=
    match action with
    | CallFunction template_address function args =>
        map_err (λ _, CrossTemplateCallFunctionError template_address function)
          (call_function template_address function (ArgLiteral <$> args))
    | CallMethod component_address method args =>
        map_err (λ _, CrossTemplateCallMethodError component_address method)
          (call_method (CallAddress component_address) method (ArgLiteral <$> args))
    end in
  ret (IrValue (iv_value (ir_indexed exec_result))).

(** [WasmProcess::tari_engine_entrypoint]. *)
Definition engine_entrypoint (op : EngineOp) : W InvokeResult :=
  match op with
  | OpEmitLog level message => do! emit_log modules level message in ret IrUnit
  | OpComponentInvoke component_ref action =>
      component_invoke encoded_len modules runtime_template_def seal_signer_public_key
        component_ref action
  | OpResourceInvoke resource_ref action =>
      resource_invoke encoded_len modules call_hook runtime_template_functions
        seal_signer_public_key resource_ref action
  | OpVaultInvoke vault_ref action =>
      vault_invoke encoded_len modules call_hook vault_ref action
  | OpBucketInvoke bucket_ref action => bucket_invoke modules call_hook bucket_ref action
  | OpWorkspaceInvoke action => workspace_invoke modules action
  | OpNonFungibleInvoke address action => non_fungible_invoke modules address action
  | OpGenerateUniqueId => generate_uuid modules
  | OpConsensusInvoke => consensus_invoke modules
  | OpCallerContextInvoke action => caller_context_invoke modules seal_signer_public_key action
  | OpAddressAllocationInvoke arg => allocate_address_invoke modules arg
  | OpGenerateRandomInvoke len => generate_random_invoke modules len
  | OpEmitEvent topic payload => do! emit_event modules topic payload in ret IrUnit
  | OpCallInvoke action => call_invoke action
  | OpProofInvoke proof_ref action => proof_invoke modules proof_ref action
  | OpBuiltinTemplateInvoke builtin => builtin_template_invoke modules builtin
  | OpSignatureInvoke arg => signature_invoke modules verify_signature arg
  | OpInvalidArgs function => do! on_call function in throw InvalidArgument
  | OpUndecodable => throw RuntimeBorError
  end.

(** [WasmProcess::invoke]: the code runs until it returns or traps.  A failed
    engine call is logged, a failure of the log is ignored, and the code goes on
    without a result; when it traps later, the last error of the engine is the
    error of the call. *)
Fixpoint run_prog (last_engine_error : option RuntimeError) (p : Prog) : T IndexedValue := λ s,
  match p with
  | PTrap => (Err (TeWasm last_engine_error), s)
  | PReturn raw =>
      (let! value := lift (let? v := ok_or raw (TeWasm None) in
                           res_map_err (λ _, TeWasm None) (indexed_from_value v)) in
       do! map_err (λ e, TeWasm (Some e)) (set_last_instruction_output modules value) in
       ret value) s
  | PEngine op k =>
      match engine_entrypoint op s with
      | (Ok result, s') => run_prog last_engine_error (k (Some result)) s'
      | (Err e, s') =>
          match emit_log modules LOG_ERROR (error_text (Some e)) s' with
          | (Panic, s'') => (Panic, s'')
          | (_, s'') =>
              run_prog (match op with OpUndecodable => last_engine_error | _ => Some e end)
                (k None) s''
          end
      | (Panic, s') => (Panic, s')
      end
  end.
End calls_with.

(** One level of nesting: [invoke] runs the calls the code makes. *)
Definition invoke_step (invoke : LoadedTemplate → FunctionDef → list Value → T InstructionResult)
    (template : LoadedTemplate) (function_def : FunctionDef) (args : list Value) :
    T InstructionResult :=
  let! value := run_prog invoke None (template_code template (fn_name function_def) args) in
  ret (MkInstructionResult value (fn_output function_def)).
(** At most [fuel] levels; below them a call would give [out_of_fuel]. *)
Definition invoke_within (out_of_fuel : res TransactionError InstructionResult) (fuel : nat) :
    LoadedTemplate → FunctionDef → list Value → T InstructionResult :=
  Nat.iter fuel invoke_step (λ _ _ _, lift out_of_fuel).

(** Enough for every call: frames nest at most [max_call_depth] deep. *)
Definition invoke_wasm : LoadedTemplate → FunctionDef → list Value → T InstructionResult :=
  invoke_within Panic (S max_call_depth).
End engine.
