(* ===== verification/Processor.v ===== *)
(** * The transaction processor

    [engine/src/transaction/processor.rs] with the state tracker of
    [engine/src/runtime/tracker.rs] and the finalization of
    [engine/src/runtime/impl.rs]: the instructions of a transaction, the fee
    checkpoint between its fee and its main instructions, and its result.  The
    texts of reject reasons are left out. *)
From stdpp Require Import base gmap list strings numbers pretty.
From S2P Require Import Prelude Bor BTree Ids IndexedValue IdProvider Amount Crypto Confidential.
From S2P Require Import ResourceContainer FreezeFlags Proof Bucket Vault AccessRules RuntimeError.
From S2P Require Import Auth Locking Fees Substate Stealth FeeState Scope StateStore Workspace.
From S2P Require Import WorkingState Runtime RuntimeCalls Engine.
Open Scope Z_scope.

#[local] Notation "'W'" := (M WorkingState RuntimeError) (only parsing).

(** ** Results *)
Inductive RejectReason :=
  | ExecutionFailure
  | OneOrMoreInputsNotFound
  | RejectInsufficientFeesPaid.
Definition to_reject_reason (e : RuntimeError) : RejectReason :=
  match e with
  | SubstateNotFound _ | RootSubstateNotFound _ | ReferencedSubstateNotFound _ =>
      OneOrMoreInputsNotFound
  | InsufficientFeesPaid _ _ => RejectInsufficientFeesPaid
  | _ => ExecutionFailure
  end.
Inductive TransactionResult :=
  | Accept (diff : SubstateDiff)
  | AcceptFeeRejectRest (diff : SubstateDiff) (reason : RejectReason)
  | Reject (reason : RejectReason).
Definition any_accept (self : TransactionResult) : option SubstateDiff :=
  match self with
  | Accept diff | AcceptFeeRejectRest diff _ => Some diff
  | Reject _ => None
  end.

Record FinalizeResult := MkFinalizeResult {
  fin_transaction_hash : N;
  fin_logs : list LogEntry;
  fin_events : list Event;
  fin_execution_results : list InstructionResult;
  fin_result : TransactionResult;
  fin_fee_receipt : FeeReceipt;
}.
Definition fee_receipt_default : FeeReceipt := MkFeeReceipt 0 0 0 breakdown_default.
Definition new_rejected (transaction_hash : N) (reason : RejectReason) : FinalizeResult :=
  MkFinalizeResult transaction_hash [] [] [] (Reject reason) fee_receipt_default.
Definition set_execution_results (rs : list InstructionResult) (f : FinalizeResult) :
    FinalizeResult :=
  MkFinalizeResult (fin_transaction_hash f) (fin_logs f) (fin_events f) rs (fin_result f)
    (fin_fee_receipt f).
Definition set_result (r : TransactionResult) (f : FinalizeResult) : FinalizeResult :=
  MkFinalizeResult (fin_transaction_hash f) (fin_logs f) (fin_events f) (fin_execution_results f) r
    (fin_fee_receipt f).

(** ** The state tracker *)
Record StateTracker := MkStateTracker {
  working_state : WorkingState;
  fee_checkpoint : option WorkingState;
}.
Definition set_working_state (s : WorkingState) (t : StateTracker) : StateTracker :=
  MkStateTracker s (fee_checkpoint t).
Definition write_with {E A : Type} (m : M WorkingState E A) : M StateTracker E A :=
  zoom working_state set_working_state m.

Section tracker.
Context `{Ii : !I192}.

Definition set_tracker_checkpoint : M StateTracker RuntimeError unit := λ t,
  (let? _ := validate_finalized (working_state t) in Ok tt,
   match validate_finalized (working_state t) with
   | Ok _ => MkStateTracker (working_state t) (Some (working_state t))
   | _ => t
   end).

(** The checkpoint is taken out.  The fee state of the failed run is kept, and so
    is the counter of entity ids, which is not part of the state. *)
Definition reset_to_fee_checkpoint : M StateTracker RuntimeError unit := λ t,
  match fee_checkpoint t with
  | Some checkpoint =>
      (Ok tt,
       MkStateTracker
         (set_entity_ids (entity_ids (working_state t))
            (set_fee_state (fee_state (working_state t)) checkpoint)) None)
  | None => (Err NoFeeCheckpoint, t)
  end.

(** [self.take_working_state()] leaves a new state behind. *)
Definition take_state (s : WorkingState) : WorkingState :=
  set_entity_ids (entity_ids s)
    (state_new (state_store (store s)) None scope_new (transaction_hash s)).

Definition tracker_finalize (substates_to_persist : list (SubstateId * SubstateValue))
    (downed_utxos : list UtxoAddress) : M StateTracker RuntimeError FinalizeResult := λ t,
  let state := working_state t in
  (if (0 <? call_frame_depth state)%nat
   then Err (CallFrameRemainingOnStack (Z.of_nat (call_frame_depth state)))
   else
     let '(r, (fs, persist)) :=
       finalize_fees (transaction_hash state) (events state) (logs state)
         (fee_state state, substates_to_persist) in
     let? transaction_receipt := r in
     let state := set_fee_state fs state in
     let? result :=
       match generate_substate_diff state transaction_receipt persist downed_utxos
               (validator_fee_withdrawals state) with
       | Ok diff => Ok (Accept diff)
       | Err e => Ok (Reject (to_reject_reason e))
       | Panic => Panic
       end in
     Ok (MkFinalizeResult (transaction_hash state) (logs state) (events state) [] result
           (receipt_fee_receipt transaction_receipt)),
   set_working_state (take_state state) t).

Definition are_fees_paid_in_full {E : Type} (t : StateTracker) : res E bool :=
  let? total_charges := total_charges (fee_state (working_state t)) in
  Ok (total_charges <=? total_payments (fee_state (working_state t))).
End tracker.

(** ** Transactions *)
Inductive Instruction :=
  | CreateAccount (owner_public_key : PublicKeyBytes) (owner_rule : option OwnerRule)
      (access_rules : option ComponentAccessRules) (workspace_id : option WorkspaceOffsetId)
  | InsCallFunction (address : TemplateAddress) (function : string) (args : list InstructionArg)
  | InsCallMethod (call : ComponentCall) (method : string) (args : list InstructionArg)
  | PutLastInstructionOutputOnWorkspace (key : WorkspaceId)
  | EmitLog (level : N) (message : string)
  | ClaimBurn (claim : MinotariBurnClaimProof) (output_data : list N)
  | ClaimValidatorFees (address : N)
  | DropAllProofsInWorkspace
  | AssertBucketContains (key : WorkspaceOffsetId) (resource_address : ResourceAddress)
      (min_amount : Z)
  | PublishTemplate (binary : list N)
  | AllocateAddress (allocatable_type : AllocatableAddressType) (workspace_id : WorkspaceId)
  | InsStealthTransfer (resource_address : ResourceAddressRef)
      (statement : StealthTransferStatement) (revealed_input_bucket : option WorkspaceOffsetId)
  | PayFee (statement : StealthTransferStatement) (revealed_input_bucket : option WorkspaceOffsetId).

Record Transaction := MkTransaction {
  tx_id : N;
  tx_inputs : list SubstateId;
  tx_seal_signer : PublicKeyBytes;
  tx_is_seal_signer_authorized : bool;
  tx_signers : list PublicKeyBytes;
  tx_fee_instructions : list Instruction;
  tx_main_instructions : list Instruction;
}.
(** [Executable::main_signer]. *)
Definition main_signer (self : Transaction) : option PublicKeyBytes :=
  if tx_is_seal_signer_authorized self then Some (tx_seal_signer self) else head (tx_signers self).

Definition MAX_CALL_DEPTH : nat := 10.
Definition ACCOUNT_CONSTRUCTOR_FUNCTION : string := "create".

Section processor.
Context `{Ii : !I192} `{Ic : !Crypto} `{Cb : !Cbor} `{Ih : !IdHashes} `{Eh : !EngineHashes}.
Context `{Hi : !HashIter} `{Dp : !Display} `{Ce : !CborEncode}.
Variable encoded_len : SubstateValue → option Z.
Variable modules : list RuntimeModule.
Variable template_provider : TemplateAddress → res unit (option LoadedTemplate).
Variable verify_claim_proof : Z → PublicKeyBytes → MinotariBurnClaimProof → bool.
Variable verify_signature : SignatureVerifyArg → bool.
Variable error_text : option RuntimeError → string.
(** [WasmModule::load_template_from_code] succeeds; the configured size limit. *)
Variable loads_as_template : list N → bool.
Variable template_binary_max_size_bytes : nat.

Section instructions.
Variable seal_signer_public_key : PublicKeyBytes.

Definition invoke : LoadedTemplate → FunctionDef → list Value → T InstructionResult :=
  invoke_wasm encoded_len modules template_provider seal_signer_public_key verify_signature
    MAX_CALL_DEPTH error_text.

(** [runtime.resolve_workspace_id(&id).and_then(|r| r.decode())]. *)
Definition resolve_bucket (id : option WorkspaceOffsetId) : W (option BucketId) :=
  match id with
  | None => ret None
  | Some id =>
      let! value := resolve_arg modules (ArgWorkspace id) in
      let! bucket_id := lift (ok_or (bor_tag_u32 TagBucketId value) InvalidArgument) in
      ret (Some bucket_id)
  end.

Definition instruction_pay_fee (statement : StealthTransferStatement)
    (revealed_funds_bucket : option WorkspaceOffsetId) : T InstructionResult :=
  let! bucket := rt (resolve_bucket revealed_funds_bucket) in
  do! rt (pay_fee_stealth encoded_len statement bucket) in
  ret result_empty.

Definition instruction_stealth_transfer (resource_address : ResourceAddressRef)
    (statement : StealthTransferStatement) (revealed_funds_bucket : option WorkspaceOffsetId) :
    T InstructionResult :=
  let! bucket := rt (resolve_bucket revealed_funds_bucket) in
  let! maybe_bucket := rt (stealth_transfer encoded_len resource_address statement bucket) in
  let! output := lift (res_map_err TeValueVisitor
                         (indexed_from_value (match maybe_bucket with
                                              | Some id => encode_bucket_id id
                                              | None => VNull
                                              end))) in
  do! rt (set_last_instruction_output modules output) in
  ret result_empty.

Definition instruction_allocate_address (substate_type : AllocatableAddressType)
    (workspace_id : WorkspaceId) : T InstructionResult :=
  let! entity_id := rt next_entity_id in
  let! id := rt (allocate_address substate_type entity_id workspace_id) in
  let '(encode, name) :=
    match substate_type with
    | AllocComponent => (encode_component_allocation, "ComponentAddressAllocation")
    | AllocResource => (encode_resource_allocation, "ResourceAddressAllocation")
    end in
  let! indexed := lift (res_map_err TeValueVisitor (indexed_from_value (encode id))) in
  ret (MkInstructionResult indexed (AtOther name)).

Definition instruction_publish_template (binary : list N) : T InstructionResult :=
  do! guard_err (template_binary_max_size_bytes <? length binary)%nat
        (TeWasmBinaryTooBig (length binary) template_binary_max_size_bytes) in
  do! guard_err (negb (loads_as_template binary)) TeLoadTemplate in
  do! rt (publish_template encoded_len modules seal_signer_public_key binary) in
  ret result_empty.

Definition create_account (public_key_address : PublicKeyBytes) (owner_rule : option OwnerRule)
    (access_rules : option ComponentAccessRules) (workspace_id : option WorkspaceOffsetId) :
    T InstructionResult :=
  let! template := lift (get_template_module template_provider ACCOUNT_TEMPLATE_ADDRESS) in
  let! function_def := lift (get_function_def template ACCOUNT_CONSTRUCTOR_FUNCTION) in
  let account_address := hash_component_key ACCOUNT_TEMPLATE_ADDRESS public_key_address in
  let args :=
    ((λ v, ArgLiteral (Some v)) <$> encode_account_args public_key_address owner_rule access_rules)
    ++ [match workspace_id with
        | Some id => ArgWorkspace id
        | None => ArgLiteral (Some VNull)
        end] in
  let! resolved_args := rt (resolve_args modules args) in
  let! arg_scope := lift (index_args resolved_args) in
  do! rt (push_call_frame MAX_CALL_DEPTH
            (Static ACCOUNT_TEMPLATE_ADDRESS (template_name (template_def template)) arg_scope
               (as_entity_id account_address))) in
  run_in_frame invoke template function_def resolved_args.

Definition process_instruction (instruction : Instruction) : T InstructionResult :=
  match instruction with
  | CreateAccount key owner_rule access_rules workspace_id =>
      create_account key owner_rule access_rules workspace_id
  | InsCallFunction address function args =>
      call_function modules template_provider MAX_CALL_DEPTH invoke address function args
  | InsCallMethod call method args =>
      call_method modules template_provider MAX_CALL_DEPTH invoke call method args
  | PutLastInstructionOutputOnWorkspace key =>
      do! rt (workspace_invoke modules (WaPutLastInstructionOutput key)) in ret result_empty
  | DropAllProofsInWorkspace =>
      do! rt (workspace_invoke modules WaDropAllProofs) in ret result_empty
  | EmitLog level message => do! rt (emit_log modules level message) in ret result_empty
  | ClaimBurn claim output_data =>
      do! rt (claim_burn encoded_len seal_signer_public_key verify_claim_proof claim output_data) in
      ret result_empty
  | ClaimValidatorFees address => do! rt (claim_validator_fees address) in ret result_empty
  | AssertBucketContains key resource_address min_amount =>
      do! rt (workspace_invoke modules (WaAssertBucketContains key resource_address min_amount)) in
      ret result_empty
  | PublishTemplate binary => instruction_publish_template binary
  | AllocateAddress allocatable_type workspace_id =>
      instruction_allocate_address allocatable_type workspace_id
  | InsStealthTransfer resource_address statement bucket =>
      instruction_stealth_transfer resource_address statement bucket
  | PayFee statement bucket => instruction_pay_fee statement bucket
  end.

Fixpoint process_each (instructions : list Instruction) : T (list InstructionResult) :=
  match instructions with
  | [] => ret []
  | i :: is' =>
      let! r := process_instruction i in
      let! rs := process_each is' in
      ret (r :: rs)
  end.
Definition process_instructions (instructions : list Instruction) : T (list InstructionResult) :=
  let! results := process_each instructions in
  do! rt (λ state, (validate_finalized state, state)) in
  ret results.

(** ** Finalization of the runtime *)
Definition set_fee_checkpoint : M StateTracker RuntimeError unit := λ t,
  (let! charges := lift (total_charges (fee_state (working_state t))) in
   let payments := total_payments (fee_state (working_state t)) in
   do! guard_err (payments <? charges) (InsufficientFeesPaid charges payments) in
   set_tracker_checkpoint) t.

Definition invoke_modules_on_before_finalize : W unit := for_each modules on_before_finalize.

Definition runtime_finalize : M StateTracker RuntimeError FinalizeResult :=
  do! write_with (invoke_modules_on_runtime_call modules "finalize") in
  do! write_with invoke_modules_on_before_finalize in
  let! t := get in
  let! paid := lift (are_fees_paid_in_full t) in
  do! (if paid then ret tt else reset_to_fee_checkpoint) in
  let! substates_to_persist := write_with (on_store take_mutated_substates) in
  let! downed_utxos := write_with (on_store take_downed_utxos) in
  let! finalized := tracker_finalize substates_to_persist downed_utxos in
  let! paid := lift (is_paid_in_full (fin_fee_receipt finalized)) in
  ret (if paid then finalized
       else set_result (match any_accept (fin_result finalized) with
                        | Some accept => AcceptFeeRejectRest accept RejectInsufficientFeesPaid
                        | None => Reject RejectInsufficientFeesPaid
                        end) finalized).

(** ** Execution *)
Definition main_phase (main : list Instruction) (fee_results : list InstructionResult) :
    M StateTracker TransactionError FinalizeResult := λ t,
  match write_with (process_instructions main) t with
  | (Ok execution_results, t') =>
      (let! finalize := map_err TeRuntime runtime_finalize in
       let! paid := lift (is_paid_in_full (fin_fee_receipt finalize)) in
       ret (set_execution_results (if paid then execution_results else fee_results) finalize)) t'
  | (Err _, t') =>
      (do! map_err TeRuntime reset_to_fee_checkpoint in
       let! finalize := map_err TeRuntime runtime_finalize in
       let! accept := lift (expect (any_accept (fin_result finalize))) in
       ret (set_result (AcceptFeeRejectRest accept ExecutionFailure)
              (set_execution_results fee_results finalize))) t'
  | (Panic, t') => (Panic, t')
  end.

Definition run_transaction (transaction_hash : N) (fee main : list Instruction) :
    M StateTracker TransactionError FinalizeResult := λ t,
  match write_with (process_instructions fee) t with
  | (Ok execution_results, t') =>
      match set_fee_checkpoint t' with
      | (Ok _, t'') => main_phase main execution_results t''
      | (Err e, t'') =>
          (Ok (set_execution_results execution_results
                 (new_rejected transaction_hash (to_reject_reason e))), t'')
      | (Panic, t'') => (Panic, t'')
      end
  | (Err _, t') => (Ok (new_rejected transaction_hash ExecutionFailure), t')
  | (Panic, t') => (Panic, t')
  end.
End instructions.

(** The scope of the transaction's own instructions: the XTR resource and the
    inputs are owned. *)
Definition initial_scope (initial_ownership_proofs : list NonFungibleAddress)
    (inputs : list SubstateId) : CallScope :=
  foldl (λ c id, add_substate_to_owned id c)
    (set_auth_scope (auth_scope_new initial_ownership_proofs) scope_new)
    (SidResource XTR :: inputs).

Definition execute (state_db : gmap SubstateId Substate) (current_epoch : option Z)
    (initial_ownership_proofs : list NonFungibleAddress) (executable : Transaction) :
    res TransactionError FinalizeResult :=
  let state :=
    state_new state_db current_epoch
      (initial_scope initial_ownership_proofs (tx_inputs executable)) (tx_id executable) in
  let tracker := MkStateTracker state None in
  let? signer := ok_or (main_signer executable) TeInvariant in
  ((do! write_with (rt (for_each modules on_initialize)) in
    run_transaction signer (tx_id executable) (tx_fee_instructions executable)
      (tx_main_instructions executable)) tracker).1.
End processor.
