(* ===== verification/Examples.v ===== *)
(** * Concrete instances

    Instances of the classes that stand for third-party code, and a ledger, a
    caller and a template for them: the inputs on which the theorems are
    evaluated. *)
From stdpp Require Import base gmap list strings numbers.
From S2P Require Import Prelude Bor BTree Ids IndexedValue IdProvider Amount Crypto Confidential.
From S2P Require Import ResourceContainer FreezeFlags Proof Bucket Vault AccessRules RuntimeError.
From S2P Require Import Auth Locking Fees Substate Stealth FeeState Scope StateStore Workspace.
From S2P Require Import WorkingState Runtime RuntimeCalls Engine Processor.
Open Scope Z_scope.

Definition example_hashes : IdHashes := {| hash_output _ n := Z.to_N n; hash_component _ n := Z.to_N n |}.
Definition example_display : Display := {|
  show_resource _ := "resource"; show_vault _ := "vault"; show_amount _ := "amount";
  show_flags _ := "flags"; show_discriminator _ := "disc" |}.
Definition example_engine_hashes : EngineHashes := {|
  hash_entity_id _ n := Z.to_N n;
  hash_uuid _ _ n := replicate 32 (Z.to_N n);
  hash_uuid_length _ _ n := length_replicate 32 (Z.to_N n);
  hash_component_key t k := (t * 2 ^ 64 + k)%N;
  hash_template_code code := N.of_nat (length code);
  hash_template_address k h := (k * 2 ^ 64 + h)%N |}.
Definition example_encode : CborEncode := {|
  encode_component_address a := bor_tag TagComponentAddress (VInteger (Z.of_N a));
  encode_hook_args _ _ := [VNull; VNull];
  encode_account_args _ _ _ := [VNull; VNull; VNull] |}.

(** A ledger with two resources and a vault of each; the caller owns the vault 7
    of the resource 1.  The second resource allows nothing. *)
Definition example_resource : Resource :=
  MkResource RtFungible OwnerNone None
    (MkResourceAccessRules AllowAll AllowAll AllowAll AllowAll AllowAll AllowAll DenyAll DenyAll)
    ∅ (Some 100) None None 0.
Definition closed_resource : Resource :=
  MkResource RtFungible OwnerNone None resource_rules_deny_all ∅ (Some 50) None None 0.
Definition example_vault : Vault := vault_new (Fungible 1 10 0).
Definition closed_vault : Vault := MkVault (Fungible 2 50 0) flags_all.
Definition example_ledger : gmap SubstateId Substate :=
  {[ SidResource 1 := MkSubstate (SvResource example_resource) 0;
     SidResource 2 := MkSubstate (SvResource closed_resource) 0;
     SidVault 7 := MkSubstate (SvVault example_vault) 0;
     SidVault 8 := MkSubstate (SvVault closed_vault) 0 ]}.
Definition caller_scope : CallScope :=
  MkCallScope [] [SidVault 7] [] None [] [] [] (auth_scope_new []).
Definition caller_state_example : WorkingState :=
  set_frames [MkCallFrame caller_scope 0 "template" 0] scope_new
    (state_new example_ledger None scope_new 0).
Definition example_modules : list RuntimeModule :=
  [fee_module (λ _, Some 1) 0 0 (MkFeeTable 0 1 0 0 0 0)].

(** A template whose only function calls itself, and returns whatever happens. *)
Definition example_function : FunctionDef := MkFunctionDef "run" [] AtUnit false.
Definition looping_template : LoadedTemplate :=
  MkLoadedTemplate (MkTemplateDef "loop" [example_function])
    (λ _ _, PEngine (OpCallInvoke (CallFunction 5 "run" [])) (λ _, PReturn (Some VNull))).
Definition example_provider (a : TemplateAddress) : res unit (option LoadedTemplate) :=
  Ok (if bool_decide (a = 5%N) then Some looping_template else None).

(** A template that mints some of the resource 1 and burns it again. *)
Definition minting_template (arg : MintArg) : LoadedTemplate :=
  MkLoadedTemplate (MkTemplateDef "mint" [example_function])
    (λ _ _, PEngine (OpResourceInvoke (Some 1%N) (RaMint arg)) (λ minted,
       match minted with
       | Some (IrBucket b) =>
           PEngine (OpBucketInvoke (Some b) BaBurn) (λ _, PReturn (Some VNull))
       | _ => PTrap
       end)).
Definition minting_provider (arg : MintArg) (a : TemplateAddress) :
    res unit (option LoadedTemplate) :=
  Ok (if bool_decide (a = 6%N) then Some (minting_template arg) else None).
Definition example_transaction (main : list Instruction) : Transaction :=
  MkTransaction 9 [] 3 true [] [] main.
Definition example_execute (ledger : gmap SubstateId Substate)
    (provider : TemplateAddress → res unit (option LoadedTemplate)) (main : list Instruction) : res TransactionError FinalizeResult :=
  @execute i192_panicking ideal_crypto int_cbor example_hashes example_engine_hashes
    hash_iter_elements example_display example_encode (λ _, Some 1)
    [fee_module (λ _, Some 1) 0 0 (MkFeeTable 0 0 0 0 0 0)] provider
    (λ _ _ _, true) (λ _, true) (λ _, "error") (λ _, true) 100 ledger None []
    (example_transaction main).

(** A ledger with a non-fungible resource and a vault with its only token. *)
Definition token_ledger : gmap SubstateId Substate :=
  {[ SidResource 1 := MkSubstate (SvResource
       (MkResource RtNonFungible OwnerNone None (res_access_rules example_resource) ∅ (Some 1)
          None None 0)) 0;
     SidNonFungible (MkNonFungibleAddress 1 (Uint32 4)) := MkSubstate (SvNonFungible nf_no_data) 0;
     SidVault 7 := MkSubstate (SvVault (vault_new (non_fungible 1 {[Uint32 4]}))) 0 ]}.

(** A run that succeeds, shown by evaluating whether it does. *)
Definition is_ok {E A : Type} (r : res E A) : bool := match r with Ok _ => true | _ => false end.
Lemma run_is_ok {S E A : Type} (m : M S E A) (s : S) :
  is_ok (m s).1 = true → ∃ a s', m s = (Ok a, s').
Proof. destruct (m s) as [[a| |] s']; [by eauto|done..]. Qed.
