(* ===== verification/Steps.v ===== *)
(** * The runtime calls as steps of the working state

    [engine/src/runtime/impl.rs], [working_state.rs]: every runtime call is made of
    a small set of updates of the working state.  [StepLaws R] says that a
    preorder [R] on states is followed by the updates that move no funds, and
    [MoveLaws R] that it is also followed by those that do; under these each
    handler follows [R], whatever the component methods it calls do, as long as
    they follow [R] too. *)
From stdpp Require Import base gmap list strings numbers.
From S2P Require Import Prelude Bor BTree Ids IndexedValue IdProvider Amount Crypto Confidential.
From S2P Require Import ResourceContainer FreezeFlags Proof Bucket Vault AccessRules RuntimeError.
From S2P Require Import Auth Locking Fees Substate Stealth FeeState Scope StateStore Workspace.
From S2P Require Import WorkingState Runtime RuntimeCalls.
Open Scope Z_scope.

#[local] Notation "'W'" := (M WorkingState RuntimeError) (only parsing).

(** The kind of value that belongs at an address. *)
Definition kind_matches (id : SubstateId) (v : SubstateValue) : bool :=
  match id, v with
  | SidComponent _, SvComponent _ | SidResource _, SvResource _ | SidVault _, SvVault _
  | SidClaimedOutputTombstone _, SvClaimedOutputTombstone _ | SidNonFungible _, SvNonFungible _
  | SidTransactionReceipt _, SvTransactionReceipt _ | SidTemplate _, SvTemplate _
  | SidValidatorFeePool _, SvValidatorFeePool _ | SidUtxo _, SvUtxo _ => true
  | _, _ => false
  end.
Definition same_kind (v v' : SubstateValue) : Prop := ∀ id, kind_matches id v' = kind_matches id v.

(** A value replaced by one of the same kind with the same funds: a vault keeps its
    container, a resource its type, supply and authorization hook; a token is burnt
    if it was. *)
Definition keeps_value (v v' : SubstateValue) : Prop :=
  match v with
  | SvVault x => ∃ x', v' = SvVault x' ∧ vault_container x' = vault_container x
  | SvResource x =>
      ∃ x', v' = SvResource x' ∧ res_type x' = res_type x ∧ total_supply x' = total_supply x ∧
        res_auth_hook x' = res_auth_hook x
  | SvNonFungible x => ∃ x', v' = SvNonFungible x' ∧ nf_is_burnt x' = nf_is_burnt x
  | _ => as_vault v' = None ∧ as_resource v' = None ∧ same_kind v v'
  end.

#[export] Instance keeps_value_preorder : PreOrder keeps_value.
Proof.
  split.
  - intros []; simpl; eauto; done.
  - unfold same_kind. intros [] [] []; simpl; naive_solver congruence.
Qed.
Lemma keeps_kind v v' : keeps_value v v' → same_kind v v'.
Proof.
  destruct v; simpl; try (by intros (? & ? & ?)); by intros (x' & -> & _) id; destruct id.
Qed.

(** The payments that a fee state holds, and a change of it that takes only
    payments in the fee token. *)
Definition payments (f : FeeState) : list ResourceContainer :=
  fee_payments_without_refund f ++ (fee_payments f).*1.
Definition fees_kept (f f' : FeeState) : Prop :=
  ∀ c, c ∈ payments f' → c ∈ payments f ∨ resource_address c = XTR.

(** The operations of the store that move no funds. *)
Inductive quiet : ∀ {A : Type}, M WorkingStateStore RuntimeError A → Prop :=
  | quiet_lock id flag : quiet (store_try_lock id flag)
  | quiet_unlock lid : quiet (store_try_unlock lid)
  | quiet_load a : quiet (load_and_cache_component a)
  | quiet_down lid : quiet (down_utxo lid)
  | quiet_insert id v :
      as_vault v = None → kind_matches id v = true → is_transaction_receipt id = false →
      quiet (store_insert id v)
  | quiet_update A lid (f : SubstateId → M SubstateValue RuntimeError A) :
      (∀ id v, keeps_value v (f id v).2) → quiet (with_locked_mut lid f)
  | quiet_mutate A lid (f : SubstateId → M SubstateValue RuntimeError (option A)) :
      (∀ id v, keeps_value v (f id v).2) → quiet (mutate_locked_substate_with lid f).
#[export] Hint Constructors quiet : steps.
#[export] Hint Extern 1 (as_vault _ = None) => reflexivity : steps.
#[export] Hint Extern 1 (kind_matches _ _ = true) => reflexivity : steps.
#[export] Hint Extern 1 (is_transaction_receipt _ = false) => reflexivity : steps.

Class StepLaws (R : relation WorkingState) : Prop := {
  step_preorder :: PreOrder R;
  step_store A (m : M WorkingStateStore RuntimeError A) : quiet m → follows R (on_store m);
  step_scope c s : R s (set_current_call_scope c s);
  step_events e s : R s (set_events e s);
  step_logs l s : R s (set_logs l s);
  step_object_ids o s : R s (set_object_ids o s);
  step_allocations a u n s : R s (set_allocations a u n s);
  step_fee_state f s : fees_kept (fee_state s) f → R s (set_fee_state f s);
  step_workspace w s : R s (set_workspace w s);
  step_last_output o s : R s (set_last_output o s);
  step_withdrawals w s : R s (set_withdrawals w s);
  step_entity_ids n s : R s (set_entity_ids n s);
}.

Class MoveLaws (R : relation WorkingState) : Prop := {
  move_steps :: StepLaws R;
  move_store A lid (f : SubstateId → M SubstateValue RuntimeError A) :
    (∀ id v, same_kind v (f id v).2) → follows R (on_store (with_locked_mut lid f));
  move_insert id v :
    kind_matches id v = true → is_transaction_receipt id = false →
    follows R (on_store (store_insert id v));
  move_buckets b s : R s (set_buckets b s);
  move_proofs p s : R s (set_proofs p s);
}.

#[export] Hint Extern 1 (StepLaws _) => exact _ : steps.
#[export] Hint Extern 1 (MoveLaws _) => exact _ : steps.

(** A runtime module follows [R] in all its notifications. *)
Record module_follows (R : relation WorkingState) (m : RuntimeModule) : Prop := {
  initialize_follows : follows R (on_initialize m);
  call_follows f : follows R (on_runtime_call m f);
  finalize_follows : follows R (on_before_finalize m);
  event_follows e : follows R (on_runtime_event m e);
}.

(** A call written as a function of the state: split its cases, and go on with
    the calls they make. *)
Lemma follows_apply {S E A : Type} (R : relation S) (m : M S E A) s r s' :
  m s = (r, s') → r ≠ Panic → follows R m → R s s'.
Proof. intros H Hp Hm. by eapply Hm. Qed.
Ltac follow_state :=
  let s := fresh "s" in let r := fresh "r" in let s' := fresh "s'" in
  let H := fresh "H" in let Hp := fresh "Hp" in
  intros s r s' H Hp; lazy beta in H;
  repeat match type of H with
         | match ?x with _ => _ end = _ => destruct x
         | match ?x with _ => _ end _ = _ => destruct x
         end;
  first [by simplify_eq
        |refine (follows_apply _ _ _ _ _ H Hp _); clear H Hp; follow
        |simplify_eq; auto with steps].

(** ** Updates of the state *)
Section updates.
Context (R : relation WorkingState) `{SL : !StepLaws R}.

Lemma on_scope_follows {A : Type} (m : M CallScope RuntimeError A) : follows R (on_scope m).
Proof. apply follows_zoom. intros c s. apply step_scope. Qed.
Lemma on_object_ids_follows {E A : Type} (m : M ObjectIds E A) :
  follows R (zoom object_ids set_object_ids m).
Proof. apply follows_zoom. intros. apply step_object_ids. Qed.
Lemma on_fee_state_follows {E A : Type} (m : M FeeState E A) :
  (∀ f, fees_kept f (m f).2) → follows R (zoom fee_state set_fee_state m).
Proof.
  intros Hm s r s'. unfold zoom. specialize (Hm (fee_state s)). destruct (m (fee_state s)) as [q f].
  intros [= <- <-] _. by apply step_fee_state.
Qed.
Lemma on_workspace_follows {E A : Type} (m : M Workspace E A) :
  follows R (zoom workspace set_workspace m).
Proof. apply follows_zoom. intros. apply step_workspace. Qed.
Lemma push_event_follows e : follows R (push_event e).
Proof.
  intros s r s'. unfold push_event. case_match; intros [= <- <-] _; [done|]. apply step_events.
Qed.
Lemma push_log_follows l : follows R (push_log l).
Proof.
  intros s r s'. unfold push_log. repeat case_match; intros [= <- <-] _; [done..|]. apply step_logs.
Qed.
Lemma set_last_output_follows {E : Type} o : follows R (@modify _ E (set_last_output o)).
Proof. apply follows_modify. intros. apply step_last_output. Qed.
Lemma lock_substate_follows addr flag : follows R (lock_substate addr flag).
Proof. unfold lock_substate. follow. apply step_store. auto with steps. Qed.
Lemma unlock_substate_follows l : follows R (unlock_substate l).
Proof. apply step_store. auto with steps. Qed.
Lemma load_component_follows a : follows R (on_store (load_and_cache_component a)).
Proof. apply step_store. auto with steps. Qed.
End updates.
#[export] Hint Resolve on_scope_follows on_object_ids_follows on_fee_state_follows
  on_workspace_follows push_event_follows push_log_follows set_last_output_follows
  lock_substate_follows unlock_substate_follows load_component_follows : steps.

(** ** Calls that move no funds *)
Section quiet_calls.
Context `{Ii : !I192} `{Ic : !Crypto} `{Cb : !Cbor} `{Ih : !IdHashes} `{Eh : !EngineHashes}.
Context `{Hi : !HashIter} `{Dp : !Display}.
Variable encoded_len : SubstateValue → option Z.
Variable modules : list RuntimeModule.
Variable hook : ComponentAddress → string → ResourceAuthAction → AuthHookCaller →
  M WorkingState unit Value.
Variable functions_of : TemplateAddress → res RuntimeError (list FunctionDef).
Variable def_of : TemplateAddress → res RuntimeError TemplateDef.
Variable signer : PublicKeyBytes.
Variable verify_claim_proof : Z → PublicKeyBytes → MinotariBurnClaimProof → bool.
Variable verify_signature : SignatureVerifyArg → bool.
Context (R : relation WorkingState) `{SL : !StepLaws R}.
Hypothesis modules_follow : ∀ m, m ∈ modules → module_follows R m.
Hypothesis hook_follows : ∀ c m a k, follows R (hook c m a k).

Lemma for_each_module_follows (f : RuntimeModule → W unit) :
  (∀ m, module_follows R m → follows R (f m)) → follows R (for_each modules f).
Proof.
  intros Hf. induction modules as [|m ms IH]; simpl; [apply follows_ret; exact _|].
  apply follows_bind; [exact _|apply Hf, modules_follow; left|].
  intros _. apply IH. intros m' Hm'. apply modules_follow. by right.
Qed.
Lemma on_call_follows f : follows R (invoke_modules_on_runtime_call modules f).
Proof. apply for_each_module_follows. intros m Hm. apply Hm. Qed.
Lemma on_event_follows e : follows R (invoke_modules_on_runtime_event modules e).
Proof. apply for_each_module_follows. intros m Hm. apply Hm. Qed.
#[local] Hint Resolve on_call_follows on_event_follows hook_follows : steps.

Lemma new_substate_follows id v :
  as_vault v = None → kind_matches id v = true → is_transaction_receipt id = false →
  follows R (new_substate encoded_len id v).
Proof.
  intros Hv Ht Hr. unfold new_substate, enforce_substate_size_limit. follow.
  apply step_store. by constructor.
Qed.
Lemma emit_std_event_follows o a id p : follows R (emit_std_event o a id p).
Proof. apply (follows_at R (λ s, bind _ _)). intros s. follow. Qed.
Lemma with_ids_follows {A : Type} (m : N → N → M ObjectIds IdProviderError A) :
  follows R (with_ids m).
Proof.
  intros s r s'. unfold with_ids. destruct (call_frames s); intros H Hp; [by simplify_eq|].
  exact (on_object_ids_follows R _ s r s' H Hp).
Qed.
Lemma ids_for_entity_follows {A : Type} e (m : N → N → M ObjectIds IdProviderError A) :
  follows R (ids_for_entity e m).
Proof. apply (follows_at R (λ s, zoom object_ids set_object_ids _)). intros s. auto with steps. Qed.
Lemma provide_bucket_id_follows : follows R provide_bucket_id.
Proof. apply with_ids_follows. Qed.
Lemma provide_proof_id_follows : follows R provide_proof_id.
Proof. apply with_ids_follows. Qed.
Lemma check_access_rules_follows l a : follows R (check_access_rules l a).
Proof. by intros s r s' [= _ <-] _. Qed.
Lemma tracker_template_follows : follows R tracker_template_address.
Proof. by intros s r s' [= _ <-] _. Qed.
#[local] Hint Resolve new_substate_follows emit_std_event_follows with_ids_follows
  ids_for_entity_follows provide_bucket_id_follows provide_proof_id_follows
  check_access_rules_follows tracker_template_follows : steps.

Lemma on_value_follows {A B : Type} (f : SubstateValue → option B) up l (m : M B RuntimeError A) :
  (∀ v b, f v = Some b → keeps_value v (up (m b).2)) → follows R (on_value f up l m).
Proof.
  intros Hk. apply step_store. constructor. intros id v.
  destruct (f v) as [b|] eqn:Hb; [|done]. specialize (Hk v b Hb). by destruct (m b).
Qed.
Lemma use_allocated_address_follows id : follows R (use_allocated_address id).
Proof.
  intros s r s'. unfold use_allocated_address. case_match; intros [= <- <-] _; [|done].
  apply step_allocations.
Qed.
Lemma new_address_allocation_follows a : follows R (new_address_allocation a).
Proof.
  intros s r s'. unfold new_address_allocation. case_match; intros [= <- <-] ?; [|done].
  apply step_allocations.
Qed.
Lemma next_entity_id_follows : follows R next_entity_id.
Proof.
  intros s r s'. unfold next_entity_id. case_match; intros [= <- <-] _; apply step_entity_ids.
Qed.
Lemma pay_fee_follows c v : follows R (pay_fee c v).
Proof.
  apply on_fee_state_follows; [done|]. clear. intros f. unfold add_fee_payment_checked.
  case_bool_decide as Ha; [by left|].
  repeat case_match; try (by left); intros c'; unfold payments; simpl;
    rewrite ?fmap_app, !elem_of_app; csimpl; rewrite list_elem_of_singleton; naive_solver.
Qed.
Lemma add_fee_charge_follows source n : follows R (add_fee_charge source n).
Proof.
  unfold add_fee_charge. follow. apply on_fee_state_follows; [done|]. clear.
  intros f c. unfold add_charge, zoom. destruct (breakdown_add _ _ _). by left.
Qed.
Lemma validate_component_state_follows p n : follows R (validate_component_state p n).
Proof. apply (follows_at R (λ s, bind _ _)). intros s. follow. Qed.
#[local] Hint Resolve use_allocated_address_follows new_address_allocation_follows
  next_entity_id_follows pay_fee_follows validate_component_state_follows : steps.

Lemma modify_component_with_follows l f : follows R (modify_component_with l f).
Proof.
  unfold modify_component_with. follow. apply step_store. constructor. intros id v.
  unfold modify_callback. destruct v; simpl; try (by eauto); by repeat case_match.
Qed.
#[local] Hint Resolve modify_component_with_follows : steps.

Lemma load_component_call_follows a : follows R (load_component modules a).
Proof. unfold load_component. follow. Qed.
#[local] Hint Resolve load_component_call_follows : steps.
Lemma invoke_hook_follows h c a : follows R (invoke_hook modules hook h c a).
Proof.
  unfold invoke_hook, invoke_resource_access_hook, invoke_component_method. follow.
Qed.
#[local] Hint Resolve invoke_hook_follows : steps.
Lemma lock_vault_for_follows v f a : follows R (lock_vault_for v f a).
Proof. unfold lock_vault_for. follow. Qed.
Lemma authorize_resource_follows r a : follows R (authorize_resource modules hook r a).
Proof. unfold authorize_resource. follow. Qed.
#[local] Hint Resolve lock_vault_for_follows authorize_resource_follows : steps.

(** *** Vaults, buckets and proofs *)
Lemma vault_read_follows v f : follows R (vault_read v f).
Proof. unfold vault_read. follow. Qed.
Lemma bucket_read_follows b f : follows R (bucket_read b f).
Proof. by intros s r s' [= _ <-] _. Qed.
Lemma proof_read_follows p f : follows R (proof_read p f).
Proof. by intros s r s' [= _ <-] _. Qed.
Lemma proof_authorize_follows p : follows R (proof_authorize p).
Proof. unfold proof_authorize. follow_state. Qed.
Lemma proof_drop_authorize_follows p : follows R (proof_drop_authorize p).
Proof. unfold proof_drop_authorize. follow_state. Qed.
#[local] Hint Resolve vault_read_follows bucket_read_follows
  proof_read_follows proof_authorize_follows proof_drop_authorize_follows : steps.

(** *** Resources *)
Lemma get_template_for_component_follows a : follows R (get_template_for_component a).
Proof. unfold get_template_for_component. follow_state. Qed.
#[local] Hint Resolve get_template_for_component_follows : steps.
Lemma check_resource_auth_hook_follows h : follows R (check_resource_auth_hook functions_of h).
Proof. unfold check_resource_auth_hook. follow. Qed.
Lemma resource_read_follows a f : follows R (resource_read a f).
Proof. unfold resource_read. follow. Qed.
Lemma resource_get_non_fungible_follows a id : follows R (resource_get_non_fungible a id).
Proof. unfold resource_get_non_fungible. follow. Qed.
Lemma on_non_fungible_mut_follows {A : Type} l (m : M NonFungibleContainer RuntimeError A) :
  (∀ nf, nf_is_burnt (m nf).2 = nf_is_burnt nf) → follows R (on_non_fungible_mut l m).
Proof. intros Hm. apply on_value_follows. clear -Hm. intros [] b [= <-]; simpl; by eauto. Qed.
Lemma on_utxo_mut_follows {A : Type} l (m : M Utxo RuntimeError A) : follows R (on_utxo_mut l m).
Proof. apply on_value_follows. clear. intros [] b [= <-]; simpl; by eauto. Qed.
#[local] Hint Resolve check_resource_auth_hook_follows resource_read_follows
  resource_get_non_fungible_follows on_utxo_mut_follows : steps.
Lemma resource_update_nf_data_follows a id d :
  follows R (resource_update_nf_data modules hook a id d).
Proof.
  unfold resource_update_nf_data. follow. apply on_non_fungible_mut_follows. clear.
  intros [[nf|]]; done.
Qed.
Lemma resource_update_access_rules_follows a rules :
  follows R (resource_update_access_rules modules hook a rules).
Proof.
  unfold resource_update_access_rules. follow.
  apply on_value_follows. clear. intros [] b [= <-]; simpl; by eauto.
Qed.
Lemma set_vault_freeze_follows l f : follows R (set_vault_freeze l f).
Proof.
  unfold set_vault_freeze. follow. apply on_value_follows. clear. intros [] b [= <-]; simpl; by eauto.
Qed.
#[local] Hint Resolve set_vault_freeze_follows : steps.
Lemma resource_set_vault_freeze_follows a v f :
  follows R (resource_set_vault_freeze modules hook a v f).
Proof. unfold resource_set_vault_freeze. follow. Qed.
Lemma resource_set_utxos_freeze_follows a us f : follows R (resource_set_utxos_freeze a us f).
Proof. unfold resource_set_utxos_freeze, freeze_utxo. follow. Qed.
Lemma mint_token_follows a t : follows R (mint_token encoded_len a t).
Proof.
  destruct t as [id [data mut_data]]. unfold mint_token. follow_state.
Qed.
#[local] Hint Resolve mint_token_follows : steps.
Lemma mint_container_follows l a m : follows R (mint_container encoded_len l a m).
Proof. unfold mint_container. follow. Qed.
Lemma spend_stealth_utxos_follows a i : follows R (spend_stealth_utxos a i).
Proof.
  unfold spend_stealth_utxos, spend_stealth_utxo. follow; apply step_store; auto with steps.
Qed.
Lemma new_stealth_output_follows a o : follows R (new_stealth_output encoded_len a o).
Proof. by apply new_substate_follows. Qed.
#[local] Hint Resolve mint_container_follows spend_stealth_utxos_follows
  new_stealth_output_follows : steps.

(** *** Components, the workspace and the other calls *)
Lemma new_component_follows v k o rules al : follows R (new_component encoded_len v k o rules al).
Proof.
  unfold new_component. follow_state.
Qed.
#[local] Hint Resolve new_component_follows : steps.
Lemma component_get_state_follows a : follows R (component_get_state a).
Proof.
  assert (follows R (read_component_state a)) by (unfold read_component_state; follow).
  unfold component_get_state. follow_state.
Qed.
Lemma current_component_lock_follows a : follows R (current_component_lock a).
Proof. by intros s r s' [= _ <-] _. Qed.
Lemma component_get_template_follows a : follows R (component_get_template a).
Proof. by intros s r s' [= _ <-] _. Qed.
#[local] Hint Resolve component_get_state_follows current_component_lock_follows
  component_get_template_follows : steps.
Lemma component_invoke_follows c a :
  follows R (component_invoke encoded_len modules def_of signer c a).
Proof.
  unfold component_invoke, component_create, component_set_state, component_set_access_rules. follow.
Qed.
Lemma non_fungible_invoke_follows a x : follows R (non_fungible_invoke modules a x).
Proof. unfold non_fungible_invoke. follow. Qed.
Lemma consensus_invoke_follows : follows R (consensus_invoke modules).
Proof. unfold consensus_invoke. follow. Qed.
Lemma generate_random_invoke_follows n : follows R (generate_random_invoke modules n).
Proof. unfold generate_random_invoke. follow. Qed.
Lemma generate_uuid_follows : follows R (generate_uuid modules).
Proof. unfold generate_uuid. follow. Qed.
Lemma caller_context_invoke_follows a : follows R (caller_context_invoke modules signer a).
Proof. unfold caller_context_invoke. follow. Qed.
Lemma allocate_address_invoke_follows a : follows R (allocate_address_invoke modules a).
Proof. unfold allocate_address_invoke. follow. Qed.
Lemma allocate_address_follows t e w : follows R (allocate_address t e w).
Proof. unfold allocate_address. follow. Qed.
Lemma builtin_template_invoke_follows b : follows R (builtin_template_invoke modules b).
Proof. unfold builtin_template_invoke. follow. Qed.
Lemma signature_invoke_follows a : follows R (signature_invoke modules verify_signature a).
Proof. unfold signature_invoke. follow. Qed.
Lemma emit_event_follows t p : follows R (emit_event modules t p).
Proof. unfold emit_event. follow. Qed.
Lemma emit_log_follows l m : follows R (emit_log modules l m).
Proof. unfold emit_log. follow. Qed.
Lemma set_last_instruction_output_follows v : follows R (set_last_instruction_output modules v).
Proof. unfold set_last_instruction_output. follow. Qed.
Lemma claim_burn_follows c d : follows R (claim_burn encoded_len signer verify_claim_proof c d).
Proof. unfold claim_burn. follow. Qed.
Lemma publish_template_follows t : follows R (publish_template encoded_len modules signer t).
Proof. unfold publish_template. follow. Qed.
End quiet_calls.
#[export] Hint Resolve on_call_follows on_event_follows new_substate_follows
  emit_std_event_follows with_ids_follows ids_for_entity_follows provide_bucket_id_follows
  provide_proof_id_follows check_access_rules_follows tracker_template_follows
  use_allocated_address_follows new_address_allocation_follows next_entity_id_follows
  pay_fee_follows add_fee_charge_follows validate_component_state_follows modify_component_with_follows
  load_component_call_follows invoke_hook_follows lock_vault_for_follows
  authorize_resource_follows vault_read_follows bucket_read_follows
  proof_read_follows proof_authorize_follows proof_drop_authorize_follows
  check_resource_auth_hook_follows resource_read_follows resource_get_non_fungible_follows
  on_utxo_mut_follows resource_update_nf_data_follows
  resource_update_access_rules_follows resource_set_vault_freeze_follows
  resource_set_utxos_freeze_follows mint_container_follows
  spend_stealth_utxos_follows new_stealth_output_follows component_invoke_follows
  non_fungible_invoke_follows consensus_invoke_follows generate_random_invoke_follows
  generate_uuid_follows caller_context_invoke_follows allocate_address_invoke_follows
  allocate_address_follows builtin_template_invoke_follows signature_invoke_follows
  emit_event_follows emit_log_follows set_last_instruction_output_follows claim_burn_follows
  publish_template_follows : steps.

(** The fee module only charges fees. *)
Lemma fee_module_follows `{I192} (R : relation WorkingState) `{!StepLaws R} encoded_len c w t :
  module_follows R (fee_module encoded_len c w t).
Proof. split; intros; simpl; follow. Qed.

(** ** Calls that move funds *)
Section moving_calls.
Context `{Ii : !I192} `{Ic : !Crypto} `{Cb : !Cbor} `{Ih : !IdHashes} `{Eh : !EngineHashes}.
Context `{Hi : !HashIter} `{Dp : !Display}.
Variable encoded_len : SubstateValue → option Z.
Variable modules : list RuntimeModule.
Variable hook : ComponentAddress → string → ResourceAuthAction → AuthHookCaller →
  M WorkingState unit Value.
Variable functions_of : TemplateAddress → res RuntimeError (list FunctionDef).
Variable signer : PublicKeyBytes.
Context (R : relation WorkingState) `{ML : !MoveLaws R}.
Hypothesis modules_follow : ∀ m, m ∈ modules → module_follows R m.
Hypothesis hook_follows : ∀ c m a k, follows R (hook c m a k).

Lemma on_value_moves {A B : Type} (f : SubstateValue → option B) up l (m : M B RuntimeError A) :
  (∀ v b b', f v = Some b → same_kind v (up b')) → follows R (on_value f up l m).
Proof.
  intros Hk. apply move_store. intros id v. destruct (f v) as [b|] eqn:Hb; [|done].
  specialize (Hk v b (m b).2 Hb). by destruct (m b).
Qed.
Lemma on_vault_mut_moves {A : Type} l (m : M Vault RuntimeError A) : follows R (on_vault_mut l m).
Proof. apply on_value_moves. clear. by intros [] b b' [= <-] id; destruct id. Qed.
Lemma on_resource_mut_moves {A : Type} l (m : M Resource RuntimeError A) :
  follows R (on_resource_mut l m).
Proof. apply on_value_moves. clear. by intros [] b b' [= <-] id; destruct id. Qed.
Lemma burn_token_moves a id : follows R (burn_token a id).
Proof.
  unfold burn_token. follow. apply on_value_moves. clear. by intros [] b b' [= <-] id; destruct id.
Qed.
#[local] Hint Resolve burn_token_moves : steps.
Lemma burn_bucket_moves b : follows R (burn_bucket b).
Proof. unfold burn_bucket. follow. Qed.
Lemma on_bucket_mut_moves {A : Type} b (m : M Bucket RuntimeError A) :
  follows R (on_bucket_mut b m).
Proof.
  intros s r s'. unfold on_bucket_mut. destruct (get_bucket s b); [|by intros [= <- <-]..].
  destruct (m _). intros [= <- <-] _. apply move_buckets.
Qed.
Lemma take_bucket_moves b : follows R (take_bucket b).
Proof.
  unfold take_bucket. follow_state. apply follows_modify. intros s0. apply move_buckets.
Qed.
Lemma new_bucket_moves b c : follows R (new_bucket b c).
Proof.
  unfold new_bucket. follow_state. clear - ML. intros s r s' [= <- <-] _. apply move_buckets.
Qed.
Lemma new_proof_moves p l : follows R (new_proof p l).
Proof.
  intros s r s'. unfold new_proof. case_match; intros Hq Hp; simplify_eq; [apply move_proofs|].
  etrans; [apply move_proofs|]. by apply (on_scope_follows R _ _ _ _ Hq).
Qed.
#[local] Hint Resolve on_vault_mut_moves on_resource_mut_moves burn_bucket_moves on_bucket_mut_moves
  take_bucket_moves new_bucket_moves new_proof_moves : steps.
Lemma drop_proof_moves p : follows R (drop_proof p).
Proof.
  unfold drop_proof. follow_state.
  - clear - ML. intros s r s' [= <- <-] _. apply move_proofs.
  - clear - ML. intros s r s'. case_match; [|by intros [= <- <-]].
    destruct (map_err _ _ _). intros [= <- <-] _. apply move_buckets.
Qed.
#[local] Hint Resolve drop_proof_moves : steps.

Lemma mint_resource_moves l m : follows R (mint_resource encoded_len l m).
Proof. unfold mint_resource. follow_state. Qed.
Lemma recall_resource_moves l d : follows R (recall_resource_from_vault l d).
Proof. unfold recall_resource_from_vault. follow. Qed.
Lemma transfer_stealth_moves a t b : follows R (transfer_stealth encoded_len a t b).
Proof. unfold transfer_stealth. follow. Qed.
Lemma execute_stealth_transfer_moves a t b :
  follows R (execute_stealth_transfer encoded_len a t b).
Proof.
  unfold execute_stealth_transfer. follow_state. apply transfer_stealth_moves.
Qed.
Lemma withdraw_all_fees_moves a : follows R (withdraw_all_fees_from_pool a).
Proof.
  unfold withdraw_all_fees_from_pool. follow.
  - apply move_store. intros id [| | | | | | |p|]; try done. by destruct (pool_withdraw_all p).
  - apply follows_modify. intros s. apply step_withdrawals.
Qed.
#[local] Hint Resolve mint_resource_moves recall_resource_moves execute_stealth_transfer_moves
  withdraw_all_fees_moves : steps.

Lemma vault_create_moves v : follows R (vault_create encoded_len v).
Proof.
  unfold vault_create, new_substate, enforce_substate_size_limit. follow. by apply move_insert.
Qed.
#[local] Hint Resolve vault_create_moves : steps.
Lemma vault_invoke_moves v a : follows R (vault_invoke encoded_len modules hook v a).
Proof.
  unfold vault_invoke, vault_invoke_deposit, vault_invoke_withdraw, vault_pay_fee,
    vault_create_proof. follow.
Qed.
Lemma bucket_invoke_moves b a : follows R (bucket_invoke modules hook b a).
Proof.
  unfold bucket_invoke, bucket_take, bucket_take_confidential, bucket_join, bucket_burn,
    bucket_create_proof. follow.
Qed.
Lemma proof_invoke_moves p a : follows R (proof_invoke modules p a).
Proof. unfold proof_invoke. follow. Qed.
Lemma stealth_transfer_moves a t b : follows R (stealth_transfer encoded_len a t b).
Proof. unfold stealth_transfer. follow. Qed.
#[local] Hint Resolve stealth_transfer_moves : steps.
Lemma pay_fee_stealth_moves t b : follows R (pay_fee_stealth encoded_len t b).
Proof. unfold pay_fee_stealth. follow. Qed.
Lemma resource_invoke_moves a x :
  follows R (resource_invoke encoded_len modules hook functions_of signer a x).
Proof.
  unfold resource_invoke, resource_create, resource_mint, resource_recall, resource_stealth_burn.
  follow.
Qed.
Lemma workspace_invoke_moves a : follows R (workspace_invoke modules a).
Proof.
  unfold workspace_invoke. follow. clear - ML. intros s r s' [= <- <-] _. apply step_last_output.
Qed.
Lemma claim_validator_fees_moves a : follows R (claim_validator_fees a).
Proof. unfold claim_validator_fees. follow. Qed.
End moving_calls.
#[export] Hint Resolve vault_invoke_moves bucket_invoke_moves proof_invoke_moves
  stealth_transfer_moves pay_fee_stealth_moves resource_invoke_moves workspace_invoke_moves
  claim_validator_fees_moves : steps.

(** ** What the code that makes the runtime calls relies on
    Everything a template or an instruction can call follows [R], when the component
    methods that the call runs do and its resource action is among [fits]. *)
Section call_laws.
Context `{Ii : !I192} `{Ic : !Crypto} `{Cb : !Cbor} `{Ih : !IdHashes} `{Eh : !EngineHashes}.
Context `{Hi : !HashIter} `{Dp : !Display}.
Variable encoded_len : SubstateValue → option Z.
Variable modules : list RuntimeModule.
Variable functions_of : TemplateAddress → res RuntimeError (list FunctionDef).
Variable signer : PublicKeyBytes.
Variable fits : ResourceAction → Prop.

Class CallLaws (R : relation WorkingState) : Prop := {
  call_steps :: StepLaws R;
  call_push f n : follows R (push_frame f n);
  call_pop : follows R pop_frame;
  call_modules m : m ∈ modules → module_follows R m;
  call_workspace a : follows R (workspace_invoke modules a);
  call_proof p a : follows R (proof_invoke modules p a);
  call_vault hook v a :
    (∀ c m k x, follows R (hook c m k x)) → follows R (vault_invoke encoded_len modules hook v a);
  call_bucket hook b a :
    (∀ c m k x, follows R (hook c m k x)) → follows R (bucket_invoke modules hook b a);
  call_resource hook a x :
    (∀ c m k x, follows R (hook c m k x)) → fits x →
    follows R (resource_invoke encoded_len modules hook functions_of signer a x);
  call_stealth_transfer a t b : follows R (stealth_transfer encoded_len a t b);
  call_pay_fee t b : follows R (pay_fee_stealth encoded_len t b);
  call_claim_fees a : follows R (claim_validator_fees a);
}.

Lemma moves_calls (R : relation WorkingState) :
  MoveLaws R → (∀ f n, follows R (push_frame f n)) → follows R pop_frame →
  (∀ m, m ∈ modules → module_follows R m) → CallLaws R.
Proof. intros ML Hpush Hpop Hm. split; auto with steps. Qed.
End call_laws.
Lemma call_laws_weaken `{Ii : !I192} `{Ic : !Crypto} `{Cb : !Cbor} `{Ih : !IdHashes}
    `{Eh : !EngineHashes} `{Hi : !HashIter} `{Dp : !Display}
    encoded_len modules functions_of signer (fits fits' : ResourceAction → Prop) R :
  (∀ x, fits' x → fits x) → CallLaws encoded_len modules functions_of signer fits R →
  CallLaws encoded_len modules functions_of signer fits' R.
Proof. intros Hf []. split; auto. Qed.
