(* ===== verification/CallDepth.v ===== *)
(** * Call depth

    [engine/src/runtime/working_state.rs], [engine/src/transaction/processor.rs]:
    the call frames of a run.  No call removes the frames it found, and calls
    nest no deeper than the limit, so that the run of any template ends. *)
From stdpp Require Import base gmap list strings numbers.
From S2P Require Import Prelude Bor BTree Ids IndexedValue IdProvider Amount Crypto Confidential.
From S2P Require Import ResourceContainer FreezeFlags Proof Bucket Vault AccessRules RuntimeError.
From S2P Require Import Auth Locking Fees Substate Stealth FeeState Scope StateStore Workspace.
From S2P Require Import WorkingState Runtime RuntimeCalls Engine Processor Examples Steps.
Open Scope nat_scope.

#[local] Notation "'W'" := (M WorkingState RuntimeError) (only parsing).

(** No frame is lost. *)
Definition deeper (s s' : WorkingState) : Prop := call_frame_depth s ≤ call_frame_depth s'.

Lemma depth_on_store {A : Type} (m : M WorkingStateStore RuntimeError A) :
  follows deeper (on_store m).
Proof. intros s r s'. unfold on_store, zoom. destruct (m _). intros [= _ <-] _. apply Nat.le_refl. Qed.

#[export] Instance deeper_steps : StepLaws deeper.
Proof.
  split; try (intros; apply Nat.le_refl).
  - split; [intros s; apply Nat.le_refl|]. intros s1 s2 s3. unfold deeper. lia.
  - intros A m _. apply depth_on_store.
  - intros c s. unfold deeper, call_frame_depth, set_current_call_scope.
    destruct (call_frames s); apply Nat.le_refl.
Qed.
#[export] Instance deeper_moves : MoveLaws deeper.
Proof. split; [apply _|intros; apply depth_on_store..|intros; apply Nat.le_refl|intros; apply Nat.le_refl]. Qed.

(** Calls that agree on the states satisfying [P]. *)
Definition agree {S E A : Type} (P : S → Prop) (m m' : M S E A) : Prop :=
  ∀ s, P s → m s = m' s.

Lemma agree_bind {S E A B : Type} (P : S → Prop) (R : relation S) (m m' : M S E A)
    (k k' : A → M S E B) :
  (∀ s s', P s → R s s' → P s') → follows R m →
  agree P m m' → (∀ a, agree P (k a) (k' a)) → agree P (bind m k) (bind m' k').
Proof.
  intros HP Hm Hmm Hk s Hs. unfold bind. rewrite <- (Hmm s Hs).
  destruct (m s) as [[a|e|] s'] eqn:Hr; [|done..]. apply Hk. eapply HP; [done|]. by eapply Hm.
Qed.
Lemma agree_map_err {S E F A : Type} (P : S → Prop) (f : E → F) (m m' : M S E A) :
  agree P m m' → agree P (map_err f m) (map_err f m').
Proof. intros Hm s Hs. unfold map_err. by rewrite (Hm s Hs). Qed.

(** The states at least [d] frames deep, which no call leaves. *)
Definition at_depth (d : nat) (s : WorkingState) : Prop := d ≤ call_frame_depth s.
Lemma at_depth_deeper d s s' : at_depth d s → deeper s s' → at_depth d s'.
Proof. unfold at_depth, deeper. lia. Qed.

(** Descend into two calls of the same shape, down to where they differ. *)
Create HintDb agreement.
#[export] Hint Constants Opaque : agreement.
Ltac agree_step :=
  match goal with
  | |- agree _ ?m ?m => by intros ? _
  | |- agree _ (bind _ _) (bind _ _) =>
      apply (agree_bind _ deeper); [apply at_depth_deeper|try solve [follow]| |intros ?]
  | |- agree _ (map_err _ _) (map_err _ _) => apply agree_map_err
  | |- agree _ (match ?x with _ => _ end) _ => destruct x
  end.
Ltac agreement := repeat (first [solve [auto with agreement] | agree_step]).

Section depth.
Context `{Ii : !I192} `{Ic : !Crypto} `{Cb : !Cbor} `{Ih : !IdHashes} `{Eh : !EngineHashes}.
Context `{Hi : !HashIter} `{Dp : !Display} `{Ce : !CborEncode}.
Variable encoded_len : SubstateValue → option Z.
Variable modules : list RuntimeModule.
Variable template_provider : TemplateAddress → res unit (option LoadedTemplate).
Variable signer : PublicKeyBytes.
Variable verify_claim_proof : Z → PublicKeyBytes → MinotariBurnClaimProof → bool.
Variable verify_signature : SignatureVerifyArg → bool.
Variable max_call_depth : nat.
Variable error_text : option RuntimeError → string.
Hypothesis modules_keep_frames : ∀ m, m ∈ modules → module_follows deeper m.

#[local] Hint Resolve deeper_moves : steps.
Notation step := (invoke_step encoded_len modules template_provider signer verify_signature
  max_call_depth error_text).

Lemma resolve_args_follows args : follows deeper (resolve_args modules args).
Proof.
  unfold resolve_args. follow. induction args as [|arg args' IH]; simpl; [follow|].
  unfold resolve_arg. follow.
Qed.
#[local] Hint Resolve resolve_args_follows : steps.

Lemma push_call_frame_depth p s r s' :
  push_call_frame max_call_depth p s = (r, s') →
  match r with
  | Ok _ => call_frame_depth s' = S (call_frame_depth s) ∧ call_frame_depth s' ≤ max_call_depth
  | _ => s' = s
  end.
Proof.
  unfold push_call_frame, push_frame, bind, lift. intros H.
  destruct (check_all_substates_in_scope _ _); [|by simplify_eq..].
  destruct (Nat.ltb_spec max_call_depth (call_frame_depth s + 1)); [by simplify_eq|].
  injection H as <- <-. unfold call_frame_depth, set_frames in *. simpl. lia.
Qed.
Lemma pop_frame_depth s r s' :
  pop_frame s = (r, s') → r ≠ Panic → call_frame_depth s ≤ S (call_frame_depth s').
Proof.
  unfold pop_frame. destruct (call_frames s) as [|f fs] eqn:Hf.
  { intros [= <- <-] _. lia. }
  intros H Hp. unfold bind at 1, put in H. cbv beta iota in H.
  assert (deeper (set_frames fs (initial_call_scope s) s) s') as Hd.
  { refine (follows_apply deeper _ _ _ _ H Hp _). follow. }
  unfold deeper, call_frame_depth in *. rewrite Hf. simpl in *. lia.
Qed.

Notation call_function' := (call_function modules template_provider max_call_depth).
Notation call_method' := (call_method modules template_provider max_call_depth).
Notation call_hook' := (call_hook modules template_provider max_call_depth).
Notation entrypoint := (engine_entrypoint encoded_len modules template_provider signer
  verify_signature max_call_depth).
Notation prog := (run_prog encoded_len modules template_provider signer verify_signature
  max_call_depth error_text).

(** ** No call removes the frames it found *)
Section keeps.
Variable invoke : LoadedTemplate → FunctionDef → list Value →
  M WorkingState TransactionError InstructionResult.
Hypothesis invoke_follows : ∀ t f a, follows deeper (invoke t f a).

Lemma run_in_frame_depth t f a s r s' :
  run_in_frame invoke t f a s = (r, s') → r ≠ Panic →
  call_frame_depth s ≤ S (call_frame_depth s').
Proof.
  unfold run_in_frame, bind, rt, map_err, ret. intros H Hp.
  destruct (invoke t f a s) as [q s1] eqn:Hq.
  assert (q ≠ Panic → call_frame_depth s ≤ call_frame_depth s1) as Hd
    by (intros ?; by eapply invoke_follows).
  destruct q as [res|e|]; [|by simplify_eq/=; specialize (Hd ltac:(done)); lia|by simplify_eq].
  specialize (Hd ltac:(done)). simpl in H.
  destruct (check_all_substates_known _ _) as [u|e|]; simpl in H; [|by simplify_eq; lia|by simplify_eq].
  destruct (pop_frame s1) as [q s2] eqn:Hpop. apply pop_frame_depth in Hpop.
  - destruct q; simpl in H; simplify_eq; lia.
  - intros ->. by simplify_eq/=.
Qed.

(** A frame is pushed, and the code run in it. *)
Lemma push_and_run_follows p (k : M WorkingState TransactionError unit) t f a :
  follows deeper k →
  follows deeper (do! rt (push_call_frame max_call_depth p) in do! k in run_in_frame invoke t f a).
Proof.
  intros Hk s r s' H Hp. unfold bind, rt, map_err in H.
  destruct (push_call_frame _ p s) as [q s1] eqn:Hq. apply push_call_frame_depth in Hq.
  destruct q as [u|e|]; [|by simplify_eq/=..]. destruct Hq as [Hd _]. simpl in H.
  destruct (k s1) as [q s2] eqn:Hs2. unfold deeper. destruct q as [u'|e|].
  - assert (deeper s1 s2) by by eapply Hk. apply run_in_frame_depth in H; [|done].
    unfold deeper in *. lia.
  - assert (deeper s1 s2) by by eapply Hk. unfold deeper in *. simplify_eq. lia.
  - by simplify_eq.
Qed.

Lemma call_function_follows a f args : follows deeper (call_function' invoke a f args).
Proof.
  unfold call_function. do 5 (first [apply follows_bind_lift; [exact _|intros ? ?]
    |apply follows_bind; [exact _|unfold rt; follow|intros ?]]).
  exact (push_and_run_follows _ (ret tt) _ _ _ (follows_ret deeper tt)).
Qed.
Lemma load_call_follows c : follows deeper (load_component_call modules c).
Proof. unfold load_component_call. follow. Qed.
#[local] Hint Resolve load_call_follows : steps.
Lemma call_method_follows c m args : follows deeper (call_method' invoke c m args).
Proof.
  unfold call_method. apply follows_bind; [exact _|unfold rt; follow|intros [addr comp]].
  do 6 (first [apply follows_bind_lift; [exact _|intros ? ?]
    |apply follows_bind; [exact _|unfold rt; follow|intros ?]]).
  apply push_and_run_follows. unfold rt. follow. by intros s r s' [= <- <-] _.
Qed.
Lemma call_hook_follows c m a k : follows deeper (call_hook' invoke c m a k).
Proof. unfold call_hook. follow. apply call_method_follows. Qed.
#[local] Hint Resolve call_function_follows call_method_follows call_hook_follows : steps.

Lemma entrypoint_follows op : follows deeper (entrypoint invoke op).
Proof. destruct op; simpl; unfold call_invoke; follow. Qed.
Lemma prog_follows e p : follows deeper (prog invoke e p).
Proof.
  revert e. induction p as [raw| |op k IH]; intros e s r s' H Hp; simpl in H.
  - refine (follows_apply deeper _ _ _ _ H Hp _). follow.
  - by simplify_eq.
  - destruct (entrypoint invoke op s) as [q s1] eqn:Hq.
    assert (q ≠ Panic → deeper s s1) as Hd by (intros ?; by eapply entrypoint_follows).
    destruct q as [x|err|]; [| |by simplify_eq].
    + etrans; [by apply Hd|]. by eapply IH.
    + destruct (emit_log modules LOG_ERROR (error_text (Some err)) s1) as [q s2] eqn:Hl.
      assert (q ≠ Panic → deeper s1 s2) as Hd2.
      { intros ?. eapply emit_log_follows; [apply _|done..]. }
      destruct q; [| |by simplify_eq]; (etrans; [by apply Hd|]); (etrans; [by apply Hd2|]);
        by eapply IH.
Qed.
Lemma step_follows t f a : follows deeper (step invoke t f a).
Proof. unfold invoke_step. follow. apply prog_follows. Qed.
End keeps.

Lemma invoke_within_follows o fuel t f a :
  follows deeper (invoke_within encoded_len modules template_provider signer verify_signature
                    max_call_depth error_text o fuel t f a).
Proof.
  revert t f a. induction fuel as [|n IH]; intros t f a; simpl; [follow|by apply step_follows].
Qed.

(** ** The calls below a depth decide nothing at that depth

    The two ways to run the code of a template agree above the depth [d]. *)
Section agreement.
Variables invoke invoke' : LoadedTemplate → FunctionDef → list Value →
  M WorkingState TransactionError InstructionResult.
Hypothesis invoke_follows : ∀ t f a, follows deeper (invoke t f a).
Variable d : nat.
Hypothesis invoke_agree : ∀ t f a s,
  d < call_frame_depth s ≤ max_call_depth → invoke t f a s = invoke' t f a s.
#[local] Hint Resolve load_call_follows call_function_follows call_method_follows
  call_hook_follows : steps.

Lemma push_and_run_agree p (k : M WorkingState TransactionError unit) t f a :
  preserves call_frames k →
  agree (at_depth d)
    (do! rt (push_call_frame max_call_depth p) in do! k in run_in_frame invoke t f a)
    (do! rt (push_call_frame max_call_depth p) in do! k in run_in_frame invoke' t f a).
Proof.
  intros Hk s Hs. unfold bind, rt, map_err.
  destruct (push_call_frame _ p s) as [q s1] eqn:Hq. apply push_call_frame_depth in Hq.
  destruct q as [u|e|]; [|done..]. simpl. pose proof (Hk s1) as Hk1.
  destruct (k s1) as [[u'|e|] s2]; [|done..].
  unfold run_in_frame, bind. rewrite <- invoke_agree; [done|].
  unfold at_depth, call_frame_depth in *. simpl in Hk1. rewrite Hk1. lia.
Qed.

Lemma call_function_agree a f args :
  agree (at_depth d) (call_function' invoke a f args) (call_function' invoke' a f args).
Proof.
  unfold call_function.
  do 5 (apply (agree_bind _ deeper); [apply at_depth_deeper|unfold rt; follow|by intros ? _|intros ?]).
  exact (push_and_run_agree _ (ret tt) _ _ _ (λ s, eq_refl)).
Qed.
Lemma call_method_agree c m args :
  agree (at_depth d) (call_method' invoke c m args) (call_method' invoke' c m args).
Proof.
  unfold call_method.
  apply (agree_bind _ deeper); [apply at_depth_deeper|unfold rt; follow|by intros ? _|intros [addr comp]].
  do 6 (apply (agree_bind _ deeper); [apply at_depth_deeper|unfold rt; follow|by intros ? _|intros ?]).
  by apply push_and_run_agree.
Qed.
Lemma call_hook_agree c m a k :
  agree (at_depth d) (call_hook' invoke c m a k) (call_hook' invoke' c m a k).
Proof.
  unfold call_hook. agreement. apply call_method_agree.
Qed.
#[local] Hint Resolve call_function_agree call_method_agree call_hook_agree : agreement.

Lemma invoke_hook_agree h c a :
  agree (at_depth d) (invoke_hook modules (call_hook' invoke) h c a)
    (invoke_hook modules (call_hook' invoke') h c a).
Proof.
  unfold invoke_hook, invoke_resource_access_hook, invoke_component_method. agreement.
Qed.
#[local] Hint Resolve invoke_hook_agree : agreement.
Lemma authorize_resource_agree r a :
  agree (at_depth d) (authorize_resource modules (call_hook' invoke) r a)
    (authorize_resource modules (call_hook' invoke') r a).
Proof. unfold authorize_resource. agreement. Qed.
#[local] Hint Resolve authorize_resource_agree : agreement.

Lemma entrypoint_agree op : agree (at_depth d) (entrypoint invoke op) (entrypoint invoke' op).
Proof.
  destruct op; unfold engine_entrypoint; cbv iota beta; try (agree_step; fail).
  - unfold resource_invoke, resource_mint, resource_recall, resource_update_nf_data,
      resource_update_access_rules, resource_set_vault_freeze. agreement.
  - unfold vault_invoke, vault_invoke_deposit, vault_invoke_withdraw, vault_create_proof. agreement.
  - unfold bucket_invoke, bucket_burn, bucket_create_proof. agreement.
  - unfold call_invoke. agreement.
Qed.
Lemma prog_agree e p : agree (at_depth d) (prog invoke e p) (prog invoke' e p).
Proof.
  revert e. induction p as [raw| |op k IH]; intros e s Hs; simpl; [done..|].
  rewrite <- (entrypoint_agree op s Hs).
  destruct (entrypoint invoke op s) as [q s1] eqn:Hq.
  assert (q ≠ Panic → at_depth d s1) as Hs1.
  { intros ?. eapply at_depth_deeper; [done|]. by eapply entrypoint_follows. }
  destruct q as [x|err|]; [by apply IH, Hs1| |done].
  destruct (emit_log modules LOG_ERROR (error_text (Some err)) s1) as [q s2] eqn:Hl.
  assert (q ≠ Panic → at_depth d s2) as Hs2.
  { intros ?. eapply at_depth_deeper; [by apply Hs1|]. eapply emit_log_follows; [apply _|done..]. }
  destruct q; [| |done]; by apply IH, Hs2.
Qed.
End agreement.

Notation within := (invoke_within encoded_len modules template_provider signer verify_signature
  max_call_depth error_text).

Lemma invoke_within_fuel o o' fuel fuel' t f args s :
  max_call_depth - call_frame_depth s < fuel → max_call_depth - call_frame_depth s < fuel' →
  within o fuel t f args s = within o' fuel' t f args s.
Proof.
  revert fuel' t f args s. induction fuel as [|n IH]; intros [|n'] t f args s Hn Hn'; [lia..|].
  change (step (within o n) t f args s = step (within o' n') t f args s). unfold invoke_step, bind.
  rewrite (prog_agree (within o n) (within o' n') (invoke_within_follows o n) (call_frame_depth s));
    [done| |apply Nat.le_refl].
  intros t1 f1 a1 s1 Hd. apply IH; lia.
Qed.

(** C10: the run of any template ends.  Its nested calls, of other templates, of
    components and of authorization hooks, never go deeper than the limit on call
    frames: from a state that leaves [max_call_depth - depth] frames to push, the
    outcome is the same for every number of nesting levels above that and for
    every outcome one could give to a call below them, so that no such call is
    ever reached. *)
Theorem nested_calls_terminate (out_of_fuel out_of_fuel' : res TransactionError InstructionResult)
    (fuel fuel' : nat) (t : LoadedTemplate) (f : FunctionDef) (args : list Value) (s : WorkingState) :
  max_call_depth - call_frame_depth s < fuel → max_call_depth - call_frame_depth s < fuel' →
  within out_of_fuel fuel t f args s = within out_of_fuel' fuel' t f args s.
Proof. apply invoke_within_fuel. Qed.
End depth.

(** ** Instructions *)
Section instructions.
Context `{Ii : !I192} `{Ic : !Crypto} `{Cb : !Cbor} `{Ih : !IdHashes} `{Eh : !EngineHashes}.
Context `{Hi : !HashIter} `{Dp : !Display} `{Ce : !CborEncode}.
Variable encoded_len : SubstateValue → option Z.
Variable modules : list RuntimeModule.
Variable template_provider : TemplateAddress → res unit (option LoadedTemplate).
Variable verify_claim_proof : Z → PublicKeyBytes → MinotariBurnClaimProof → bool.
Variable verify_signature : SignatureVerifyArg → bool.
Variable error_text : option RuntimeError → string.
Variable loads_as_template : list N → bool.
Variable max_template_size : nat.
Variable signer : PublicKeyBytes.
Hypothesis modules_keep_frames : ∀ m, m ∈ modules → module_follows deeper m.
#[local] Hint Resolve deeper_moves resolve_args_follows : steps.

Notation process := (process_each encoded_len modules template_provider verify_claim_proof
  verify_signature error_text loads_as_template max_template_size signer).

Lemma invoke_follows t f a :
  follows deeper (invoke encoded_len modules template_provider verify_signature error_text signer
                    t f a).
Proof. by apply invoke_within_follows. Qed.
#[local] Hint Resolve invoke_follows : steps.

Lemma resolve_bucket_follows b : follows deeper (resolve_bucket modules b).
Proof. unfold resolve_bucket, resolve_arg. follow. Qed.
#[local] Hint Resolve resolve_bucket_follows : steps.
Lemma create_account_follows k o rules w :
  follows deeper (create_account encoded_len modules template_provider verify_signature error_text
                    signer k o rules w).
Proof.
  unfold create_account. do 4 (first [apply follows_bind_lift; [exact _|intros ? ?]
    |apply follows_bind; [exact _|unfold rt; follow|intros ?]]).
  exact (push_and_run_follows _ _ invoke_follows _ (ret tt) _ _ _ (follows_ret deeper tt)).
Qed.
Lemma process_instruction_follows i :
  follows deeper (process_instruction encoded_len modules template_provider verify_claim_proof
                    verify_signature error_text loads_as_template max_template_size signer i).
Proof.
  destruct i; unfold process_instruction, rt, instruction_publish_template,
    instruction_allocate_address, instruction_stealth_transfer, instruction_pay_fee, rt; try solve [follow].
  - apply create_account_follows.
  - by apply call_function_follows; [|apply invoke_follows].
  - by apply call_method_follows; [|apply invoke_follows].
Qed.
Lemma process_each_follows l : follows deeper (process l).
Proof.
  induction l as [|i l IH]; simpl; follow. apply process_instruction_follows.
Qed.

Lemma validate_finalized_depth s u : validate_finalized s = Ok u → call_frame_depth s = 0.
Proof.
  unfold validate_finalized. intros H. do 3 (case_match; [done|]).
  destruct (new_vaults _); simpl in H; [|done..]. destruct (check_each _ _); simpl in H; [|done..].
  by destruct (Nat.eqb_spec (call_frame_depth s) 0).
Qed.
Lemma process_app l1 l2 s rs s' :
  process (l1 ++ l2) s = (Ok rs, s') →
  ∃ rs1 rs2 s1, process l1 s = (Ok rs1, s1) ∧ process l2 s1 = (Ok rs2, s') ∧ rs = rs1 ++ rs2.
Proof.
  revert s rs. induction l1 as [|i l1 IH]; intros s rs H; [by eauto 10|].
  cbn [app process_each] in *. apply bind_Ok in H as (r & s1 & Hi1 & H).
  apply bind_Ok in H as (rs0 & s2 & H & Hr). injection Hr as <- <-.
  apply IH in H as (rs1 & rs2 & s3 & H1 & H2 & ->).
  exists (r :: rs1), rs2, s3. unfold bind. by rewrite Hi1, H1.
Qed.

(** C11: what the frames of an accepted phase are.  Template code goes on after a
    call that failed, and a call that fails may leave its frame on the stack, in
    which case the code goes on in the scope of the callee.  But no call removes
    a frame it found, so a phase passes its final check only if every one of its
    instructions returned with the stack as empty as it was. *)
Theorem accepted_phase_keeps_stack (l : list Instruction) (s s' : WorkingState)
    (rs : list InstructionResult) :
  process_instructions encoded_len modules template_provider verify_claim_proof verify_signature
    error_text loads_as_template max_template_size signer l s = (Ok rs, s') →
  call_frame_depth s = 0 ∧
  ∀ l1 l2, l = l1 ++ l2 → ∃ rs1 s1, process l1 s = (Ok rs1, s1) ∧ call_frame_depth s1 = 0.
Proof.
  intros H. apply bind_Ok in H as (rs0 & s1 & Hp & H).
  apply bind_Ok in H as (u & s2 & Hv & H). injection H as <- <-.
  assert (validate_finalized s1 = Ok u ∧ s2 = s1) as [Hf ->].
  { unfold rt, map_err in Hv. simpl in Hv.
    destruct (validate_finalized s1); simpl in Hv; simplify_eq; auto. }
  assert (call_frame_depth s1 = 0) as Hd by by eapply validate_finalized_depth.
  assert (∀ l1 l2, l = l1 ++ l2 → ∃ rs1 s0, process l1 s = (Ok rs1, s0) ∧ call_frame_depth s0 = 0)
    as Hall.
  { intros l1 l2 ->. apply process_app in Hp as (rs1 & rs2 & s0 & H1 & H2 & _).
    exists rs1, s0. split; [done|]. apply process_each_follows in H2.
    specialize (H2 ltac:(done)). unfold deeper in H2. lia. }
  split; [|exact Hall]. destruct (Hall [] l eq_refl) as (? & ? & [= _ <-] & ?). done.
Qed.
End instructions.

Lemma nested_calls_terminate_witness :
  @invoke_within i192_panicking ideal_crypto int_cbor example_hashes example_engine_hashes
    hash_iter_elements example_display example_encode (λ _, Some 1%Z) [] example_provider 9%N
    (λ _, true) 10 (λ _, ""%string) Panic 10 looping_template example_function [] caller_state_example =
  @invoke_within i192_panicking ideal_crypto int_cbor example_hashes example_engine_hashes
    hash_iter_elements example_display example_encode (λ _, Some 1%Z) [] example_provider 9%N
    (λ _, true) 10 (λ _, ""%string) (Ok result_empty) 1000 looping_template example_function []
    caller_state_example.
Proof.
  apply (@nested_calls_terminate i192_panicking ideal_crypto int_cbor example_hashes
    example_engine_hashes hash_iter_elements example_display example_encode);
    [intros m Hm; by apply elem_of_nil in Hm|vm_compute; lia..].
Defined.

(** The phase of a call that nests down to the limit and a log. *)
Definition example_phase : list Instruction :=
  [InsCallFunction 5%N "run" []; EmitLog 1%N "done"].
#[local] Notation example_process := (@process_instructions i192_panicking ideal_crypto int_cbor
  example_hashes example_engine_hashes hash_iter_elements example_display example_encode
  (λ _, Some 1%Z) [] example_provider (λ _ _ _, true) (λ _, true) (λ _, ""%string) (λ _, true) 10 9%N).
#[local] Notation example_each := (@process_each i192_panicking ideal_crypto int_cbor
  example_hashes example_engine_hashes hash_iter_elements example_display example_encode
  (λ _, Some 1%Z) [] example_provider (λ _ _ _, true) (λ _, true) (λ _, ""%string) (λ _, true) 10 9%N).
Lemma example_phase_accepted :
  ∃ rs s', example_process example_phase (state_new example_ledger None scope_new 0%N) = (Ok rs, s').
Proof. apply run_is_ok. vm_compute. reflexivity. Qed.
Lemma accepted_phase_keeps_stack_witness :
  ∃ rs1 s1,
    example_each [InsCallFunction 5%N "run" []] (state_new example_ledger None scope_new 0%N) =
      (Ok rs1, s1) ∧
    call_frame_depth s1 = 0.
Proof.
  assert (∀ m, m ∈ [] → module_follows deeper m) as Hm by (intros m Hm; by apply elem_of_nil in Hm).
  destruct example_phase_accepted as (rs & s' & H).
  destruct (@accepted_phase_keeps_stack i192_panicking ideal_crypto int_cbor example_hashes
    example_engine_hashes hash_iter_elements example_display example_encode _ _ _ _ _ _ _ _ _ Hm
    _ _ _ _ H) as [_ Hall].
  exact (Hall [InsCallFunction 5%N "run" []] [EmitLog 1%N "done"] eq_refl).
Defined.
