(* ===== verification/EngineRuns.v ===== *)
(** * What the runtime calls keep, templates and instructions keep

    [engine/src/wasm/process.rs], [engine/src/transaction/processor.rs]: the code
    of a template is a tree of engine calls, so a relation that every engine call
    follows is followed by every template, by the calls it nests and by every
    instruction of a transaction. *)
From stdpp Require Import base gmap list strings numbers.
From S2P Require Import Prelude Bor BTree Ids IndexedValue IdProvider Amount Crypto Confidential.
From S2P Require Import ResourceContainer FreezeFlags Proof Bucket Vault AccessRules RuntimeError.
From S2P Require Import Auth Locking Fees Substate Stealth FeeState Scope StateStore Workspace.
From S2P Require Import WorkingState Runtime RuntimeCalls Engine Processor Steps.
Open Scope Z_scope.

(** ** Template code whose calls are within a predicate *)
Section code.
Variable op_fits : EngineOp → Prop.
Fixpoint prog_fits (p : Prog) : Prop :=
  match p with
  | PReturn _ | PTrap => True
  | PEngine op k => op_fits op ∧ ∀ r, prog_fits (k r)
  end.
Definition template_fits (t : LoadedTemplate) : Prop :=
  ∀ f args, prog_fits (template_code t f args).
Definition provider_fits (p : TemplateAddress → res unit (option LoadedTemplate)) : Prop :=
  ∀ a t, p a = Ok (Some t) → template_fits t.
End code.

Section runs.
Context `{Ii : !I192} `{Ic : !Crypto} `{Cb : !Cbor} `{Ih : !IdHashes} `{Eh : !EngineHashes}.
Context `{Hi : !HashIter} `{Dp : !Display} `{Ce : !CborEncode}.
Variable encoded_len : SubstateValue → option Z.
Variable modules : list RuntimeModule.
Variable template_provider : TemplateAddress → res unit (option LoadedTemplate).
Variable signer : PublicKeyBytes.
Variable verify_claim_proof : Z → PublicKeyBytes → MinotariBurnClaimProof → bool.
Variable verify_signature : SignatureVerifyArg → bool.
Variable max_call_depth : nat.
Variable error_text : option RuntimeError → string.

Variable fits : ResourceAction → Prop.
Context (R : relation WorkingState).
Hypothesis laws :
  CallLaws encoded_len modules (runtime_template_functions template_provider) signer fits R.
#[local] Instance run_steps : StepLaws R := call_steps _ _ _ _ _ (CallLaws := laws).

Definition op_fits (op : EngineOp) : Prop :=
  match op with OpResourceInvoke _ a => fits a | _ => True end.
Hypothesis code_fits : provider_fits op_fits template_provider.

Lemma modules_run m : m ∈ modules → module_follows R m.
Proof. apply laws. Qed.
Lemma workspace_runs a : follows R (workspace_invoke modules a).
Proof. apply laws. Qed.
Lemma push_runs f n : follows R (push_frame f n).
Proof. apply laws. Qed.
Lemma pop_runs : follows R pop_frame.
Proof. apply laws. Qed.
#[local] Hint Resolve modules_run workspace_runs push_runs pop_runs : steps.

Lemma resolve_args_runs args : follows R (resolve_args modules args).
Proof.
  unfold resolve_args. follow. induction args as [|arg args' IH]; simpl; [follow|].
  unfold resolve_arg. follow.
Qed.
Lemma load_call_runs c : follows R (load_component_call modules c).
Proof. unfold load_component_call. follow. Qed.
Lemma push_call_frame_runs p : follows R (push_call_frame max_call_depth p).
Proof. unfold push_call_frame. follow_state. Qed.
Lemma check_method_access_runs m l : follows R (check_method_access m l).
Proof. by intros s r s' [= _ <-] _. Qed.
#[local] Hint Resolve resolve_args_runs load_call_runs push_call_frame_runs
  check_method_access_runs : steps.

Lemma module_template_fits a t : get_template_module template_provider a = Ok t → template_fits op_fits t.
Proof.
  unfold get_template_module. destruct (template_provider a) as [[u|]| |] eqn:Ht; try done.
  intros [= <-]. by eapply code_fits.
Qed.

Section invoke.
Variable invoke : LoadedTemplate → FunctionDef → list Value →
  M WorkingState TransactionError InstructionResult.
Hypothesis invoke_runs : ∀ t f a, template_fits op_fits t → follows R (invoke t f a).
#[local] Hint Resolve invoke_runs module_template_fits : steps.

Lemma run_in_frame_runs t f a :
  template_fits op_fits t → follows R (run_in_frame invoke t f a).
Proof.
  intros Ht. unfold run_in_frame, rt. follow. by intros s r s' [= _ <-] _.
Qed.
#[local] Hint Resolve run_in_frame_runs : steps.
Lemma call_function_runs a f args :
  follows R (call_function modules template_provider max_call_depth invoke a f args).
Proof. unfold call_function, rt. follow. eauto with steps. Qed.
Lemma call_method_runs c m args :
  follows R (call_method modules template_provider max_call_depth invoke c m args).
Proof. unfold call_method, rt. follow. eauto with steps. Qed.
#[local] Hint Resolve call_function_runs call_method_runs : steps.
Lemma call_hook_runs c m a k :
  follows R (call_hook modules template_provider max_call_depth invoke c m a k).
Proof. unfold call_hook. follow. Qed.
#[local] Hint Resolve call_hook_runs : steps.
Lemma entrypoint_runs op :
  op_fits op →
  follows R (engine_entrypoint encoded_len modules template_provider signer
    verify_signature max_call_depth invoke op).
Proof.
  intros Hop. destruct op; simpl in *; unfold call_invoke; follow.
  - apply laws; auto with steps.
  - apply laws; auto with steps.
  - apply laws; auto with steps.
  - apply laws.
Qed.
Lemma prog_runs e p :
  prog_fits op_fits p →
  follows R (run_prog encoded_len modules template_provider signer verify_signature
    max_call_depth error_text invoke e p).
Proof.
  revert e. induction p as [raw| |op k IH]; intros e Hfit s r s' H Hp; simpl in H.
  - refine (follows_apply R _ _ _ _ H Hp _). follow.
  - by simplify_eq.
  - destruct Hfit as [Hop Hk].
    destruct (engine_entrypoint _ _ _ _ _ _ invoke op s) as [q s1] eqn:Hq.
    assert (q ≠ Panic → R s s1) as Hd by (intros ?; by eapply entrypoint_runs).
    destruct q as [x|err|]; [| |by simplify_eq].
    + etrans; [by apply Hd|]. by eapply IH.
    + destruct (emit_log modules LOG_ERROR (error_text (Some err)) s1) as [q s2] eqn:Hl.
      assert (q ≠ Panic → R s1 s2) as Hd2.
      { intros Hq2. by eapply (emit_log_follows modules R); [exact modules_run|exact Hl|]. }
      destruct q; [| |by simplify_eq]; (etrans; [by apply Hd|]); (etrans; [by apply Hd2|]);
        by eapply IH.
Qed.
End invoke.

Lemma invoke_within_runs o fuel t f a :
  template_fits op_fits t →
  follows R (invoke_within encoded_len modules template_provider signer verify_signature
    max_call_depth error_text o fuel t f a).
Proof.
  revert t f a. induction fuel as [|n IH]; intros t f a Ht; simpl; [follow|].
  unfold invoke_step. follow. by apply prog_runs.
Qed.
End runs.

(** ** Instructions *)
Section instructions.
Context `{Ii : !I192} `{Ic : !Crypto} `{Cb : !Cbor} `{Ih : !IdHashes} `{Eh : !EngineHashes}.
Context `{Hi : !HashIter} `{Dp : !Display} `{Ce : !CborEncode}.
Variable encoded_len : SubstateValue → option Z.
Variable modules : list RuntimeModule.
Variable template_provider : TemplateAddress → res unit (option LoadedTemplate).
Variable verify_claim_proof : Z → PublicKeyBytes → MinotariBurnClaimProof → bool.
Variable verify_signature : SignatureVerifyArg → bool.
Variable error_text : option RuntimeError → string.
Variable loads_as_template : list N → bool.
Variable max_template_size : nat.
Variable signer : PublicKeyBytes.
Variable fits : ResourceAction → Prop.
Context (R : relation WorkingState).
Hypothesis laws :
  CallLaws encoded_len modules (runtime_template_functions template_provider) signer fits R.
#[local] Instance instruction_steps : StepLaws R := call_steps _ _ _ _ _ (CallLaws := laws).
Hypothesis code_fits : provider_fits (op_fits fits) template_provider.

Notation invoke' :=
  (invoke encoded_len modules template_provider verify_signature error_text signer).

Lemma invoke_runs t f a :
  template_fits (op_fits fits) t → follows R (invoke' t f a).
Proof. by apply invoke_within_runs. Qed.
Lemma modules_run_in m : m ∈ modules → module_follows R m.
Proof. apply laws. Qed.
Lemma workspace_instruction_runs a : follows R (workspace_invoke modules a).
Proof. apply laws. Qed.
Lemma stealth_transfer_runs a t b : follows R (stealth_transfer encoded_len a t b).
Proof. apply laws. Qed.
Lemma pay_fee_runs t b : follows R (pay_fee_stealth encoded_len t b).
Proof. apply laws. Qed.
Lemma claim_fees_runs a : follows R (claim_validator_fees a).
Proof. apply laws. Qed.
#[local] Hint Resolve modules_run_in workspace_instruction_runs stealth_transfer_runs pay_fee_runs
  claim_fees_runs : steps.
Lemma resolve_bucket_runs b : follows R (resolve_bucket modules b).
Proof. unfold resolve_bucket, resolve_arg. follow. Qed.
#[local] Hint Resolve resolve_bucket_runs : steps.
Lemma create_account_runs k o rules w :
  follows R (create_account encoded_len modules template_provider verify_signature
    error_text signer k o rules w).
Proof.
  unfold create_account, rt. follow;
    [by eapply resolve_args_runs|by eapply push_call_frame_runs|].
  eapply run_in_frame_runs; [done|apply invoke_runs|]. by eapply module_template_fits.
Qed.

Lemma process_instruction_runs i :
  follows R (process_instruction encoded_len modules template_provider verify_claim_proof
    verify_signature error_text loads_as_template max_template_size signer i).
Proof.
  destruct i; unfold process_instruction, instruction_publish_template, instruction_allocate_address,
    instruction_stealth_transfer, instruction_pay_fee, rt; try solve [follow].
  - apply create_account_runs.
  - eapply call_function_runs; [done..|apply invoke_runs].
  - eapply call_method_runs; [done..|apply invoke_runs].
Qed.
Lemma process_instructions_runs l :
  follows R (process_instructions encoded_len modules template_provider verify_claim_proof
    verify_signature error_text loads_as_template max_template_size signer l).
Proof.
  unfold process_instructions, rt. follow; [|by intros s r s' [= _ <-] _].
  induction l as [|i l IH]; simpl; follow. apply process_instruction_runs.
Qed.
End instructions.
