(* ===== verification/Transactions.v ===== *)
(** * Invariants of transactions

    [engine/src/transaction/processor.rs], [engine/src/runtime/tracker.rs]: a fact
    about the working state that every runtime call keeps holds of the state whose
    diff a transaction commits, whether its main instructions ran, failed and were
    rolled back to the fee checkpoint, or were not paid for. *)
From stdpp Require Import base gmap list strings numbers.
From S2P Require Import Prelude Bor BTree Ids IndexedValue IdProvider Amount Crypto Confidential.
From S2P Require Import ResourceContainer FreezeFlags Proof Bucket Vault AccessRules RuntimeError.
From S2P Require Import Auth Locking Fees Substate Stealth FeeState Scope StateStore Workspace.
From S2P Require Import WorkingState Runtime RuntimeCalls Engine Processor Steps EngineRuns.
Open Scope Z_scope.

(** ** Two relations at once *)
Definition meet {S : Type} (R1 R2 : relation S) : relation S := λ s s', R1 s s' ∧ R2 s s'.
Lemma follows_meet {S E A : Type} (R1 R2 : relation S) (m : M S E A) :
  follows R1 m → follows R2 m → follows (meet R1 R2) m.
Proof. intros H1 H2 s r s' H Hp. split; [by eapply H1|by eapply H2]. Qed.
Lemma meet_left {S E A : Type} (R1 R2 : relation S) (m : M S E A) :
  follows (meet R1 R2) m → follows R1 m.
Proof. intros H s r s' Hm Hp. by eapply H. Qed.
Lemma meet_right {S E A : Type} (R1 R2 : relation S) (m : M S E A) :
  follows (meet R1 R2) m → follows R2 m.
Proof. intros H s r s' Hm Hp. by eapply H. Qed.
#[export] Instance meet_preorder {S : Type} (R1 R2 : relation S) `{!PreOrder R1} `{!PreOrder R2} :
  PreOrder (meet R1 R2).
Proof. split; [by split|]. intros s1 s2 s3 [? ?] [? ?]. split; by etrans. Qed.

Lemma meet_steps R1 R2 : StepLaws R1 → StepLaws R2 → StepLaws (meet R1 R2).
Proof.
  intros [] []. split; try (intros; by split; auto); [apply _|].
  intros A m Hq. apply follows_meet; auto.
Qed.
Lemma meet_calls `{Ii : !I192} `{Ic : !Crypto} `{Cb : !Cbor} `{Ih : !IdHashes}
    `{Eh : !EngineHashes} `{Hi : !HashIter} `{Dp : !Display}
    encoded_len modules functions_of signer fits R1 R2 :
  CallLaws encoded_len modules functions_of signer fits R1 →
  CallLaws encoded_len modules functions_of signer fits R2 →
  CallLaws encoded_len modules functions_of signer fits (meet R1 R2).
Proof.
  intros L1 L2. split.
  - apply meet_steps; [apply L1|apply L2].
  - intros f n. apply follows_meet; [apply L1|apply L2].
  - apply follows_meet; [apply L1|apply L2].
  - intros m Hm. destruct (call_modules _ _ _ _ _ m Hm (CallLaws := L1)),
      (call_modules _ _ _ _ _ m Hm (CallLaws := L2)). split; intros; by apply follows_meet.
  - intros a. apply follows_meet; [apply L1|apply L2].
  - intros p a. apply follows_meet; [apply L1|apply L2].
  - intros hook v a Hh.
    apply follows_meet; [apply L1|apply L2]; intros; [by eapply meet_left|by eapply meet_right].
  - intros hook b a Hh.
    apply follows_meet; [apply L1|apply L2]; intros; [by eapply meet_left|by eapply meet_right].
  - intros hook a x Hh Hx. apply follows_meet; [apply L1|apply L2]; try done;
      intros; [by eapply meet_left|by eapply meet_right].
  - intros a t b. apply follows_meet; [apply L1|apply L2].
  - intros t b. apply follows_meet; [apply L1|apply L2].
  - intros a. apply follows_meet; [apply L1|apply L2].
Qed.

(** ** Execution *)
Section transactions.
Context `{Ii : !I192} `{Ic : !Crypto} `{Cb : !Cbor} `{Ih : !IdHashes} `{Eh : !EngineHashes}.
Context `{Hi : !HashIter} `{Dp : !Display} `{Ce : !CborEncode}.
Variable encoded_len : SubstateValue → option Z.
Variable modules : list RuntimeModule.
Variable template_provider : TemplateAddress → res unit (option LoadedTemplate).
Variable verify_claim_proof : Z → PublicKeyBytes → MinotariBurnClaimProof → bool.
Variable verify_signature : SignatureVerifyArg → bool.
Variable error_text : option RuntimeError → string.
Variable loads_as_template : list N → bool.
Variable max_template_size : nat.
Variable fits : ResourceAction → Prop.
Context (R : relation WorkingState) (I : WorkingState → Prop).
Hypothesis laws : ∀ signer,
  CallLaws encoded_len modules (runtime_template_functions template_provider) signer fits R.
Hypothesis code_fits : provider_fits (op_fits fits) template_provider.
Hypothesis I_follows : ∀ s s', R s s' → I s → I s'.
(** The state after a reset: the checkpoint, with the fees of the state left. *)
Hypothesis I_reset : ∀ s c, I s → I c → I (set_entity_ids (entity_ids s) (set_fee_state (fee_state s) c)).

Definition tracked (t : StateTracker) : Prop :=
  I (working_state t) ∧ ∀ c, fee_checkpoint t = Some c → I c.
Definition keeps_tracked (t t' : StateTracker) : Prop := tracked t → tracked t'.
#[local] Instance keeps_tracked_preorder : PreOrder keeps_tracked.
Proof. split; [by intros t H|]. intros t1 t2 t3 H1 H2 H. by apply H2, H1. Qed.

Lemma write_with_tracked {E A : Type} (m : M WorkingState E A) :
  follows R m → follows keeps_tracked (write_with m).
Proof.
  intros Hm t r t'. unfold write_with, zoom. destruct (m (working_state t)) as [q s] eqn:Hq.
  intros [= <- <-] Hp [Hs Hc]. split; [|done]. eapply I_follows; [|exact Hs]. by eapply Hm.
Qed.
Lemma reset_tracked : follows keeps_tracked reset_to_fee_checkpoint.
Proof.
  intros t r t'. unfold reset_to_fee_checkpoint. destruct (fee_checkpoint t) as [c|] eqn:Hc;
    intros [= <- <-] _; [|done]. intros [Hs Hck]. split; [by apply I_reset; [|apply Hck]|done].
Qed.
Lemma checkpoint_tracked : follows keeps_tracked set_fee_checkpoint.
Proof.
  intros t0 r0 t0' H0 Hp. unfold set_fee_checkpoint in H0.
  refine (follows_apply _ _ _ _ _ H0 Hp _). follow. intros t' r t''. unfold set_tracker_checkpoint.
  destruct (validate_finalized (working_state t')); intros Hq _; injection Hq as _ <-; [|done..].
  intros [Hs Hc]. split; [done|]. by intros c [= <-].
Qed.

(** Where the diff of an accepted transaction comes from. *)
Definition committed_by (d : SubstateDiff) : Prop :=
  ∃ s s' fs persist receipt,
    I s ∧
    (state_store (store s') = state_store (store s) ∧
     loaded_substates (store s') = loaded_substates (store s)) ∧
    finalize_fees (transaction_hash s) (events s) (logs s) (fee_state s, new_substates (store s))
      = (Ok receipt, (fs, persist)) ∧
    generate_substate_diff s' receipt persist (downed_utxos (store s)) (validator_fee_withdrawals s)
      = Ok d.

Lemma tracker_finalize_accepts s t f t' d :
  I s → working_state t = set_store (set_downed [] (set_new [] (store s))) s →
  tracker_finalize (new_substates (store s)) (downed_utxos (store s)) t = (Ok f, t') →
  any_accept (fin_result f) = Some d → committed_by d.
Proof.
  intros Hs Ht H Hd. unfold tracker_finalize in H. rewrite Ht in H. simpl in H.
  destruct (0 <? _)%nat; [done|].
  destruct (finalize_fees _ _ _ _) as [r [fs persist]] eqn:Hf. destruct r as [receipt| |]; [|done..].
  simpl in H. destruct (generate_substate_diff _ _ _ _ _) as [d'| |] eqn:Hg; simpl in H; simplify_eq/=.
  exists s, (set_fee_state fs (set_store (set_downed [] (set_new [] (store s))) s)), fs, persist, receipt.
  by split_and!.
Qed.
Lemma runtime_finalize_accepts t f t' d :
  tracked t → runtime_finalize modules t = (Ok f, t') → any_accept (fin_result f) = Some d →
  committed_by d.
Proof.
  intros Ht H Hd. unfold runtime_finalize in H.
  apply bind_Ok in H as (u1 & t1 & H1 & H). apply bind_Ok in H as (u2 & t2 & H2 & H).
  apply bind_Ok in H as (u3 & t3 & [= <- <-] & H). apply bind_Ok in H as (paid & t4 & [= _ <-] & H).
  apply bind_Ok in H as (u5 & t5 & H5 & H).
  assert (tracked t5) as [Hs _].
  { pose proof (call_steps _ _ _ _ _ (CallLaws := laws 0%N)).
    assert (tracked t2) as Ht2.
    { assert (∀ m, m ∈ modules → module_follows R m) as Hm by apply (laws 0%N).
      eapply (write_with_tracked (invoke_modules_on_before_finalize modules)); [|exact H2|done|].
      { apply for_each_module_follows; [done..|]. intros m Hf. apply Hf. }
      eapply (write_with_tracked (invoke_modules_on_runtime_call modules "finalize"));
        [|exact H1|done..]. by apply on_call_follows. }
    destruct paid; [by injection H5 as _ <-|]. eapply reset_tracked; [exact H5|done..]. }
  apply bind_Ok in H as (persist & t6 & [= <- <-] & H).
  apply bind_Ok in H as (downed & t7 & [= <- <-] & H).
  apply bind_Ok in H as (fin & t8 & H8 & H). apply bind_Ok in H as (paid' & t9 & [= _ <-] & [= <- _]).
  eapply (tracker_finalize_accepts (working_state t5)); [done| |exact H8|]; [done|].
  destruct paid'; [done|]. simpl in Hd. by destruct (any_accept (fin_result fin)).
Qed.
Section signed.
Variable signer : PublicKeyBytes.
Notation process_instructions' := (process_instructions encoded_len modules template_provider
  verify_claim_proof verify_signature error_text loads_as_template max_template_size signer).
Notation main_phase' := (main_phase encoded_len modules template_provider
  verify_claim_proof verify_signature error_text loads_as_template max_template_size signer).
Notation run_transaction' := (run_transaction encoded_len modules template_provider
  verify_claim_proof verify_signature error_text loads_as_template max_template_size signer).

Lemma instructions_tracked l : follows keeps_tracked (write_with (process_instructions' l)).
Proof. apply write_with_tracked. by eapply process_instructions_runs. Qed.
Lemma main_phase_accepts l rs t f t' d :
  tracked t → main_phase' l rs t = (Ok f, t') → any_accept (fin_result f) = Some d →
  committed_by d.
Proof.
  intros Ht H Hd. unfold main_phase in H.
  destruct (write_with _ t) as [[q|e|] t1] eqn:Hq; [| |done].
  - assert (tracked t1) as Ht1 by (eapply instructions_tracked; [exact Hq|done..]).
    apply bind_Ok in H as (fin & t2 & H2%map_err_Ok & H).
    apply bind_Ok in H as (paid & t3 & [= _ <-] & [= <- _]). by eapply runtime_finalize_accepts.
  - assert (tracked t1) as Ht1 by (eapply instructions_tracked; [exact Hq|done..]).
    apply bind_Ok in H as (u & t2 & H2%map_err_Ok & H).
    apply bind_Ok in H as (fin & t3 & H3%map_err_Ok & H).
    apply bind_Ok in H as (acc & t4 & H4 & [= <- _]). injection H4 as Ha%expect_Ok <-.
    simpl in Hd. injection Hd as <-.
    eapply (runtime_finalize_accepts t2); [eapply reset_tracked; [exact H2|done..]|exact H3|done].
Qed.
Lemma run_transaction_accepts h fee main t f t' d :
  tracked t → run_transaction' h fee main t = (Ok f, t') → any_accept (fin_result f) = Some d →
  committed_by d.
Proof.
  intros Ht H Hd. unfold run_transaction in H.
  destruct (write_with _ t) as [[q|e|] t1] eqn:Hq; [|by simplify_eq|done].
  assert (tracked t1) as Ht1 by (eapply instructions_tracked; [exact Hq|done..]).
  destruct (set_fee_checkpoint t1) as [[u|e|] t2] eqn:Hc; [|by simplify_eq|done].
  eapply main_phase_accepts; [eapply checkpoint_tracked; [exact Hc|done..]|exact H|done].
Qed.
End signed.

Lemma execute_accepts state_db epoch proofs tx f d :
  I (state_new state_db epoch (initial_scope proofs (tx_inputs tx)) (tx_id tx)) →
  execute encoded_len modules template_provider verify_claim_proof verify_signature error_text
    loads_as_template max_template_size state_db epoch proofs tx = Ok f →
  any_accept (fin_result f) = Some d → committed_by d.
Proof.
  intros HI H Hd. unfold execute in H. apply res_bind_Ok in H as (signer & _ & H).
  destruct (bind _ _ _) as [r t] eqn:Hr. simpl in H. subst r.
  apply bind_Ok in Hr as (u & t1 & H1 & Hr).
  eapply (run_transaction_accepts signer); [|exact Hr|done].
  eapply (write_with_tracked (rt (for_each modules on_initialize))); [|exact H1|done|by split].
  pose proof (call_steps _ _ _ _ _ (CallLaws := laws 0%N)). apply follows_map_err.
  apply for_each_module_follows; [done|apply (laws 0%N)|]. intros m Hm. apply Hm.
Qed.
End transactions.
