(* ===== verification/Commit.v ===== *)
(** * What a transaction leaves on the ledger

    [working_state.rs] ([generate_substate_diff]), [fee_state.rs]
    ([finalize_fees]): the ledger after a diff that applies, in terms of the change
    set it was made of, and the refunds that finalization writes into the change
    set first. *)
From stdpp Require Import base gmap list strings numbers.
From S2P Require Import Prelude Bor BTree Ids IndexedValue Amount Crypto.
From S2P Require Import ResourceContainer FreezeFlags Vault RuntimeError.
From S2P Require Import Locking Fees Substate FeeState StateStore WorkingState LedgerDiff Steps.
Open Scope Z_scope.

(** ** Diffs that apply *)
Lemma apply_downs_inv (ds : list (SubstateId * Z)) (ledger mid : Ledger) :
  fold_opt apply_down ledger ds = Some mid →
  ∀ id, mid !! id = if decide (id ∈ ds.*1) then None else ledger !! id.
Proof.
  revert ledger. induction ds as [|[id0 v] ds IH]; intros ledger H id.
  { injection H as <-. rewrite decide_False; [done|]. apply not_elem_of_nil. }
  simpl in H. unfold apply_down at 1 in H. simpl in H.
  destruct (ledger !! id0) as [x|]; [|done]. destruct (version x =? v); [|done].
  rewrite (IH _ H). destruct (decide (id = id0)) as [->|Hne].
  - rewrite lookup_delete_eq, (decide_True (P := id0 ∈ ((id0, v) :: ds).*1)) by (csimpl; set_solver).
    by case_decide.
  - rewrite lookup_delete_ne by done. apply decide_ext. csimpl. set_solver.
Qed.
Lemma apply_ups_inv (us : list (SubstateId * Substate)) (mid ledger' : Ledger) :
  fold_opt apply_up mid us = Some ledger' →
  (∀ id x, (id, x) ∈ us → ledger' !! id = Some x) ∧
  (∀ id, id ∈ us.*1 → mid !! id = None) ∧
  (∀ id, id ∉ us.*1 → ledger' !! id = mid !! id).
Proof.
  revert mid. induction us as [|[id0 y] us IH]; intros mid H; csimpl in *.
  { injection H as <-. split_and!; [set_solver..|done]. }
  unfold apply_up at 1 in H. simpl in H. destruct (mid !! id0) eqn:Hm; [done|].
  destruct (IH _ H) as (H1 & H2 & H3). split_and!.
  - intros id x [[= -> ->]|Hin]%elem_of_cons; [|by apply H1].
    destruct (decide (id0 ∈ us.*1)) as [Hin|Hin]; [by apply H2 in Hin; rewrite lookup_insert_eq in Hin|].
    by rewrite H3, lookup_insert_eq.
  - intros id [->|Hin]%elem_of_cons; [done|]. apply H2 in Hin.
    destruct (decide (id = id0)) as [->|Hne]; [done|]. by rewrite lookup_insert_ne in Hin.
  - intros id [Hne Hin]%not_elem_of_cons. rewrite H3 by done. by rewrite lookup_insert_ne.
Qed.

(** The parts of a diff, for any reading of the substates before. *)
Lemma diff_substates_built st persist d d' :
  fold_res (diff_substate st) d persist = Ok d' →
  ∃ us ds, up_substates d' = up_substates d ++ us ∧ down_substates d' = down_substates d ++ ds ∧
    (∀ id x, (id, x) ∈ us → (id, substate_value x) ∈ persist) ∧
    (∀ id, id ∈ ds.*1 → id ∈ persist.*1) ∧
    (∀ id v, (id, v) ∈ persist →
       (∃ x, (id, x) ∈ us ∧ substate_value x = v) ∨ is_empty_pool v = true ∧ id ∈ ds.*1).
Proof.
  revert d. induction persist as [|[id0 v0] ps IH]; intros d H; csimpl in *.
  { injection H as <-. exists [], []. rewrite !app_nil_r. split_and!; set_solver. }
  apply res_bind_Ok in H as (d1 & H1 & H). destruct (IH d1 H) as (us & ds & Hu & Hd & P1 & P2 & P3).
  assert (∃ us0 ds0, up_substates d1 = up_substates d ++ us0 ∧
    down_substates d1 = down_substates d ++ ds0 ∧
    (∀ id x, (id, x) ∈ us0 → id = id0 ∧ substate_value x = v0) ∧ (∀ id, id ∈ ds0.*1 → id = id0) ∧
    ((∃ x, (id0, x) ∈ us0 ∧ substate_value x = v0) ∨ is_empty_pool v0 = true ∧ id0 ∈ ds0.*1))
    as (us0 & ds0 & Hu0 & Hd0 & Q1 & Q2 & Q3).
  { unfold diff_substate in H1. fold (is_empty_pool v0) in H1.
    destruct (get_unmodified_substate st id0) as [x|e|].
    - destruct (is_empty_pool v0) eqn:Hp.
      + injection H1 as <-. exists [], [(id0, version x)]. rewrite app_nil_r.
        split_and!; [done..|set_solver|set_solver|]. right. set_solver.
      + apply res_bind_Ok in H1 as (n & _ & [= <-]).
        exists [(id0, MkSubstate v0 n)], [(id0, version x)]. split_and!; [done..|set_solver|set_solver|].
        left. exists (MkSubstate v0 n). set_solver.
    - destruct e; try done. injection H1 as <-. exists [(id0, MkSubstate v0 0)], [].
      rewrite app_nil_r. split_and!; [done..|set_solver|set_solver|].
      left. exists (MkSubstate v0 0). set_solver.
    - done. }
  exists (us0 ++ us), (ds0 ++ ds). rewrite Hu, Hd, Hu0, Hd0, !app_assoc. split_and!; [done..| | |].
  - intros id x [[-> <-]%Q1|Hin%P1]%elem_of_app; set_solver.
  - intros id. rewrite fmap_app. intros [->%Q2|Hin%P2]%elem_of_app; set_solver.
  - intros id v. rewrite fmap_app. intros [[= -> ->]|Hin]%elem_of_cons.
    + destruct Q3 as [(x & Hx & Hv)|[Hp Hx]]; [left; exists x|right]; set_solver.
    + destruct (P3 id v Hin) as [(x & Hx & Hv)|[Hp Hx]]; [left; exists x|right]; set_solver.
Qed.
Lemma diff_downed_built st us d d' :
  fold_res (diff_downed_utxo st) d us = Ok d' →
  ∃ ds, up_substates d' = up_substates d ∧ down_substates d' = down_substates d ++ ds ∧
    ∀ id, id ∈ ds.*1 → is_Some (as_utxo_address id).
Proof.
  revert d. induction us as [|u us IH]; intros d H; simpl in H.
  { injection H as <-. exists []. rewrite app_nil_r. split_and!; set_solver. }
  apply res_bind_Ok in H as (d1 & H1 & H). apply res_bind_Ok in H1 as (x & _ & [= <-]).
  destruct (IH _ H) as (ds & Hu & Hd & Hin). exists ((SidUtxo u, version x) :: ds).
  rewrite Hu, Hd. simpl. rewrite <- app_assoc. split_and!; [done..|].
  intros id. csimpl. intros [->|?]%elem_of_cons; [by eexists|by apply Hin].
Qed.

Definition receipt_id (receipt : TransactionReceipt) : SubstateId :=
  SidTransactionReceipt (receipt_transaction_hash receipt).

(** The ledger that a diff leads to: the receipt and the changed values, and
    otherwise what was there. *)
Lemma diff_committed s receipt persist downed ws d (ledger ledger' : Ledger) :
  generate_substate_diff s receipt persist downed ws = Ok d → apply_diff d ledger = Some ledger' →
  (∀ id x, ledger' !! id = Some x →
     (id = receipt_id receipt ∧ substate_value x = SvTransactionReceipt receipt) ∨
     (id, substate_value x) ∈ persist ∨ (id ∉ persist.*1 ∧ ledger !! id = Some x)) ∧
  (∀ id v, (id, v) ∈ persist → is_empty_pool v = false →
     substate_value <$> ledger' !! id = Some v) ∧
  (∀ id x, id ∉ persist.*1 → as_utxo_address id = None → ledger !! id = Some x →
     ledger' !! id = Some x).
Proof.
  unfold generate_substate_diff. simpl. intros Hg Ha.
  apply res_bind_Ok in Hg as (d1 & H1 & Hg). apply res_bind_Ok in Hg as (d2 & H2 & [= <-]).
  apply diff_substates_built in H1 as (us & ds & Hu & Hd & P1 & P2 & P3).
  apply diff_downed_built in H2 as (ds' & Hu' & Hd' & P4). simpl in Hu, Hd.
  unfold apply_diff in Ha. simpl in Ha. rewrite Hu', Hd', Hu, Hd in Ha.
  destruct (fold_opt apply_down ledger _) as [mid|] eqn:Hmid; [|done].
  pose proof (apply_downs_inv _ _ _ Hmid) as Hm. rewrite fmap_app in Hm.
  apply apply_ups_inv in Ha as (U1 & U2 & U3). rewrite fmap_app in U2, U3. csimpl in *. split_and!.
  - intros id x Hx. destruct (decide (id ∈ us.*1)) as [Hin|Hin].
    { apply list_elem_of_fmap in Hin as ([id' y] & -> & Hin). simpl in *.
      rewrite (U1 id' y) in Hx by set_solver. injection Hx as ->. right; left. by apply P1. }
    destruct (decide (id = receipt_id receipt)) as [->|Hne].
    { left. split; [done|]. rewrite (U1 _ (MkSubstate (SvTransactionReceipt receipt) 0)) in Hx;
        [by injection Hx as <-|]. apply elem_of_app. right. by apply list_elem_of_singleton. }
    rewrite U3, Hm in Hx by set_solver. case_decide as Hdn; [done|]. right; right. split; [|done].
    intros Hp. apply list_elem_of_fmap in Hp as ([id' v] & -> & Hp). simpl in *.
    destruct (P3 id' v Hp) as [(y & Hy & _)|[_ Hds]]; [|set_solver].
    apply Hin, list_elem_of_fmap. by exists (id', y).
  - intros id v Hv He. destruct (P3 id v Hv) as [(y & Hy & <-)|[? _]]; [|congruence].
    rewrite (U1 id y) by set_solver. done.
  - intros id x Hin Ho Hx. assert (mid !! id = Some x) as Hmx.
    { rewrite Hm, decide_False; [done|]. intros [?%P2|[a Ha]%P4]%elem_of_app; [done|congruence]. }
    rewrite U3; [done|]. intros Hi%U2. congruence.
Qed.

(** ** The refunds of finalization *)
Section refunds.
Context `{Ii : !I192} `{Ic : !Crypto}.

Lemma withdraw_address amt c q c' :
  withdraw amt c = (q, c') → resource_address c' = resource_address c.
Proof.
  unfold withdraw, bind, lift, put, ret, throw. intros H.
  destruct c; simpl in H; repeat case_match; by simplify_eq/=.
Qed.
Lemma withdraw_all_address c out c' :
  withdraw_all c = (Ok out, c') → resource_address out = resource_address c.
Proof.
  intros H. destruct c; unfold withdraw_all, withdraw, bind, lift, put, ret, throw, fungible,
    non_fungible, confidential, stealth in H; repeat case_match; by simplify_eq/=.
Qed.

Lemma iter_mut_keeps {A S E : Type} (Q : A → Prop) (body : M (A * S) E bool) xs s r xs' s' :
  (∀ x s, Q x → Q (body (x, s)).2.1) → iter_mut body xs s = (r, (xs', s')) →
  Forall Q xs → Forall Q xs'.
Proof.
  intros Hb. revert s r xs' s'. induction xs as [|x xs IH]; intros s r xs' s' H Hxs; simpl in H.
  { by simplify_eq. }
  inversion_clear Hxs as [|?? Hx Hxs']. specialize (Hb x s Hx).
  destruct (body (x, s)) as [[[]|e|] [x' s1]]; simpl in Hb; simplify_eq; try by constructor.
  destruct (iter_mut body xs s1) as [q [xs2 s2]] eqn:Hi. simplify_eq.
  constructor; [done|]. by eapply IH.
Qed.

Variable P : ResourceAddress → Prop.
(** A refund: a deposit into a vault of the change set. *)
Inductive refund : relation Changeset :=
  | refund_into persist v vault out q c :
      im_get (SidVault v) persist = Some (SvVault vault) → P (resource_address out) →
      deposit out (vault_container vault) = (q, c) → q ≠ Panic →
      refund persist (im_insert (SidVault v) (SvVault (MkVault c (vault_freeze_flags vault))) persist).

Lemma collect_refundable_address c v k :
  P (resource_address c) → P (resource_address (collect_refundable ((c, v), k)).2.1.1).
Proof.
  intros Hc. unfold collect_refundable, bind, lift, map_err, on_item, on_fee_resource, zoom,
    set_locals, modify, ret. simpl. case_match; [done|].
  destruct (expect _); simpl; [|done..].
  destruct (withdraw _ c) as [q c'] eqn:Hw. apply withdraw_address in Hw.
  repeat case_match; simplify_eq/=; by rewrite ?Hw.
Qed.
Lemma refund_payment_refunds p persist r persist' :
  P (resource_address p.1) → refund_payment p persist = (r, persist') → r ≠ Panic →
  rtc refund persist persist'.
Proof.
  destruct p as [c v]. unfold refund_payment. intros Hc H Hp.
  destruct (Amount.is_zero _); [by simplify_eq|].
  destruct (im_get (SidVault v) persist) as [[| |vault| | | | | |]|] eqn:Hv; try by simplify_eq.
  destruct (withdraw_all c) as [[out|e|] c'] eqn:Hw; [|by simplify_eq..].
  apply withdraw_all_address in Hw. destruct (deposit out _) as [q c2] eqn:Hd. simplify_eq.
  apply rtc_once. econstructor; [done|by rewrite Hw|exact Hd|]. by intros ->.
Qed.
Lemma finalize_fees_refunds h ev lg fs persist receipt fs' persist' :
  (∀ c, c ∈ payments fs → P (resource_address c)) →
  finalize_fees h ev lg (fs, persist) = (Ok receipt, (fs', persist')) →
  rtc refund persist persist'.
Proof.
  intros HP H. unfold finalize_fees in H. simpl in H.
  apply bind_Ok in H as (n & s1 & [= _ <-] & H). apply bind_Ok in H as (c0 & s2 & [= _ <-] & H).
  destruct (iter_mut collect_non_refundable _ _) as [r1 [nr acc1]].
  destruct (if 0 <? remaining_fees acc1 then _ else _) as [r2 [rf acc2]] eqn:Hr.
  assert (Forall (λ p : ResourceContainer * VaultId, P (resource_address p.1)) rf) as Hrf.
  { assert (Forall (λ p : ResourceContainer * VaultId, P (resource_address p.1)) (fee_payments fs)) as H0.
    { apply list.Forall_forall. intros p Hp. apply HP, elem_of_app. right.
      apply list_elem_of_fmap. eauto. }
    destruct (0 <? _); [|by simplify_eq]. eapply iter_mut_keeps; [|exact Hr|done].
    intros [c v] k Hc. by apply collect_refundable_address. }
  apply bind_Ok in H as (u3 & s3 & [= <- <-] & H). apply bind_Ok in H as (u4 & s4 & [= _ <-] & H).
  apply bind_Ok in H as (u5 & s5 & [= <- <-] & H). apply bind_Ok in H as (u6 & s6 & [= _ <-] & H).
  apply bind_Ok in H as (u7 & s7 & [= <- <-] & H). apply bind_Ok in H as (u8 & s8 & H8 & H).
  apply bind_Ok in H as (u9 & s9 & [= _ <-] & H). apply bind_Ok in H as (u10 & s10 & [= <- <-] & H).
  injection H as _ _ <-. unfold zoom in H8. simpl in H8.
  destruct (for_each rf refund_payment persist) as [q p'] eqn:Hq. injection H8 as -> <-. simpl.
  clear -Hrf Hq. revert persist Hq. induction rf as [|p rf IH]; intros persist Hq; simpl in Hq.
  { by injection Hq as _ <-. }
  apply bind_Ok in Hq as (u & p1 & H1 & Hq). inversion_clear Hrf as [|?? Hp Hrf'].
  etrans; [by eapply refund_payment_refunds|by apply IH].
Qed.
End refunds.
