(* ===== verification/TransactionPhases.v ===== *)
(** * The phases of a transaction

    [engine/src/transaction/processor.rs] ([execute]), [engine/src/runtime/tracker.rs]
    ([fee_checkpoint], [reset_to_fee_checkpoint]): main instructions that fail are
    rolled back to the end of the fee instructions, but the fees of the failed run
    stay; and what happens to the payments, the checkpoint and the calls that were
    rolled back only in part. *)
From stdpp Require Import base gmap list strings numbers.
From S2P Require Import Prelude Bor BTree Ids IndexedValue IdProvider Amount Crypto Confidential.
From S2P Require Import ResourceContainer FreezeFlags Proof Bucket Vault AccessRules RuntimeError.
From S2P Require Import Auth Locking Fees Substate Stealth FeeState Scope StateStore Workspace.
From S2P Require Import WorkingState LedgerDiff Runtime RuntimeCalls Engine Processor Examples.
From S2P Require Import Steps EngineRuns Transactions Commit.
Open Scope Z_scope.

(** ** A component that pays fees *)
Definition payer_function (name : string) : FunctionDef := MkFunctionDef name [AtUnit] AtUnit true.
Definition pay_from_vault (amount : Z) : Prog :=
  PEngine (OpVaultInvoke (VaultById 7) (VaPayFee (MkPayFeeArg amount None))) (λ r,
    match r with Some _ => PReturn (Some VNull) | None => PTrap end).
(** Spend the UTXO 11 without its owner's signature, and carry on. *)
Definition spend_unsigned : Prog :=
  PEngine (OpResourceInvoke (Some XTR) (RaStealthTransfer
    (MkStealthTransferStatement
       (MkStealthInputsStatement [MkStealthInput 11 (MkSchnorr 0 [])] 0)
       (MkStealthOutputsStatement [] 0 []) (MkSchnorr 0 [])) None))
    (λ _, PReturn (Some VNull)).
Definition payer_template : LoadedTemplate :=
  MkLoadedTemplate (MkTemplateDef "payer" (payer_function <$> ["pay"; "pay_more"; "spend"; "fail"]))
    (λ f _, if String.eqb f "pay" then pay_from_vault 20
            else if String.eqb f "pay_more" then pay_from_vault 30
            else if String.eqb f "spend" then spend_unsigned
            else PTrap).
Definition payer_provider (a : TemplateAddress) : res unit (option LoadedTemplate) :=
  Ok (if bool_decide (a = 8%N) then Some payer_template else None).
Definition payer_ledger : Ledger :=
  {[ SidResource XTR := MkSubstate (SvResource
       (MkResource RtStealth OwnerNone None (res_access_rules example_resource) ∅ None
          None None 0)) 0;
     SidComponent 3 := MkSubstate (SvComponent (MkComponentHeader 8 "payer" None OwnerNone
       (MkComponentAccessRules ∅ AllowAll) 0 (VTag 132 (VInteger 7)))) 0;
     SidVault 7 := MkSubstate (SvVault (vault_new (Stealth XTR 100 0))) 0;
     SidUtxo (MkUtxoAddress XTR 11) := MkSubstate (SvUtxo
       (utxo_new (MkUtxoOutput (MkPrivateOutput 1 [] 0 None) 5 0))) 0 ]}.
Definition payer_execute (cost : Z) (fee main : list string) : res TransactionError FinalizeResult :=
  @execute i192_panicking ideal_crypto int_cbor example_hashes example_engine_hashes
    hash_iter_elements example_display example_encode (λ _, Some 1)
    [fee_module (λ _, Some 1) 5 0 (MkFeeTable 0 cost 0 0 0 0)] payer_provider
    (λ _ _ _, true) (λ _, true) (λ _, "error") (λ _, true) 100 payer_ledger None []
    (MkTransaction 9 [SidComponent 3] 3 true []
       ((λ m, InsCallMethod (CallAddress 3) m []) <$> fee)
       ((λ m, InsCallMethod (CallAddress 3) m []) <$> main)).

(** ** The rollback *)
(** Finalization charges fees and changes nothing else. *)
Definition charged (s s' : WorkingState) : Prop := ∃ f, s' = set_fee_state f s.
#[export] Instance charged_preorder : PreOrder charged.
Proof.
  split.
  - intros s. exists (fee_state s). by destruct s.
  - intros s1 s2 s3 [f ->] [g ->]. by exists g.
Qed.

Section phases.
Context `{Ii : !I192} `{Ic : !Crypto} `{Cb : !Cbor} `{Ih : !IdHashes} `{Eh : !EngineHashes}.
Context `{Hi : !HashIter} `{Dp : !Display} `{Ce : !CborEncode}.
Variable encoded_len : SubstateValue → option Z.
Variable template_provider : TemplateAddress → res unit (option LoadedTemplate).
Variable verify_claim_proof : Z → PublicKeyBytes → MinotariBurnClaimProof → bool.
Variable verify_signature : SignatureVerifyArg → bool.
Variable error_text : option RuntimeError → string.
Variable loads_as_template : list N → bool.
Variable max_template_size : nat.
Variable signer : PublicKeyBytes.

Lemma add_fee_charge_charged source n : follows charged (add_fee_charge source n).
Proof.
  unfold add_fee_charge. follow. intros s r s' H _. unfold zoom in H.
  destruct (add_charge _ _ _) as [q f]. injection H as _ <-. by exists f.
Qed.
#[local] Hint Resolve add_fee_charge_charged : steps.
Lemma fee_module_charged cost weight table :
  follows charged (invoke_modules_on_runtime_call [fee_module encoded_len cost weight table] "finalize") ∧
  follows charged (invoke_modules_on_before_finalize [fee_module encoded_len cost weight table]).
Proof.
  split; unfold invoke_modules_on_runtime_call, invoke_modules_on_before_finalize; simpl; follow.
Qed.

Section with_modules.
Variable modules : list RuntimeModule.
Notation process_instructions' := (process_instructions encoded_len modules template_provider
  verify_claim_proof verify_signature error_text loads_as_template max_template_size signer).
Notation run_transaction' := (run_transaction encoded_len modules template_provider
  verify_claim_proof verify_signature error_text loads_as_template max_template_size signer).

(** The main instructions failed after the fee instructions of the state [c]. *)
Definition main_fails (fee main : list Instruction) (t : StateTracker)
    (rs : list InstructionResult) (c s : WorkingState) : Prop :=
  ∃ t1 t2 t3 e,
    write_with (process_instructions' fee) t = (Ok rs, t1) ∧ working_state t1 = c ∧
    set_fee_checkpoint t1 = (Ok tt, t2) ∧
    write_with (process_instructions' main) t2 = (Err e, t3) ∧ working_state t3 = s.
(** The state that finalization starts from. *)
Definition rolled_back (c s : WorkingState) : WorkingState :=
  set_entity_ids (entity_ids s) (set_fee_state (fee_state s) c).

Lemma checkpoint_taken t t' :
  set_fee_checkpoint t = (Ok tt, t') → t' = MkStateTracker (working_state t) (Some (working_state t)).
Proof.
  unfold set_fee_checkpoint. intros H. apply bind_Ok in H as (n & t1 & [= _ <-] & H).
  apply bind_Ok in H as (u & t2 & [_ <-]%guard_err_Ok & H).
  unfold set_tracker_checkpoint in H. destruct (validate_finalized _); by simplify_eq/=.
Qed.
Lemma run_failed h fee main t rs c s :
  main_fails fee main t rs c s →
  run_transaction' h fee main t =
    (let! finalize := map_err TeRuntime (runtime_finalize modules) in
     let! accept := lift (expect (any_accept (fin_result finalize))) in
     ret (set_result (AcceptFeeRejectRest accept ExecutionFailure)
            (set_execution_results rs finalize)))
    (MkStateTracker (rolled_back c s) None).
Proof.
  intros (t1 & t2 & t3 & e & H1 & <- & H2 & H3 & <-). unfold run_transaction. rewrite H1, H2.
  unfold main_phase. rewrite H3. unfold bind at 1, map_err at 1, reset_to_fee_checkpoint.
  apply checkpoint_taken in H2 as ->. unfold write_with, zoom in H3. simpl in H3.
  destruct (process_instructions' main (working_state t1)) as [q s3]. injection H3 as -> <-. done.
Qed.

(** C36: a transaction whose main instructions fail needs its fees to cover what
    they charged before failing: if not, finalization resets to the fee checkpoint a
    second time, finds it taken, and the whole execution is an error, so that the
    fees are not collected. *)
Theorem failed_unpaid_main_errors h fee main t rs c s s1 s2 n :
  main_fails fee main t rs c s →
  invoke_modules_on_runtime_call modules "finalize" (rolled_back c s) = (Ok tt, s1) →
  invoke_modules_on_before_finalize modules s1 = (Ok tt, s2) →
  @total_charges RuntimeError (fee_state s2) = Ok n → total_payments (fee_state s2) < n →
  (run_transaction' h fee main t).1 = Err (TeRuntime NoFeeCheckpoint).
Proof.
  intros Hf H1 H2 Hn Hlt. rewrite (run_failed _ _ _ _ _ _ _ Hf).
  unfold bind at 1, map_err at 1, runtime_finalize.
  unfold bind at 1, write_with at 1, zoom at 1. simpl. rewrite H1.
  unfold bind at 1, write_with at 1, zoom at 1. simpl. rewrite H2.
  unfold bind at 1, get. unfold bind at 1, lift, are_fees_paid_in_full. simpl. rewrite Hn. simpl.
  rewrite (proj2 (Z.leb_gt _ _) Hlt). done.
Qed.
End with_modules.

(** C9: failed main instructions leave nothing on the ledger but fees: when they
    fail after the fee instructions led to the state [c], and the execution is a
    result, then it accepts the fees only, reports the results of the fee
    instructions, and its diff is made of the change set, the spent UTXOs and the
    fee withdrawals of [c]; only refunds are written into the vaults of that change
    set. *)
Theorem failed_main_rolls_back cost weight table h fee main t rs c s f t' :
  main_fails [fee_module encoded_len cost weight table] fee main t rs c s →
  run_transaction encoded_len [fee_module encoded_len cost weight table] template_provider
    verify_claim_proof verify_signature error_text loads_as_template max_template_size signer
    h fee main t = (Ok f, t') →
  ∃ d s' receipt persist,
    fin_result f = AcceptFeeRejectRest d ExecutionFailure ∧ fin_execution_results f = rs ∧
    state_store (store s') = state_store (store c) ∧
    rtc (refund (λ _, True)) (new_substates (store c)) persist ∧
    generate_substate_diff s' receipt persist (downed_utxos (store c))
      (validator_fee_withdrawals c) = Ok d.
Proof.
  intros Hf H. rewrite (run_failed _ _ _ _ _ _ _ _ Hf) in H.
  apply bind_Ok in H as (fin & t1 & H1%map_err_Ok & H).
  apply bind_Ok in H as (d & t2 & Hd & [= <- _]). injection Hd as Hd%expect_Ok <-.
  destruct (fee_module_charged cost weight table) as [Hcall Hbefore].
  set (P := λ s0, ∃ f0 e0, s0 = set_entity_ids e0 (set_fee_state f0 c)).
  assert (∀ s0 s1, charged s0 s1 → P s0 → P s1) as HP.
  { intros s0 s1 [f1 ->] (f0 & e0 & ->). by exists f1, e0. }
  unfold runtime_finalize in H1.
  apply bind_Ok in H1 as (u1 & t3 & H3 & H1). apply bind_Ok in H1 as (u2 & t4 & H4 & H1).
  assert (P (working_state t4) ∧ fee_checkpoint t4 = None) as [Hs4 Hc4].
  { unfold write_with, zoom in H3, H4. simpl in H3.
    destruct (invoke_modules_on_runtime_call _ _ _) as [q3 s3] eqn:E3. injection H3 as -> <-.
    simpl in H4. destruct (invoke_modules_on_before_finalize _ _) as [q4 s4] eqn:E4.
    injection H4 as -> <-. split; [|done]. simpl.
    eapply HP; [eapply Hbefore; [exact E4|done]|]. eapply HP; [eapply Hcall; [exact E3|done]|].
    by exists (fee_state s), (entity_ids s). }
  apply bind_Ok in H1 as (u5 & t5 & [= <- <-] & H1). apply bind_Ok in H1 as (paid & t6 & [= _ <-] & H1).
  apply bind_Ok in H1 as (u7 & t7 & H7 & H1). destruct paid.
  2: { unfold reset_to_fee_checkpoint in H7. by rewrite Hc4 in H7. }
  injection H7 as _ <-. destruct Hs4 as (f0 & e0 & Hs4).
  apply bind_Ok in H1 as (p & t8 & [= <- <-] & H1). apply bind_Ok in H1 as (dn & t9 & [= <- <-] & H1).
  apply bind_Ok in H1 as (fin' & t10 & H10 & H1).
  apply bind_Ok in H1 as (paid' & t11 & [= _ <-] & [= Hfin _]).
  assert (any_accept (fin_result fin') = Some d) as Hd'.
  { destruct paid'; subst fin; [done|]. simpl in Hd. by destruct (any_accept (fin_result fin')). }
  eapply (tracker_finalize_accepts (λ s0, s0 = working_state t4) (working_state t4)) in H10
    as (s0 & s' & fs & persist & receipt & -> & [Hst _] & Hfees & Hg); [|done|done|exact Hd'].
  rewrite Hs4 in *. simpl in *. exists d, s', receipt, persist. split_and!; [done..| |done].
  by eapply finalize_fees_refunds in Hfees.
Qed.
End phases.

(** ** The payer's transactions *)
Definition payer_modules (cost : Z) : list RuntimeModule :=
  [fee_module (λ _, Some 1) 5 0 (MkFeeTable 0 cost 0 0 0 0)].
Definition payer_calls (methods : list string) : list Instruction :=
  (λ m, InsCallMethod (CallAddress 3) m []) <$> methods.
Definition payer_tracker : StateTracker :=
  MkStateTracker (state_new payer_ledger None (initial_scope [] [SidComponent 3]) 9) None.
Definition payer_process (cost : Z) (l : list Instruction) :=
  @process_instructions i192_panicking ideal_crypto int_cbor example_hashes example_engine_hashes
    hash_iter_elements example_display example_encode (λ _, Some 1) (payer_modules cost)
    payer_provider (λ _ _ _, true) (λ _, true) (λ _, "error") (λ _, true) 100 3 l.
Definition payer_run (cost : Z) (fee main : list Instruction) :=
  @run_transaction i192_panicking ideal_crypto int_cbor example_hashes example_engine_hashes
    hash_iter_elements example_display example_encode (λ _, Some 1) (payer_modules cost)
    payer_provider (λ _ _ _, true) (λ _, true) (λ _, "error") (λ _, true) 100 3 9 fee main.
Definition payer_main_fails (cost : Z) (fee main : list Instruction) :=
  @main_fails i192_panicking ideal_crypto int_cbor example_hashes example_engine_hashes
    hash_iter_elements example_display example_encode (λ _, Some 1)
    payer_provider (λ _ _ _, true) (λ _, true) (λ _, "error") (λ _, true) 100 3 (payer_modules cost)
    fee main payer_tracker.

(** Whether the main instructions fail, and whether their fees are then unpaid. *)
Definition payer_failure (cost : Z) (fee main : list Instruction) : option (WorkingState * WorkingState) :=
  match write_with (payer_process cost fee) payer_tracker with
  | (Ok _, t1) =>
      match @set_fee_checkpoint t1 with
      | (Ok _, t2) =>
          match write_with (payer_process cost main) t2 with
          | (Err _, t3) => Some (working_state t1, working_state t3)
          | _ => None
          end
      | _ => None
      end
  | _ => None
  end.
Lemma payer_failure_inv cost fee main c s :
  payer_failure cost fee main = Some (c, s) → ∃ rs, payer_main_fails cost fee main rs c s.
Proof.
  unfold payer_failure. intros H.
  destruct (write_with (payer_process cost fee) payer_tracker) as [[rs| |] t1] eqn:H1; [|done..].
  destruct (set_fee_checkpoint t1) as [[[]| |] t2] eqn:H2; [|done..].
  destruct (write_with (payer_process cost main) t2) as [[| e |] t3] eqn:H3; [done| |done].
  injection H as <- <-. exists rs, t1, t2, t3, e.
  split; [exact H1|]. split; [reflexivity|]. split; [exact H2|]. split; [exact H3|reflexivity].
Qed.
Lemma payer_fails_paid : ∃ c s, payer_failure 0 (payer_calls ["pay"]) (payer_calls ["fail"]) = Some (c, s).
Proof.
  assert (bool_decide (is_Some (payer_failure 0 (payer_calls ["pay"]) (payer_calls ["fail"]))) = true)
    as [[c s] H]%bool_decide_eq_true by by vm_compute. exists c, s. exact H.
Qed.
Lemma payer_result : ∃ f t',
  payer_run 0 (payer_calls ["pay"]) (payer_calls ["fail"]) payer_tracker = (Ok f, t').
Proof. apply run_is_ok. by vm_compute. Qed.

Lemma failed_main_rolls_back_witness :
  ∃ f t' d s,
    payer_run 0 (payer_calls ["pay"]) (payer_calls ["fail"]) payer_tracker = (Ok f, t') ∧
    fin_result f = AcceptFeeRejectRest d ExecutionFailure ∧
    payer_failure 0 (payer_calls ["pay"]) (payer_calls ["fail"]) = Some s.
Proof.
  destruct payer_fails_paid as (c & s & Hf). destruct payer_result as (f & t' & Hr).
  destruct (payer_failure_inv _ _ _ _ _ Hf) as (rs & Hm).
  destruct (@failed_main_rolls_back i192_panicking ideal_crypto int_cbor example_hashes
    example_engine_hashes hash_iter_elements example_display example_encode
    (λ _, Some 1) payer_provider (λ _ _ _, true) (λ _, true) (λ _, "error") (λ _, true) 100%nat 3%N
    5 0 (MkFeeTable 0 0 0 0 0 0) 9%N (payer_calls ["pay"]) (payer_calls ["fail"]) payer_tracker
    rs c s f t' Hm Hr)
    as (d & s' & receipt & persist & Hd & _). exists f, t', d, (c, s).
  split; [exact Hr|split; [exact Hd|exact Hf]].
Defined.

Definition payer_unpaid (cost : Z) (fee main : list Instruction) : bool :=
  match payer_failure cost fee main with
  | Some (c, s) =>
      match invoke_modules_on_runtime_call (payer_modules cost) "finalize" (rolled_back c s) with
      | (Ok _, s1) =>
          match invoke_modules_on_before_finalize (payer_modules cost) s1 with
          | (Ok _, s2) =>
              match @total_charges RuntimeError (fee_state s2) with
              | Ok n => total_payments (fee_state s2) <? n
              | _ => false
              end
          | _ => false
          end
      | _ => false
      end
  | None => false
  end.
Lemma payer_unpaid_inv cost fee main :
  payer_unpaid cost fee main = true →
  ∃ rs c s s1 s2 n,
    payer_main_fails cost fee main rs c s ∧
    invoke_modules_on_runtime_call (payer_modules cost) "finalize" (rolled_back c s) = (Ok tt, s1) ∧
    invoke_modules_on_before_finalize (payer_modules cost) s1 = (Ok tt, s2) ∧
    @total_charges RuntimeError (fee_state s2) = Ok n ∧ total_payments (fee_state s2) < n.
Proof.
  unfold payer_unpaid. intros H.
  destruct (payer_failure cost fee main) as [[c s]|] eqn:Hf; [|discriminate H].
  apply payer_failure_inv in Hf as (rs & Hf).
  destruct (invoke_modules_on_runtime_call _ _ _) as [[[]| |] s1] eqn:H1; [|discriminate H..].
  destruct (invoke_modules_on_before_finalize _ _) as [[[]| |] s2] eqn:H2; [|discriminate H..].
  destruct (total_charges _) as [n| |] eqn:Hn; [|discriminate H..]. apply Z.ltb_lt in H.
  exists rs, c, s, s1, s2, n. split; [exact Hf|]. split; [exact H1|]. split; [exact H2|].
  split; [exact Hn|exact H].
Qed.
Lemma payer_unpaid_example : payer_unpaid 5 (payer_calls ["pay"]) (payer_calls ["fail"]) = true.
Proof. by vm_compute. Qed.
Lemma failed_unpaid_main_errors_witness :
  (payer_run 5 (payer_calls ["pay"]) (payer_calls ["fail"]) payer_tracker).1 =
    Err (TeRuntime NoFeeCheckpoint).
Proof.
  destruct (payer_unpaid_inv _ _ _ payer_unpaid_example)
    as (rs & c & s & s1 & s2 & n & Hf & H1 & H2 & Hn & Hlt).
  exact (@failed_unpaid_main_errors i192_panicking ideal_crypto int_cbor example_hashes
    example_engine_hashes hash_iter_elements example_display example_encode
    (λ _, Some 1) payer_provider (λ _ _ _, true) (λ _, true) (λ _, "error") (λ _, true) 100%nat 3%N
    (payer_modules 5) 9%N (payer_calls ["pay"]) (payer_calls ["fail"]) payer_tracker
    rs c s s1 s2 n Hf H1 H2 Hn Hlt).
Defined.

(** ** What survives a failure *)
(** The balance of the payer's vault, and whether the UTXO 11 is there, after a
    transaction. *)
Definition payer_after (cost : Z) (fee main : list string) : option (bool * Z * bool) :=
  match payer_execute cost fee main with
  | Ok f =>
      match any_accept (fin_result f) with
      | Some d =>
          match apply_diff d payer_ledger with
          | Some ledger' =>
              match substate_value <$> ledger' !! SidVault 7 with
              | Some (SvVault v) =>
                  Some (match fin_result f with Accept _ => true | _ => false end,
                        vault_balance v,
                        bool_decide (is_Some (ledger' !! SidUtxo (MkUtxoAddress XTR 11))))
              | _ => None
              end
          | None => None
          end
      | None => None
      end
  | _ => None
  end.

(** A fee payment made by main instructions that fail is refunded to a vault
    that was never charged: a vault of 100 that pays 20 in the fee instructions and 30
    in failing main instructions, for fees of 5, holds 125 afterwards; without the
    failure it holds 95. *)
Theorem failed_fee_payment_is_refunded_twice :
  payer_after 0 ["pay"] ["pay_more"] = Some (true, 95, true) ∧
  payer_after 0 ["pay"] ["pay_more"; "fail"] = Some (false, 125, true).
Proof. split; by vm_compute. Qed.

(** template code that carries on after a failed stealth transfer destroys the
    UTXO it had no right to spend: the call takes the UTXO down before it checks the
    owner's signature and the balance proof, the call fails, and the transaction is
    accepted without the UTXO and without any output. *)
Theorem failed_spend_destroys_utxo :
  payer_after 0 ["pay"] ["spend"] = Some (true, 95, false) ∧
  payer_after 0 ["pay"] [] = Some (true, 95, true).
Proof. split; by vm_compute. Qed.
