(* ===== verification/Holdings.v ===== *)
(** * What the state holds of a resource

    A measure counts how much a container holds of something that only a few
    operations create: the units of a fungible resource, or one non-fungible
    token.  [holding] is the invariant that the vaults and buckets of a working
    state together hold no more of it than the substates vouch for, and the file
    shows which operations of the store and the state keep it. *)
From stdpp Require Import base gmap list strings numbers.
From S2P Require Import Prelude Bor BTree Ids IndexedValue IdProvider Amount Crypto Confidential.
From S2P Require Import ResourceContainer FreezeFlags Proof Bucket Vault AccessRules RuntimeError.
From S2P Require Import Auth Locking Fees Substate Stealth FeeState Scope StateStore Workspace.
From S2P Require Import WorkingState Runtime RuntimeCalls Steps.
Open Scope Z_scope.

(** ** Sums over maps *)
Definition map_total {K V : Type} `{Countable K} (f : V → Z) (m : gmap K V) : Z :=
  map_fold (λ _ v n, f v + n) 0 m.

Section map_total.
Context {K V : Type} `{Countable K} (f : V → Z).
Implicit Types m : gmap K V.

Lemma map_total_insert_new m k v : m !! k = None → map_total f (<[k := v]> m) = f v + map_total f m.
Proof. intros Hk. unfold map_total. rewrite map_fold_insert_L; [done| |done]. intros. lia. Qed.
Lemma map_total_delete m k v :
  m !! k = Some v → map_total f (delete k m) = map_total f m - f v.
Proof.
  intros Hk. rewrite <- (insert_delete_id m k v Hk) at 2.
  rewrite map_total_insert_new by apply lookup_delete_eq. lia.
Qed.
Lemma map_total_insert m k v v0 :
  m !! k = Some v0 → map_total f (<[k := v]> m) = map_total f m - f v0 + f v.
Proof.
  intros Hk. rewrite <- insert_delete_eq, map_total_insert_new by apply lookup_delete_eq.
  rewrite (map_total_delete _ _ v0) by done. lia.
Qed.
Lemma map_total_nonneg m : (∀ k v, m !! k = Some v → 0 ≤ f v) → 0 ≤ map_total f m.
Proof.
  induction m as [|k v m Hk IH] using map_ind; intros Hf; [done|].
  rewrite map_total_insert_new by done.
  assert (0 ≤ f v) by by eapply Hf, lookup_insert_eq.
  assert (0 ≤ map_total f m); [|lia]. apply IH. intros k' v' Hk'.
  eapply (Hf k'). rewrite lookup_insert_ne; [done|]. by intros ->; simplify_eq.
Qed.
Lemma map_total_ge m k v :
  m !! k = Some v → (∀ k v, m !! k = Some v → 0 ≤ f v) → f v ≤ map_total f m.
Proof.
  intros Hk Hf. pose proof (map_total_delete m k v Hk) as Hd.
  assert (0 ≤ map_total f (delete k m)); [|lia]. apply map_total_nonneg.
  intros k' v' [_ Hk']%lookup_delete_Some. by eapply Hf.
Qed.
Lemma map_total_filter m : map_total f (filter (λ p, f p.2 ≠ 0) m) = map_total f m.
Proof.
  induction m as [|k v m Hk IH] using map_ind; [done|]. rewrite map_total_insert_new by done.
  destruct (decide (f v ≠ 0)) as [Hv|Hv].
  - rewrite map_filter_insert_True by done. rewrite map_total_insert_new; [by rewrite IH|].
    apply map_lookup_filter_None. by left.
  - rewrite map_filter_insert_False by done. rewrite delete_id by done. lia.
Qed.
Lemma map_total_agree m m' :
  (∀ k v, f v ≠ 0 → m !! k = Some v ↔ m' !! k = Some v) → map_total f m = map_total f m'.
Proof.
  intros Hm. rewrite <- (map_total_filter m), <- (map_total_filter m'). f_equal.
  apply map_eq. intros k. apply option_eq. intros v. rewrite !map_lookup_filter_Some. simpl.
  naive_solver.
Qed.
End map_total.

(** ** Measures *)
(** The operations that take a part out of a container, and those that lock one. *)
Section container_ops.
Context `{Ii : !I192} `{Ic : !Crypto}.
Inductive container_take : M ResourceContainer ResourceError ResourceContainer → Prop :=
  | take_withdraw amt : container_take (withdraw amt)
  | take_withdraw_all : container_take withdraw_all
  | take_withdraw_by_ids ids : container_take (withdraw_by_ids ids)
  | take_withdraw_confidential proof view_key :
      container_take (withdraw_confidential proof view_key)
  | take_recall cs r : container_take (recall_confidential_commitments cs r).
Inductive container_lock : M ResourceContainer ResourceError ResourceContainer → Prop :=
  | lock_all_of : container_lock lock_all
  | lock_amount_of amt : container_lock (lock_by_amount amt)
  | lock_ids_of ids : container_lock (lock_by_non_fungible_ids ids).
End container_ops.
#[export] Hint Constructors container_take container_lock : steps.

(** [worth] counts what a container holds, [sound] is what holds of every
    container in the state, [foreign] are the resources that are not measured, and
    [backed m n] says that the substates [m] vouch for [n], which is never more than
    [cap]. *)
Class Measure := {
  worth : ResourceContainer → Z;
  sound : ResourceContainer → Prop;
  foreign : ResourceAddress → Prop;
  backed : gmap SubstateId SubstateValue → Z → Prop;
  cap : Z;
}.
Definition value_worth `{Measure} (v : SubstateValue) : Z :=
  match v with SvVault x => worth (vault_container x) | _ => 0 end.
Definition bucket_worth `{Measure} (b : Bucket) : Z := worth (bucket_container b).

Class MeasureLaws `{Ii : !I192} `{Ic : !Crypto} (Me : Measure) : Prop := {
  worth_nonneg c : sound c → 0 ≤ worth c;
  worth_empty m n a res c :
    backed m n → m !! SidResource a = Some (SvResource res) →
    empty_container (res_type res) a = Ok c → sound c ∧ worth c = 0;
  foreign_xtr : foreign XTR;
  foreign_worth c : foreign (resource_address c) → sound c ∧ worth c = 0;
  stealth_foreign m n a res :
    backed m n → m !! SidResource a = Some (SvResource res) → res_type res = RtStealth → foreign a;
  take_law m c r c' :
    container_take m → sound c → worth c ≤ cap → m c = (r, c') → r ≠ Panic →
    sound c' ∧ match r with
               | Ok out => sound out ∧ worth c' + worth out ≤ worth c
               | _ => worth c' ≤ worth c
               end;
  deposit_law d c r c' :
    sound c → sound d → worth c + worth d ≤ cap → deposit d c = (r, c') → r ≠ Panic →
    sound c' ∧ worth c' ≤ worth c + worth d;
  lock_law m c r c' :
    container_lock m → sound c → worth c ≤ cap → m c = (r, c') → r ≠ Panic →
    sound c' ∧ worth c' ≤ worth c ∧ (∀ out, r = Ok out → sound out);
  unlock_law out c r c' :
    sound out → sound c → worth c ≤ cap → unlock out c = (r, c') → r ≠ Panic →
    sound c' ∧ worth c' ≤ worth c;
  backed_cap m n : backed m n → n ≤ cap;
  backed_keep m id v v' n :
    m !! id = Some v → keeps_value v v' → backed m n → backed (<[id := v']> m) n;
  backed_vault m id x x' n :
    m !! id = Some (SvVault x) → backed m n → backed (<[id := SvVault x']> m) n;
  backed_foreign m a x x' n :
    m !! SidResource a = Some (SvResource x) → foreign a → backed m n →
    backed (<[SidResource a := SvResource x']> m) n;
  backed_new m id v n :
    m !! id = None → backed m n → ∃ n', n ≤ n' ∧ backed (<[id := v]> m) n';
  backed_kept m m' n :
    (∀ id v, m !! id = Some v → is_Some (as_resource v) ∨ is_Some (as_non_fungible v) →
       m' !! id = Some v) →
    backed m n → ∃ n', n ≤ n' ∧ backed m' n';
}.

(** ** The values of the store *)
Definition all_values (s : WorkingStateStore) : gmap SubstateId SubstateValue :=
  list_to_map (new_substates s) ∪ (substate_value <$> state_store s).

Lemma list_to_map_im_get {K V : Type} `{Countable K} (l : list (K * V)) k :
  (list_to_map l : gmap K V) !! k = im_get k l.
Proof.
  induction l as [|[k' v] l IH]; [done|]. simpl. rewrite lookup_insert.
  repeat case_decide; subst; congruence.
Qed.
Lemma all_values_lookup s id :
  all_values s !! id =
    match im_get id (new_substates s) with
    | Some v => Some v
    | None => substate_value <$> state_store s !! id
    end.
Proof.
  unfold all_values. rewrite lookup_union, list_to_map_im_get, lookup_fmap.
  by destruct (im_get _ _), (state_store s !! id).
Qed.
Lemma all_values_insert s id v :
  all_values (set_new (im_insert id v (new_substates s)) s) = <[id := v]> (all_values s).
Proof.
  apply map_eq. intros id'. rewrite all_values_lookup. simpl. rewrite im_get_insert, lookup_insert.
  repeat case_decide; subst; try done. by rewrite all_values_lookup.
Qed.
Lemma all_values_agree s s' :
  new_substates s' = new_substates s → state_store s' = state_store s →
  all_values s' = all_values s.
Proof. intros H1 H2. unfold all_values. by rewrite H1, H2. Qed.

(** What the change set and the substates read from the ledger have in common:
    no substate is in both, a loaded one has the funds it has on the ledger, and the
    value at an address is of the kind of the address. *)
Record store_ok (s : WorkingStateStore) : Prop := {
  ok_new : NoDup (new_substates s).*1;
  ok_disjoint id : is_Some (im_get id (new_substates s)) → loaded_substates s !! id = None;
  ok_loaded id x : loaded_substates s !! id = Some x →
    ∃ y, state_store s !! id = Some y ∧ keeps_value (substate_value y) (substate_value x);
  ok_typed_new id v : im_get id (new_substates s) = Some v → kind_matches id v = true;
  ok_typed_ledger id x : state_store s !! id = Some x → kind_matches id (substate_value x) = true;
}.

(** An operation that leaves the values and the locks as they are. *)
Definition untouched (s s' : WorkingStateStore) : Prop :=
  all_values s' = all_values s ∧ (store_ok s → store_ok s').

Lemma store_ok_loaded s l :
  (∀ id x, l !! id = Some x → loaded_substates s !! id = Some x ∨
     im_get id (new_substates s) = None ∧
     ∃ y, state_store s !! id = Some y ∧ keeps_value (substate_value y) (substate_value x)) →
  untouched s (set_loaded l s).
Proof.
  intros Hl. split; [by apply all_values_agree|]. intros [H1 H2 H3 H4 H5].
  split; simpl; try done.
  - intros id Hid. destruct (l !! id) as [x|] eqn:Hx; [|done]. exfalso.
    destruct (Hl id x Hx) as [Hx'|[Hn _]]; [by rewrite H2 in Hx'|].
    rewrite Hn in Hid. by destruct Hid.
  - intros id x Hx. destruct (Hl id x Hx) as [Hx'|[_ ?]]; [by apply H3|done].
Qed.
Lemma load_and_cache_untouched id s r s' : load_and_cache id s = (r, s') → untouched s s'.
Proof.
  unfold load_and_cache, im_contains. destruct (im_get id _) eqn:Hn; [by intros [= <- <-]|].
  destruct (loaded_substates s !! id) eqn:Hl; [by intros [= <- <-]|].
  destruct (state_store s !! id) as [y|] eqn:Hy; [|by intros [= <- <-]]. intros [= <- <-].
  apply store_ok_loaded. intros id' x [[<- <-]|[? ?]]%lookup_insert_Some; [right|by left].
  split; [done|]. by exists y.
Qed.
Lemma on_locks_untouched {A : Type} (m : M LockedSubstates LockError A) s r s' :
  on_locks m s = (r, s') → untouched s s' ∧ locked_substates s' = (m (locked_substates s)).2.
Proof.
  unfold on_locks, map_err, zoom. destruct (m _) as [q l]. simpl. intros [= <- <-].
  split; [|done]. split; [done|]. by intros [H1 H2 H3 H4 H5].
Qed.
#[export] Instance untouched_preorder : PreOrder untouched.
Proof. split; [by intros s|]. intros s1 s2 s3 [? ?] [? ?]. split; [congruence|auto]. Qed.

(** The ids of locks are drawn from a counter, so an id that was given out for an
    address is never held for another one. *)
Definition lock_known (l : LockedSubstate) (t : LockedSubstates) : Prop :=
  ls_lock_id l < id_counter t ∧
  ∀ a, lock_ids t !! ls_lock_id l = Some a → a = ls_address l.
Definition locks_kept (t t' : LockedSubstates) : Prop :=
  ∀ l, lock_known l t → lock_known l t'.

Lemma register_lock_known addr t r t' :
  register_lock addr t = (r, t') →
  locks_kept t t' ∧ ∀ lid flag, r = Ok lid → lock_known (MkLockedSubstate addr lid flag) t'.
Proof.
  unfold register_lock, next_id, bind, modify, ret.
  destruct (u32_checked_add (id_counter t) 1) as [n|] eqn:Hn; intros [= <- <-];
    [|by split; [intros l|]].
  assert (n = id_counter t + 1) as ->.
  { unfold u32_checked_add, uint_checked in Hn. case_match; congruence. }
  split.
  - intros l [Hl Ha]. split; simpl in *; [lia|]. intros a. rewrite lookup_insert_ne by lia. auto.
  - intros lid flag [= <-]. split; simpl; [lia|]. intros a. rewrite lookup_insert_eq. congruence.
Qed.
Lemma try_lock_known addr flag t r t' :
  try_lock addr flag t = (r, t') →
  r ≠ Panic → locks_kept t t' ∧ ∀ lid, r = Ok lid → lock_known (MkLockedSubstate addr lid flag) t'.
Proof.
  assert (∀ l st, lock_known l t →
    lock_known l (MkLockedSubstates (lock_ids t) (<[addr := st]> (locks t)) (id_counter t))) as Hk.
  { by intros l st [? ?]. }
  assert (∀ st r t', register_lock addr
      (MkLockedSubstates (lock_ids t) (<[addr := st]> (locks t)) (id_counter t)) = (r, t') →
    locks_kept t t' ∧ ∀ lid, r = Ok lid → lock_known (MkLockedSubstate addr lid flag) t') as Hr.
  { intros st q u Hq. apply register_lock_known in Hq as [H1 H2]. split; [|by eauto].
    intros l Hl. by apply H1, Hk. }
  unfold try_lock, set_lock, modify, bind, lift. intros H Hp.
  repeat case_match; simplify_eq; eauto; by split; [intros l|].
Qed.
Lemma try_unlock_known lid t r t' : try_unlock lid t = (r, t') → locks_kept t t'.
Proof.
  intros H l [Hl Ha]. unfold try_unlock in H.
  repeat case_match; simplify_eq; (split; [done|]); simpl; try done;
    intros a [_ ?]%lookup_delete_Some; auto.
Qed.

Lemma store_try_lock_effect id flag s r s' :
  store_try_lock id flag s = (r, s') → r ≠ Panic →
  untouched s s' ∧ locks_kept (locked_substates s) (locked_substates s') ∧
  ∀ lid, r = Ok lid → lock_known (MkLockedSubstate id lid flag) (locked_substates s').
Proof.
  unfold store_try_lock.
  destruct (negb _); [by intros [= <- <-]; split; [|split; [intros l|]]|]. intros H Hp.
  unfold bind in H. destruct (on_locks _ s) as [q s1] eqn:Hq.
  pose proof Hq as Hq'. apply on_locks_untouched in Hq' as [Hu Hl].
  destruct (try_lock id flag (locked_substates s)) as [q' t] eqn:Ht. simpl in Hl.
  assert (q = res_map_err RuntimeLockError q') as Hqq.
  { unfold on_locks, map_err, zoom in Hq. rewrite Ht in Hq. by simplify_eq/=. }
  destruct q as [lid|e|]; [|simplify_eq|by simplify_eq].
  - destruct q'; simplify_eq/=. apply try_lock_known in Ht as [Hk Hn]; [|done].
    destruct (load_and_cache id s1) as [q s2] eqn:Hload.
    assert (locked_substates s2 = locked_substates s1) as Hl2.
    { unfold load_and_cache in Hload. repeat case_match; by simplify_eq. }
    apply load_and_cache_untouched in Hload.
    destruct q as [u|e|]; injection H as <- <-; [| |done]; rewrite Hl2;
      (split; [by etrans|]); (split; [done|]); [|done]. intros lid' [= <-]. by apply Hn.
  - destruct q'; simplify_eq/=. apply try_lock_known in Ht as [Hk Hn]; [|done]. done.
Qed.
Lemma store_try_unlock_effect lid s r s' :
  store_try_unlock lid s = (r, s') →
  untouched s s' ∧ locks_kept (locked_substates s) (locked_substates s').
Proof.
  intros H. apply on_locks_untouched in H as [Hu Hl]. split; [done|]. rewrite Hl.
  destruct (try_unlock lid (locked_substates s)) eqn:E. by eapply try_unlock_known.
Qed.

Lemma all_values_typed s id v : store_ok s → all_values s !! id = Some v → kind_matches id v = true.
Proof.
  intros Hok. rewrite all_values_lookup. destruct (im_get _ _) eqn:Hn.
  - intros [= <-]. exact (ok_typed_new s Hok _ _ Hn).
  - intros (y & Hy & ->)%fmap_Some. exact (ok_typed_ledger s Hok _ _ Hy).
Qed.

Lemma set_new_ok s id v :
  store_ok s → loaded_substates s !! id = None → kind_matches id v = true →
  store_ok (set_new (im_insert id v (new_substates s)) s).
Proof.
  intros [H1 H2 H3 H4 H5] Hl Hv. split; simpl; try done.
  - by apply im_insert_NoDup.
  - intros id'. rewrite im_get_insert. case_decide; [by subst|apply H2].
  - intros id' w. rewrite im_get_insert. case_decide; [|apply H4]. intros [= <-]. by subst.
Qed.

Lemma get_for_mut_effect id s r s' :
  store_ok s → get_for_mut id s = (r, s') →
  locked_substates s' = locked_substates s ∧ store_ok s' ∧
  match r with
  | Ok v => ∃ v0, all_values s !! id = Some v0 ∧ keeps_value v0 v ∧
              all_values s' = <[id := v]> (all_values s) ∧ loaded_substates s' !! id = None
  | _ => s' = s
  end.
Proof.
  intros Hok. pose proof Hok as [H1 H2 H3 H4 H5]. unfold get_for_mut.
  destruct (loaded_substates s !! id) as [x|] eqn:Hx.
  - destruct (H3 id x Hx) as (y & Hy & Hk).
    assert (im_get id (new_substates s) = None) as Hn.
    { apply eq_None_not_Some. intros Hs%H2. congruence. }
    assert (all_values s !! id = Some (substate_value y)) as Hv.
    { by rewrite all_values_lookup, Hn, Hy. }
    simpl. rewrite im_get_insert, decide_True by done. intros [= <- <-]. split; [done|].
    assert (store_ok (set_loaded (delete id (loaded_substates s)) s)) as Hok'.
    { eapply store_ok_loaded; [|done]. intros id' x' [_ ?]%lookup_delete_Some. by left. }
    split; [|exists (substate_value y); split_and!].
    + apply (set_new_ok (set_loaded _ s)); [done|apply lookup_delete_eq|].
      rewrite (keeps_kind _ _ Hk). by eapply H5.
    + done.
    + done.
    + by rewrite (all_values_insert (set_loaded (delete id (loaded_substates s)) s)).
    + apply lookup_delete_eq.
  - destruct (im_get id (new_substates s)) as [v|] eqn:Hn; intros [= <- <-]; [|done].
    assert (all_values s !! id = Some v) as Hv by by rewrite all_values_lookup, Hn.
    split_and!; [done..|]. exists v. by rewrite insert_id.
Qed.

Lemma get_ref_keeps s id v :
  store_ok s → get_ref s id = Ok v → ∃ v0, all_values s !! id = Some v0 ∧ keeps_value v0 v.
Proof.
  intros Hok. unfold get_ref. rewrite all_values_lookup.
  destruct (im_get id _) as [v1|] eqn:Hn; [intros [= <-]; by exists v1|].
  destruct (loaded_substates s !! id) as [x|] eqn:Hx; [|done]. intros [= <-].
  destruct (ok_loaded s Hok id x Hx) as (y & -> & Hk). by exists (substate_value y).
Qed.
Lemma get_lock_id t lid flag lock :
  get_lock t lid flag = Ok lock → lock_ids t !! lid = Some (ls_address lock).
Proof.
  unfold get_lock. destruct (lock_ids t !! lid) as [a|]; [|done]. simpl.
  destruct (locks t !! a); [|done]. simpl. case_match; [done|]. by intros [= <-].
Qed.

Lemma with_locked_mut_effect {A : Type} lid (f : SubstateId → M SubstateValue RuntimeError A) s r s' :
  store_ok s → (∀ id v, same_kind v (f id v).2) →
  with_locked_mut lid f s = (r, s') → r ≠ Panic →
  locked_substates s' = locked_substates s ∧ store_ok s' ∧
  ((s' = s ∧ ∃ e, r = Err e) ∨
   ∃ id v0 v, lock_ids (locked_substates s) !! lid = Some id ∧ all_values s !! id = Some v0 ∧
     keeps_value v0 v ∧ r = (f id v).1 ∧ all_values s' = <[id := (f id v).2]> (all_values s)).
Proof.
  intros Hok Hf H Hp. unfold with_locked_mut in H.
  destruct (get_lock _ _ _) as [lock|e|] eqn:Hlock; [|simplify_eq; by eauto 10|by simplify_eq].
  apply get_lock_id in Hlock as Hid.
  unfold bind in H. destruct (get_for_mut _ s) as [q s1] eqn:Hg.
  apply get_for_mut_effect in Hg as (Hl & Hok1 & Hq); [|done].
  destruct q as [v|e|]; [|simplify_eq; by eauto 10|by simplify_eq].
  destruct Hq as (v0 & Hv0 & Hk & Hall & Hload). unfold borrow_new in H.
  destruct (f (ls_address lock) v) as [q v'] eqn:Hfv. injection H as <- <-. split; [done|]. split.
  - apply set_new_ok; [done..|]. replace v' with (f (ls_address lock) v).2 by by rewrite Hfv.
    rewrite (Hf _ _ _), (keeps_kind _ _ Hk). exact (all_values_typed s _ _ Hok Hv0).
  - right. exists (ls_address lock), v0, v. rewrite Hfv, all_values_insert, Hall, insert_insert_eq.
    by split_and!.
Qed.

Lemma store_insert_effect id v s r s' :
  store_ok s → kind_matches id v = true →
  store_insert id v s = (r, s') →
  locked_substates s' = locked_substates s ∧ store_ok s' ∧
  ((s' = s ∧ ∃ e, r = Err e) ∨
   all_values s !! id = None ∧ all_values s' = <[id := v]> (all_values s)).
Proof.
  intros Hok Hv. unfold store_insert, exists_, im_contains, ledger_exists.
  destruct (im_get id (new_substates s)) eqn:Hn; [by intros [= <- <-]; eauto 6|].
  destruct (loaded_substates s !! id) eqn:Hl; [by intros [= <- <-]; eauto 6|].
  destruct (state_store s !! id) eqn:Hs; simpl; intros [= <- <-]; [by eauto 6|].
  split_and!; [done|by apply set_new_ok|]. right.
  by rewrite all_values_insert, all_values_lookup, Hn, Hs.
Qed.

Lemma mutate_effect {A : Type} lid (f : SubstateId → M SubstateValue RuntimeError (option A)) s r s' :
  store_ok s → (∀ id v, keeps_value v (f id v).2) →
  mutate_locked_substate_with lid f s = (r, s') → r ≠ Panic →
  locked_substates s' = locked_substates s ∧ store_ok s' ∧
  (all_values s' = all_values s ∨
   ∃ id v0 v, all_values s !! id = Some v0 ∧ keeps_value v0 v ∧
     all_values s' = <[id := v]> (all_values s)).
Proof.
  intros Hok Hf H Hp. unfold mutate_locked_substate_with in H.
  destruct (get_lock _ _ _) as [lock|e|]; [|by simplify_eq; auto|by simplify_eq].
  set (id := ls_address lock) in *. destruct (loaded_substates s !! id) as [x|] eqn:Hx.
  - destruct (ok_loaded s Hok id x Hx) as (y & Hy & Hk).
    assert (im_get id (new_substates s) = None) as Hn.
    { apply eq_None_not_Some. intros Hs%(ok_disjoint s Hok). congruence. }
    assert (untouched s (set_loaded (delete id (loaded_substates s)) s)) as [_ Hrem].
    { apply store_ok_loaded. intros id' x' [_ ?]%lookup_delete_Some. by left. }
    pose proof (Hf id (substate_value x)) as Hfx.
    destruct (f id (substate_value x)) as [[[a|]|e|] v]; simpl in Hfx; injection H as <- <-;
      [| |by auto|done].
    + split; [done|]. split.
      * apply (set_new_ok (set_loaded _ s)); [by apply Hrem|apply lookup_delete_eq|].
        rewrite (keeps_kind _ _ Hfx), (keeps_kind _ _ Hk). exact (ok_typed_ledger s Hok _ _ Hy).
      * right. exists id, (substate_value y), v. split_and!; [|by etrans|].
        -- by rewrite all_values_lookup, Hn, Hy.
        -- by rewrite (all_values_insert (set_loaded (delete id (loaded_substates s)) s)).
    + split; [done|]. assert (untouched s (set_loaded (<[id := MkSubstate v (version x)]> (loaded_substates s)) s))
        as [Hall Hok']; [|by auto]. apply store_ok_loaded.
      intros id' x' [[<- <-]|[? ?]]%lookup_insert_Some; [right|by left]. split; [done|].
      exists y. split; [done|]. simpl. by etrans.
  - destruct (im_get id (new_substates s)) as [v|] eqn:Hn; [|by simplify_eq; auto].
    assert (all_values s !! id = Some v) as Hv by by rewrite all_values_lookup, Hn.
    unfold borrow_new in H. pose proof (Hf id v) as Hfv. destruct (f id v) as [q v'].
    injection H as <- <-. split; [done|]. split.
    + apply set_new_ok; [done..|]. rewrite (keeps_kind _ _ Hfv). by eapply all_values_typed.
    + right. exists id, v, v'. by rewrite all_values_insert.
Qed.

Lemma down_utxo_effect lid s r s' :
  store_ok s → down_utxo lid s = (r, s') → r ≠ Panic →
  locked_substates s' = locked_substates s ∧ store_ok s' ∧
  ∀ id, as_utxo_address id = None → all_values s' !! id = all_values s !! id.
Proof.
  intros Hok H Hp. unfold down_utxo in H.
  destruct (get_lock _ _ _) as [lock|e|]; [|by simplify_eq|by simplify_eq].
  destruct (ls_address lock) as [| | | | | | | |a]; try by simplify_eq.
  destruct (im_get (SidUtxo a) (new_substates s)) as [v|] eqn:Hn.
  - injection H as <- <-. pose proof Hok as [H1 H2 H3 H4 H5]. split_and!; [done|split; simpl|].
    + by apply im_remove_NoDup.
    + intros id. rewrite im_get_remove by done. case_decide; [by intros [? ?]|apply H2].
    + done.
    + intros a' v'. rewrite im_get_remove by done. case_decide; [done|apply H4].
    + done.
    + intros id Hid. rewrite !all_values_lookup. simpl. rewrite im_get_remove by done.
      case_decide; [by subst|done].
  - destruct (loaded_substates s !! SidUtxo a) as [x|] eqn:Hx; [|by simplify_eq].
    injection H as <- <-. assert (untouched s (set_loaded (delete (SidUtxo a) (loaded_substates s)) s))
      as [Hall Hrem].
    { apply store_ok_loaded. intros id' x' [_ ?]%lookup_delete_Some. by left. }
    split; [done|]. split; [by destruct (Hrem Hok)|]. intros id _.
    change (all_values (set_loaded (delete (SidUtxo a) (loaded_substates s)) s) !! id = all_values s !! id).
    by rewrite Hall.
Qed.

(** ** The invariant *)
Section holdings.
Context `{Ii : !I192} `{Ic : !Crypto} `{Me : !Measure} `{Ml : !MeasureLaws Me}.

Record funds_ok (m : gmap SubstateId SubstateValue) (bs : gmap BucketId Bucket)
    (ps : gmap ProofId Proof) (h : Z) : Prop := {
  funds_vaults id x : m !! id = Some (SvVault x) → sound (vault_container x);
  funds_buckets id b : bs !! id = Some b → sound (bucket_container b);
  funds_proofs id p : ps !! id = Some p → sound (proof_into_resource_container p);
  funds_hand : 0 ≤ h;
  funds_backed :
    ∃ n, backed m n ∧ map_total value_worth m + map_total bucket_worth bs + h ≤ n;
}.

(** The state holds no more than its substates vouch for, counting the amount [h]
    that a call has taken out of it and not put back yet; the locks [L] were given
    out, and the fees were paid in what the measure does not count. *)
Definition fees_foreign (f : FeeState) : Prop := ∀ c, c ∈ payments f → foreign (resource_address c).
Definition standing (L : list LockedSubstate) (s : WorkingState) : Prop :=
  Forall (λ l, lock_known l (locked_substates (store s))) L ∧ fees_foreign (fee_state s).
Definition holding (L : list LockedSubstate) (h : Z) (s : WorkingState) : Prop :=
  standing L s ∧ store_ok (store s) ∧ funds_ok (all_values (store s)) (buckets s) (proofs s) h.
Definition conserves (s s' : WorkingState) : Prop := ∀ L h, holding L h s → holding L h s'.

#[export] Instance conserves_preorder : PreOrder conserves.
Proof. split; [by intros s L h|]. intros s1 s2 s3 H1 H2 L h Hs. by apply H2, H1. Qed.

Lemma value_worth_keeps v v' : keeps_value v v' → value_worth v' = value_worth v.
Proof.
  destruct v, v'; simpl; try done; try (by intros [? ?]); intros (? & [=] & ?); subst; simpl; congruence.
Qed.
Lemma value_worth_nonneg m bs ps h id v :
  funds_ok m bs ps h → m !! id = Some v → 0 ≤ value_worth v.
Proof. intros Hf Hv. destruct v; simpl; try done. eapply worth_nonneg, (funds_vaults _ _ _ _ Hf), Hv. Qed.
Lemma bucket_worth_nonneg m bs ps h id b :
  funds_ok m bs ps h → bs !! id = Some b → 0 ≤ bucket_worth b.
Proof. intros Hf Hb. eapply worth_nonneg, (funds_buckets _ _ _ _ Hf), Hb. Qed.

(** What the rest of the state holds leaves room for one container and the
    hand. *)
Lemma vault_room m bs ps h id x :
  funds_ok m bs ps h → m !! id = Some (SvVault x) → worth (vault_container x) + h ≤ cap.
Proof.
  intros Hf Hx. destruct (funds_backed _ _ _ _ Hf) as (n & Hn & Hle). apply backed_cap in Hn.
  pose proof (map_total_ge value_worth m id (SvVault x) Hx
    (λ k v, value_worth_nonneg m bs ps h k v Hf)) as H1.
  pose proof (map_total_nonneg bucket_worth bs (λ k b, bucket_worth_nonneg m bs ps h k b Hf)) as H2.
  simpl in H1. lia.
Qed.
Lemma bucket_room m bs ps h id b :
  funds_ok m bs ps h → bs !! id = Some b → worth (bucket_container b) + h ≤ cap.
Proof.
  intros Hf Hb. destruct (funds_backed _ _ _ _ Hf) as (n & Hn & Hle). apply backed_cap in Hn.
  pose proof (map_total_ge bucket_worth bs id b Hb
    (λ k v, bucket_worth_nonneg m bs ps h k v Hf)) as H1.
  pose proof (map_total_nonneg value_worth m (λ k v, value_worth_nonneg m bs ps h k v Hf)) as H2.
  unfold bucket_worth at 1 in H1. lia.
Qed.

(** *** Changes of the substates *)
Lemma funds_keep m bs ps h id v v' :
  funds_ok m bs ps h → m !! id = Some v → keeps_value v v' →
  funds_ok (<[id := v']> m) bs ps h.
Proof.
  intros Hf Hv Hk. pose proof Hf as [H1 H2 H3 H4 (n & Hn & Hle)]. split; try done.
  - intros id' x' [[<- ->]|[_ ?]]%lookup_insert_Some; [|by eapply H1].
    destruct v; simpl in Hk; try (by destruct Hk); try (by destruct Hk as (? & ? & _)).
    destruct Hk as (x & [= ->] & ->). by eapply H1.
  - exists n. split; [by eapply backed_keep|].
    rewrite (map_total_insert _ _ _ _ v), (value_worth_keeps v v') by done. lia.
Qed.
Lemma funds_new m bs ps h id v :
  funds_ok m bs ps h → m !! id = None →
  (∀ x, v = SvVault x → sound (vault_container x) ∧ worth (vault_container x) = 0) →
  funds_ok (<[id := v]> m) bs ps h.
Proof.
  intros Hf Hid Hv. pose proof Hf as [H1 H2 H3 H4 (n & Hn & Hle)]. split; try done.
  - intros id' x' [[<- ->]|[_ ?]]%lookup_insert_Some; [by apply Hv|by eapply H1].
  - destruct (backed_new m id v n Hid Hn) as (n' & Hn' & Hb). exists n'. split; [done|].
    rewrite map_total_insert_new by done. assert (value_worth v = 0); [|lia].
    destruct v; simpl; try done. by apply Hv.
Qed.
Lemma funds_utxo m m' bs ps h :
  funds_ok m bs ps h → (∀ id, as_utxo_address id = None → m' !! id = m !! id) →
  (∀ a v, m !! SidUtxo a = Some v → kind_matches (SidUtxo a) v = true) →
  (∀ a v, m' !! SidUtxo a = Some v → kind_matches (SidUtxo a) v = true) → funds_ok m' bs ps h.
Proof.
  intros [H1 H2 H3 H4 (n & Hn & Hle)] Hm Hu Hu'. split; try done.
  - intros id x Hx. destruct (as_utxo_address id) eqn:Hid.
    + destruct id; simplify_eq/=. by apply Hu' in Hx.
    + rewrite Hm in Hx by done. by eapply H1.
  - destruct (backed_kept m m' n) as (n' & Hn' & Hb); [|done|].
    { intros id v Hv Hk. destruct (as_utxo_address id) eqn:Hid; [|by rewrite Hm].
      destruct id; simplify_eq/=. apply Hu in Hv. destruct v; by destruct Hk as [[? ?]|[? ?]]. }
    exists n'. split; [done|]. rewrite (map_total_agree value_worth m' m); [lia|]. intros id v Hv.
    destruct (as_utxo_address id) eqn:Hid; [|by rewrite Hm].
    destruct id; simplify_eq/=. destruct v; try done.
    split; intros Hx; [by apply Hu' in Hx|by apply Hu in Hx].
Qed.
Lemma funds_vault m bs ps h h' id x x' :
  funds_ok m bs ps h → m !! id = Some (SvVault x) → sound (vault_container x') → 0 ≤ h' →
  worth (vault_container x') + h' ≤ worth (vault_container x) + h →
  funds_ok (<[id := SvVault x']> m) bs ps h'.
Proof.
  intros [H1 H2 H3 H4 (n & Hn & Hle)] Hx Hs Hh Hw. split; try done.
  - intros id' y [[<- [= ->]]|[_ ?]]%lookup_insert_Some; [done|by eapply H1].
  - exists n. split; [by eapply backed_vault|].
    rewrite (map_total_insert _ _ _ _ (SvVault x)) by done. simpl. lia.
Qed.
Lemma funds_hand_le m bs ps h h' : funds_ok m bs ps h → 0 ≤ h' ≤ h → funds_ok m bs ps h'.
Proof. intros [H1 H2 H3 H4 (n & Hn & Hle)] Hh. split; try done; [lia|]. exists n. split; [done|lia]. Qed.

(** *** Changes of the buckets and proofs *)
Lemma funds_bucket m bs ps h h' id b b' :
  funds_ok m bs ps h → bs !! id = Some b → sound (bucket_container b') → 0 ≤ h' →
  worth (bucket_container b') + h' ≤ worth (bucket_container b) + h →
  funds_ok m (<[id := b']> bs) ps h'.
Proof.
  intros [H1 H2 H3 H4 (n & Hn & Hle)] Hb Hs Hh Hw. split; try done.
  - intros id' y [[<- <-]|[_ ?]]%lookup_insert_Some; [done|by eapply H2].
  - exists n. split; [done|]. rewrite (map_total_insert _ _ _ _ b) by done. unfold bucket_worth in *. lia.
Qed.
Lemma funds_take_bucket m bs ps h id b :
  funds_ok m bs ps h → bs !! id = Some b →
  sound (bucket_container b) ∧ funds_ok m (delete id bs) ps (h + worth (bucket_container b)).
Proof.
  intros Hf Hb. pose proof Hf as [H1 H2 H3 H4 (n & Hn & Hle)]. pose proof (H2 id b Hb) as Hs.
  pose proof (worth_nonneg _ Hs). split; [done|]. split; try done; [|lia|].
  - intros id' y [_ ?]%lookup_delete_Some. by eapply H2.
  - exists n. split; [done|]. rewrite (map_total_delete _ _ _ b) by done. unfold bucket_worth in *. lia.
Qed.
(** A bucket of the same id is overwritten. *)
Lemma funds_put_bucket m bs ps h id b :
  funds_ok m bs ps (h + worth (bucket_container b)) → 0 ≤ h → sound (bucket_container b) →
  funds_ok m (<[id := b]> bs) ps h.
Proof.
  intros Hf Hh Hs. destruct (bs !! id) as [b0|] eqn:Hb.
  - eapply funds_bucket; [done..|]. pose proof (bucket_worth_nonneg _ _ _ _ _ _ Hf Hb) as H0.
    unfold bucket_worth in H0. lia.
  - pose proof Hf as [H1 H2 H3 H4 (n & Hn & Hle)]. split; try done.
    + intros id' y [[<- <-]|[_ ?]]%lookup_insert_Some; [done|by eapply H2].
    + exists n. split; [done|]. rewrite map_total_insert_new by done. unfold bucket_worth at 1. lia.
Qed.
Lemma funds_put_proof m bs ps h id p :
  funds_ok m bs ps h → sound (proof_into_resource_container p) → funds_ok m bs (<[id := p]> ps) h.
Proof.
  intros [H1 H2 H3 H4 H5] Hs. split; try done.
  intros id' y [[<- <-]|[_ ?]]%lookup_insert_Some; [done|by eapply H3].
Qed.
Lemma funds_delete_proof m bs ps h id : funds_ok m bs ps h → funds_ok m bs (delete id ps) h.
Proof.
  intros [H1 H2 H3 H4 H5]. split; try done. intros id' y [_ ?]%lookup_delete_Some. by eapply H3.
Qed.

(** ** Calls that move no funds keep the invariant *)
Lemma holding_agree L h s s' :
  store s' = store s → buckets s' = buckets s → proofs s' = proofs s →
  fee_state s' = fee_state s → holding L h s → holding L h s'.
Proof. unfold holding, standing. by intros -> -> -> ->. Qed.
Lemma holding_store L h s st :
  holding L h s → (∀ l, lock_known l (locked_substates (store s)) → lock_known l (locked_substates st)) →
  store_ok st → funds_ok (all_values st) (buckets s) (proofs s) h → holding L h (set_store st s).
Proof.
  intros ([HL Hfees] & _ & _) Hk Hok Hf. split; [|by split]. split; [|done].
  eapply Forall_impl; [exact Hk|exact HL].
Qed.

Lemma quiet_conserves {A : Type} (m : M WorkingStateStore RuntimeError A) :
  quiet m → follows conserves (on_store m).
Proof.
  intros Hq s r s' H Hp L h Hh. pose proof Hh as (HL & Hok & Hf).
  unfold on_store, zoom in H. destruct (m (store s)) as [q st] eqn:Hm. injection H as <- <-.
  destruct Hq as [id flag|lid|a|lid|id v Hv Ht _|B lid f Hf'|B lid f Hf'].
  - apply store_try_lock_effect in Hm as ([Hall Hok'] & Hk & _); [|done].
    apply holding_store; [done|exact Hk|by apply Hok'|by rewrite Hall].
  - apply store_try_unlock_effect in Hm as ([Hall Hok'] & Hk).
    apply holding_store; [done|exact Hk|by apply Hok'|by rewrite Hall].
  - unfold load_and_cache_component, bind, get, lift in Hm.
    destruct (load_and_cache (SidComponent a) (store s)) as [q' st'] eqn:Hl.
    assert (st = st') as -> by (destruct q'; by simplify_eq).
    assert (locked_substates st' = locked_substates (store s)) as Hl2.
    { unfold load_and_cache in Hl. repeat case_match; by simplify_eq. }
    apply load_and_cache_untouched in Hl as [Hall Hok'].
    apply holding_store; [done|by rewrite Hl2|by apply Hok'|by rewrite Hall].
  - pose proof Hm as Hm'. apply down_utxo_effect in Hm as (Hl & Hok' & Hall); [|done..].
    apply holding_store; [done|by rewrite Hl|done|]. eapply funds_utxo; [done..| |];
      intros a v Hv; by (eapply all_values_typed in Hv).
  - apply store_insert_effect in Hm as (Hl & Hok' & Hall); [|done..].
    apply holding_store; [done|by rewrite Hl|done|].
    destruct Hall as [[-> _]|[Hn ->]]; [done|]. apply funds_new; [done..|]. by intros x ->.
  - apply with_locked_mut_effect in Hm as (Hl & Hok' & Hall); [|done| |done].
    + apply holding_store; [done|by rewrite Hl|done|].
      destruct Hall as [[-> _]|(id & v0 & v & _ & Hv0 & Hk & _ & ->)]; [done|].
      eapply funds_keep; [done..|]. etrans; [done|]. apply Hf'.
    + intros id v. apply keeps_kind, Hf'.
  - apply mutate_effect in Hm as (Hl & Hok' & Hall); [|done..].
    apply holding_store; [done|by rewrite Hl|done|].
    destruct Hall as [->|(id & v0 & v & Hv0 & Hk & ->)]; [done|]. by eapply funds_keep.
Qed.

#[export] Instance conserves_steps : StepLaws conserves.
Proof.
  split; try (intros; intros L h Hh; by apply (holding_agree L h s)).
  - apply _.
  - intros A m Hq. by apply quiet_conserves.
  - intros c s L h Hh. unfold set_current_call_scope. destruct (call_frames s); by apply (holding_agree L h s).
  - intros f s Hf L h ([HL Hfees] & Hok & Hfunds). split_and!; [|done..]. split; [done|].
    intros c [Hc| ->]%Hf; [by apply Hfees|apply foreign_xtr].
Qed.
Lemma push_frame_conserves f n : follows conserves (push_frame f n).
Proof.
  intros s r s' H _. unfold push_frame in H. case_match; simplify_eq; [done|].
  intros L h Hh. by apply (holding_agree L h s).
Qed.
Lemma pop_frame_conserves : follows conserves pop_frame.
Proof.
  intros s r s' H Hp. unfold pop_frame in H. destruct (call_frames s) as [|f fs]; [by simplify_eq|].
  unfold bind at 1, put in H. cbv beta iota in H.
  transitivity (set_frames fs (initial_call_scope s) s).
  { intros L h Hh. by apply (holding_agree L h s). }
  refine (follows_apply _ _ _ _ _ H Hp _). follow.
Qed.
End holdings.
