(* ===== verification/LedgerTypes.v ===== *)
(** * The types of the ledger

    [engine_types/src/substate.rs], [engine/src/runtime/state_store.rs]: a substate
    id names the kind of the value at its address.  Every value that a runtime call
    writes is of the kind of its address, so a transaction that is accepted leaves
    a ledger in which reading an address never finds a value of another kind. *)
From stdpp Require Import base gmap list strings numbers.
From S2P Require Import Prelude Bor BTree Ids IndexedValue IdProvider Amount Crypto Confidential.
From S2P Require Import ResourceContainer FreezeFlags Proof Bucket Vault AccessRules RuntimeError.
From S2P Require Import Auth Locking Fees Substate Stealth FeeState Scope StateStore Workspace.
From S2P Require Import WorkingState LedgerDiff Runtime RuntimeCalls Engine Processor Examples.
From S2P Require Import Steps EngineRuns Transactions Commit Holdings.
Open Scope Z_scope.

Definition ledger_typed (ledger : Ledger) : Prop :=
  ∀ id x, ledger !! id = Some x → kind_matches id (substate_value x) = true.

(** The store reads the ledger and never writes it. *)
Definition keeps_types (s s' : WorkingState) : Prop :=
  state_store (store s') = state_store (store s) ∧ (store_ok (store s) → store_ok (store s')).
#[export] Instance keeps_types_preorder : PreOrder keeps_types.
Proof. split; [by intros s|]. intros s1 s2 s3 [? ?] [? ?]. split; [congruence|auto]. Qed.

Lemma load_and_cache_ledger id : preserves state_store (load_and_cache id).
Proof. intros s. unfold load_and_cache. by repeat case_match. Qed.
Lemma on_locks_ledger {A : Type} (m : M LockedSubstates LockError A) :
  preserves state_store (on_locks m).
Proof. intros s. unfold on_locks, map_err, zoom. by destruct (m _). Qed.
Lemma get_for_mut_ledger id : preserves state_store (get_for_mut id).
Proof. intros s. unfold get_for_mut. by repeat case_match. Qed.
Lemma store_insert_ledger id v : preserves state_store (store_insert id v).
Proof. intros s. unfold store_insert. by repeat case_match. Qed.
Lemma with_locked_mut_ledger {A : Type} lid (f : SubstateId → M SubstateValue RuntimeError A) :
  preserves state_store (with_locked_mut lid f).
Proof.
  intros s. unfold with_locked_mut, bind. destruct (get_lock _ _ _) as [l| |]; [|done..].
  pose proof (get_for_mut_ledger (ls_address l) s) as H.
  destruct (get_for_mut _ s) as [[v| |] s1]; simpl in H; [|done..].
  unfold borrow_new. by destruct (f _ _).
Qed.
Lemma mutate_ledger {A : Type} lid (f : SubstateId → M SubstateValue RuntimeError (option A)) :
  preserves state_store (mutate_locked_substate_with lid f).
Proof.
  intros s. unfold mutate_locked_substate_with, borrow_new. by repeat case_match.
Qed.
Lemma quiet_ledger {A : Type} (m : M WorkingStateStore RuntimeError A) :
  quiet m → preserves state_store m.
Proof.
  intros Hq. destruct Hq.
  - intros s. unfold store_try_lock. destruct (negb _); [done|].
    apply (preserves_bind state_store (on_locks _)); [apply on_locks_ledger|]. intros lid.
    apply preserves_bind; [apply load_and_cache_ledger|]. by intros [] s'.
  - apply on_locks_ledger.
  - unfold load_and_cache_component. apply preserves_bind; [apply load_and_cache_ledger|]. by intros [] s.
  - intros s. unfold down_utxo. by repeat case_match.
  - apply store_insert_ledger.
  - apply with_locked_mut_ledger.
  - apply mutate_ledger.
Qed.

Lemma on_store_types {A : Type} (m : M WorkingStateStore RuntimeError A) :
  preserves state_store m →
  (∀ st r st', m st = (r, st') → r ≠ Panic → store_ok st → store_ok st') →
  follows keeps_types (on_store m).
Proof.
  intros Hl Hok s r s'. unfold on_store, zoom. specialize (Hl (store s)).
  destruct (m (store s)) as [q st] eqn:Hq. intros [= <- <-] Hp. split; [done|].
  intros Hs. exact (Hok _ _ _ Hq Hp Hs).
Qed.
#[export] Instance keeps_types_steps : StepLaws keeps_types.
Proof.
  split; try (intros; by split).
  - apply _.
  - intros A m Hq. apply on_store_types; [by apply quiet_ledger|]. intros st r st' H Hp Hok.
    destruct Hq as [id flag|lid|a|lid|id v Hv Ht _|B lid f Hf|B lid f Hf].
    + apply store_try_lock_effect in H as ([_ H] & _); [|done]. by apply H.
    + apply store_try_unlock_effect in H as ([_ H] & _). by apply H.
    + unfold load_and_cache_component, bind, get, lift in H.
      destruct (load_and_cache (SidComponent a) st) as [q st1] eqn:Hl.
      assert (st' = st1) as -> by (destruct q; by simplify_eq).
      apply load_and_cache_untouched in Hl as [_ Hl]. by apply Hl.
    + by apply down_utxo_effect in H as (_ & ? & _).
    + by apply store_insert_effect in H as (_ & ? & _).
    + apply with_locked_mut_effect in H as (_ & ? & _); [done..| |done]. intros id v. apply keeps_kind, Hf.
    + by apply mutate_effect in H as (_ & ? & _).
  - intros c s. unfold set_current_call_scope. by destruct (call_frames s).
Qed.
#[export] Instance keeps_types_moves : MoveLaws keeps_types.
Proof.
  split; try (intros; by split).
  - apply _.
  - intros A lid f Hf. apply on_store_types; [apply with_locked_mut_ledger|].
    intros st r st' H Hp Hok. by apply with_locked_mut_effect in H as (_ & ? & _).
  - intros id v Ht _. apply on_store_types; [apply store_insert_ledger|].
    intros st r st' H Hp Hok. by apply store_insert_effect in H as (_ & ? & _).
Qed.
Lemma push_frame_types f n : follows keeps_types (push_frame f n).
Proof. intros s r s' H _. unfold push_frame in H. case_match; by simplify_eq. Qed.
Lemma pop_frame_types : follows keeps_types pop_frame.
Proof.
  intros s r s' H Hp. unfold pop_frame in H. destruct (call_frames s) as [|f fs]; [by simplify_eq|].
  unfold bind at 1, put in H. cbv beta iota in H.
  transitivity (set_frames fs (initial_call_scope s) s); [by split|].
  refine (follows_apply _ _ _ _ _ H Hp _). follow.
Qed.

(** ** Accepted transactions *)
Lemma store_new_ok (ledger : Ledger) : ledger_typed ledger → store_ok (store_new ledger).
Proof. intros Ht. split; simpl; try done; constructor. Qed.

(** Any template code. *)
Lemma all_code_fits provider : provider_fits (op_fits (λ _, True)) provider.
Proof.
  intros a t _ f args. induction (template_code t f args) as [| |op k IH]; simpl; [done..|].
  split; [by destruct op|done].
Qed.

(** What the change set keeps when refunds are written into it. *)
Definition persist_typed (persist : list (SubstateId * SubstateValue)) : Prop :=
  NoDup persist.*1 ∧ ∀ id v, im_get id persist = Some v → kind_matches id v = true.
Lemma refunds_typed `{!I192} `{!Crypto} P persist persist' :
  rtc (refund P) persist persist' → persist_typed persist → persist_typed persist'.
Proof.
  induction 1 as [|p1 p2 p3 Hr _ IH]; [done|]. intros [Hn Ht]. apply IH. destruct Hr as [p v vault].
  split; [by apply im_insert_NoDup|]. intros id w. rewrite im_get_insert. case_decide; [|apply Ht].
  intros [= <-]. by subst.
Qed.
Lemma persist_typed_elem persist id v : persist_typed persist → (id, v) ∈ persist → kind_matches id v = true.
Proof. intros [Hn Ht] Hin. by apply Ht, im_get_elem_NoDup. Qed.

Lemma committed_typed s receipt persist downed ws d (ledger ledger' : Ledger) :
  generate_substate_diff s receipt persist downed ws = Ok d → apply_diff d ledger = Some ledger' →
  persist_typed persist → ledger_typed ledger → ledger_typed ledger'.
Proof.
  intros Hg Ha Hp Ht. destruct (diff_committed _ _ _ _ _ _ _ _ Hg Ha) as [Hl _]. intros id x Hx.
  destruct (Hl id x Hx) as [[-> ->]|[Hin|[_ Hin]]]; [done| |by eapply Ht].
  by eapply persist_typed_elem.
Qed.
Lemma finalized_typed `{!I192} `{!Crypto} P st persist :
  store_ok st → rtc (refund P) (new_substates st) persist → persist_typed persist.
Proof.
  intros Hok Hr. eapply refunds_typed; [exact Hr|]. split; [apply Hok|apply (ok_typed_new _ Hok)].
Qed.

Section accepted.
Context `{Ii : !I192} `{Ic : !Crypto} `{Cb : !Cbor} `{Ih : !IdHashes} `{Eh : !EngineHashes}.
Context `{Hi : !HashIter} `{Dp : !Display} `{Ce : !CborEncode}.

Lemma types_calls fits encoded_len cost weight table functions_of signer :
  CallLaws encoded_len [fee_module encoded_len cost weight table] functions_of signer fits
    keeps_types.
Proof.
  apply moves_calls; [apply _|apply push_frame_types|apply pop_frame_types|].
  intros m ->%list_elem_of_singleton. apply fee_module_follows, _.
Qed.

(** C8: the types of the ledger are kept: when every substate of the ledger is of
    the kind that its id names, a transaction of any templates and instructions that
    is accepted, be it in full or for its fees only, and whose diff applies leaves
    such a ledger. *)
Theorem accepted_ledger_typed encoded_len cost weight table template_provider verify_claim_proof
    verify_signature error_text loads_as_template max_template_size state_db epoch proofs tx f d
    ledger' :
  ledger_typed state_db →
  execute encoded_len [fee_module encoded_len cost weight table] template_provider
    verify_claim_proof verify_signature error_text loads_as_template max_template_size
    state_db epoch proofs tx = Ok f →
  any_accept (fin_result f) = Some d → apply_diff d state_db = Some ledger' →
  ledger_typed ledger'.
Proof.
  intros Ht He Hd Ha.
  destruct (execute_accepts encoded_len _ template_provider verify_claim_proof verify_signature
    error_text loads_as_template max_template_size (λ _, True) keeps_types
    (λ s, store_ok (store s) ∧ state_store (store s) = state_db)
    (types_calls _ encoded_len cost weight table _) (all_code_fits _)
    ltac:(intros s s' [-> Hk] [? ?]; split; auto) ltac:(by intros s c _ Hc)
    _ _ _ _ f d (conj (store_new_ok _ Ht) eq_refl) He Hd)
    as (s & s' & fs & persist & receipt & [Hok Hst] & _ & Hf & Hg).
  apply (finalize_fees_refunds (λ _, True)) in Hf; [|done].
  rewrite <- Hst in Ha, Ht.
  eapply committed_typed; [exact Hg|exact Ha| |done]. by eapply finalized_typed.
Qed.
End accepted.

(** A transaction on the example ledger, and the ledger it leads to. *)
Definition example_commit (ledger : Ledger) (provider : TemplateAddress → res unit (option LoadedTemplate))
    (main : list Instruction) : option Ledger :=
  match example_execute ledger provider main with
  | Ok f =>
      match any_accept (fin_result f) with
      | Some d => apply_diff d ledger
      | None => None
      end
  | _ => None
  end.
Lemma example_commit_inv ledger provider main :
  bool_decide (is_Some (example_commit ledger provider main)) = true →
  ∃ f d ledger', example_execute ledger provider main = Ok f ∧
    any_accept (fin_result f) = Some d ∧ apply_diff d ledger = Some ledger'.
Proof.
  intros [ledger' H]%bool_decide_eq_true. unfold example_commit in H.
  destruct (example_execute ledger provider main) as [f| |]; [|done..]. exists f.
  destruct (any_accept (fin_result f)) as [d|] eqn:Hd; [|done]. by exists d, ledger'.
Qed.
Lemma example_ledger_typed : ledger_typed Examples.example_ledger.
Proof.
  intros id x Hx. apply elem_of_map_to_list in Hx. revert Hx.
  vm_compute (map_to_list Examples.example_ledger).
  rewrite !elem_of_cons, elem_of_nil. intros Hx. by destruct_or!; simplify_eq.
Qed.
Lemma minting_commits : ∃ f d ledger',
  example_execute Examples.example_ledger (minting_provider (MintFungible 5)) [InsCallFunction 6%N "run" []] = Ok f ∧
  any_accept (fin_result f) = Some d ∧ apply_diff d Examples.example_ledger = Some ledger'.
Proof. apply example_commit_inv. by vm_compute. Qed.

Lemma accepted_ledger_typed_witness :
  ∃ ledger', example_commit Examples.example_ledger (minting_provider (MintFungible 5))
      [InsCallFunction 6%N "run" []] = Some ledger' ∧
    ledger_typed ledger'.
Proof.
  destruct minting_commits as (f & d & ledger' & Hf & Hd & Ha). exists ledger'. split.
  - unfold example_commit. rewrite Hf, Hd. exact Ha.
  - exact (@accepted_ledger_typed i192_panicking ideal_crypto int_cbor example_hashes
      example_engine_hashes hash_iter_elements example_display example_encode
      _ _ _ _ _ _ _ _ _ _ _ _ _ _ _ _ _ example_ledger_typed Hf Hd Ha).
Defined.
