(* ===== verification/DiffApplies.v ===== *)
(** * The diff of an accepted transaction

    [engine/src/runtime/tracker.rs] ([finalize]), [working_state.rs]
    ([generate_substate_diff]): the diff that an accepted transaction yields takes
    down current versions and puts up free addresses, so that it applies to the
    ledger unless it takes an address down twice; and what finalization leaves on
    the ledger is the working view, with the fee refunds written into it. *)
From stdpp Require Import base gmap list strings numbers.
From S2P Require Import Prelude Bor BTree Ids IndexedValue IdProvider Amount Crypto Confidential.
From S2P Require Import ResourceContainer FreezeFlags Proof Bucket Vault AccessRules RuntimeError.
From S2P Require Import Auth Locking Fees Substate Stealth FeeState Scope StateStore Workspace.
From S2P Require Import WorkingState LedgerDiff Runtime RuntimeCalls Engine Processor Examples.
From S2P Require Import Steps EngineRuns Transactions Commit Holdings LedgerTypes.
Open Scope Z_scope.

(** ** What the diff relies on *)
(** The change set names each address once and none that is cached; a cached
    substate has the version of the ledger; a spent UTXO is of the ledger and is
    recorded once; the receipt of the transaction is new. *)
Record diff_ready (h : N) (st : WorkingStateStore) : Prop := {
  ready_new : NoDup (new_substates st).*1;
  ready_disjoint id : is_Some (im_get id (new_substates st)) → loaded_substates st !! id = None;
  ready_loaded id x : loaded_substates st !! id = Some x →
    version <$> state_store st !! id = Some (version x);
  ready_downed : NoDup (downed_utxos st);
  ready_receipt : im_get (SidTransactionReceipt h) (new_substates st) = None;
  ready_ledger : state_store st !! SidTransactionReceipt h = None;
}.
Definition keeps_ready (s s' : WorkingState) : Prop :=
  state_store (store s') = state_store (store s) ∧ transaction_hash s' = transaction_hash s ∧
  ∀ h, diff_ready h (store s) → diff_ready h (store s').
#[export] Instance keeps_ready_preorder : PreOrder keeps_ready.
Proof.
  split; [by intros s|]. intros s1 s2 s3 (? & ? & ?) (? & ? & ?). split_and!; [congruence..|auto].
Qed.

Section store.
Variable h : N.
Implicit Types (st : WorkingStateStore).

Lemma ready_unload st id :
  diff_ready h st → diff_ready h (set_loaded (delete id (loaded_substates st)) st).
Proof.
  intros [H1 H2 H3 H4 H5 H6]. split; simpl; try done.
  - intros id' ?. apply lookup_delete_None. right. auto.
  - intros id' x [_ ?]%lookup_delete_Some. auto.
Qed.
Lemma ready_reload st id x v :
  diff_ready h st → loaded_substates st !! id = Some x →
  diff_ready h (set_loaded (<[id := MkSubstate v (version x)]> (loaded_substates st)) st).
Proof.
  intros [H1 H2 H3 H4 H5 H6] Hx. split; simpl; try done.
  - intros id' Hid. rewrite lookup_insert_ne; [by apply H2|]. intros ->. apply H2 in Hid. congruence.
  - intros id' y [[<- <-]|[_ ?]]%lookup_insert_Some; [exact (H3 _ _ Hx)|auto].
Qed.
(** Write a value at an address that is not cached. *)
Lemma ready_write st id v :
  diff_ready h st → loaded_substates st !! id = None → id ≠ SidTransactionReceipt h →
  diff_ready h (set_new (im_insert id v (new_substates st)) st).
Proof.
  intros [H1 H2 H3 H4 H5 H6] Hl Hr. split; simpl; try done.
  - by apply im_insert_NoDup.
  - intros id'. rewrite im_get_insert. case_decide; [by subst|apply H2].
  - rewrite im_get_insert, decide_False by done. done.
Qed.
Lemma not_receipt st id :
  diff_ready h st → is_Some (im_get id (new_substates st)) ∨ is_Some (loaded_substates st !! id) →
  id ≠ SidTransactionReceipt h.
Proof.
  intros [_ _ H3 _ H5 H6] Hid ->. rewrite H5 in Hid.
  destruct Hid as [[? ?]|[x Hx]]; [done|]. apply H3 in Hx. by rewrite H6 in Hx.
Qed.

Lemma load_and_cache_ready id st r st' :
  load_and_cache id st = (r, st') → diff_ready h st → diff_ready h st'.
Proof.
  unfold load_and_cache, im_contains. intros H Hr. destruct (im_get id _) eqn:Hn; [by simplify_eq|].
  destruct (loaded_substates st !! id) eqn:Hl; [by simplify_eq|].
  destruct (state_store st !! id) as [x|] eqn:Hs; simplify_eq; [|done].
  destruct Hr as [H1 H2 H3 H4 H5 H6]. split; simpl; try done.
  - intros id' Hid. rewrite lookup_insert_ne; [by apply H2|]. intros ->. rewrite Hn in Hid.
    by destruct Hid.
  - intros id' y [[<- <-]|[_ ?]]%lookup_insert_Some; [by rewrite Hs|auto].
Qed.
Lemma on_locks_ready {A : Type} (m : M LockedSubstates LockError A) st r st' :
  on_locks m st = (r, st') → diff_ready h st → diff_ready h st'.
Proof.
  unfold on_locks, map_err, zoom. destruct (m _) as [q l]. intros [= <- <-] [H1 H2 H3 H4 H5 H6]. done.
Qed.
Lemma with_locked_mut_ready {A : Type} lid (f : SubstateId → M SubstateValue RuntimeError A) st r st' :
  with_locked_mut lid f st = (r, st') → diff_ready h st → diff_ready h st'.
Proof.
  unfold with_locked_mut, bind, get_for_mut, borrow_new. intros H Hr.
  destruct (get_lock _ _ _) as [l| |]; [|by simplify_eq..]. set (id := ls_address l) in *.
  destruct (loaded_substates st !! id) as [x|] eqn:Hl; simpl in H.
  - rewrite im_get_insert, decide_True in H by done.
    assert (id ≠ SidTransactionReceipt h) as Hne by (eapply not_receipt; eauto).
    destruct (f _ _) as [q v']. injection H as _ <-.
    apply (ready_write (set_new (im_insert id _ (new_substates st))
      (set_loaded (delete id (loaded_substates st)) st))); [|apply lookup_delete_eq|done].
    apply (ready_write (set_loaded _ st)); [by apply ready_unload|apply lookup_delete_eq|done].
  - destruct (im_get id (new_substates st)) as [v|] eqn:Hn; [|by simplify_eq].
    assert (id ≠ SidTransactionReceipt h) as Hne by (eapply not_receipt; eauto).
    destruct (f _ _) as [q v']. simplify_eq. by apply ready_write.
Qed.
Lemma mutate_ready {A : Type} lid (f : SubstateId → M SubstateValue RuntimeError (option A)) st r st' :
  mutate_locked_substate_with lid f st = (r, st') → diff_ready h st → diff_ready h st'.
Proof.
  unfold mutate_locked_substate_with, borrow_new. intros H Hr.
  destruct (get_lock _ _ _) as [l| |]; [|by simplify_eq..]. set (id := ls_address l) in *.
  destruct (loaded_substates st !! id) as [x|] eqn:Hl.
  - assert (id ≠ SidTransactionReceipt h) as Hne by (eapply not_receipt; eauto).
    destruct (f id _) as [[[a|]| |] v]; simplify_eq; try by apply ready_unload.
    + apply (ready_write (set_loaded (delete id (loaded_substates st)) st));
        [by apply ready_unload|apply lookup_delete_eq|done].
    + by apply ready_reload.
  - destruct (im_get id (new_substates st)) as [v|] eqn:Hn; [|by simplify_eq].
    assert (id ≠ SidTransactionReceipt h) as Hne by (eapply not_receipt; eauto).
    destruct (f _ _) as [q v']. simplify_eq. by apply ready_write.
Qed.
Lemma store_insert_ready id v st r st' :
  is_transaction_receipt id = false →
  store_insert id v st = (r, st') → diff_ready h st → diff_ready h st'.
Proof.
  unfold store_insert, exists_. intros Hid H Hr. destruct (_ || _) eqn:He; [by simplify_eq|].
  simplify_eq. bool_to_prop. apply ready_write; [done| |by intros ->].
  by destruct (loaded_substates st !! id).
Qed.
Lemma down_utxo_ready lid st r st' :
  down_utxo lid st = (r, st') → diff_ready h st → diff_ready h st'.
Proof.
  unfold down_utxo. intros H Hr. pose proof Hr as [H1 H2 H3 H4 H5 H6].
  destruct (get_lock _ _ _) as [l| |]; [|by simplify_eq..].
  destruct (ls_address l) as [| | | | | | | |a]; try by simplify_eq.
  destruct (im_get (SidUtxo a) (new_substates st)) as [v|] eqn:Hn.
  - simplify_eq. split; simpl; try done.
    + by apply im_remove_NoDup.
    + intros id. rewrite im_get_remove by done. case_decide; [by intros [? ?]|apply H2].
    + rewrite im_get_remove by done. by case_decide.
  - destruct (loaded_substates st !! SidUtxo a) as [x|] eqn:Hl; [|by simplify_eq]. simplify_eq.
    destruct (ready_unload st (SidUtxo a) Hr) as [? ? ? _ ? ?]. split; try done.
    simpl. by apply is_add_NoDup.
Qed.
Lemma quiet_ready {A : Type} (m : M WorkingStateStore RuntimeError A) st r st' :
  quiet m → m st = (r, st') → diff_ready h st → diff_ready h st'.
Proof.
  intros Hq H Hr. destruct Hq as [id flag|lid|a|lid|id v Hv Ht Hid|B lid f Hf|B lid f Hf].
  - unfold store_try_lock, bind, ret in H. destruct (negb _); [by simplify_eq|].
    destruct (on_locks _ st) as [q st1] eqn:Hl. eapply on_locks_ready in Hl; [|exact Hr].
    destruct q; [|by simplify_eq..]. destruct (load_and_cache id st1) as [q st2] eqn:Hc.
    eapply load_and_cache_ready in Hc; [|exact Hl]. destruct q; by simplify_eq.
  - by eapply on_locks_ready.
  - unfold load_and_cache_component, bind, get, lift in H.
    destruct (load_and_cache _ st) as [q st1] eqn:Hc. eapply load_and_cache_ready in Hc; [|exact Hr].
    destruct q; by simplify_eq.
  - by eapply down_utxo_ready.
  - by eapply store_insert_ready.
  - by eapply with_locked_mut_ready.
  - by eapply mutate_ready.
Qed.
End store.

Lemma on_store_ready {A : Type} (m : M WorkingStateStore RuntimeError A) :
  preserves state_store m → (∀ h st r st', m st = (r, st') → diff_ready h st → diff_ready h st') →
  follows keeps_ready (on_store m).
Proof.
  intros Hl Hr s r s'. unfold on_store, zoom. specialize (Hl (store s)).
  destruct (m (store s)) as [q st] eqn:Hq. intros [= <- <-] _. split_and!; [done..|].
  intros h. exact (Hr h _ _ _ Hq).
Qed.
#[export] Instance keeps_ready_steps : StepLaws keeps_ready.
Proof.
  split; try (intros; by split_and!).
  - apply _.
  - intros A m Hq. apply on_store_ready; [by apply quiet_ledger|]. intros h st r st'. by apply quiet_ready.
  - intros c s. unfold set_current_call_scope. by destruct (call_frames s).
Qed.
#[export] Instance keeps_ready_moves : MoveLaws keeps_ready.
Proof.
  split; try (intros; by split_and!).
  - apply _.
  - intros A lid f _. apply on_store_ready; [apply with_locked_mut_ledger|].
    intros h st r st'. apply with_locked_mut_ready.
  - intros id v _ Hid. apply on_store_ready; [apply store_insert_ledger|].
    intros h st r st'. by apply store_insert_ready.
Qed.
Lemma push_frame_ready f n : follows keeps_ready (push_frame f n).
Proof. intros s r s' H _. unfold push_frame in H. case_match; by simplify_eq. Qed.
Lemma pop_frame_ready : follows keeps_ready pop_frame.
Proof.
  intros s r s' H Hp. unfold pop_frame in H. destruct (call_frames s) as [|f fs]; [by simplify_eq|].
  unfold bind at 1, put in H. cbv beta iota in H.
  transitivity (set_frames fs (initial_call_scope s) s); [by split_and!|].
  refine (follows_apply _ _ _ _ _ H Hp _). follow.
Qed.

(** ** The change set at finalization *)
Section finalization.
Context `{Ii : !I192} `{Ic : !Crypto}.

Lemma refunds_keys P persist persist' : rtc (refund P) persist persist' → persist'.*1 = persist.*1.
Proof.
  induction 1 as [|p1 p2 p3 Hr _ ->]; [done|]. destruct Hr as [p v vault out q c Hv].
  rewrite im_insert_keys, decide_True; [done|].
  apply im_get_Some_elem in Hv. by apply (list_elem_of_fmap_2 fst) in Hv.
Qed.
Lemma finalize_fees_hash h ev lg s receipt s' :
  finalize_fees h ev lg s = (Ok receipt, s') → receipt_transaction_hash receipt = h.
Proof.
  destruct s as [fs persist]. unfold finalize_fees. intros H. simpl in H.
  apply bind_Ok in H as (n & s1 & [= _ <-] & H). apply bind_Ok in H as (c0 & s2 & [= _ <-] & H).
  destruct (iter_mut collect_non_refundable _ _) as [r1 [nr acc1]].
  destruct (if 0 <? remaining_fees acc1 then _ else _) as [r2 [rf acc2]].
  do 8 (apply bind_Ok in H as (? & ? & _ & H)). by injection H as <-.
Qed.

(** The diff in terms of the ledger and the change set. *)
Lemma diff_of_ready st s' receipt persist ws d :
  diff_ready (receipt_transaction_hash receipt) st → persist.*1 = (new_substates st).*1 →
  state_store (store s') = state_store st → loaded_substates (store s') = loaded_substates st →
  generate_substate_diff s' receipt persist (downed_utxos st) ws = Ok d →
  d = MkSubstateDiff
        (diff_ups (state_store st) persist (receipt_id receipt) (MkSubstate (SvTransactionReceipt receipt) 0))
        (diff_downs (state_store st) persist (downed_utxos st)) ws ∧
  ∀ a, a ∈ downed_utxos st → is_Some (state_store st !! SidUtxo a).
Proof.
  intros Hr Hk Hst Hl H. unfold generate_substate_diff in H. simpl in H.
  apply res_bind_Ok in H as (d1 & H1 & H). apply res_bind_Ok in H as (d2 & H2 & [= <-]).
  apply diff_substates_exact in H1 as ->.
  2: { intros id. rewrite Hl, Hk. intros Hid. apply (ready_disjoint _ _ Hr).
       apply not_eq_None_Some. intros Hn%im_get_None_keys. by apply Hn. }
  apply diff_downed_exact in H2 as [-> Hsp]; [|rewrite Hl, Hst; apply (ready_loaded _ _ Hr)].
  rewrite Hst in *. simpl in *. split; [|done]. unfold diff_downs. by rewrite omap_app.
Qed.
End finalization.

(** ** Accepted transactions *)
Section accepted.
Context `{Ii : !I192} `{Ic : !Crypto} `{Cb : !Cbor} `{Ih : !IdHashes} `{Eh : !EngineHashes}.
Context `{Hi : !HashIter} `{Dp : !Display} `{Ce : !CborEncode}.

Lemma ready_calls fits encoded_len cost weight table functions_of signer :
  CallLaws encoded_len [fee_module encoded_len cost weight table] functions_of signer fits
    keeps_ready.
Proof.
  apply moves_calls; [apply _|apply push_frame_ready|apply pop_frame_ready|].
  intros m ->%list_elem_of_singleton. apply fee_module_follows, _.
Qed.
Lemma store_new_ready h (ledger : Ledger) :
  ledger !! SidTransactionReceipt h = None → diff_ready h (store_new ledger).
Proof. intros Hr. split; simpl; try done; constructor. Qed.

(** C19: the diff of an accepted transaction, of any templates and instructions, be it
    accepted in full or for its fees only, on a ledger that has no receipt for it yet.
    Every version it takes down is the current one of the ledger.  Every substate it
    puts up replaces one that it takes down, with the next version, or is new, with
    version zero; the receipt is among them.  So the diff applies to the ledger if
    and only if it takes no address down twice.  It does apply if it takes down no
    UTXO; only a UTXO that is both rewritten and spent could be taken down twice. *)
Theorem accepted_diff_applies encoded_len cost weight table template_provider verify_claim_proof
    verify_signature error_text loads_as_template max_template_size state_db epoch proofs tx f d :
  state_db !! SidTransactionReceipt (tx_id tx) = None →
  execute encoded_len [fee_module encoded_len cost weight table] template_provider
    verify_claim_proof verify_signature error_text loads_as_template max_template_size
    state_db epoch proofs tx = Ok f →
  any_accept (fin_result f) = Some d →
  (∀ id v, (id, v) ∈ down_substates d → version <$> state_db !! id = Some v) ∧
  (∀ id x, (id, x) ∈ up_substates d →
     match state_db !! id with
     | Some old => id ∈ (down_substates d).*1 ∧ version x = version old + 1
     | None => version x = 0
     end) ∧
  (∃ receipt, (SidTransactionReceipt (tx_id tx), MkSubstate (SvTransactionReceipt receipt) 0)
     ∈ up_substates d) ∧
  (is_Some (apply_diff d state_db) ↔ NoDup (down_substates d).*1) ∧
  ((∀ a, SidUtxo a ∉ (down_substates d).*1) → is_Some (apply_diff d state_db)).
Proof.
  intros Hrec He Hd.
  destruct (execute_accepts encoded_len _ template_provider verify_claim_proof verify_signature
    error_text loads_as_template max_template_size (λ _, True) keeps_ready
    (λ s, diff_ready (tx_id tx) (store s) ∧ state_store (store s) = state_db ∧
          transaction_hash s = tx_id tx)
    (ready_calls _ encoded_len cost weight table _) (all_code_fits _)
    ltac:(intros s s' (-> & -> & Hk) (? & ? & ?); split_and!; auto) ltac:(by intros s c _ Hc)
    _ _ _ _ f d (conj (store_new_ready _ _ Hrec) (conj eq_refl eq_refl)) He Hd)
    as (s & s' & fs & persist & receipt & (Hr & Hst & Hh) & [Hs1 Hs2] & Hf & Hg).
  pose proof (finalize_fees_hash _ _ _ _ _ _ Hf) as Hhash. rewrite Hh in Hhash.
  apply (finalize_fees_refunds (λ _, True)) in Hf; [|done]. apply refunds_keys in Hf.
  rewrite <- Hhash in Hr. destruct (diff_of_ready _ _ _ _ _ _ Hr Hf Hs1 Hs2 Hg) as [-> Hspent].
  rewrite Hst in *. simpl. unfold receipt_id. rewrite Hhash in *.
  assert (NoDup persist.*1) as Hnd by (rewrite Hf; apply Hr).
  assert (im_get (SidTransactionReceipt (tx_id tx)) persist = None) as Hrn.
  { apply im_get_None_keys. rewrite Hf. apply im_get_None_keys, Hr. }
  assert (NoDup (diff_downs state_db persist (downed_utxos (store s))).*1 →
    is_Some (apply_diff (MkSubstateDiff (diff_ups state_db persist (SidTransactionReceipt (tx_id tx))
      (MkSubstate (SvTransactionReceipt receipt) 0)) (diff_downs state_db persist (downed_utxos (store s)))
      (validator_fee_withdrawals s)) state_db)) as Happ.
  { intros Hdn. destruct (apply_diff_lookup state_db persist (downed_utxos (store s))
      (SidTransactionReceipt (tx_id tx)) (MkSubstate (SvTransactionReceipt receipt) 0) Hnd Hrec Hrn
      (validator_fee_withdrawals s) Hdn Hspent) as (ledger' & -> & _). by eexists. }
  split_and!; [|..|split; [|exact Happ]|].
  - apply diff_downs_version.
  - intros id x Hx. pose proof (diff_ups_version _ _ _ _ Hrec id x Hx) as [Hv1 Hv2].
    destruct (state_db !! id) as [old|] eqn:Hold.
    + split; [|done]. apply elem_of_down_keys. split; [|by eauto]. apply elem_of_app. left.
      destruct (elem_of_diff_ups_keys state_db persist (SidTransactionReceipt (tx_id tx))
        (MkSubstate (SvTransactionReceipt receipt) 0) Hnd id) as (v & y & Hn & _).
      { intros ->. congruence. }
      { by apply (list_elem_of_fmap_2 fst) in Hx. }
      apply im_get_Some_elem in Hn. by apply (list_elem_of_fmap_2 fst) in Hn.
    + destruct (decide (id = SidTransactionReceipt (tx_id tx))) as [->|]; [|by apply Hv2].
      apply elem_of_app in Hx as [Hx|[= ->]%list_elem_of_singleton]; [|done].
      eapply (list_elem_of_fmap_2 fst), elem_of_sublist in Hx; [|apply up_keys_sublist].
      by apply im_get_None_keys in Hrn.
  - exists receipt. apply elem_of_app. right. by apply list_elem_of_singleton.
  - unfold apply_diff. simpl. destruct (fold_opt apply_down _ _) as [mid|] eqn:Hm; [|by intros []].
    intros _. by apply apply_downs_NoDup in Hm as [? _].
  - intros Hu. apply Happ. eapply sublist_NoDup; [|apply down_of_keys].
    apply list.NoDup_app. split_and!; [done|..].
    + intros id _ (a & -> & Ha)%list_elem_of_fmap. apply (Hu a), elem_of_down_keys.
      split; [|by apply Hspent]. apply elem_of_app. right. by apply list_elem_of_fmap_2.
    + apply NoDup_fmap_2; [by intros ?? [=]|apply Hr].
Qed.
End accepted.

Lemma accepted_diff_applies_witness :
  ∃ f d, example_execute Examples.example_ledger (minting_provider (MintFungible 5))
      [InsCallFunction 6%N "run" []] = Ok f ∧
    any_accept (fin_result f) = Some d ∧ down_substates d ≠ [] ∧
    is_Some (apply_diff d Examples.example_ledger).
Proof.
  destruct minting_commits as (f & d & ledger' & Hf & Hd & Ha). exists f, d.
  unshelve epose proof (@accepted_diff_applies i192_panicking ideal_crypto int_cbor example_hashes
      example_engine_hashes hash_iter_elements example_display example_encode
      _ _ _ _ _ _ _ _ _ _ _ _ _ _ f d _ Hf Hd) as (_ & _ & _ & Happ & _).
  { vm_compute. reflexivity. }
  split; [exact Hf|]. split; [exact Hd|]. split.
  - intros Hnil. revert Hf Hd Hnil. vm_compute. intros [= <-] [= <-] [=].
  - apply Happ. apply Happ. rewrite Ha. by eexists.
Defined.

(** ** Finalization *)
Section finalize.
Context `{Ii : !I192} `{Ic : !Crypto}.

Lemma taken_store_wf st : store_wf st → store_wf (set_downed [] (set_new [] st)).
Proof.
  intros [H1 H2 H3 H4 H5 H6 H7]. split; simpl; try done; [apply NoDup_nil_2|..].
  all: intros a Ha; by apply elem_of_nil in Ha || destruct Ha.
Qed.
Lemma wf_diff_ready h st :
  store_wf st → NoDup (downed_utxos st) → im_get (SidTransactionReceipt h) (new_substates st) = None →
  state_store st !! SidTransactionReceipt h = None → diff_ready h st.
Proof.
  intros [H1 H2 H3 H4 H5 H6 H7] Hd Hn Hs. split; try done. intros id x Hx. by rewrite (H4 _ _ Hx).
Qed.
(** The diff can be generated. *)
Lemma generate_diff_total s' receipt st persist ws :
  store_wf st → persist.*1 = (new_substates st).*1 →
  store s' = set_downed [] (set_new [] st) →
  (∀ id x, state_store st !! id = Some x → 0 ≤ version x < U32_MAX) →
  ∃ d, generate_substate_diff s' receipt persist (downed_utxos st) ws = Ok d ∧ fee_withdrawals d = ws.
Proof.
  intros Hwf Hk Hs Hver. unfold generate_substate_diff. rewrite Hs. simpl.
  rewrite fold_diff_substates; [|by apply taken_store_wf|].
  - simpl. rewrite fold_diff_downed; [|by apply taken_store_wf|].
    + simpl. by eexists.
    + apply list.Forall_forall. intros a Ha. by apply (wf_downed st Hwf) in Ha as (_ & _ & ? & _).
  - apply list.Forall_forall. intros [id v] _ x. apply Hver.
Qed.

(** C20: what finalization leaves on the ledger.  From a working state with a
    well-formed store, [StateTracker::finalize], when it succeeds, accepts: the diff it
    returns applies to the ledger the transaction ran on.  The new ledger holds the
    working view with the fee refunds deposited into the vaults of the change set,
    except for emptied validator fee pools, which are gone, and the receipt, which is
    new; a rewritten substate has the next version, a new one version zero, and the
    others keep theirs.  It is assumed that no version is the maximum, and that there
    is no substate at the address of the receipt. *)
Theorem finalize_diff_is_view s t f t' :
  let st := store s in
  let rid := SidTransactionReceipt (transaction_hash s) in
  store_wf st → NoDup (downed_utxos st) →
  (∀ id x, state_store st !! id = Some x → 0 ≤ version x < U32_MAX) →
  state_store st !! rid = None → im_get rid (new_substates st) = None →
  working_state t = set_store (set_downed [] (set_new [] st)) s →
  tracker_finalize (new_substates st) (downed_utxos st) t = (Ok f, t') →
  ∃ d persist receipt ledger',
    fin_result f = Accept d ∧ rtc (refund (λ _, True)) (new_substates st) persist ∧
    fee_withdrawals d = validator_fee_withdrawals s ∧
    apply_diff d (state_store st) = Some ledger' ∧
    ledger' !! rid = Some (MkSubstate (SvTransactionReceipt receipt) 0) ∧
    (∀ id, id ≠ rid → substate_value <$> ledger' !! id = committed (set_new persist st) id) ∧
    (∀ id x, id ≠ rid → ledger' !! id = Some x →
       match state_store st !! id with
       | Some old => version x = if im_contains id (new_substates st) then version old + 1 else version old
       | None => version x = 0
       end).
Proof.
  intros st rid Hwf Hnd Hver Hrs Hrn Ht H. unfold tracker_finalize in H. rewrite Ht in H. simpl in H.
  destruct (0 <? _)%nat; [done|].
  destruct (finalize_fees _ _ _ _) as [r [fs persist]] eqn:Hf. destruct r as [receipt| |]; [|done..].
  pose proof (finalize_fees_hash _ _ _ _ _ _ Hf) as Hhash.
  apply (finalize_fees_refunds (λ _, True)) in Hf; [|done]. pose proof (refunds_keys _ _ _ Hf) as Hk.
  simpl in H. change (new_substates (store s)) with (new_substates st) in Hk.
  set (s' := set_fee_state fs _) in H.
  destruct (generate_diff_total s' receipt st persist (validator_fee_withdrawals s) Hwf Hk eq_refl Hver)
    as (d & Hg & Hws). simpl in H. rewrite Hg in H. simpl in H. injection H as <- _.
  assert (diff_ready (transaction_hash s) st) as Hready by by apply wf_diff_ready.
  rewrite <- Hhash in Hready. destruct (diff_of_ready st s' _ _ _ _ Hready Hk eq_refl eq_refl Hg) as [-> _].
  pose proof (store_downs_NoDup st persist Hwf Hnd Hk) as Hdn.
  assert (receipt_id receipt = rid) as -> by (unfold receipt_id; by rewrite Hhash).
  destruct (apply_diff_lookup (state_store st) persist (downed_utxos st) rid
    (MkSubstate (SvTransactionReceipt receipt) 0)) with (ws := validator_fee_withdrawals s)
    as (ledger' & Happ & Hrec & Hlook).
  { rewrite Hk. apply (wf_new st Hwf). } { done. }
  { apply im_get_None_keys. rewrite Hk. by apply im_get_None_keys. } { done. }
  { intros a Ha. by apply (wf_downed st Hwf) in Ha as (_ & _ & ? & _). }
  eexists _, persist, receipt, ledger'. split_and!; [reflexivity|exact Hf|done|exact Happ|done|..].
  - intros id Hid. rewrite Hlook by done. by apply after_diff_view.
  - intros id x Hid. rewrite Hlook by done. unfold after_diff, up_of, im_contains. simpl.
    destruct (im_get id persist) as [v|] eqn:Hn.
    + assert (is_Some (im_get id (new_substates st))) as [v' Hv'] by (apply (same_keys st persist Hk); eauto).
      rewrite Hv'. destruct (state_store st !! id) as [old|]; simpl; [|by intros [= <-]].
      destruct (is_empty_pool v); [done|]. by intros [= <-].
    + assert (im_get id (new_substates st) = None) as Hn'.
      { apply im_get_None_keys. rewrite <- Hk. by apply im_get_None_keys. }
      rewrite Hn'. destruct id; try (intros ->; done). case_match; [done|]. by intros ->.
Qed.
End finalize.

(** A ledger with a vault that a transaction has rewritten. *)
Definition stealth_vault (balance : Z) : SubstateValue :=
  SvVault (MkVault (ResourceContainer.Stealth XTR balance 0) FreezeFlags.flags_empty).
Definition vault_ledger : Ledger := {[ SidVault 1 := MkSubstate (stealth_vault 5) 3 ]}.
Definition vault_state : WorkingState :=
  set_store (set_new (im_insert (SidVault 1) (stealth_vault 2) []) (store_new vault_ledger))
    (state_new ∅ None scope_new 9).
Definition vault_tracker : StateTracker :=
  MkStateTracker (set_store (set_downed [] (set_new [] (store vault_state))) vault_state) None.

Lemma vault_store_wf : store_wf (store vault_state).
Proof.
  apply (set_new_wf (store_new vault_ledger)); try done. apply store_new_wf. unfold vault_ledger.
  intros id x [<- <-]%lookup_singleton_Some. done.
Qed.

Lemma finalize_diff_is_view_witness :
  ∃ f t' d ledger', @tracker_finalize i192_panicking [(SidVault 1, stealth_vault 2)] [] vault_tracker
      = (Ok f, t') ∧
    fin_result f = Accept d ∧ apply_diff d vault_ledger = Some ledger' ∧
    is_Some (ledger' !! SidTransactionReceipt 9) ∧
    (∀ x, ledger' !! SidVault 1 = Some x → version x = 4).
Proof.
  destruct (@tracker_finalize i192_panicking [(SidVault 1, stealth_vault 2)] [] vault_tracker)
    as [[f| |] t'] eqn:Hf; [|vm_compute in Hf; discriminate Hf..].
  destruct (@finalize_diff_is_view i192_panicking vault_state vault_tracker f t')
    as (d & persist & receipt & ledger' & Hd & _ & _ & Ha & Hr & _ & Hv).
  - exact vault_store_wf.
  - apply NoDup_nil_2.
  - simpl. unfold vault_ledger. intros id x [_ <-]%lookup_singleton_Some. vm_compute. done.
  - reflexivity.
  - reflexivity.
  - reflexivity.
  - exact Hf.
  - exists f, t', d, ledger'. split; [reflexivity|]. split; [exact Hd|]. split; [exact Ha|].
    split; [by eexists|]. intros x Hx. exact (Hv (SidVault 1) x ltac:(done) Hx).
Defined.
