(* ===== verification/Conservation.v ===== *)
(** * Conservation of holdings

    [engine/src/runtime/impl.rs]: whatever a template does, the calls that move
    funds take out of one container what they put into another.  Only minting
    creates, and it raises what the substates vouch for first; the laws for it and
    for burning are those of the measure. *)
From stdpp Require Import base gmap list strings numbers.
From S2P Require Import Prelude Bor BTree Ids IndexedValue IdProvider Amount Crypto Confidential.
From S2P Require Import ResourceContainer FreezeFlags Proof Bucket Vault AccessRules RuntimeError.
From S2P Require Import Auth Locking Fees Substate Stealth FeeState Scope StateStore Workspace.
From S2P Require Import WorkingState LedgerDiff Runtime RuntimeCalls Engine Processor Steps.
From S2P Require Import EngineRuns Transactions Commit Holdings LedgerTypes.
Open Scope Z_scope.

#[local] Notation "'W'" := (M WorkingState RuntimeError) (only parsing).

(** ** Triples: what a call does from the states of a kind, with [X] for errors *)
Definition triple {E A : Type} (P : WorkingState → Prop) (m : M WorkingState E A)
    (Q : A → WorkingState → Prop) (X : WorkingState → Prop) : Prop :=
  ∀ s r s', P s → m s = (r, s') →
  match r with Ok a => Q a s' | Err _ => X s' | Panic => True end.

Lemma panic_or {E A : Type} (r : res E A) : r = Panic ∨ r ≠ Panic.
Proof. destruct r; [by right..|by left]. Qed.

Section triples.
Context {E : Type}.
Implicit Types P X : WorkingState → Prop.

Lemma triple_bind {A B : Type} P (m : M WorkingState E A) Q X (k : A → M WorkingState E B) Q' :
  triple P m Q X → (∀ a, triple (Q a) (k a) Q' X) → triple P (bind m k) Q' X.
Proof.
  intros Hm Hk s r s' Hs. unfold bind. destruct (m s) as [q s1] eqn:Hq.
  specialize (Hm s q s1 Hs Hq). destruct q as [a|e|]; [|by intros [= <- <-]..]. by apply Hk.
Qed.
Lemma triple_pre {A : Type} P P' (m : M WorkingState E A) Q X :
  (∀ s, P s → P' s) → triple P' m Q X → triple P m Q X.
Proof. intros HP Hm s r s' Hs. by apply Hm, HP. Qed.
Lemma triple_post {A : Type} P (m : M WorkingState E A) Q Q' X :
  (∀ a s, Q' a s → Q a s) → triple P m Q' X → triple P m Q X.
Proof. intros HQ Hm s r s' Hs H. specialize (Hm s r s' Hs H). destruct r; auto. Qed.
Lemma triple_exc {A : Type} P (m : M WorkingState E A) Q X X' :
  (∀ s, X' s → X s) → triple P m Q X' → triple P m Q X.
Proof. intros HX Hm s r s' Hs H. specialize (Hm s r s' Hs H). destruct r; auto. Qed.
Lemma triple_pure {A : Type} (φ : Prop) P (m : M WorkingState E A) Q X :
  (φ → triple P m Q X) → triple (λ s, φ ∧ P s) m Q X.
Proof. intros Hm s r s' [Hφ Hs]. by apply Hm. Qed.
Lemma triple_ret {A : Type} P (a : A) Q X : (∀ s, P s → Q a s) → triple P (@ret _ E A a) Q X.
Proof. intros HQ s r s' Hs [= <- <-]. by apply HQ. Qed.
Lemma triple_throw {A : Type} P (e : E) Q X : (∀ s, P s → X s) → triple P (@throw _ E A e) Q X.
Proof. intros HQ s r s' Hs [= <- <-]. by apply HQ. Qed.
Lemma triple_lift_bind {A B : Type} P (x : res E A) (k : A → M WorkingState E B) Q X :
  (∀ s, P s → X s) → (∀ a, x = Ok a → triple P (k a) Q X) → triple P (bind (lift x) k) Q X.
Proof.
  intros HX Hk. destruct x as [a|e|]; [by apply Hk| |].
  - intros s r s' Hs [= <- <-]. by apply HX.
  - by intros s r s' Hs [= <- <-].
Qed.
Lemma triple_get {B : Type} P (k : WorkingState → M WorkingState E B) Q X :
  (∀ s0, P s0 → triple P (k s0) Q X) → triple P (bind get k) Q X.
Proof. intros Hk s r s' Hs H. by apply (Hk s Hs s). Qed.
Lemma triple_get_eq {B : Type} P (k : WorkingState → M WorkingState E B) Q X :
  (∀ s0, P s0 → triple (λ s, s = s0) (k s0) Q X) → triple P (bind get k) Q X.
Proof. intros Hk s r s' Hs H. by apply (Hk s Hs s). Qed.
(** A fact that the call does not touch can be framed. *)
Lemma triple_frame {A B : Type} (f : WorkingState → B) (φ : B → Prop) P (m : M WorkingState E A) Q X :
  follows (λ s s', f s' = f s) m → triple P m Q X →
  triple (λ s, φ (f s) ∧ P s) m (λ a s, φ (f s) ∧ Q a s) X.
Proof.
  intros Hf Hm s r s' [Hφ Hs] H. pose proof (Hm s r s' Hs H) as Hr. destruct r as [a| |]; [|done..].
  split; [|done]. by rewrite (Hf s (Ok a) s' H ltac:(done)).
Qed.
Lemma triple_guard {B : Type} P (b : bool) (e : E) (k : unit → M WorkingState E B) Q X :
  (∀ s, P s → X s) → (b = false → triple P (k tt) Q X) → triple P (bind (guard_err b e) k) Q X.
Proof.
  intros HX Hk. destruct b; [|by apply Hk]. intros s r s' Hs [= <- <-]. by apply HX.
Qed.
Lemma triple_map_err {F A : Type} P (f : F → E) (m : M WorkingState F A) Q X :
  triple P m Q X → triple P (map_err f m) Q X.
Proof.
  intros Hm s r s' Hs. unfold map_err. destruct (m s) as [q s1] eqn:Hq. intros [= <- <-].
  specialize (Hm s q s1 Hs Hq). by destruct q.
Qed.
Lemma triple_at {A : Type} P (m : WorkingState → M WorkingState E A) Q X :
  (∀ s0, triple P (m s0) Q X) → triple P (λ s, m s s) Q X.
Proof. intros Hm s r s' Hs H. by eapply Hm. Qed.
Lemma triple_at_known {A : Type} P (m : WorkingState → M WorkingState E A) Q X :
  (∀ s0, P s0 → triple P (m s0) Q X) → triple P (λ s, m s s) Q X.
Proof. intros Hm s r s' Hs H. by eapply Hm. Qed.
End triples.

Section conservation.
Context `{Ii : !I192} `{Ic : !Crypto} `{Me : !Measure} `{Ml : !MeasureLaws Me}.

Lemma holding_le L h h' s : holding L h s → 0 ≤ h' ≤ h → holding L h' s.
Proof. intros (HL & Hok & Hf) Hh. split_and!; [done..|]. by eapply funds_hand_le. Qed.
Lemma holding_nonneg L h s : holding L h s → 0 ≤ h.
Proof. intros (_ & _ & Hf). by apply Hf. Qed.

Lemma triple_follows {E A : Type} L h (m : M WorkingState E A) X :
  follows conserves m → (∀ s, holding L h s → X s) → triple (holding L h) m (λ _, holding L h) X.
Proof.
  intros Hm HX s r s' Hs H. destruct r as [a|e|]; [|apply HX|done]; (eapply Hm; [exact H|done|exact Hs]).
Qed.
Lemma follows_triple {E A : Type} (m : M WorkingState E A) :
  (∀ L h, 0 ≤ h → triple (holding L h) m (λ _, holding L h) (holding L h)) → follows conserves m.
Proof.
  intros Hm s r s' H Hp L h Hs. specialize (Hm L h (holding_nonneg L h s Hs) s r s' Hs H).
  by destruct r.
Qed.

(** ** Reading a resource through its lock *)
Lemma known_lock L h s l : holding L h s → l ∈ L → lock_known l (locked_substates (store s)).
Proof. intros ([HL _] & _ & _) Hl. rewrite list.Forall_forall in HL. by apply HL. Qed.
Lemma read_resource L h s l a res :
  holding L h s → l ∈ L → ls_address l = SidResource a → get_resource s l = Ok res →
  ∃ res0, all_values (store s) !! SidResource a = Some (SvResource res0) ∧
    keeps_value (SvResource res0) (SvResource res).
Proof.
  intros Hs Hl Ha Hg. destruct (known_lock L h s l Hs Hl) as [_ Hk]. destruct Hs as (_ & Hok & _).
  unfold get_resource, get_as, StateStore.get_locked_substate in Hg.
  destruct (get_lock _ _ _) as [lock| |] eqn:Hlock; simpl in Hg; [|done..].
  apply get_lock_id, Hk in Hlock. rewrite Hlock, Ha in Hg.
  destruct (get_ref _ _) as [v| |] eqn:Hv; simpl in Hg; [|done..].
  destruct (get_ref_keeps _ _ _ Hok Hv) as (v0 & Hv0 & Hkv).
  destruct v as [|x| | | | | | |]; simpl in Hg; try done. injection Hg as ->.
  destruct v0 as [|x0| | | | | | |]; simpl in Hkv; try (by destruct Hkv);
    try (by destruct Hkv as (? & ? & _)). by exists x0.
Qed.
Lemma holding_backed L h s : holding L h s → ∃ n, backed (all_values (store s)) n.
Proof. intros (_ & _ & Hf). destruct (funds_backed _ _ _ _ Hf) as (n & Hn & _). by exists n. Qed.

(** ** Operations on one container *)
(** From a container and the amount [win] in hand, [m] leaves a container and the
    amount [wout] in hand. *)
Definition moves {S E A : Type} (at_ : S → ResourceContainer) (win : Z) (m : M S E A)
    (φ : A → Prop) (wout : A → Z) : Prop :=
  ∀ c r c', sound (at_ c) → worth (at_ c) + win ≤ cap → m c = (r, c') → r ≠ Panic →
  sound (at_ c') ∧
  match r with
  | Ok a => φ a ∧ 0 ≤ wout a ∧ worth (at_ c') + wout a ≤ worth (at_ c) + win
  | _ => worth (at_ c') ≤ worth (at_ c) + win
  end.

Lemma moves_take m : container_take m → moves id 0 m sound worth.
Proof.
  intros Hm c r c' Hs Hc H Hp. unfold id in *. eapply take_law in H as [Hs' Hr]; [|done..|lia|done].
 split; [done|]. destruct r as [a| |]; [|lia..]. destruct Hr.
  split_and!; [done|by apply worth_nonneg|lia].
Qed.
Lemma moves_deposit d : sound d → moves id (worth d) (deposit d) (λ _, True) (λ _, 0).
Proof.
  intros Hd c r c' Hs Hc H Hp. unfold id in *. eapply deposit_law in H as [Hs' Hr]; [|done..]. split; [done|]. destruct r; [|lia..]. split_and!; [done|lia..].
Qed.
Lemma moves_lock m : container_lock m → moves id 0 m sound (λ _, 0).
Proof.
  intros Hm c r c' Hs Hc H Hp. unfold id in *. eapply lock_law in H as (Hs' & Hr & Ho); [|done..|lia|done].
 split; [done|]. destruct r as [a| |]; [|lia..]. split_and!; [by apply Ho|lia..].
Qed.
Lemma moves_unlock out : sound out → moves id 0 (unlock out) (λ _, True) (λ _, 0).
Proof.
  intros Ho c r c' Hs Hc H Hp. unfold id in *. eapply unlock_law in H as [Hs' Hr]; [|done..|lia|done].
 split; [done|]. destruct r; [|lia..]. split_and!; [done|lia..].
Qed.
Lemma moves_vault {E A : Type} win (m : M ResourceContainer E A) φ wout :
  moves id win m φ wout → moves vault_container win (in_vault m) φ wout.
Proof.
  intros Hm c r c' Hs Hc H Hp. unfold in_vault, zoom in H.
  destruct (m (vault_container c)) as [q d] eqn:Hq. injection H as <- <-. exact (Hm _ _ _ Hs Hc Hq Hp).
Qed.
Lemma moves_bucket {E A : Type} win (m : M ResourceContainer E A) φ wout :
  moves id win m φ wout → moves bucket_container win (in_bucket m) φ wout.
Proof.
  intros Hm c r c' Hs Hc H Hp. unfold in_bucket, zoom in H.
  destruct (m (bucket_container c)) as [q d] eqn:Hq. injection H as <- <-. exact (Hm _ _ _ Hs Hc Hq Hp).
Qed.
Lemma moves_map_err {S E F A : Type} (at_ : S → ResourceContainer) win (f : E → F) (m : M S E A) φ wout :
  moves at_ win m φ wout → moves at_ win (map_err f m) φ wout.
Proof.
  intros Hm c r c' Hs Hc H Hp. unfold map_err in H. destruct (m c) as [q d] eqn:Hq.
  injection H as <- <-. assert (q ≠ Panic) as Hq' by by intros ->.
  specialize (Hm c q d Hs Hc Hq Hq'). by destruct q.
Qed.
Lemma moves_bind_ret {S E A B : Type} (at_ : S → ResourceContainer) win (m : M S E A) (g : A → B)
    φ wout (ψ : B → Prop) wout' :
  moves at_ win m φ wout → (∀ a, φ a → ψ (g a)) → (∀ a, wout' (g a) = wout a) →
  moves at_ win (let! a := m in ret (g a)) ψ wout'.
Proof.
  intros Hm Hψ Hw c r c' Hs Hc H Hp. unfold bind, ret in H. destruct (m c) as [q d] eqn:Hq.
  assert (q ≠ Panic) as Hq'. { intros ->. by simplify_eq. }
  specialize (Hm c q d Hs Hc Hq Hq') as [Hs' Hr]. destruct q; simplify_eq; [|done].
  split; [done|]. rewrite Hw. naive_solver.
Qed.

(** ** Operations on the state *)
Lemma triple_on_vault_mut {A : Type} L h win l (m : M Vault RuntimeError A) φ wout X :
  0 ≤ h → moves vault_container win m φ wout → 0 ≤ win → (∀ s, holding L h s → X s) →
  triple (holding L (h + win)) (on_vault_mut l m) (λ a s, φ a ∧ holding L (h + wout a) s) X.
Proof.
  intros Hh Hm Hw HX s r s' (HL & Hok & Hf) H.
  destruct (panic_or r) as [->|Hp]; [done|].
  unfold on_vault_mut, on_value, on_store, zoom in H.
  destruct (with_locked_mut _ _ (store s)) as [q st] eqn:Hq. injection H as <- <-.
  apply with_locked_mut_effect in Hq as (Hl & Hok' & Hq); [|done| |done].
  2: { intros id v. destruct v as [| |x| | | | | |]; try done. simpl. by destruct (m x). }
  assert (∀ h', funds_ok (all_values st) (buckets s) (proofs s) h' → holding L h' (set_store st s))
    as Hst. { intros h' Hf'. split_and!; [|done..]. unfold standing. simpl. by rewrite Hl. }
  assert (funds_ok (all_values (store s)) (buckets s) (proofs s) h) as Hf0.
  { eapply funds_hand_le; [done|lia]. }
  destruct Hq as [(-> & e & ->)|(id & v0 & v & _ & Hv0 & Hk & -> & Hall)]; [by apply HX, Hst|].
  destruct v as [| |x| | | | | |]; simpl in *;
    try by (apply HX, Hst; rewrite Hall; eapply funds_keep).
  destruct v0 as [| |x0| | | | | |]; simpl in Hk; try (by destruct Hk);
    try (by destruct Hk as (? & ? & _)). destruct Hk as (x' & [= <-] & Hc).
  pose proof (funds_vaults _ _ _ _ Hf id x0 Hv0) as Hs0.
  pose proof (vault_room _ _ _ _ id x0 Hf Hv0) as Hroom. rewrite <- Hc in Hs0, Hroom.
  destruct (m x) as [q x'] eqn:Hmx. simpl in *.
  destruct (Hm x q x' Hs0 ltac:(lia) Hmx Hp) as [Hs' Hr]. destruct q as [a|e|]; [| |done].
  - destruct Hr as (Ha & Ha0 & Hr). split; [done|]. apply Hst. rewrite Hall.
    eapply funds_vault; [exact Hf|done|done|lia|]. rewrite <- Hc. lia.
  - apply HX, Hst. rewrite Hall. eapply funds_vault; [exact Hf|done|done|lia|]. rewrite <- Hc. lia.
Qed.
Lemma get_bucket_lookup s id b : get_bucket s id = Ok b → buckets s !! id = Some b.
Proof.
  unfold get_bucket. case_match; [done|]. destruct (buckets s !! id); simpl; congruence.
Qed.
Lemma triple_on_bucket_mut {A : Type} L h win id (m : M Bucket RuntimeError A) φ wout X :
  0 ≤ h → moves bucket_container win m φ wout → 0 ≤ win → (∀ s, holding L h s → X s) →
  triple (holding L (h + win)) (on_bucket_mut id m) (λ a s, φ a ∧ holding L (h + wout a) s) X.
Proof.
  intros Hh Hm Hw HX s r s' Hs H. pose proof Hs as (HL & Hok & Hf).
  destruct (panic_or r) as [->|Hp]; [done|]. unfold on_bucket_mut in H.
  destruct (get_bucket s id) as [b|e|] eqn:Hb; [|simplify_eq|by simplify_eq].
  2: { eapply HX, holding_le; [exact Hs|lia]. }
  apply get_bucket_lookup in Hb. pose proof (funds_buckets _ _ _ _ Hf id b Hb) as Hs0.
  pose proof (bucket_room _ _ _ _ id b Hf Hb) as Hroom.
  destruct (m b) as [q b'] eqn:Hmb. injection H as <- <-.
  destruct (Hm b q b' Hs0 ltac:(lia) Hmb Hp) as [Hs' Hr]. destruct q as [a|e|]; [| |done].
  - destruct Hr as (Ha & Ha0 & Hr). split; [done|]. split_and!; [done..|]. simpl.
    eapply funds_bucket; [exact Hf|done|done|lia..].
  - apply HX. split_and!; [done..|]. simpl. eapply funds_bucket; [exact Hf|done|done|lia..].
Qed.
Lemma triple_take_bucket L h id X :
  (∀ s, holding L h s → X s) →
  triple (holding L h) (take_bucket id)
    (λ b s, sound (bucket_container b) ∧ holding L (h + worth (bucket_container b)) s) X.
Proof.
  intros HX s r s' Hs H. pose proof Hs as (HL & Hok & Hf). unfold take_bucket in H.
  destruct (get_bucket s id) as [b|e|] eqn:Hb; [|simplify_eq; by apply HX|by simplify_eq].
  apply get_bucket_lookup in Hb. destruct (funds_take_bucket _ _ _ _ id b Hf Hb) as [Hsb Hf'].
  unfold bind at 1, modify at 1 in H. cbv beta iota in H.
  assert (holding L (h + worth (bucket_container b)) (set_buckets (delete id (buckets s)) s)) as Hs1
    by by split_and!.
  assert (∀ s0, holding L (h + worth (bucket_container b)) s0 → X s0) as HX'.
  { intros s0 Hs0. eapply HX, holding_le; [exact Hs0|].
    pose proof (holding_nonneg _ _ _ Hs). pose proof (worth_nonneg _ Hsb). lia. }
  refine ((_ : triple (holding L (h + worth (bucket_container b))) _ (λ b s,
    sound (bucket_container b) ∧ holding L (h + worth (bucket_container b)) s) X) _ r s' Hs1 H).
  eapply triple_bind; [by apply triple_follows; [follow|]|intros ?; cbv beta].
  eapply triple_bind; [by apply triple_follows; [follow|]|intros ?; cbv beta]. by apply triple_ret.
Qed.
Lemma triple_new_bucket L h id c X :
  0 ≤ h → sound c → (∀ s, holding L h s → X s) →
  triple (holding L (h + worth c)) (new_bucket id c) (λ _, holding L h) X.
Proof.
  intros Hh Hc HX. pose proof (worth_nonneg _ Hc) as Hw.
  assert (∀ s, holding L (h + worth c) s → X s) as HX'.
  { intros s Hs. eapply HX, holding_le; [exact Hs|lia]. }
  apply (triple_at _ (λ _, bind _ _)). intros _.
  eapply triple_bind; [by apply triple_follows; [follow|]|intros ?; cbv beta].
  eapply triple_bind; [by apply triple_follows; [follow|]|intros ?; cbv beta].
  apply (triple_bind _ _ (λ _, holding L h)).
  - intros s r s' (HL & Hok & Hf) [= <- <-]. split_and!; [done..|]. simpl.
    by apply (funds_put_bucket _ _ _ _ id (MkBucket id c)).
  - intros [b|]; [by apply triple_throw|]. by apply triple_follows; [follow|].
Qed.
Lemma triple_new_proof L h id lr X :
  sound (lr_locked lr) → (∀ s, holding L h s → X s) →
  triple (holding L h) (new_proof id lr) (λ _, holding L h) X.
Proof.
  intros Hl HX s r s' (HL & Hok & Hf) H. unfold new_proof in H.
  assert (holding L h (set_proofs (<[id := MkProof lr]> (proofs s)) s)) as Hs.
  { split_and!; [done..|]. simpl. by apply funds_put_proof. }
  destruct (proofs s !! id); [simplify_eq; by apply HX|].
  refine (triple_follows L h _ X _ HX _ r s' Hs H). follow.
Qed.
Lemma drop_lock L l h s : holding (l :: L) h s → holding L h s.
Proof. intros ([HL Hfees] & Hok & Hf). split_and!; [|done..]. split; [|done]. by inversion HL. Qed.
Lemma triple_lock_substate L h a f X :
  (∀ s, holding L h s → X s) →
  triple (holding L h) (lock_substate a f) (λ l s, ls_address l = a ∧ holding (l :: L) h s) X.
Proof.
  intros HX s r s' Hs H. pose proof Hs as (HL & Hok & Hf).
  destruct (panic_or r) as [->|Hp]; [done|].
  unfold lock_substate, bind, on_store, zoom, ret in H.
  destruct (store_try_lock a f (store s)) as [q st] eqn:Hq.
  assert (q ≠ Panic) as Hq'. { intros ->. by simplify_eq. }
  apply store_try_lock_effect in Hq as ([Hall Hok'] & Hk & Hl); [|done].
  assert (holding L h (set_store st s)) as Hs'.
  { apply holding_store; [done|exact Hk|by apply Hok'|by rewrite Hall]. }
  destruct q as [lid|e|]; simplify_eq; [|by apply HX]. split; [done|].
  destruct Hs' as ([HL' Hfees] & ? & ?). split_and!; [|done..]. split; [|done].
  constructor; [by apply Hl|done].
Qed.

(** An update of a substate through a lock that is known. *)
Lemma on_value_effect {A B : Type} (f : SubstateValue → option B) up L h l (m : M B RuntimeError A) s q s' :
  (∀ v b, f v = Some b → v = up b) → (∀ b b', same_kind (up b) (up b')) →
  holding L h s → l ∈ L → on_value f up l m s = (q, s') → q ≠ Panic →
  (holding L h s' ∧ ∃ e, q = Err e) ∨
  ∃ v0 x, all_values (store s) !! ls_address l = Some v0 ∧
    keeps_value v0 (up x) ∧ q = (m x).1 ∧
    ∀ h', funds_ok (<[ls_address l := up (m x).2]> (all_values (store s))) (buckets s)
            (proofs s) h' → holding L h' s'.
Proof.
  intros Hup Hkind Hs Hl H Hp. destruct (known_lock L h s l Hs Hl) as [_ Hk].
  pose proof Hs as (HL & Hok & Hf). unfold on_value, on_store, zoom in H.
  destruct (with_locked_mut _ _ (store s)) as [q1 st] eqn:Hq. injection H as <- <-.
  apply with_locked_mut_effect in Hq as (Hlocks & Hok' & Hq); [|done| |done].
  2: { intros id v. destruct (f v) as [b|] eqn:Hb; [|done]. apply Hup in Hb as ->.
       specialize (Hkind b (m b).2). by destruct (m b). }
  assert (∀ h', funds_ok (all_values st) (buckets s) (proofs s) h' → holding L h' (set_store st s))
    as Hst. { intros h' Hf'. split_and!; [|done..]. unfold standing. simpl. by rewrite Hlocks. }
  destruct Hq as [(-> & e & ->)|(id & v0 & v & Hid & Hv0 & Hkv & -> & Hall)]; [left; by eauto|].
  apply Hk in Hid as ->. destruct (f v) as [x|] eqn:Hx.
  - apply Hup in Hx as ->. right. exists v0, x. split_and!; [done|exact Hkv| |].
    + by destruct (m x).
    + intros h' Hf'. apply Hst. rewrite Hall. by destruct (m x).
  - left. split; [|by eauto]. apply Hst. rewrite Hall. by eapply funds_keep.
Qed.
Lemma on_resource_effect {A : Type} L h l (m : M Resource RuntimeError A) s q s' :
  holding L h s → l ∈ L → on_resource_mut l m s = (q, s') → q ≠ Panic →
  (holding L h s' ∧ ∃ e, q = Err e) ∨
  ∃ x0 x, all_values (store s) !! ls_address l = Some (SvResource x0) ∧
    keeps_value (SvResource x0) (SvResource x) ∧ q = (m x).1 ∧
    ∀ h', funds_ok (<[ls_address l := SvResource (m x).2]> (all_values (store s))) (buckets s)
            (proofs s) h' → holding L h' s'.
Proof.
  intros Hs Hl H Hp.
  destruct (on_value_effect as_resource SvResource L h l m s q s') as [?|(v0 & x & Hv0 & Hk & ? & ?)];
    [by intros [] b [= ->]|by intros b b' []|done..|by left|right].
  destruct v0 as [|x0| | | | | | |]; simpl in Hk; try (by destruct Hk as (? & ? & _));
    try (by destruct Hk as (? & ? & ?)). by exists x0, x.
Qed.
(** A substate that is no vault changes what the substates vouch for. *)
Lemma funds_backing m bs ps h h' n id v v' :
  funds_ok m bs ps h → m !! id = Some v → as_vault v = None → as_vault v' = None → 0 ≤ h' →
  backed (<[id := v']> m) n →
  (∀ k, backed m k → h' - h ≤ n - k) →
  funds_ok (<[id := v']> m) bs ps h'.
Proof.
  intros [H1 H2 H3 H4 (k & Hk & Hle)] Hv Hnv Hnv' Hh Hn Hd. split; try done.
  - intros id' y [[_ ->]|[_ ?]]%lookup_insert_Some; [done|by eapply H1].
  - exists n. split; [done|]. rewrite (map_total_insert _ _ _ _ v) by done.
    replace (value_worth v) with 0 by by destruct v. replace (value_worth v') with 0 by by destruct v'.
    specialize (Hd k Hk). lia.
Qed.
Lemma funds_resource m bs ps h h' n id x x' :
  funds_ok m bs ps h → m !! id = Some (SvResource x) → 0 ≤ h' →
  backed (<[id := SvResource x']> m) n →
  (∀ k, backed m k → h' - h ≤ n - k) →
  funds_ok (<[id := SvResource x']> m) bs ps h'.
Proof. intros. by eapply funds_backing. Qed.

(** Burning one token: [k] of what is in hand goes with it. *)
Lemma triple_burn_token L h k a id :
  0 ≤ h → 0 ≤ k →
  (∀ m n x x', m !! SidNonFungible (MkNonFungibleAddress a id) = Some (SvNonFungible x) →
     nf_is_burnt x = false → nf_is_burnt x' = true → backed m n →
     ∃ n', backed (<[SidNonFungible (MkNonFungibleAddress a id) := SvNonFungible x']> m) n' ∧
       ∀ n0, backed m n0 → n0 - k ≤ n') →
  triple (holding L (h + k)) (burn_token a id) (λ _, holding L h) (holding L h).
Proof.
  intros Hh Hk Hlaw. unfold burn_token.
  assert (∀ L s, holding L (h + k) s → holding L h s) as Hle.
  { intros L' s Hs. eapply holding_le; [exact Hs|lia]. }
  eapply triple_bind; [apply triple_lock_substate, Hle|]. intros l. apply triple_pure. intros Ha.
  apply (triple_post _ _ _ (λ _, holding (l :: L) h)); [intros ??; apply drop_lock|].
  apply (triple_exc _ _ _ _ (holding (l :: L) h)); [intros ?; apply drop_lock|].
  apply (triple_bind _ _ (λ _, holding (l :: L) h)).
  2: { intros []. apply triple_follows; [follow|done]. }
  intros s q s' Hs H. destruct (panic_or q) as [->|Hp]; [done|].
  assert (holding (l :: L) h s'); [|by destruct q].
  apply (on_value_effect as_non_fungible SvNonFungible (l :: L) (h + k)) in H
    as [[? _]|(v0 & x & Hx & Hkv & _ & Hst)];
    [by apply Hle| |by intros [] b [= ->]|by intros b b' []|done|by left|done].
  rewrite Ha in *. pose proof Hs as (_ & Hok & Hf).
  pose proof (all_values_typed _ _ _ Hok Hx) as Hty.
  destruct v0 as [| | |x0| | | | |]; try done. destruct Hkv as (x1 & [= <-] & Hb). apply Hst.
  destruct (nf_is_burnt x) eqn:Hburnt; simpl.
  - apply (funds_hand_le _ _ _ (h + k)); [|lia].
    eapply funds_keep; [done..|]. exists x. split; [done|congruence].
  - destruct (funds_backed _ _ _ _ Hf) as (n & Hn & _).
    destruct (Hlaw _ n x0 (nf_burn x) Hx) as (n' & Hn' & Hd); [congruence|done|done|].
    eapply funds_backing; [exact Hf|exact Hx|done..|exact Hn'|]. intros k' Hk'.
    specialize (Hd k' Hk'). lia.
Qed.

(** The two shapes in which the updates of a vault and a bucket are used: taking
    something out, and putting something in. *)
Lemma vault_take {A : Type} L h l (m : M Vault RuntimeError A) φ wout X :
  0 ≤ h → moves vault_container 0 m φ wout → (∀ s, holding L h s → X s) →
  triple (holding L h) (on_vault_mut l m) (λ a s, φ a ∧ holding L (h + wout a) s) X.
Proof.
  intros Hh Hm HX. pose proof (triple_on_vault_mut L h 0 l m φ wout X) as HT.
  rewrite Z.add_0_r in HT. auto with lia.
Qed.
Lemma vault_keep {A : Type} L h l (m : M Vault RuntimeError A) φ X :
  0 ≤ h → moves vault_container 0 m φ (λ _, 0) → (∀ s, holding L h s → X s) →
  triple (holding L h) (on_vault_mut l m) (λ a s, φ a ∧ holding L h s) X.
Proof.
  intros Hh Hm HX. eapply triple_post; [|by apply (vault_take L h l m φ (λ _, 0))].
  intros a s [? Hs]. by rewrite Z.add_0_r in Hs.
Qed.
Lemma vault_put L h l win (m : M Vault RuntimeError unit) X :
  0 ≤ h → moves vault_container win m (λ _, True) (λ _, 0) → 0 ≤ win → (∀ s, holding L h s → X s) →
  triple (holding L (h + win)) (on_vault_mut l m) (λ _, holding L h) X.
Proof.
  intros Hh Hm Hw HX. eapply triple_post; [|by apply triple_on_vault_mut].
  intros a s [_ Hs]. by rewrite Z.add_0_r in Hs.
Qed.
Lemma bucket_take_out {A : Type} L h id (m : M Bucket RuntimeError A) φ wout X :
  0 ≤ h → moves bucket_container 0 m φ wout → (∀ s, holding L h s → X s) →
  triple (holding L h) (on_bucket_mut id m) (λ a s, φ a ∧ holding L (h + wout a) s) X.
Proof.
  intros Hh Hm HX. pose proof (triple_on_bucket_mut L h 0 id m φ wout X) as HT.
  rewrite Z.add_0_r in HT. auto with lia.
Qed.
Lemma bucket_keep {A : Type} L h id (m : M Bucket RuntimeError A) φ X :
  0 ≤ h → moves bucket_container 0 m φ (λ _, 0) → (∀ s, holding L h s → X s) →
  triple (holding L h) (on_bucket_mut id m) (λ a s, φ a ∧ holding L h s) X.
Proof.
  intros Hh Hm HX. eapply triple_post; [|by apply (bucket_take_out L h id m φ (λ _, 0))].
  intros a s [? Hs]. by rewrite Z.add_0_r in Hs.
Qed.
Lemma bucket_put L h id win (m : M Bucket RuntimeError unit) X :
  0 ≤ h → moves bucket_container win m (λ _, True) (λ _, 0) → 0 ≤ win → (∀ s, holding L h s → X s) →
  triple (holding L (h + win)) (on_bucket_mut id m) (λ _, holding L h) X.
Proof.
  intros Hh Hm Hw HX. eapply triple_post; [|by apply triple_on_bucket_mut].
  intros a s [_ Hs]. by rewrite Z.add_0_r in Hs.
Qed.
End conservation.

(** Weaken what is in hand. *)
Ltac weaken :=
  let s := fresh "s" in let Hs := fresh "Hs" in
  intros s Hs; first [exact Hs|eapply holding_le; [exact Hs|];
    repeat match goal with H : sound _ |- _ => apply worth_nonneg in H end; lia].
(** One step of a call that moves no funds, and the end of a call. *)
Ltac t_skip :=
  first
    [apply triple_lift_bind; [weaken|intros ? ?]
    |apply triple_guard; [weaken|intros ?]
    |eapply triple_bind; [apply triple_follows; [solve [follow]|weaken]|intros ?; cbv beta]].
Ltac t_ret := apply triple_ret; weaken.
(** A step that moves funds, described by a triple. *)
Tactic Notation "t_step" uconstr(t) :=
  eapply triple_bind; [eapply t|intros ?; cbv beta; try (apply triple_pure; intros ?)].

(** ** The calls that move funds *)
Section calls.
Context `{Ii : !I192} `{Ic : !Crypto} `{Cb : !Cbor} `{Ih : !IdHashes} `{Eh : !EngineHashes}.
Context `{Hi : !HashIter} `{Dp : !Display} `{Me : !Measure} `{Ml : !MeasureLaws Me}.
Variable encoded_len : SubstateValue → option Z.
Variable modules : list RuntimeModule.
Variable hook : ComponentAddress → string → ResourceAuthAction → AuthHookCaller →
  M WorkingState unit Value.
Variable functions_of : TemplateAddress → res RuntimeError (list FunctionDef).
Variable signer : PublicKeyBytes.
Hypothesis modules_conserve : ∀ m, m ∈ modules → module_follows conserves m.
Hypothesis hook_conserves : ∀ c m a k, follows conserves (hook c m a k).
(** Minting puts what it vouches for in hand, and burning a bucket or a UTXO
    vouches for no less than what is left. *)
Variable mint_fits : MintArg → Prop.
Hypothesis mint_law : ∀ L h l arg,
  0 ≤ h → mint_fits arg → l ∈ L →
  triple (holding L h) (mint_resource encoded_len l arg)
    (λ c s, sound c ∧ holding L (h + worth c) s) (holding L h).
Hypothesis bucket_burn_law : ∀ b, follows conserves (bucket_burn modules hook b).
Hypothesis stealth_burn_law : ∀ a id p, follows conserves (resource_stealth_burn a id p).

#[local] Hint Resolve conserves_steps : steps.

(** *** Vaults *)
Lemma withdraw_from_moves vk arg :
  moves vault_container 0 (withdraw_from vk arg) (λ p, sound p.1) (λ p, worth p.1).
Proof.
  destruct arg; simpl;
    (eapply (moves_bind_ret _ _ _ (λ c, (c, _)) sound worth);
       [apply moves_map_err, moves_vault, moves_take; constructor|done..]).
Qed.
Lemma vault_withdraw_conserves v arg :
  follows conserves (vault_invoke_withdraw modules hook v arg).
Proof.
  apply follows_triple. intros L h Hh. unfold vault_invoke_withdraw.
  t_skip. t_skip. destruct a0 as [[[vl rl] hk] cl]. t_skip. t_skip. t_skip. t_skip.
  eapply triple_bind; [apply vault_take; [done|apply withdraw_from_moves|weaken]|].
  intros [c amt]. apply triple_pure. simpl. intros Hc. t_skip. t_skip.
  eapply triple_bind; [apply triple_new_bucket; [done..|weaken]|intros ?; cbv beta].
  t_skip. t_skip. t_ret.
Qed.
Lemma vault_deposit_conserves v b : follows conserves (vault_invoke_deposit modules hook v b).
Proof.
  apply follows_triple. intros L h Hh. unfold vault_invoke_deposit.
  t_skip. t_skip. destruct a0 as [[[vl rl] hk] cl]. t_skip.
  eapply triple_bind; [apply triple_take_bucket; weaken|].
  intros bk. apply triple_pure. intros Hb. t_skip. t_skip.
  eapply triple_bind; [apply vault_put;
    [done|by apply moves_map_err, moves_vault, moves_deposit|by apply worth_nonneg|weaken]|].
  intros ?; cbv beta. t_skip. t_skip. t_ret.
Qed.
Lemma vault_create_proof_conserves v f :
  (∀ id, moves vault_container 0 (f id) (λ lr, sound (lr_locked lr)) (λ _, 0)) →
  follows conserves (vault_create_proof modules hook v f).
Proof.
  intros Hf. apply follows_triple. intros L h Hh. unfold vault_create_proof.
  t_skip. t_skip. destruct a0 as [[[vl rl] hk] cl]. t_skip. t_skip.
  eapply triple_bind; [apply vault_keep; [done|apply moves_map_err, Hf|weaken]|].
  intros lr. apply triple_pure. intros Hl.
  eapply triple_bind; [apply triple_new_proof; [done|weaken]|]. intros ?; cbv beta.
  t_skip. t_skip. t_ret.
Qed.

Lemma triple_new_vault L h id c :
  sound c → worth c = 0 →
  triple (holding L h) (new_substate encoded_len (SidVault id) (SvVault (vault_new c)))
    (λ _, holding L h) (holding L h).
Proof.
  intros Hc Hw. unfold new_substate. t_skip. t_skip.
  intros s r s' Hs Hrun. pose proof Hs as (HL & Hok & Hf).
  unfold on_store, zoom in Hrun. destruct (store_insert _ _ _) as [q st] eqn:Hq.
  injection Hrun as <- <-. apply store_insert_effect in Hq as (Hl & Hok' & Hall); [|done..].
  assert (holding L h (set_store st s)) as Hs'; [|by destruct q].
  apply holding_store; [done|by rewrite Hl|done|].
  destruct Hall as [[-> _]|[Hn ->]]; [done|]. apply funds_new; [done..|]. by intros x [= <-].
Qed.
Lemma vault_create_conserves v : follows conserves (vault_create encoded_len v).
Proof.
  apply follows_triple. intros L h Hh. unfold vault_create. t_skip. rename a into ra.
  eapply triple_bind; [apply triple_lock_substate; weaken|]. intros l. apply triple_pure. intros Hla.
  apply (triple_post _ _ _ (λ _, holding (l :: L) h)); [intros ??; apply drop_lock|].
  apply (triple_exc _ _ _ _ (holding (l :: L) h)); [intros ?; apply drop_lock|].
  apply triple_get. intros s0 Hs0. apply triple_lift_bind; [weaken|]. intros res Hres.
  destruct (read_resource _ _ _ l ra res Hs0 (list_elem_of_here _ _) Hla Hres)
    as (res0 & Hr0 & x & [= <-] & Ht & _).
  t_skip. t_skip. apply triple_lift_bind; [weaken|]. intros c Hc. rewrite Ht in Hc.
  destruct (holding_backed _ _ _ Hs0) as (n & Hn).
  destruct (worth_empty _ _ _ _ _ Hn Hr0 Hc) as [Hsc Hwc].
  eapply triple_bind; [by apply triple_new_vault|]. intros ?; cbv beta.
  t_skip. t_skip. t_ret.
Qed.

(** *** Stealth transfers: what comes out is a container of a stealth resource *)
Lemma stealth_sound a n c :
  foreign a → @stealth RuntimeError a n = Ok c → sound c ∧ worth c = 0.
Proof. intros Ha. unfold stealth. case_match; [|done]. intros [= <-]. by apply foreign_worth. Qed.
Lemma triple_execute_stealth_transfer L h a t b :
  0 ≤ h →
  triple (holding L h) (execute_stealth_transfer encoded_len a t b)
    (λ oc s, (∀ c, oc = Some c → sound c ∧ worth c = 0) ∧ holding L h s) (holding L h).
Proof.
  intros Hh. apply (triple_at _ (λ s, bind _ _)). intros s1. t_skip.
  apply triple_lift_bind; [weaken|]. intros ra _. unfold transfer_stealth.
  eapply triple_bind; [apply triple_lock_substate; weaken|]. intros l. apply triple_pure. intros Hla.
  apply (triple_post _ _ _ (λ oc s, (∀ c, oc = Some c → sound c ∧ worth c = 0) ∧ holding (l :: L) h s)).
  { intros oc s [Hoc Hs]. split; [done|]. by apply drop_lock in Hs. }
  apply (triple_exc _ _ _ _ (holding (l :: L) h)); [intros ?; apply drop_lock|].
  apply triple_get. intros s0 Hs0. apply triple_lift_bind; [weaken|]. intros u Hu.
  assert (foreign ra) as Hra.
  { destruct (get_resource s0 l) as [res| |] eqn:Hres; simpl in Hu; [|done..].
    case_bool_decide as Ht; [done|].
    destruct (read_resource _ _ _ l ra res Hs0 (list_elem_of_here _ _) Hla Hres)
      as (res0 & Hr0 & x & [= <-] & Ht0 & _).
    destruct (holding_backed _ _ _ Hs0) as (n & Hn).
    eapply stealth_foreign; [done..|]. by rewrite <- Ht0. }
  apply (triple_bind _ _ (λ _, holding (l :: L) h)).
  { destruct b as [id|]; [|t_ret]. eapply triple_bind; [apply triple_take_bucket; weaken|].
    intros bk. apply triple_pure. intros Hb. t_ret. }
  intros ob. cbv beta. t_skip. t_skip. t_skip. t_skip. t_skip. t_skip. t_skip. t_skip.
  case_match.
  - apply triple_ret. intros s Hs. by split.
  - apply triple_lift_bind; [weaken|]. intros c Hc. apply triple_ret. intros s Hs. split; [|done].
    intros c' [= <-]. by eapply stealth_sound.
Qed.
Lemma run_stealth_transfer_conserves a t b : follows conserves (stealth_transfer encoded_len a t b).
Proof.
  apply follows_triple. intros L h Hh. unfold stealth_transfer.
  eapply triple_bind; [by apply triple_execute_stealth_transfer|].
  intros [c|]; apply triple_pure; intros Hc; [|t_ret]. destruct (Hc c eq_refl) as [Hs Hw]. t_skip.
  eapply triple_bind; [eapply triple_pre; [|apply triple_new_bucket; [done..|weaken]]|].
  { intros s Hs'. eapply holding_le; [exact Hs'|lia]. }
  intros ?; cbv beta. t_ret.
Qed.
Lemma pay_fee_stealth_conserves t b : follows conserves (pay_fee_stealth encoded_len t b).
Proof.
  apply follows_triple. intros L h Hh. unfold pay_fee_stealth.
  eapply triple_bind; [by apply triple_execute_stealth_transfer|].
  intros [c|]; apply triple_pure; intros Hc; [|apply triple_throw; weaken].
  apply triple_follows; [follow|weaken].
Qed.

(** *** Fees *)
Lemma pay_fee_withdraw_moves amt c0 :
  sound c0 → worth c0 = 0 →
  moves vault_container 0
    (if Amount.is_positive amt then
       map_err RuntimeResourceError (
         let! withdrawn := vault_withdraw amt in
         let '(r, c) := deposit withdrawn c0 in lift (let? _ := r in Ok c))
     else ret c0) (λ _, True) (λ _, 0).
Proof.
  intros Hc0 Hw0. destruct (Amount.is_positive amt).
  - apply moves_map_err. intros v r v' Hs Hcap H Hp. unfold bind in H.
    destruct (vault_withdraw amt v) as [q v1] eqn:Hq.
    assert (q ≠ Panic) as Hq'. { intros ->. by simplify_eq. }
    pose proof (moves_vault 0 _ _ _ (moves_take _ (take_withdraw amt)) v q v1 Hs Hcap Hq Hq')
      as [Hs1 Hr].
    destruct q as [c|e|]; [|by simplify_eq|done].
    destruct (deposit c c0) as [q c']. unfold lift in H. injection H as <- <-.
    split; [done|]. destruct Hr as (Hc & Hw & Hle). destruct q; simpl; [split_and!|..]; (done || lia).
  - intros v r v' Hs Hcap [= <- <-] Hp. split; [done|]. split_and!; (done || lia).
Qed.
Lemma vault_pay_fee_conserves v arg : follows conserves (vault_pay_fee encoded_len v arg).
Proof.
  apply follows_triple. intros L h Hh. unfold vault_pay_fee. t_skip.
  case_match; [apply triple_throw; weaken|]. t_skip. t_skip. t_skip.
  case_match; [apply triple_throw; weaken|]. case_match; [apply triple_throw; weaken|].
  t_skip. t_skip. t_skip. apply triple_lift_bind; [weaken|]. intros c0 Hc0.
  destruct (stealth_sound _ _ _ foreign_xtr Hc0) as [Hs0 Hw0].
  eapply triple_bind; [apply vault_keep; [done|by apply pay_fee_withdraw_moves|weaken]|].
  intros c1. apply triple_pure. intros _.
  apply (triple_bind _ _ (λ _, holding L h)).
  { destruct (pay_statement arg) as [t|]; [|t_ret].
    eapply triple_bind; [by apply triple_execute_stealth_transfer|].
    intros [c|]; apply triple_pure; intros _; [|t_ret]. apply triple_follows; [follow|weaken]. }
  intros c2. cbv beta. case_match; [apply triple_throw; weaken|]. t_skip. t_skip. t_skip. t_ret.
Qed.
Lemma with_locked_mut_result {A : Type} lid (f : SubstateId → M SubstateValue RuntimeError A) st a st' :
  with_locked_mut lid f st = (Ok a, st') → ∃ id v, (f id v).1 = Ok a.
Proof.
  unfold with_locked_mut, bind, borrow_new. destruct (get_lock _ _ _) as [lock| |]; [|done..].
  destruct (get_for_mut _ _) as [[v| |] st1]; [|done..]. intros H. exists (ls_address lock), v.
  destruct (f _ _). by simplify_eq.
Qed.
Lemma triple_withdraw_all_fees L h a :
  triple (holding L h) (withdraw_all_fees_from_pool a)
    (λ c s, (sound c ∧ worth c = 0) ∧ holding L h s) (holding L h).
Proof.
  unfold withdraw_all_fees_from_pool. t_skip. t_skip. t_skip.
  apply (triple_bind _ _ (λ p s, (sound p.1 ∧ worth p.1 = 0) ∧ holding L h s)).
  - intros s r s' Hs Hrun. destruct (panic_or r) as [->|Hp]; [done|]. pose proof Hrun as H'.
    apply quiet_conserves in H'; [|constructor; intros id v; destruct v; try done].
    2: { simpl. destruct (pool_withdraw_all _). by split. }
    specialize (H' Hp L h Hs). destruct r as [p| |]; [|done..]. split; [|done].
    unfold on_store, zoom in Hrun. destruct (with_locked_mut _ _ _) as [q st] eqn:Hq.
    injection Hrun as -> <-. apply with_locked_mut_result in Hq as (id & v & Hv). destruct v; try done.
    unfold pool_withdraw_all in Hv.
    destruct (pool_amount _ =? 0); simpl in Hv; simplify_eq.
    apply foreign_worth, foreign_xtr.
  - intros p. apply triple_pure. intros Hc.
    apply (triple_bind _ _ (λ _, holding L h)).
    + intros s r s' Hs [= <- <-]. exact (step_withdrawals (R := conserves) _ s L h Hs).
    + intros _. by apply triple_ret.
Qed.
Lemma claim_validator_fees_conserves a : follows conserves (claim_validator_fees a).
Proof.
  apply follows_triple. intros L h Hh. unfold claim_validator_fees.
  eapply triple_bind; [apply triple_withdraw_all_fees|]. intros c. apply triple_pure. intros [Hs Hw].
  t_skip. eapply triple_bind; [eapply triple_pre; [|apply triple_new_bucket; [done..|weaken]]|].
  { intros s Hs'. eapply holding_le; [exact Hs'|lia]. }
  intros ?; cbv beta. t_skip. apply triple_follows; [follow|weaken].
Qed.

(** *** Buckets and proofs *)
Lemma bucket_take_conserves b amt : follows conserves (bucket_take b amt).
Proof.
  apply follows_triple. intros L h Hh. unfold bucket_take.
  eapply triple_bind; [apply bucket_take_out;
    [done|apply moves_map_err, moves_bucket, moves_take; constructor|weaken]|].
  intros c. apply triple_pure. intros Hc. t_skip.
  eapply triple_bind; [apply triple_new_bucket; [done..|weaken]|intros ?; cbv beta]. t_ret.
Qed.
Lemma bucket_take_confidential_conserves b proof :
  follows conserves (bucket_take_confidential b proof).
Proof.
  apply follows_triple. intros L h Hh. unfold bucket_take_confidential. do 6 t_skip.
  eapply triple_bind; [apply bucket_take_out;
    [done|apply moves_map_err, moves_bucket, moves_take; constructor|weaken]|].
  intros c. apply triple_pure. intros Hc. t_skip.
  eapply triple_bind; [apply triple_new_bucket; [done..|weaken]|intros ?; cbv beta]. t_skip. t_ret.
Qed.
Lemma bucket_join_conserves b other : follows conserves (bucket_join b other).
Proof.
  apply follows_triple. intros L h Hh. unfold bucket_join.
  eapply triple_bind; [apply triple_take_bucket; weaken|]. intros bk. apply triple_pure. intros Hb.
  eapply triple_bind; [apply bucket_put;
    [done|by apply moves_map_err, moves_bucket, moves_deposit|by apply worth_nonneg|weaken]|].
  intros ?; cbv beta. t_ret.
Qed.
Lemma bucket_create_proof_conserves b : follows conserves (bucket_create_proof modules hook b).
Proof.
  apply follows_triple. intros L h Hh. unfold bucket_create_proof. do 6 t_skip.
  eapply triple_bind; [apply (bucket_keep _ _ _ _ (λ lr, sound (lr_locked lr))); [done| |weaken]|].
  { apply moves_map_err. intros bk r bk' Hs Hc Hrun Hp. unfold bucket_lock_all in Hrun.
    refine (moves_bind_ret _ _ _ _ _ _ _ _
      (moves_bucket _ _ _ _ (moves_lock _ lock_all_of)) _ _ _ _ _ Hs Hc Hrun Hp); done. }
  intros lr. apply triple_pure. intros Hl. t_skip.
  eapply triple_bind; [apply triple_new_proof; [done|weaken]|]. intros ?; cbv beta. t_ret.
Qed.
Lemma drop_proof_conserves p : follows conserves (drop_proof p).
Proof.
  apply follows_triple. intros L h Hh s r s' Hs H. unfold drop_proof in H.
  destruct (negb _); [by simplify_eq|].
  refine ((_ : triple (holding L h) _ (λ _, holding L h) (holding L h)) s r s' Hs H). clear s r s' Hs H.
  t_skip.
  apply (triple_bind _ _ (λ proof s, sound (proof_into_resource_container proof) ∧ holding L h s)).
  { intros s r s' (HL & Hok & Hf) [= <- <-].
    assert (holding L h (set_proofs (delete p (proofs s)) s)) as Hs'.
    { split_and!; [done..|]. by apply funds_delete_proof. }
    destruct (proofs s !! p) as [x|] eqn:Hx; [|done]. split; [|done].
    by eapply (funds_proofs _ _ _ _ Hf). }
  intros proof. apply triple_pure. intros Hproof. destruct (proof_container proof) as [b|v].
  - intros s r s' Hs H. pose proof Hs as (HL & Hok & Hf).
    destruct (buckets s !! b) as [bk|] eqn:Hb; [|by simplify_eq].
    destruct (map_err _ _ bk) as [q bk'] eqn:Hq. injection H as <- <-.
    destruct (panic_or q) as [->|Hp]; [done|].
    pose proof (bucket_room _ _ _ _ b bk Hf Hb) as Hroom.
    destruct (moves_map_err bucket_container 0 RuntimeResourceError _ _ _
      (moves_bucket _ _ _ _ (moves_unlock _ Hproof)) bk q bk' (funds_buckets _ _ _ _ Hf b bk Hb)
      ltac:(lia) Hq Hp) as [Hs' Hr].
    assert (holding L h (set_buckets (<[b := bk']> (buckets s)) s)); [|by destruct q].
    split_and!; [done..|]. simpl. eapply funds_bucket; [exact Hf|done|done|done|].
    destruct q; lia.
  - t_skip. eapply triple_bind; [apply (vault_keep _ _ _ _ (λ _, True)); [done| |weaken]|].
    { by apply moves_map_err, moves_vault, moves_unlock. }
    intros u. apply triple_pure. intros _. apply triple_follows; [follow|weaken].
Qed.

(** *** Resources *)
Lemma recall_moves d :
  moves vault_container 0 (λ vault,
    match d with
    | Everything => map_err RuntimeResourceError recall_all vault
    | DiscFungible amount =>
        if Amount.is_negative amount then (Err (InvalidAmount amount), vault)
        else if bool_decide (vault_resource_type vault ≠ RtFungible)
                && bool_decide (vault_resource_type vault ≠ RtStealth)
        then (Err InvalidArgument, vault)
        else map_err RuntimeResourceError (vault_withdraw amount) vault
    | DiscNonFungible tokens =>
        if bool_decide (vault_resource_type vault ≠ RtNonFungible)
        then (Err InvalidArgument, vault)
        else map_err RuntimeResourceError (vault_withdraw_non_fungibles tokens) vault
    | DiscConfidential commitments revealed_amount =>
        if bool_decide (vault_resource_type vault ≠ RtConfidential)
        then (Err InvalidArgument, vault)
        else map_err RuntimeResourceError (recall_confidential commitments revealed_amount) vault
    end) sound worth.
Proof.
  assert (∀ m : M ResourceContainer ResourceError ResourceContainer, container_take m →
    moves vault_container 0 (map_err RuntimeResourceError (in_vault m)) sound worth) as Hm.
  { intros m Hm. by apply moves_map_err, moves_vault, moves_take. }
  intros v r v' Hs Hc H Hp.
  destruct d; repeat match type of H with (if ?b then _ else _) = _ => destruct b end;
    first [refine (Hm _ _ v r v' Hs Hc H Hp); constructor|injection H as <- <-; split; [done|lia]].
Qed.
Lemma resource_recall_conserves a v d : follows conserves (resource_recall modules hook a v d).
Proof.
  apply follows_triple. intros L h Hh. unfold resource_recall. t_skip. t_skip.
  eapply (triple_bind _ _ (λ c s, sound c ∧ holding L (h + worth c) s)).
  { unfold recall_resource_from_vault. t_skip. apply vault_take; [done|apply recall_moves|weaken]. }
  intros c. apply triple_pure. intros Hc. t_skip. t_skip.
  eapply triple_bind; [apply triple_new_bucket; [done..|weaken]|intros ?; cbv beta]. t_skip. t_ret.
Qed.
Lemma resource_mint_conserves a arg :
  mint_fits arg → follows conserves (resource_mint encoded_len modules hook a arg).
Proof.
  intros Ha. apply follows_triple. intros L h Hh. unfold resource_mint.
  eapply triple_bind; [apply triple_lock_substate; weaken|].
  intros l. apply triple_pure. intros _.
  apply (triple_post _ _ _ (λ _, holding (l :: L) h)); [intros ??; apply drop_lock|].
  apply (triple_exc _ _ _ _ (holding (l :: L) h)); [intros ?; apply drop_lock|].
  t_skip. t_skip.
  eapply triple_bind; [apply mint_law; [done|done|left]|]. intros c. apply triple_pure. intros Hc.
  t_skip. t_skip. eapply triple_bind; [apply triple_new_bucket; [done..|weaken]|intros ?; cbv beta].
  t_skip. t_ret.
Qed.
Lemma resource_create_conserves arg :
  (∀ m, cr_mint_arg arg = Some m → mint_fits m) →
  follows conserves (resource_create encoded_len functions_of signer arg).
Proof.
  intros Ha. apply follows_triple. intros L h Hh. unfold resource_create. do 8 t_skip.
  eapply triple_bind; [apply triple_lock_substate; weaken|].
  intros l. apply triple_pure. intros _.
  apply (triple_post _ _ _ (λ _, holding (l :: L) h)); [intros ??; apply drop_lock|].
  apply (triple_exc _ _ _ _ (holding (l :: L) h)); [intros ?; apply drop_lock|].
  apply (triple_bind _ _ (λ _, holding (l :: L) h)).
  { destruct (cr_mint_arg arg) as [m|]; [|t_ret].
    eapply triple_bind; [apply mint_law; [done|by apply Ha|left]|]. intros c. apply triple_pure.
    intros Hc. t_skip.
    eapply triple_bind; [apply triple_new_bucket; [done..|weaken]|intros ?; cbv beta]. t_ret. }
  intros ob. cbv beta. t_skip. t_ret.
Qed.

(** *** The dispatchers *)
#[local] Hint Resolve vault_create_conserves vault_withdraw_conserves vault_deposit_conserves vault_pay_fee_conserves
  bucket_take_conserves bucket_take_confidential_conserves bucket_join_conserves bucket_burn_law
  bucket_create_proof_conserves drop_proof_conserves resource_recall_conserves
  resource_mint_conserves resource_create_conserves run_stealth_transfer_conserves
  stealth_burn_law : steps.
Lemma vault_invoke_conserves v a : follows conserves (vault_invoke encoded_len modules hook v a).
Proof.
  unfold vault_invoke. follow; apply vault_create_proof_conserves; intros vid;
    unfold vault_lock_all, vault_lock_by_amount, vault_lock_by_non_fungible_ids;
    (eapply moves_bind_ret; [apply moves_vault, moves_lock; constructor|done..]).
Qed.
Lemma bucket_invoke_conserves b a : follows conserves (bucket_invoke modules hook b a).
Proof. unfold bucket_invoke. follow. Qed.
Lemma proof_invoke_conserves p a : follows conserves (proof_invoke modules p a).
Proof. unfold proof_invoke. follow. Qed.
Lemma workspace_invoke_conserves a : follows conserves (workspace_invoke modules a).
Proof.
  unfold workspace_invoke. follow. intros s r s' [= <- <-] _. apply step_last_output.
Qed.
(** The amounts a call mints fit the type of amounts. *)
Definition action_fits (a : ResourceAction) : Prop :=
  match a with
  | RaMint arg => mint_fits arg
  | RaCreate arg => ∀ m, cr_mint_arg arg = Some m → mint_fits m
  | _ => True
  end.
Lemma resource_invoke_conserves a x :
  action_fits x →
  follows conserves (resource_invoke encoded_len modules hook functions_of signer a x).
Proof.
  intros Hx. unfold resource_invoke. apply follows_bind; [exact _|follow|intros _].
  destruct x; simpl in Hx; follow.
Qed.
End calls.

(** ** Minting and burning what the measure does not count *)
Section foreign.
Context `{Ii : !I192} `{Ic : !Crypto} `{Cb : !Cbor} `{Ih : !IdHashes} `{Dp : !Display}.
Context `{Me : !Measure} `{Ml : !MeasureLaws Me}.
Variable encoded_len : SubstateValue → option Z.
Variable modules : list RuntimeModule.
Hypothesis modules_conserve : ∀ m, m ∈ modules → module_follows conserves m.

Lemma on_resource_foreign {A : Type} L h l a (m : M Resource RuntimeError A) :
  l ∈ L → ls_address l = SidResource a → foreign a →
  triple (holding L h) (on_resource_mut l m) (λ _, holding L h) (holding L h).
Proof.
  intros Hl Ha Hf s q s' Hs H. destruct (panic_or q) as [->|Hp]; [done|].
  assert (holding L h s'); [|by destruct q].
  destruct (on_resource_effect L h l m s q s' Hs Hl H Hp) as [[? _]|(x0 & x & Hx & _ & _ & Hst)];
    [done|]. apply Hst. destruct Hs as (_ & _ & [H1 H2 H3 H4 (n & Hn & Hle)]).
  rewrite Ha in *. split; try done.
  - intros id' y [[_ [=]]|[_ ?]]%lookup_insert_Some. by eapply H1.
  - exists n. split; [by eapply backed_foreign|].
    rewrite (map_total_insert _ _ _ _ (SvResource x0)) by done. simpl. lia.
Qed.
Lemma mint_container_address l ra arg s c s' :
  mint_container encoded_len l ra arg s = (Ok c, s') → resource_address c = ra.
Proof.
  intros H. destruct arg as [amt|tokens|stmt|amt]; cbn [mint_container] in H.
  - unfold fungible, lift in H. repeat case_match; by simplify_eq/=.
  - unfold bind, ret in H. destruct (for_each _ _ _) as [[]]; by simplify_eq.
  - unfold bind, get, lift in H. destruct (get_resource s l); simpl in H; [|done..].
    destruct (to_view_key_public_key _ _); simpl in H; [|done..].
    unfold mint_confidential in H. repeat case_match; simplify_eq/=.
    all: destruct (validate_confidential_statement _ _) as [v| |]; simplify_eq/=;
      repeat case_match; by simplify_eq/=.
  - unfold stealth, lift in H. repeat case_match; by simplify_eq/=.
Qed.
Lemma mint_foreign_tail {A : Type} L h l ra arg (tracking : bool)
    (m : ResourceContainer → M Resource RuntimeError A) :
  l ∈ L → ls_address l = SidResource ra → foreign ra →
  triple (holding L h)
    (let! c := mint_container encoded_len l ra arg in
     if tracking then do! on_resource_mut l (m c) in ret c else ret c)
    (λ c s, sound c ∧ holding L (h + worth c) s) (holding L h).
Proof.
  intros Hl Ha Hf. apply (triple_bind _ _ (λ c s, (sound c ∧ worth c = 0) ∧ holding L h s)).
  { intros s q s' Hs H. pose proof H as H'. destruct (panic_or q) as [->|Hp]; [done|].
    apply mint_container_follows with (R := conserves) in H'; [|apply _].
    specialize (H' Hp L h Hs). destruct q as [c| |]; [|done..]. split; [|done].
    apply foreign_worth. by rewrite (mint_container_address _ _ _ _ _ _ H). }
  intros c. apply triple_pure. intros [Hc Hw].
  assert (∀ s, holding L h s → sound c ∧ holding L (h + worth c) s) as Hret.
  { intros s Hs. split; [done|]. by rewrite Hw, Z.add_0_r. }
  destruct tracking; [|by apply triple_ret].
  eapply triple_bind; [by eapply on_resource_foreign|]. intros u. by apply triple_ret.
Qed.
Lemma burn_neutral L h l b hook :
  0 ≤ h → (∀ c m a k, follows conserves (hook c m a k)) →
  (∀ bk, sound (bucket_container bk) →
     triple (holding L (h + worth (bucket_container bk))) (burn_bucket bk) (λ _, holding L h)
       (holding L h)) →
  (∀ n, triple (holding L h) (on_resource_mut l (decrease_total_supply n)) (λ _, holding L h)
     (holding L h)) →
  triple (holding L h)
    (let! checked := check_access_rules l Burn in
     do! invoke_hook modules hook checked.1 checked.2 Burn in
     let! bucket := take_bucket b in
     do! burn_bucket bucket in
     do! on_resource_mut l (decrease_total_supply (bucket_amount bucket)) in
     do! unlock_substate l in
     ret IrUnit) (λ _, holding L h) (holding L h).
Proof.
  intros Hh Hhook Hburn Hdec. t_skip. t_skip. eapply triple_bind; [by apply triple_take_bucket|].
  intros bk. apply triple_pure. intros Hs. eapply triple_bind; [by apply Hburn|]. intros [].
  eapply triple_bind; [apply Hdec|].
  intros ?. cbv beta. t_skip. t_ret.
Qed.
End foreign.

Lemma conserves_calls `{Ii : !I192} `{Ic : !Crypto} `{Cb : !Cbor} `{Ih : !IdHashes}
    `{Eh : !EngineHashes} `{Hi : !HashIter} `{Dp : !Display} `{Me : !Measure} `{Ml : !MeasureLaws Me}
    encoded_len modules functions_of signer (mint_fits : MintArg → Prop) :
  (∀ m, m ∈ modules → module_follows conserves m) →
  (∀ L h l arg, 0 ≤ h → mint_fits arg → l ∈ L →
     triple (holding L h) (mint_resource encoded_len l arg)
       (λ c s, sound c ∧ holding L (h + worth c) s) (holding L h)) →
  (∀ hook b, (∀ c m a k, follows conserves (hook c m a k)) →
     follows conserves (bucket_burn modules hook b)) →
  (∀ a id p, follows conserves (resource_stealth_burn a id p)) →
  CallLaws encoded_len modules functions_of signer (action_fits mint_fits) conserves.
Proof.
  intros Hm Hmint Hburn Hstealth. split.
  - apply _.
  - apply push_frame_conserves.
  - apply pop_frame_conserves.
  - done.
  - by apply workspace_invoke_conserves.
  - by apply proof_invoke_conserves.
  - intros hook v a Hh. by apply vault_invoke_conserves.
  - intros hook b a Hh. apply bucket_invoke_conserves; auto.
  - intros hook a x Hh Hx. eapply resource_invoke_conserves; eauto.
  - apply run_stealth_transfer_conserves.
  - apply pay_fee_stealth_conserves.
  - apply claim_validator_fees_conserves.
Qed.

(** ** The ledger after a transaction *)
Section committed.
Context `{Ii : !I192} `{Ic : !Crypto} `{Cb : !Cbor} `{Ih : !IdHashes} `{Eh : !EngineHashes}.
Context `{Hi : !HashIter} `{Dp : !Display} `{Ce : !CborEncode}.
Context `{Me : !Measure} `{Ml : !MeasureLaws Me}.

Definition ledger_funds (ledger : Ledger) : Prop :=
  ledger_typed ledger ∧ funds_ok (substate_value <$> ledger) ∅ ∅ 0.

(** Refunds are foreign. *)
Lemma refunds_funds st bs ps h persist persist' :
  rtc (refund foreign) persist persist' →
  funds_ok (all_values (set_new persist st)) bs ps h →
  funds_ok (all_values (set_new persist' st)) bs ps h.
Proof.
  induction 1 as [|p1 p2 p3 Hr _ IH]; [done|]. intros Hf. apply IH.
  destruct Hr as [p v vault out q c Hv Ho Hd Hp].
  assert (all_values (set_new p st) !! SidVault v = Some (SvVault vault)) as Hx.
  { rewrite all_values_lookup. simpl. by rewrite Hv. }
  pose proof (all_values_insert (set_new p st) (SidVault v)
    (SvVault (MkVault c (vault_freeze_flags vault)))) as Hins. simpl in Hins.
  change (set_new ?a (set_new _ st)) with (set_new a st) in Hins. rewrite Hins.
  destruct (foreign_worth _ Ho) as [Hso Hwo].
  pose proof (funds_vaults _ _ _ _ Hf _ _ Hx) as Hs. pose proof (vault_room _ _ _ _ _ _ Hf Hx).
  pose proof (funds_hand _ _ _ _ Hf).
  destruct (deposit_law _ _ _ _ Hs Hso ltac:(lia) Hd Hp) as [Hs' Hw].
  eapply funds_vault; [exact Hf|done|done|done|simpl; lia].
Qed.
Lemma committed_funds s receipt persist downed ws d st bs ps h ledger' :
  generate_substate_diff s receipt persist downed ws = Ok d →
  apply_diff d (state_store st) = Some ledger' →
  persist_typed persist → ledger_typed (state_store st) → ledger_typed ledger' →
  funds_ok (all_values (set_new persist st)) bs ps h → ledger_funds ledger'.
Proof.
  intros Hg Ha Hp Ht Ht' Hf. split; [done|].
  destruct (diff_committed _ _ _ _ _ _ _ _ Hg Ha) as (H1 & H2 & H3).
  set (m := all_values (set_new persist st)) in *.
  assert (∀ id, m !! id = match im_get id persist with
    | Some v => Some v | None => substate_value <$> state_store st !! id end) as Hm.
  { intros id. unfold m. by rewrite all_values_lookup. }
  assert (∀ id v, (substate_value <$> ledger') !! id = Some v → is_Some (as_vault v) →
    m !! id = Some v) as Hto.
  { intros id v. rewrite lookup_fmap, fmap_Some. intros (x & Hx & ->) Hv. rewrite Hm.
    destruct (H1 id x Hx) as [[_ Hr]|[Hin|[Hin Hx']]].
    - rewrite Hr in Hv. by destruct Hv as [? ?].
    - apply im_get_elem_NoDup in Hin; [by rewrite Hin|apply Hp].
    - apply im_get_None_keys in Hin. by rewrite Hin, Hx'. }
  assert (∀ id v, m !! id = Some v →
    is_Some (as_resource v) ∨ is_Some (as_non_fungible v) ∨ is_Some (as_vault v) →
    (substate_value <$> ledger') !! id = Some v) as Hfrom.
  { intros id v Hv Hk. rewrite Hm in Hv. rewrite lookup_fmap.
    assert (as_utxo_address id = None ∧ is_empty_pool v = false) as [Hu He].
    { assert (kind_matches id v = true) as Htv.
      { destruct (im_get id persist) eqn:Hi0; [simplify_eq; by apply Hp|].
        apply fmap_Some in Hv as (x & Hx & ->). by apply Ht. }
      destruct v; try (by destruct Hk as [[? ?]|[[? ?]|[? ?]]]); by destruct id. }
    destruct (im_get id persist) as [w|] eqn:Hi0.
    - injection Hv as ->. apply H2; [|done]. by apply im_get_Some_elem.
    - apply fmap_Some in Hv as (x & Hx & ->). by rewrite (H3 id x); [|apply im_get_None_keys|..]. }
  pose proof (map_total_nonneg bucket_worth bs (λ k b, bucket_worth_nonneg _ _ _ _ k b Hf)) as Hb.
  destruct Hf as [F1 F2 F3 F4 (n & Hn & Hle)]. split; try done.
  - intros id x Hx. eapply F1, Hto; [exact Hx|by eexists].
  - destruct (backed_kept m (substate_value <$> ledger') n) as (n' & Hn' & Hb'); [|done|].
    { intros id v Hv Hk. apply Hfrom; tauto. }
    exists n'. split; [done|]. change (map_total bucket_worth ∅) with 0.
    rewrite (map_total_agree value_worth _ m); [lia|].
    intros id v Hv. destruct v; try done.
    split; intros Hx; [apply Hto; [done|by eexists]|].
    apply Hfrom; [done|right; right; by eexists].
Qed.

Lemma ledger_holding (ledger : Ledger) epoch scope h :
  ledger_funds ledger → holding [] 0 (state_new ledger epoch scope h).
Proof.
  intros [Ht Hf]. split_and!; [|by apply store_new_ok|].
  - split; [constructor|]. intros c Hc. by apply not_elem_of_nil in Hc.
  - assert (all_values (store_new ledger) = substate_value <$> ledger) as Hv.
    { apply map_eq. intros id. by rewrite all_values_lookup, lookup_fmap. }
    unfold state_new. simpl. by rewrite Hv.
Qed.

(** A transaction that is accepted leaves the ledger with no more than it vouches
    for, when the calls it can make conserve what the measure counts. *)
Lemma accepted_funds fits encoded_len cost weight table template_provider verify_claim_proof
    verify_signature error_text loads_as_template max_template_size state_db epoch proofs tx f d
    ledger' :
  (∀ signer, CallLaws encoded_len [fee_module encoded_len cost weight table]
     (runtime_template_functions template_provider) signer fits conserves) →
  provider_fits (op_fits fits) template_provider →
  ledger_funds state_db →
  execute encoded_len [fee_module encoded_len cost weight table] template_provider
    verify_claim_proof verify_signature error_text loads_as_template max_template_size
    state_db epoch proofs tx = Ok f →
  any_accept (fin_result f) = Some d → apply_diff d state_db = Some ledger' →
  ledger_funds ledger'.
Proof.
  intros Hlaws Hcode Hf0 He Hd Ha. pose proof Hf0 as [Ht _].
  destruct (execute_accepts encoded_len _ template_provider verify_claim_proof verify_signature
    error_text loads_as_template max_template_size fits (meet conserves keeps_types)
    (λ s, holding [] 0 s ∧ state_store (store s) = state_db)
    (λ signer, meet_calls _ _ _ _ _ _ _ (Hlaws signer) (types_calls _ _ _ _ _ _ _)) Hcode
    ltac:(intros s s' [Hk [-> _]] [? ?]; split; [by apply Hk|done])
    ltac:(intros s c [([_ Hs] & _ & _) _] [([Hc _] & Hok & Hfs) ?]; by split)
    _ _ _ _ f d (conj (ledger_holding _ _ _ _ Hf0) eq_refl) He Hd)
    as (s & s' & fs & persist & receipt & [([_ Hfees] & Hok & Hfs) Hst] & _ & Hfin & Hg).
  apply (finalize_fees_refunds foreign) in Hfin; [|exact Hfees].
  assert (persist_typed persist) as Hp by by eapply finalized_typed.
  rewrite <- Hst in Ha, Ht.
  assert (ledger_typed ledger') as Ht' by by eapply committed_typed.
  eapply committed_funds; [exact Hg|exact Ha|done..|]. eapply refunds_funds; [exact Hfin|].
  replace (set_new (new_substates (store s)) (store s)) with (store s) by by destruct (store s).
  exact Hfs.
Qed.
End committed.
