(* ===== verification/FungibleSupply.v ===== *)
(** * No inflation of a fungible resource

    A fungible resource whose supply is tracked: its units in vaults and buckets,
    locked or not, never exceed its total supply, whatever templates run. *)
From stdpp Require Import base gmap list strings numbers.
From S2P Require Import Prelude Bor BTree Ids IndexedValue IdProvider Amount Crypto Confidential.
From S2P Require Import ResourceContainer FreezeFlags Proof Bucket Vault AccessRules RuntimeError.
From S2P Require Import Auth Locking Fees Substate Stealth FeeState Scope StateStore Workspace.
From S2P Require Import WorkingState Runtime RuntimeCalls Engine Processor Examples Steps Holdings.
From S2P Require Import EngineRuns Transactions Commit LedgerDiff LedgerTypes Conservation.
Open Scope Z_scope.

(** ** The measure: the units of the resource [r] *)
Definition units (r : ResourceAddress) (c : ResourceContainer) : Z :=
  match c with Fungible a x l => if decide (a = r) then x + l else 0 | _ => 0 end.
Definition units_sound (r : ResourceAddress) (c : ResourceContainer) : Prop :=
  match c with Fungible a x l => a = r → 0 ≤ x ∧ 0 ≤ l | _ => resource_address c ≠ r end.
(** The resource is fungible, has no authorization hook, and tracks its supply. *)
Definition tracked_supply (r : ResourceAddress) (m : gmap SubstateId SubstateValue) (n : Z) : Prop :=
  ∃ res, m !! SidResource r = Some (SvResource res) ∧ res_type res = RtFungible ∧
    res_auth_hook res = None ∧ total_supply res = Some n ∧ n ≤ i192_MAX.
Definition fungible_measure (r : ResourceAddress) : Measure := {|
  worth := units r;
  sound := units_sound r;
  foreign := λ a, a ≠ r;
  backed := tracked_supply r;
  cap := i192_MAX;
|}.

(** Containers of the other kinds stay of their kind. *)
Definition not_fungible (c : ResourceContainer) : Prop :=
  match c with Fungible _ _ _ => False | _ => True end.

Section measure.
Context `{Ii : !I192} `{Ic : !Crypto}.
Variable r : ResourceAddress.
Hypothesis not_xtr : r ≠ XTR.
#[local] Instance the_measure : Measure := fungible_measure r.

Lemma units_nonneg c : units_sound r c → 0 ≤ units r c.
Proof. destruct c; simpl; try done. intros Hc. case_decide as Ha; [destruct (Hc Ha)|]; lia. Qed.
Lemma fungible_or c : (∃ a x l, c = Fungible a x l) ∨ not_fungible c.
Proof. destruct c; [left; eauto|by right..]. Qed.
Lemma not_fungible_units c : not_fungible c → units r c = 0.
Proof. by destruct c. Qed.
Lemma not_fungible_sound c : not_fungible c → units_sound r c ↔ resource_address c ≠ r.
Proof. by destruct c. Qed.

Ltac open_calls H :=
  unfold withdraw_all, withdraw, withdraw_by_ids, withdraw_confidential,
    recall_confidential_commitments, lock_all, lock_by_amount, lock_by_non_fungible_ids, unlock,
    deposit, bind, lift, put, ret, throw, confidential, stealth, fungible, non_fungible in H.

(** The plain operators give a result or panic. *)
Ltac split_op H op no_err :=
  match type of H with
  | context [op] =>
      let E := fresh "E" in destruct op eqn:E; [|by apply no_err in E|]
  end.
Tactic Notation "split_sub" hyp(H) constr(x) constr(y) :=
  match type of H with
  | context [@Amount.sub ?I ?E x y] => split_op H (@Amount.sub I E x y) @sub_no_err
  end.
Tactic Notation "split_add" hyp(H) constr(x) constr(y) :=
  match type of H with
  | context [@Amount.add ?I ?E x y] => split_op H (@Amount.add I E x y) @add_no_err
  end.

Lemma take_not_fungible m c q c' :
  container_take m → not_fungible c → m c = (q, c') →
  (not_fungible c' ∧ resource_address c' = resource_address c) ∧
  ∀ out, q = Ok out → not_fungible out ∧ resource_address out = resource_address c.
Proof.
  intros Hm Hc H. destruct c as [|a ids l|a cs n lc ln|a n l]; [done|..];
    destruct Hm; open_calls H; repeat case_match; simplify_eq/=; split; try done;
    intros ? ?; by simplify_eq/=.
Qed.
Lemma lock_not_fungible m c q c' :
  container_lock m → not_fungible c → units_sound r c → m c = (q, c') →
  (not_fungible c' ∧ resource_address c' = resource_address c) ∧
  ∀ out, q = Ok out → units_sound r out.
Proof.
  intros Hm Hc Hs H. destruct c as [|a ids l|a cs n lc ln|a n l]; [done|..];
    destruct Hm; open_calls H; repeat case_match; simplify_eq/=; split; try done;
    intros ? ?; by simplify_eq/=.
Qed.
Lemma unlock_not_fungible out c q c' :
  not_fungible c → unlock out c = (q, c') →
  not_fungible c' ∧ resource_address c' = resource_address c.
Proof.
  intros Hc H. destruct c as [|a ids l|a cs n lc ln|a n l]; [done|..];
    open_calls H; repeat case_match; by simplify_eq/=.
Qed.
Lemma deposit_not_fungible d c q c' :
  not_fungible c → deposit d c = (q, c') →
  not_fungible c' ∧ resource_address c' = resource_address c.
Proof.
  intros Hc H. destruct c as [|a ids l|a cs n lc ln|a n l]; [done|..];
    destruct d; open_calls H; repeat case_match; by simplify_eq/=.
Qed.
(** So a container of another kind stays one, and holds no unit. *)
Lemma not_fungible_stays c c' :
  not_fungible c → units_sound r c → not_fungible c' ∧ resource_address c' = resource_address c →
  units_sound r c' ∧ units r c = 0 ∧ units r c' = 0.
Proof.
  intros Hc Hs [Hc' Ha]. rewrite !not_fungible_units by done. split_and!; [|done..].
  apply not_fungible_sound; [done|]. rewrite Ha. by apply not_fungible_sound.
Qed.

(** Operations on a fungible container. *)
Lemma withdraw_fungible a x l amt q c' :
  units_sound r (Fungible a x l) → units r (Fungible a x l) ≤ i192_MAX →
  withdraw amt (Fungible a x l) = (q, c') → q ≠ Panic →
  units_sound r c' ∧
  match q with
  | Ok out => units_sound r out ∧ units r c' + units r out ≤ units r (Fungible a x l)
  | _ => units r c' ≤ units r (Fungible a x l)
  end.
Proof.
  simpl. intros Hs Hcap H Hp. open_calls H. unfold Amount.is_positive in H.
  destruct (Z.ltb_spec 0 amt) as [Ha|]; simpl in H; [|by simplify_eq].
  destruct (Z.ltb_spec x amt) as [|Hx]; [by simplify_eq|].
  destruct (decide (a = r)) as [->|Hne].
  - destruct (Hs eq_refl) as [Hx0 Hl0]. rewrite sub_ok, is_non_negative_true in H by lia.
    injection H as <- <-. simpl. rewrite !decide_True by done. split; [intros _; lia|].
    split; [intros _|]; lia.
  - split_sub H x amt; [|by simplify_eq]. case_match; simplify_eq/=; by rewrite ?decide_False.
Qed.
Lemma lock_fungible m a x l q c' :
  container_lock m →
  units_sound r (Fungible a x l) → units r (Fungible a x l) ≤ i192_MAX →
  m (Fungible a x l) = (q, c') → q ≠ Panic →
  units_sound r c' ∧ units r c' ≤ units r (Fungible a x l) ∧
  (∀ out, q = Ok out → units_sound r out).
Proof.
  intros Hm Hs Hcap H Hp.
  assert (∀ e : ResourceError, (q, c') = (Err e, Fungible a x l) →
    units_sound r c' ∧ units r c' ≤ units r (Fungible a x l) ∧
    (∀ out, q = Ok out → units_sound r out)) as Hsame.
  { intros e [= -> ->]. by split_and!; [|lia|]. }
  assert (∀ amt, Amount.is_non_negative amt = true → units_sound r (Fungible a amt 0)) as Hout.
  { intros amt Ha _. by split; [apply is_non_negative_inv|]. }
  destruct Hm as [|amt|ids]; open_calls H; [| |by eapply Hsame].
  - destruct (Amount.is_zero x) eqn:Hz; [by eapply Hsame|]. simpl in *.
    destruct (decide (a = r)) as [->|Hne].
    + destruct (Hs eq_refl) as [Hx0 Hl0]. rewrite add_ok, is_non_negative_true in H by lia.
      injection H as <- <-. simpl. rewrite !decide_True by done. split; [intros _; lia|].
      split; [lia|]. intros out [= <-] _. lia.
    + split_add H l x; [|by simplify_eq]. destruct (Amount.is_non_negative x) eqn:Hn; [|by simplify_eq].
      injection H as <- <-. simpl. rewrite !decide_False by done. split; [done|]. split; [done|].
      intros out [= <-]. exact (Hout x Hn).
  - destruct (Z.ltb_spec x amt) as [|Hle]; [by eapply Hsame|]. simpl in *.
    destruct (Amount.is_non_negative amt) eqn:Hn.
    2: { split_sub H x amt; [|by simplify_eq]. split_add H l amt; by simplify_eq. }
    pose proof (Hout amt Hn) as Hoa. destruct (decide (a = r)) as [->|Hne].
    + destruct (Hs eq_refl) as [Hx0 Hl0]. apply is_non_negative_inv in Hn.
      rewrite sub_ok, add_ok in H by lia. injection H as <- <-. simpl.
      rewrite !decide_True by done. split; [intros _; lia|]. split; [lia|]. by intros out [= <-].
    + split_sub H x amt; [|by simplify_eq]. split_add H l amt; [|by simplify_eq].
      injection H as <- <-. simpl. rewrite !decide_False by done. split; [done|]. split; [done|].
      by intros out [= <-].
Qed.
Lemma unlock_fungible out a x l q c' :
  units_sound r out → units_sound r (Fungible a x l) → units r (Fungible a x l) ≤ i192_MAX →
  unlock out (Fungible a x l) = (q, c') → q ≠ Panic →
  units_sound r c' ∧ units r c' ≤ units r (Fungible a x l).
Proof.
  simpl. intros Ho Hs Hcap H Hp. open_calls H. simpl in H.
  case_bool_decide as Ht; [by simplify_eq|]. case_bool_decide as Ha; [by simplify_eq|].
  destruct out as [a' y ly| | |]; try done. simpl in Ha, H. assert (a' = a) as -> by (apply dec_stable; naive_solver).
  destruct (Z.ltb_spec l y) as [|Hle]; [by simplify_eq|].
  destruct (decide (a = r)) as [->|Hne].
  - destruct (Hs eq_refl) as [Hx0 Hl0], (Ho eq_refl) as [Hy0 _].
    rewrite add_ok, sub_ok in H by lia. injection H as <- <-. simpl. rewrite !decide_True by done.
    split; [intros _|]; lia.
  - split_add H x y; [|by simplify_eq]. split_sub H l y; simplify_eq/=; by rewrite ?decide_False.
Qed.
Lemma deposit_fungible d a x l q c' :
  units_sound r d → units_sound r (Fungible a x l) →
  units r (Fungible a x l) + units r d ≤ i192_MAX →
  deposit d (Fungible a x l) = (q, c') → q ≠ Panic →
  units_sound r c' ∧ units r c' ≤ units r (Fungible a x l) + units r d.
Proof.
  simpl. intros Hd Hs Hcap H Hp. open_calls H. simpl in H.
  assert (0 ≤ units r d) as Hd0 by by apply units_nonneg.
  case_bool_decide as Ha; [simplify_eq/=; split; [done|lia]|].
  destruct d as [a' y ly| | |]; try (simplify_eq/=; split; [done|lia]). simpl in *.
  assert (a' = a) as -> by (apply dec_stable; naive_solver).
  destruct (decide (a = r)) as [->|Hne].
  - destruct (Hs eq_refl) as [Hx0 Hl0], (Hd eq_refl) as [Hy0 Hly]. rewrite add_ok in H by lia.
    injection H as <- <-. simpl. rewrite !decide_True by done. split; [intros _|]; lia.
  - split_add H x y; simplify_eq/=; by rewrite ?decide_False.
Qed.

Lemma tracked_keep m id v v' n :
  m !! id = Some v → keeps_value v v' → tracked_supply r m n → tracked_supply r (<[id := v']> m) n.
Proof.
  intros Hv Hk (res & Hm & Ht & Hh & Hn & Hmax). destruct (decide (id = SidResource r)) as [->|Hne].
  - simplify_eq/=. destruct Hk as (res' & -> & Ht' & Hn' & Hh'). exists res'.
    rewrite lookup_insert_eq. split_and!; [done|congruence..|done].
  - exists res. by rewrite lookup_insert_ne.
Qed.
Lemma tracked_other m id v n :
  id ≠ SidResource r → tracked_supply r m n → tracked_supply r (<[id := v]> m) n.
Proof. intros Hne (res & Hm & H). exists res. by rewrite lookup_insert_ne. Qed.

Lemma fungible_laws : MeasureLaws (fungible_measure r).
Proof.
  split; simpl.
  - apply units_nonneg.
  - intros m n a res c (res0 & Hm & Ht & _) Ha. unfold empty_container.
    destruct (decide (a = r)) as [->|Hne].
    + rewrite Ha in Hm. injection Hm as ->. rewrite Ht. unfold fungible. simpl. intros [= <-].
      simpl. by rewrite decide_True.
    + destruct (res_type res); unfold fungible, non_fungible, confidential, stealth; simpl;
        intros [= <-]; simpl; try done. by rewrite decide_False.
  - done.
  - intros c Hc. destruct c; simpl in *; try done. by rewrite decide_False.
  - intros m n a res (res0 & Hm & Ht & _) Ha Hr ->. rewrite Ha in Hm. injection Hm as ->. congruence.
  - intros m c q c' Hm Hs Hcap H Hp. destruct (fungible_or c) as [(a & x & l & ->)|Hc].
    + destruct Hm; try (simplify_eq/=; split; [done|lia]); by eapply withdraw_fungible.
    + eapply take_not_fungible in H as [Hc' Hq]; [|done..].
      destruct (not_fungible_stays c c' Hc Hs Hc') as (Hs' & -> & ->).
      split; [done|]. destruct q as [out| |]; [|done..].
      by destruct (not_fungible_stays c out Hc Hs (Hq out eq_refl)) as (Ho & _ & ->).
  - intros d c q c' Hs Hd Hcap H Hp. destruct (fungible_or c) as [(a & x & l & ->)|Hc];
      [exact (deposit_fungible d a x l q c' Hd Hs Hcap H Hp)|].
    eapply deposit_not_fungible in H; [|done]. pose proof (units_nonneg d Hd).
    destruct (not_fungible_stays c c' Hc Hs H) as (Hs' & -> & ->). split; [done|lia].
  - intros m c q c' Hm Hs Hcap H Hp. destruct (fungible_or c) as [(a & x & l & ->)|Hc];
      [by eapply lock_fungible|]. eapply lock_not_fungible in H as [Hc' Hq]; [|done..].
    by destruct (not_fungible_stays c c' Hc Hs Hc') as (Hs' & -> & ->).
  - intros out c q c' Ho Hs Hcap H Hp. destruct (fungible_or c) as [(a & x & l & ->)|Hc];
      [exact (unlock_fungible out a x l q c' Ho Hs Hcap H Hp)|].
    eapply unlock_not_fungible in H; [|done].
    by destruct (not_fungible_stays c c' Hc Hs H) as (Hs' & -> & ->).
  - intros m n (res & _ & _ & _ & _ & Hn). done.
  - apply tracked_keep.
  - intros m id x x' n Hx Hb. pose proof Hb as (res & Hm & _). apply tracked_other; [|done].
    intros ->. congruence.
  - intros m a x x' n Hx Ha Hb. apply tracked_other; [congruence|done].
  - intros m id v n Hid Hb. exists n. split; [done|]. pose proof Hb as (res & Hm & _).
    apply tracked_other; [|done]. intros ->. congruence.
  - intros m m' n Hm (res & Hr & H). exists n. split; [done|]. exists res.
    split; [apply Hm; [done|left; by eexists]|done].
Qed.
End measure.

(** ** Minting and burning *)
Definition mint_fits (arg : MintArg) : Prop :=
  match arg with MintFungible amt => amt ≤ i192_MAX | _ => True end.

Section laws.
Context `{Ii : !I192} `{Ic : !Crypto} `{Cb : !Cbor} `{Ih : !IdHashes} `{Dp : !Display}.
Variable encoded_len : SubstateValue → option Z.
Variable modules : list RuntimeModule.
Variable r : ResourceAddress.
Hypothesis not_xtr : r ≠ XTR.
#[local] Instance r_measure : Measure := fungible_measure r.
#[local] Instance r_laws : MeasureLaws r_measure := fungible_laws r not_xtr.
Hypothesis modules_conserve : ∀ m, m ∈ modules → module_follows conserves m.

(** Reading the resource [r] through its lock. *)
Lemma read_tracked L h s l res :
  holding L h s → l ∈ L → ls_address l = SidResource r → get_resource s l = Ok res →
  ∃ n, tracked_supply r (all_values (store s)) n ∧ res_type res = RtFungible ∧
       res_auth_hook res = None ∧ total_supply res = Some n.
Proof.
  intros Hs Hl Ha Hg.
  destruct (read_resource L h s l r res Hs Hl Ha Hg) as (res0 & Hr0 & x & [= <-] & Ht & Hn & Hh).
  destruct (holding_backed _ _ _ Hs) as (n & Hb). exists n. split; [done|].
  destruct Hb as (res' & Hr & Ht' & Hh' & Hn' & _). rewrite Hr0 in Hr. injection Hr as <-.
  split_and!; congruence.
Qed.

Lemma increase_tracked L h l ra amt :
  0 ≤ h → l ∈ L → ls_address l = SidResource r → 0 ≤ amt ≤ i192_MAX →
  triple (holding L h)
    (on_resource_mut l
       (let! increased := increase_total_supply amt in
        if increased then ret tt
        else
          let! x := get in
          let! current_supply := lift (expect (total_supply x)) in
          throw (ResourceSupplyWouldOverflow ra current_supply amt)))
    (λ _, holding L (h + amt)) (holding L h).
Proof.
  intros Hh Hl Ha Hamt s q s' Hs H. destruct (panic_or q) as [->|Hp]; [done|].
  destruct (on_resource_effect L h l _ s q s' Hs Hl H Hp) as [[? [e ->]]|(x0 & x & Hx & Hk & Hq & Hst)];
    [done|]. pose proof Hs as (_ & _ & Hf). destruct (funds_backed _ _ _ _ Hf) as (n & Hn & Hle).
  pose proof (map_total_nonneg value_worth _ (λ k v, value_worth_nonneg _ _ _ _ k v Hf)) as HA.
  pose proof (map_total_nonneg bucket_worth _ (λ k v, bucket_worth_nonneg _ _ _ _ k v Hf)) as HB.
  destruct Hn as (res & Hr & Ht & Hhk & Hn & Hmax). rewrite Ha in Hx, Hst.
  rewrite Hx in Hr. injection Hr as <-.
  destruct Hk as (x' & [= <-] & Ht' & Hn' & Hh').
  assert (total_supply x = Some n) as Hxn by congruence.
  unfold increase_total_supply, bind in Hq, Hst.
  rewrite is_non_negative_true, Hxn in Hq, Hst by lia. simpl in Hq, Hst.
  destruct (Amount.checked_add n amt) as [n'|] eqn:Hadd.
  - apply checked_add_Some in Hadd as [-> Hin]; [|unfold i192_in, i192_MIN; lia..].
    simpl in Hq. subst q. apply Hst.
    apply (funds_resource _ _ _ h _ (n + amt) _ x0); [exact Hf|done|lia| |].
    + exists (set_total_supply (Some (n + amt)) x). rewrite lookup_insert_eq. simpl.
      split_and!; [done|congruence..|by apply Hin].
    + intros k (? & ? & _ & _ & ? & _). simplify_eq. lia.
  - unfold get, lift, expect in *. rewrite Hxn in *. simpl in *. subst q. apply Hst.
    eapply funds_keep; [exact Hf|done|]. exists x. split_and!; [reflexivity|congruence..].
Qed.

Lemma mint_conserves L h l arg :
  0 ≤ h → mint_fits arg → l ∈ L →
  triple (holding L h) (mint_resource encoded_len l arg)
    (λ c s, sound c ∧ holding L (h + worth c) s) (holding L h).
Proof.
  intros Hh Hfit Hl. apply (triple_at_known _ (λ s, bind _ _)). intros s0 Hs0.
  apply triple_lift_bind; [done|]. intros ra Hra. apply triple_lift_bind; [done|]. intros res Hres.
  case_bool_decide as Htype; [by apply triple_throw|].
  assert (ls_address l = SidResource ra) as Ha.
  { destruct (ls_address l); simplify_eq/=. done. }
  destruct (decide (ra = r)) as [->|Hne].
  - destruct (read_tracked L h s0 l res Hs0 Hl Ha Hres) as (n & _ & Ht & _ & Hn).
    destruct arg as [amt| | |]; simpl in Htype; try congruence.
    cbn [mint_container]. unfold is_supply_tracking_enabled. rewrite Hn.
    destruct (Amount.is_negative amt) eqn:Hneg; [by apply triple_throw|].
    assert (0 ≤ amt) as Hamt. { unfold Amount.is_negative in Hneg. lia. }
    unfold fungible. rewrite is_non_negative_true by done.
    apply (triple_lift_bind _ (Ok (Fungible r amt 0))); [done|]. intros c [= <-].
    eapply triple_bind; [apply increase_tracked; [done|done|done|split; [done|exact Hfit]]|].
    intros u. apply triple_ret. intros s Hs. simpl. rewrite decide_True, Z.add_0_r by done.
    split; [|done]. intros _. lia.
  - by eapply mint_foreign_tail.
Qed.

(** Burning lowers the supply by no more than what leaves the bucket. *)
Lemma decrease_tracked L h l amt held :
  0 ≤ h → l ∈ L → ls_address l = SidResource r → 0 ≤ amt ≤ held →
  triple (holding L (h + held)) (on_resource_mut l (decrease_total_supply amt))
    (λ _, holding L h) (holding L h).
Proof.
  intros Hh Hl Ha Hamt s q s' Hs H. destruct (panic_or q) as [->|Hp]; [done|].
  destruct (on_resource_effect L _ l _ s q s' Hs Hl H Hp) as [[? [e ->]]|(x0 & x & Hx & Hk & Hq & Hst)].
  { eapply holding_le; [done|lia]. }
  pose proof Hs as (_ & _ & Hf). destruct (funds_backed _ _ _ _ Hf) as (n & Hn & Hle).
  pose proof (map_total_nonneg value_worth _ (λ k v, value_worth_nonneg _ _ _ _ k v Hf)) as HA.
  pose proof (map_total_nonneg bucket_worth _ (λ k v, bucket_worth_nonneg _ _ _ _ k v Hf)) as HB.
  destruct Hn as (res & Hr & Ht & Hhk & Hn & Hmax). rewrite Ha in Hx, Hst.
  rewrite Hx in Hr. injection Hr as <-. destruct Hk as (x' & [= <-] & Ht' & Hn' & Hh').
  assert (total_supply x = Some n) as Hxn by congruence.
  unfold decrease_total_supply, bind, lift, expect, put in Hq, Hst.
  rewrite is_non_negative_true, Hxn in Hq, Hst by lia. simpl in Hq, Hst.
  rewrite checked_sub_positive_eq in Hq, Hst by (unfold i192_in, i192_MIN; lia).
  case_decide; simpl in Hq, Hst; [|by destruct Hp]. subst q. apply Hst.
  apply (funds_resource _ _ _ (h + held) _ (n - amt) _ x0); [exact Hf|done|lia| |].
  - eexists. rewrite lookup_insert_eq. split_and!; [reflexivity|simpl; congruence..|]. lia.
  - intros k (? & ? & _ & _ & ? & _). simplify_eq. lia.
Qed.

Lemma lock_keeps_buckets a f : follows (λ s s', buckets s' = buckets s) (lock_substate a f).
Proof.
  intros s q s' H _. unfold lock_substate, bind, on_store, zoom, ret in H.
  destruct (store_try_lock a f (store s)) as [[] st]; by simplify_eq.
Qed.
Lemma take_bucket_known L h id b X :
  (∀ s, holding L h s → X s) →
  triple (λ s, buckets s !! id = Some b ∧ holding L h s) (take_bucket id)
    (λ b' s, (b' = b ∧ sound (bucket_container b)) ∧ holding L (h + worth (bucket_container b)) s) X.
Proof.
  intros HX s q s' [Hb Hs] H. pose proof (triple_take_bucket L h id X HX s q s' Hs H) as Hq.
  destruct q as [b'| |]; [|done..]. assert (b' = b) as ->; [|by destruct Hq].
  unfold take_bucket in H. destruct (get_bucket s id) as [b0| |] eqn:Hg; [|done..].
  apply get_bucket_lookup in Hg. unfold bind, modify, on_scope, zoom, ret in H. simplify_eq/=. congruence.
Qed.
(** The marks of burnt tokens do not matter. *)
Lemma burn_bucket_conserves bk : follows conserves (burn_bucket bk).
Proof.
  unfold burn_bucket. case_match; [apply follows_ret, _|]. case_match; [|apply follows_ret, _].
  apply follows_for_each; [apply _|]. intros id. apply follows_triple. intros L h Hh.
  pose proof (triple_burn_token L h 0 (bucket_resource_address bk) id Hh (Z.le_refl 0)) as Hb.
  rewrite Z.add_0_r in Hb. apply Hb. intros m n x x' Hx _ _ Hn. exists n.
  split; [by apply tracked_other|]. intros n0 (? & ? & _ & _ & ? & _).
  destruct Hn as (? & ? & _ & _ & ? & _). simplify_eq. lia.
Qed.
(** A tracked resource has no hook, so the bucket that is taken is the bucket whose
    resource was locked. *)
Lemma burn_tracked L h l b bk hook :
  0 ≤ h → l ∈ L → ls_address l = SidResource r → bucket_resource_address bk = r →
  triple (λ s, buckets s !! b = Some bk ∧ holding L h s)
    (let! checked := check_access_rules l Burn in
     do! invoke_hook modules hook checked.1 checked.2 Burn in
     let! bucket := take_bucket b in
     do! burn_bucket bucket in
     do! on_resource_mut l (decrease_total_supply (bucket_amount bucket)) in
     do! unlock_substate l in
     ret IrUnit) (λ _, holding L h) (holding L h).
Proof.
  intros Hh Hl Ha Hbk.
  apply (triple_bind _ _ (λ checked s, checked.1 = None ∧ buckets s !! b = Some bk ∧ holding L h s)).
  { intros s q s' [Hb Hs] [= <- <-]. destruct (get_resource s l) as [res| |] eqn:Hr; simpl; [|done..].
    destruct (read_tracked L h s l res Hs Hl Ha Hr) as (n & _ & _ & Hhook & _).
    destruct (check_resource_access_rules _ _ _ _); simpl; [|done..].
    destruct (get_auth_caller s); simpl; done. }
  intros [hk cl]. simpl. apply triple_pure. intros ->. simpl.
  apply (triple_bind _ _ (λ _ s, buckets s !! b = Some bk ∧ holding L h s)); [by apply triple_ret|].
  intros _. eapply triple_bind; [by apply take_bucket_known|]. intros bk'. apply triple_pure.
  intros [-> Hs]. eapply triple_bind.
  { apply triple_follows; [apply burn_bucket_conserves|].
    intros s Hs'. eapply holding_le; [exact Hs'|]. pose proof (worth_nonneg _ Hs). lia. }
  intros u. destruct bk as [id c]. unfold bucket_resource_address, bucket_amount in *. simpl in *.
  eapply triple_bind.
  { destruct c as [a x y|a ids ls|a cs n lc ln|a n y]; simpl in *; try done. subst a.
    rewrite decide_True by done. destruct (Hs eq_refl). apply decrease_tracked; [done..|lia]. }
  intros u'. cbv beta. eapply triple_bind; [by apply triple_follows; [follow|]|]. intros ?. by apply triple_ret.
Qed.
Lemma bucket_burn_conserves hook b :
  (∀ c m a k, follows conserves (hook c m a k)) → follows conserves (bucket_burn modules hook b).
Proof.
  intros Hhook. apply follows_triple. intros L h Hh. unfold bucket_burn.
  apply triple_get_eq. intros s0 Hs0. apply triple_lift_bind; [by intros s ->|].
  intros bk Hbk%get_bucket_lookup.
  apply (triple_pre _ (λ s, buckets s !! b = Some bk ∧ holding L h s)); [by intros s ->|].
  eapply triple_bind.
  { apply (triple_frame buckets (λ bs, bs !! b = Some bk)); [apply lock_keeps_buckets|].
    by apply triple_lock_substate. }
  intros l. cbv beta.
  apply (triple_pre _ (λ s, ls_address l = SidResource (bucket_resource_address bk) ∧
    buckets s !! b = Some bk ∧ holding (l :: L) h s)); [by intros s (? & ? & ?)|].
  apply triple_pure. intros Ha.
  apply (triple_post _ _ _ (λ _, holding (l :: L) h)); [intros ??; apply drop_lock|].
  apply (triple_exc _ _ _ _ (holding (l :: L) h)); [intros ?; apply drop_lock|].
  destruct (decide (bucket_resource_address bk = r)) as [Hr|Hne].
  - apply burn_tracked; [done|by left|congruence|done].
  - eapply triple_pre; [by intros s [_ Hs]|]. apply burn_neutral; [done..| |intros n].
    { intros bk' Hs. eapply triple_pre; [|apply triple_follows; [apply burn_bucket_conserves|done]].
      intros s Hs'. eapply holding_le; [exact Hs'|]. pose proof (worth_nonneg _ Hs). lia. }
    eapply on_resource_foreign; [by left|exact Ha|done].
Qed.
Lemma stealth_burn_conserves a id p : follows conserves (resource_stealth_burn a id p).
Proof.
  apply follows_triple. intros L h Hh. unfold resource_stealth_burn.
  eapply triple_bind; [by apply triple_lock_substate|]. intros l. apply triple_pure. intros Hla.
  apply (triple_post _ _ _ (λ _, holding (l :: L) h)); [intros ??; apply drop_lock|].
  apply (triple_exc _ _ _ _ (holding (l :: L) h)); [intros ?; apply drop_lock|].
  apply triple_get. intros s0 Hs0. apply triple_lift_bind; [weaken|]. intros res Hres.
  case_bool_decide as Ht; [by apply triple_throw|].
  assert (a ≠ r) as Hne.
  { intros ->. destruct (read_tracked _ _ _ l res Hs0 (list_elem_of_here _ _) Hla Hres)
      as (n & _ & Hf & _). congruence. }
  t_skip. t_skip. t_skip. t_skip.
  eapply triple_bind; [apply triple_follows; [solve [follow]|weaken]|]. intros value; cbv beta.
  apply (triple_bind _ _ (λ _, holding (l :: L) h)).
  - destruct value as [v|]; [|t_ret]. destruct (Amount.is_positive v); [|t_ret].
    eapply triple_bind; [by apply triple_lock_substate|]. intros l'. apply triple_pure. intros Hla'.
    apply (triple_post _ _ _ (λ _, holding (l' :: l :: L) h)); [intros ??; apply drop_lock|].
    apply (triple_exc _ _ _ _ (holding (l' :: l :: L) h)); [intros ?; apply drop_lock|].
    eapply triple_bind; [eapply on_resource_foreign; [by left|exact Hla'|done]|]. intros ?; cbv beta.
    apply triple_follows; [follow|weaken].
  - intros ?; cbv beta. t_skip. t_ret.
Qed.
End laws.

(** ** The ledger *)
(** The units of [r] in all the vaults of a ledger. *)
Definition vault_units (r : ResourceAddress) (ledger : Ledger) : Z :=
  map_total (λ v, match v with SvVault x => units r (vault_container x) | _ => 0 end)
    (substate_value <$> ledger).
(** The supply that the resource [r] reports covers what the vaults hold of it. *)
Record covered (r : ResourceAddress) (ledger : Ledger) : Prop := {
  covered_typed : ledger_typed ledger;
  covered_vaults id x v :
    ledger !! id = Some x → substate_value x = SvVault v → units_sound r (vault_container v);
  covered_supply :
    ∃ n, tracked_supply r (substate_value <$> ledger) n ∧ vault_units r ledger ≤ n;
}.

Section no_inflation.
Context `{Ii : !I192} `{Ic : !Crypto} `{Cb : !Cbor} `{Ih : !IdHashes} `{Eh : !EngineHashes}.
Context `{Hi : !HashIter} `{Dp : !Display} `{Ce : !CborEncode}.

Lemma covered_funds r ledger : covered r ledger ↔ @ledger_funds (fungible_measure r) ledger.
Proof.
  split.
  - intros [Ht Hv (n & Hn & Hle)]. split; [done|]. split; try done.
    + intros id x. rewrite lookup_fmap, fmap_Some. intros (y & Hy & Hx). by eapply Hv.
    + exists n. split; [done|]. change (map_total bucket_worth ∅) with 0.
      unfold vault_units in Hle. unfold value_worth. simpl. lia.
  - intros [Ht [Hv _ _ _ (n & Hn & Hle)]]. split; [done| |].
    + intros id x v Hx Hxv. eapply Hv. by rewrite lookup_fmap, Hx, <- Hxv.
    + exists n. split; [done|]. change (map_total bucket_worth ∅) with 0 in Hle.
      unfold vault_units. unfold value_worth in Hle. simpl in Hle. lia.
Qed.
Lemma fungible_calls r encoded_len cost weight table functions_of signer :
  r ≠ XTR →
  CallLaws encoded_len [fee_module encoded_len cost weight table] functions_of signer
    (action_fits mint_fits) (@conserves (fungible_measure r)).
Proof.
  intros Hr. pose proof (fungible_laws r Hr) as Ml.
  assert (∀ m, m ∈ [fee_module encoded_len cost weight table] →
    module_follows (@conserves (fungible_measure r)) m) as Hm.
  { intros m ->%list_elem_of_singleton. apply fee_module_follows, _. }
  apply conserves_calls; [done|..].
  - by apply mint_conserves.
  - intros hook b. by apply bucket_burn_conserves.
  - by apply stealth_burn_conserves.
Qed.

(** C2: no inflation.  Take a fungible resource other than the fee token that
    tracks its supply and has no authorization hook, on a ledger where that supply
    covers the units in all vaults.  After any accepted transaction whose diff
    applies, whatever its instructions and whatever the templates it calls do,
    however they nest, fail and carry on, the supply still covers the units in all vaults.  The amounts that
    templates mint are values of the 192-bit type of amounts. *)
Theorem no_inflation r encoded_len cost weight table template_provider verify_claim_proof
    verify_signature error_text loads_as_template max_template_size state_db epoch proofs tx f d
    ledger' :
  r ≠ XTR → provider_fits (op_fits (action_fits mint_fits)) template_provider →
  covered r state_db →
  execute encoded_len [fee_module encoded_len cost weight table] template_provider
    verify_claim_proof verify_signature error_text loads_as_template max_template_size
    state_db epoch proofs tx = Ok f →
  any_accept (fin_result f) = Some d → apply_diff d state_db = Some ledger' →
  covered r ledger'.
Proof.
  rewrite !covered_funds. intros Hr Hcode. pose proof (fungible_laws r Hr) as Ml.
  apply (accepted_funds (action_fits mint_fits)); [|done]. intros signer. by apply fungible_calls.
Qed.
End no_inflation.

Lemma example_covered : covered 1 Examples.example_ledger.
Proof.
  split; [apply example_ledger_typed| |].
  - intros id x v Hx. apply elem_of_map_to_list in Hx. revert Hx.
    vm_compute (map_to_list Examples.example_ledger). rewrite !elem_of_cons, elem_of_nil.
    intros Hx Hv. destruct_or!; simplify_eq/=; intros Ha; first [done|split; lia].
  - exists 100. split; [|by vm_compute]. exists Examples.example_resource.
    split_and!; [by vm_compute|done..|by vm_compute].
Qed.
Lemma minting_fits : provider_fits (op_fits (action_fits mint_fits)) (minting_provider (MintFungible 5)).
Proof.
  intros a t. unfold minting_provider. case_bool_decide; [|done]. intros [= <-] f args.
  split; [by vm_compute|]. intros [[]|]; simpl; done.
Qed.
Lemma no_inflation_witness :
  ∃ ledger', example_commit Examples.example_ledger (minting_provider (MintFungible 5))
      [InsCallFunction 6%N "run" []] = Some ledger' ∧
    covered 1 ledger'.
Proof.
  destruct minting_commits as (f & d & ledger' & Hf & Hd & Ha). exists ledger'. split.
  - unfold example_commit. rewrite Hf, Hd. exact Ha.
  - exact (@no_inflation i192_panicking ideal_crypto int_cbor example_hashes
      example_engine_hashes hash_iter_elements example_display example_encode 1
      _ _ _ _ _ _ _ _ _ _ _ _ _ _ _ _ _ ltac:(done) minting_fits example_covered Hf Hd Ha).
Defined.
