(* ===== verification/TokenUniqueness.v ===== *)
(** * A non-fungible token is in one place

    The token [t] of the non-fungible resource [r]: it is in at most one vault or
    bucket, and there at most once, available or locked; and it is nowhere before
    it is minted and after it is burnt.  Burning leaves its substate behind, so it
    is never minted again. *)
From stdpp Require Import base gmap list strings numbers.
From S2P Require Import Prelude Bor BTree Ids IndexedValue IdProvider Amount Crypto Confidential.
From S2P Require Import ResourceContainer FreezeFlags Proof Bucket Vault AccessRules RuntimeError.
From S2P Require Import Auth Locking Fees Substate Stealth FeeState Scope StateStore Workspace.
From S2P Require Import WorkingState Runtime RuntimeCalls Engine Processor Examples Steps Holdings.
From S2P Require Import EngineRuns Transactions Commit LedgerDiff LedgerTypes Conservation.
Open Scope Z_scope.

(** ** The measure: how often a container holds the token *)
Definition in_set (t : NonFungibleId) (s : gset NonFungibleId) : Z := if decide (t ∈ s) then 1 else 0.
Definition copies (r : ResourceAddress) (t : NonFungibleId) (c : ResourceContainer) : Z :=
  match c with
  | ResourceContainer.NonFungible a ids locked => if decide (a = r) then in_set t ids + in_set t locked else 0
  | _ => 0
  end.
Definition token_id (r : ResourceAddress) (t : NonFungibleId) : SubstateId :=
  SidNonFungible (MkNonFungibleAddress r t).
(** The token exists: it has been minted and not burnt. *)
Definition live (v : option SubstateValue) : Z :=
  match v with Some (SvNonFungible x) => if nf_is_burnt x then 0 else 1 | _ => 0 end.
(** The resource is non-fungible, and [n] is one when the token has been minted and
    not burnt. *)
Definition minted (r : ResourceAddress) (t : NonFungibleId)
    (m : gmap SubstateId SubstateValue) (n : Z) : Prop :=
  (∃ res, m !! SidResource r = Some (SvResource res) ∧ res_type res = RtNonFungible) ∧
  n = live (m !! token_id r t).
Definition token_measure (r : ResourceAddress) (t : NonFungibleId) : Measure := {|
  worth := copies r t;
  sound := λ _, True;
  foreign := λ a, a ≠ r;
  backed := minted r t;
  cap := 1;
|}.

Section counting.
Context `{Ii : !I192}.
Variable t : NonFungibleId.

Lemma in_set_bounds s : 0 ≤ in_set t s ≤ 1.
Proof. unfold in_set. case_decide; lia. Qed.
Lemma in_set_union s1 s2 : in_set t (s1 ∪ s2) ≤ in_set t s1 + in_set t s2.
Proof. unfold in_set. repeat case_decide; set_solver by lia. Qed.
Lemma in_set_split s s1 s2 : s = s1 ∪ s2 → s1 ## s2 → in_set t s = in_set t s1 + in_set t s2.
Proof. intros -> Hd. unfold in_set. repeat case_decide; set_solver by lia. Qed.
Lemma in_set_empty : in_set t ∅ = 0.
Proof. unfold in_set. case_decide; set_solver. Qed.
Lemma in_set_remove x s : x ∈ s → in_set t s = in_set t (s ∖ {[x]}) + in_set t {[x]}.
Proof.
  intros Hx. apply in_set_split; [|set_solver]. apply set_eq. intros y.
  destruct (decide (y = x)); set_solver.
Qed.

Lemma pop_tokens_count amt s out rest :
  pop_tokens amt s = Ok (out, rest) → in_set t rest + in_set t out = in_set t s.
Proof.
  unfold pop_tokens. intros H. case_match; try done;
    apply res_bind_Ok in H as (n & _ & H); apply res_bind_Ok in H as ([xs s'] & Hp%expect_Ok & [= <- <-]);
    apply pop_first_n_split in Hp as (_ & _ & Hs & Hd); simpl;
    rewrite (in_set_split s (list_to_set xs) s') by done; lia.
Qed.
Lemma take_tokens_count ids s q s' :
  take_tokens ids s = (q, s') →
  match q with
  | Ok out => in_set t s' + in_set t out ≤ in_set t s
  | _ => in_set t s' ≤ in_set t s
  end.
Proof.
  revert s q s'. induction ids as [|x ids IH]; intros s q s'; simpl.
  { intros [= <- <-]. rewrite in_set_empty. lia. }
  destruct (decide (x ∈ s)) as [Hx|]; [|by intros [= <- <-]].
  pose proof (in_set_remove x s Hx). pose proof (in_set_bounds {[x]}).
  unfold bind, ret. destruct (take_tokens ids (s ∖ {[x]})) as [[out|e|] s1] eqn:Ht;
    intros [= <- <-]; apply IH in Ht; [|lia..].
  pose proof (in_set_union {[x]} out). lia.
Qed.
Lemma lock_tokens_count ids s l q s' l' :
  lock_tokens ids (s, l) = (q, (s', l')) → in_set t s' + in_set t l' ≤ in_set t s + in_set t l.
Proof.
  revert s l q s' l'. induction ids as [|x ids IH]; intros s l q s' l'; simpl; [by intros [= <- <- <-]|].
  destruct (decide (x ∈ s)) as [Hx|]; [|by intros [= <- <- <-]].
  pose proof (in_set_remove x s Hx). pose proof (in_set_union l {[x]}).
  unfold bind, ret. destruct (lock_tokens ids _) as [[out|e|] [s1 l1]] eqn:Ht;
    intros [= <- <- <-]; apply IH in Ht; lia.
Qed.
Lemma unlock_tokens_count ids s l q s' l' :
  unlock_tokens ids (s, l) = (q, (s', l')) → in_set t s' + in_set t l' ≤ in_set t s + in_set t l.
Proof.
  revert s l q s' l'. induction ids as [|x ids IH]; intros s l q s' l'; simpl; [by intros [= <- <- <-]|].
  destruct (decide (x ∈ l)) as [Hx|]; [|by intros [= <- <- <-]].
  intros Ht%IH. pose proof (in_set_remove x l Hx). pose proof (in_set_union s {[x]}). lia.
Qed.
End counting.

Section measure.
Context `{Ii : !I192} `{Ic : !Crypto}.
Variable r : ResourceAddress.
Variable t : NonFungibleId.
Hypothesis not_xtr : r ≠ XTR.
#[local] Instance the_token_measure : Measure := token_measure r t.

(** Containers of the other kinds stay of their kind. *)
Definition not_token (c : ResourceContainer) : Prop :=
  match c with ResourceContainer.NonFungible _ _ _ => False | _ => True end.
Lemma token_or c : (∃ a ids l, c = ResourceContainer.NonFungible a ids l) ∨ not_token c.
Proof. destruct c; [by right|left; eauto|by right..]. Qed.
Lemma not_token_copies c : not_token c → copies r t c = 0.
Proof. by destruct c. Qed.
Lemma copies_nonneg c : 0 ≤ copies r t c.
Proof.
  destruct c as [|a ids l| |]; simpl; try done. case_decide; [|done].
  pose proof (in_set_bounds t ids). pose proof (in_set_bounds t l). lia.
Qed.

Ltac open_calls H :=
  unfold withdraw_all, withdraw, withdraw_by_ids, withdraw_confidential,
    recall_confidential_commitments, lock_all, lock_by_amount, lock_by_non_fungible_ids, unlock,
    deposit, bind, lift, put, ret, throw, confidential, stealth, fungible, non_fungible in H.
Lemma take_not_token m c q c' :
  container_take m → not_token c → m c = (q, c') →
  not_token c' ∧ ∀ out, q = Ok out → not_token out.
Proof.
  intros Hm Hc H. destruct c as [a n l| |a cs n lc ln|a n l]; [|done|..];
    destruct Hm; open_calls H; repeat case_match; simplify_eq/=; split; try done;
    intros ? ?; by simplify_eq/=.
Qed.
Lemma lock_not_token m c q c' : container_lock m → not_token c → m c = (q, c') → not_token c'.
Proof.
  intros Hm Hc H. destruct c as [a n l| |a cs n lc ln|a n l]; [|done|..];
    destruct Hm; open_calls H; repeat case_match; by simplify_eq/=.
Qed.
Lemma unlock_not_token out c q c' : not_token c → unlock out c = (q, c') → not_token c'.
Proof.
  intros Hc H. destruct c as [a n l| |a cs n lc ln|a n l]; [|done|..];
    open_calls H; repeat case_match; by simplify_eq/=.
Qed.
Lemma deposit_not_token d c q c' : not_token c → deposit d c = (q, c') → not_token c'.
Proof.
  intros Hc H. destruct c as [a n l| |a cs n lc ln|a n l]; [|done|..];
    destruct d; open_calls H; repeat case_match; by simplify_eq/=.
Qed.

(** Operations on a container of tokens. *)
Lemma withdraw_copies amt a ids l q c' :
  withdraw amt (ResourceContainer.NonFungible a ids l) = (q, c') →
  match q with
  | Ok out => copies r t c' + copies r t out ≤ copies r t (ResourceContainer.NonFungible a ids l)
  | _ => copies r t c' ≤ copies r t (ResourceContainer.NonFungible a ids l)
  end.
Proof.
  intros H. open_calls H. destruct (negb _); [by simplify_eq|].
  destruct (pop_tokens amt ids) as [[out rest]| |] eqn:Hp; simplify_eq; [|done..].
  apply (pop_tokens_count t) in Hp. simpl. case_decide; [|done]. rewrite in_set_empty. lia.
Qed.
Lemma take_copies m a ids l q c' :
  container_take m → m (ResourceContainer.NonFungible a ids l) = (q, c') →
  match q with
  | Ok out => copies r t c' + copies r t out ≤ copies r t (ResourceContainer.NonFungible a ids l)
  | _ => copies r t c' ≤ copies r t (ResourceContainer.NonFungible a ids l)
  end.
Proof.
  intros Hm H. destruct Hm; try by simplify_eq/=.
  - by eapply withdraw_copies.
  - by eapply withdraw_copies.
  - unfold withdraw_by_ids in H. destruct (take_tokens _ ids) as [x s'] eqn:Ht.
    apply (take_tokens_count t) in Ht. open_calls H. destruct x; simplify_eq/=;
      (case_decide; [|done]); rewrite ?in_set_empty; lia.
Qed.
Lemma lock_copies m a ids l q c' :
  container_lock m → m (ResourceContainer.NonFungible a ids l) = (q, c') →
  copies r t c' ≤ copies r t (ResourceContainer.NonFungible a ids l).
Proof.
  intros Hm H. destruct Hm as [|amt|ls].
  - open_calls H. case_bool_decide; simplify_eq; [done|]. simpl. case_decide; [|done].
    pose proof (in_set_union t l ids). rewrite in_set_empty. lia.
  - open_calls H. destruct (pop_tokens amt ids) as [[out rest]| |] eqn:Hp; simplify_eq; [|done..].
    apply (pop_tokens_count t) in Hp. simpl. case_decide; [|done]. pose proof (in_set_union t l out). lia.
  - unfold lock_by_non_fungible_ids in H. destruct (lock_tokens _ _) as [x [s' l']] eqn:Ht.
    apply (lock_tokens_count t) in Ht. open_calls H. destruct x; simplify_eq/=; (case_decide; [|done]); lia.
Qed.
Lemma unlock_copies out a ids l q c' :
  unlock out (ResourceContainer.NonFungible a ids l) = (q, c') →
  copies r t c' ≤ copies r t (ResourceContainer.NonFungible a ids l).
Proof.
  intros H. unfold unlock in H. repeat (case_bool_decide; [by simplify_eq|]).
  destruct (_ <? _); [by simplify_eq|].
  destruct (unlock_tokens _ _) as [x [s' l']] eqn:Ht. apply (unlock_tokens_count t) in Ht.
  open_calls H. destruct x; simplify_eq/=; (case_decide; [|done]); lia.
Qed.
Lemma deposit_copies d a ids l q c' :
  deposit d (ResourceContainer.NonFungible a ids l) = (q, c') →
  copies r t c' ≤ copies r t (ResourceContainer.NonFungible a ids l) + copies r t d.
Proof.
  intros H. pose proof (copies_nonneg d) as Hd. unfold deposit in H.
  case_bool_decide as Ha; [simplify_eq; lia|]. simpl in Ha.
  destruct d as [|a' ids' l'| |]; try (simplify_eq; lia). simpl in *.
  destruct (_ <=? _); simplify_eq/=; [lia|].
  case_decide; [|lia].
  pose proof (in_set_union t ids ids'). pose proof (in_set_bounds t l'). lia.
Qed.

Lemma minted_keep m id v v' n :
  m !! id = Some v → keeps_value v v' → minted r t m n → minted r t (<[id := v']> m) n.
Proof.
  intros Hv Hk [(res & Hr & Ht) ->]. split.
  - destruct (decide (id = SidResource r)) as [->|Hne].
    + rewrite Hv in Hr. injection Hr as ->. destruct Hk as (res' & -> & Ht' & _).
      exists res'. rewrite lookup_insert_eq. split; [done|congruence].
    + exists res. by rewrite lookup_insert_ne.
  - destruct (decide (id = token_id r t)) as [->|Hne]; [|by rewrite lookup_insert_ne].
    rewrite lookup_insert_eq, Hv. pose proof (keeps_kind _ _ Hk (token_id r t)) as Hty.
    destruct v, v'; simpl in *; try done; try (by destruct Hk as (? & ? & ?)).
    destruct Hk as (? & [= <-] & ->). done.
Qed.
Lemma minted_new m id v n :
  m !! id = None → minted r t m n → ∃ n', n ≤ n' ∧ minted r t (<[id := v]> m) n'.
Proof.
  intros Hid [(res & Hr & Ht) ->].
  exists (live (<[id := v]> m !! token_id r t)). split.
  - destruct (decide (id = token_id r t)) as [->|Hne]; [|by rewrite lookup_insert_ne].
    rewrite lookup_insert_eq, Hid. destruct v; simpl; try done. by case_match.
  - split; [|done]. exists res. rewrite lookup_insert_ne; [done|]. intros ->. congruence.
Qed.

Lemma token_laws : MeasureLaws (token_measure r t).
Proof.
  split; simpl.
  - intros c _. apply copies_nonneg.
  - intros m n a res c _ _. unfold empty_container. destruct (res_type res);
      unfold fungible, non_fungible, confidential, stealth; simpl; intros [= <-]; simpl; try done.
    split; [done|]. case_decide; [|done]. by rewrite in_set_empty.
  - done.
  - intros c Hc. split; [done|]. destruct c; simpl in *; try done. by rewrite decide_False.
  - intros m n a res [(res0 & Hr & Ht) _] Ha Hs ->. rewrite Ha in Hr. injection Hr as ->. congruence.
  - intros m c q c' Hm _ _ H _. split; [done|]. destruct (token_or c) as [(a & ids & l & ->)|Hc].
    + apply take_copies in H; [|done]. by destruct q.
    + eapply take_not_token in H as [Hc' Hq]; [|done..].
      rewrite (not_token_copies c), (not_token_copies c') by done. destruct q as [out| |]; [|done..].
      by rewrite (not_token_copies out) by auto.
  - intros d c q c' _ _ _ H _. split; [done|]. destruct (token_or c) as [(a & ids & l & ->)|Hc];
      [by eapply deposit_copies|]. apply deposit_not_token in H; [|done].
    rewrite (not_token_copies c), (not_token_copies c') by done. apply copies_nonneg.
  - intros m c q c' Hm _ _ H _. split_and!; try done. destruct (token_or c) as [(a & ids & l & ->)|Hc];
      [by eapply lock_copies|]. eapply lock_not_token in H; [|done..].
    by rewrite (not_token_copies c), (not_token_copies c').
  - intros out c q c' _ _ _ H _. split; [done|]. destruct (token_or c) as [(a & ids & l & ->)|Hc];
      [by eapply unlock_copies|]. eapply unlock_not_token in H; [|done..].
    by rewrite (not_token_copies c), (not_token_copies c').
  - intros m n [_ ->]. unfold live. repeat case_match; lia.
  - apply minted_keep.
  - intros m id x x' n Hx [(res & Hr & Ht) ->]. split.
    + exists res. rewrite lookup_insert_ne; [done|]. intros ->. congruence.
    + destruct (decide (id = token_id r t)) as [->|Hne]; [by rewrite lookup_insert_eq, Hx|].
      by rewrite lookup_insert_ne.
  - intros m a x x' n Hx Ha [(res & Hr & Ht) ->]. split.
    + exists res. rewrite lookup_insert_ne; [done|congruence].
    + by rewrite lookup_insert_ne.
  - apply minted_new.
  - intros m m' n Hm [(res & Hr & Ht) ->].
    exists (live (m' !! token_id r t)). split; [|split; [|done]].
    + destruct (m !! token_id r t) as [v|] eqn:Hv; [|unfold live; by repeat case_match].
      destruct v; try (unfold live; by repeat case_match). rewrite (Hm _ _ Hv); [done|right; by eexists].
    + exists res. split; [apply Hm; [done|left; by eexists]|done].
Qed.
End measure.

(** ** Minting and burning *)
Section laws.
Context `{Ii : !I192} `{Ic : !Crypto} `{Cb : !Cbor} `{Ih : !IdHashes} `{Dp : !Display}.
Variable encoded_len : SubstateValue → option Z.
Variable modules : list RuntimeModule.
Variable r : ResourceAddress.
Variable t : NonFungibleId.
Hypothesis not_xtr : r ≠ XTR.
#[local] Instance rt_measure : Measure := token_measure r t.
#[local] Instance rt_laws : MeasureLaws rt_measure := token_laws r t not_xtr.
Hypothesis modules_conserve : ∀ m, m ∈ modules → module_follows conserves m.

(** An update of a resource that keeps its type; the supply does not matter. *)
Lemma on_resource_typed {A : Type} L h l a (m : M Resource RuntimeError A) :
  (∀ x, res_type (m x).2 = res_type x) → l ∈ L → ls_address l = SidResource a →
  triple (holding L h) (on_resource_mut l m) (λ _, holding L h) (holding L h).
Proof.
  intros Hm Hl Ha. destruct (decide (a = r)) as [->|Hne]; [|by eapply on_resource_foreign].
  intros s q s' Hs H. destruct (panic_or q) as [->|Hp]; [done|].
  assert (holding L h s'); [|by destruct q].
  destruct (on_resource_effect L h l m s q s' Hs Hl H Hp) as [[? _]|(x0 & x & Hx & Hk & _ & Hst)];
    [done|]. apply Hst. destruct Hs as (_ & _ & Hf).
  destruct (funds_backed _ _ _ _ Hf) as (n & [(res & Hr & Ht) Hn] & _). rewrite Ha in *.
  rewrite Hx in Hr. injection Hr as ->. destruct Hk as (x' & [= <-] & Ht' & _).
  assert (∀ k, minted r t (all_values (store s)) k → k = n) as Hu by by intros k [_ ->].
  eapply (funds_resource _ _ _ h h n); [exact Hf|done|by apply Hf| |by intros k ->%Hu; lia].
  split; [|by rewrite lookup_insert_ne]. eexists. rewrite lookup_insert_eq. split; [done|].
  rewrite Hm. congruence.
Qed.
Lemma decrease_typed n x : res_type (@decrease_total_supply _ RuntimeError n x).2 = res_type x.
Proof.
  unfold decrease_total_supply, bind, lift, put. repeat case_match; by simplify_eq/=.
Qed.
Lemma increase_typed n ra x :
  res_type ((let! increased := @increase_total_supply _ RuntimeError n in
             if increased then ret tt
             else
               let! x := get in
               let! current_supply := lift (expect (total_supply x)) in
               throw (ResourceSupplyWouldOverflow ra current_supply n)) x).2 = res_type x.
Proof.
  unfold increase_total_supply, bind, lift, get, ret, throw. repeat case_match; by simplify_eq/=.
Qed.

(** Minting the token puts it in hand; it was nowhere. *)
Lemma new_token L h nf :
  0 ≤ h → nf_is_burnt nf = false →
  triple (holding L h) (new_substate encoded_len (token_id r t) (SvNonFungible nf))
    (λ _, holding L (h + 1)) (holding L h).
Proof.
  intros Hh Hnf. unfold new_substate. t_skip. t_skip.
  intros s q s' Hs Hrun. pose proof Hs as (HL & Hok & Hf).
  unfold on_store, zoom in Hrun. destruct (store_insert _ _ _) as [q0 st] eqn:Hq.
  injection Hrun as <- <-. apply store_insert_effect in Hq as (Hl & Hok' & Hall); [|done..].
  assert (∀ h', funds_ok (all_values st) (buckets s) (proofs s) h' → holding L h' (set_store st s))
    as Hst. { intros h' Hf'. split_and!; [|done..]. unfold standing. simpl. by rewrite Hl. }
  destruct Hall as [[-> [e ->]]|[Hn Hall]]; [done|].
  assert (holding L (h + 1) (set_store st s)) as Hs'.
  { apply Hst. rewrite Hall. pose proof Hf as [H1 H2 H3 H4 (n & [(res & Hr & Ht) Hm] & Hle)].
    rewrite Hn in Hm. simpl in Hm. split; try done; [lia|].
    exists 1. rewrite map_total_insert_new by done. simpl. split; [|lia].
    split; [|rewrite lookup_insert_eq; simpl; by rewrite Hnf]. exists res. by rewrite lookup_insert_ne. }
  destruct q0; [done| |done]. eapply holding_le; [exact Hs'|lia].
Qed.
Lemma mint_tokens_list L (l : list (NonFungibleId * (Value * Value))) :
  NoDup l.*1 → ∀ h, 0 ≤ h →
  triple (holding L h) (for_each l (mint_token encoded_len r))
    (λ _, holding L (h + in_set t (list_to_set l.*1))) (holding L h).
Proof.
  induction l as [|[id [data mut_data]] l IH]; intros Hn h Hh.
  { apply triple_ret. intros s Hs. csimpl. by rewrite in_set_empty, Z.add_0_r. }
  csimpl in *. apply list.NoDup_cons in Hn as [Hid Hn].
  pose proof (in_set_bounds t (list_to_set l.*1)) as Hb.
  apply (triple_bind _ _ (λ _, holding L (h + in_set t {[id]}))).
  - intros s q s' Hs H. unfold mint_token in H.
    destruct (substate_exists _ _); [by simplify_eq|]. destruct (decide (id = t)) as [->|Hne].
    + replace (in_set t {[t]}) with 1 by (unfold in_set; by rewrite decide_True by set_solver).
      exact (new_token L h (nf_new data mut_data) Hh eq_refl s q s' Hs H).
    + replace (in_set t {[id]}) with 0 by (unfold in_set; by rewrite decide_False by set_solver).
      rewrite Z.add_0_r. refine (triple_follows L h _ (holding L h) _ _ s q s' Hs H); [|done].
      apply new_substate_follows; [apply _|done..].
  - intros u. pose proof (in_set_bounds t {[id]}).
    assert (0 ≤ h + in_set t {[id]}) as Hh' by lia. specialize (IH Hn _ Hh').
    eapply triple_exc; [|eapply triple_post; [|exact IH]].
    + intros s Hs. eapply holding_le; [exact Hs|lia].
    + intros v s Hs. eapply holding_le; [exact Hs|].
      rewrite (in_set_split t ({[id]} ∪ list_to_set l.*1) {[id]} (list_to_set l.*1)); [lia|done|set_solver].
Qed.
Lemma mint_unique L h l arg :
  0 ≤ h → l ∈ L →
  triple (holding L h) (mint_resource encoded_len l arg)
    (λ c s, sound c ∧ holding L (h + worth c) s) (holding L h).
Proof.
  intros Hh Hl. apply (triple_at_known _ (λ s, bind _ _)). intros s0 Hs0.
  apply triple_lift_bind; [done|]. intros ra Hra. apply triple_lift_bind; [done|]. intros res Hres.
  case_bool_decide as Htype; [by apply triple_throw|].
  assert (ls_address l = SidResource ra) as Ha.
  { destruct (ls_address l); simplify_eq/=. done. }
  destruct (decide (ra = r)) as [->|Hne]; [|by eapply mint_foreign_tail].
  destruct (read_resource L h s0 l r res Hs0 Hl Ha Hres) as (res0 & Hr0 & x & [= <-] & Ht & _).
  destruct (holding_backed _ _ _ Hs0) as (n & [(res' & Hr & Ht') _]).
  rewrite Hr0 in Hr. injection Hr as <-.
  destruct arg as [|tokens| |]; simpl in Htype; try congruence. cbn [mint_container].
  apply (triple_bind _ _ (λ c, holding L (h + worth c))).
  - eapply triple_bind; [apply mint_tokens_list; [apply btree_map_iter_NoDup|done]|].
    intros u. apply triple_ret. intros s Hs. simpl. rewrite decide_True, in_set_empty, Z.add_0_r by done.
    replace (dom tokens) with (list_to_set (btree_map_iter tokens).*1 : gset NonFungibleId); [done|].
    apply set_eq. intros id. rewrite elem_of_list_to_set, elem_of_dom, list_elem_of_fmap. split.
    + intros ([id' d] & -> & Hin%elem_of_btree_map_iter). by eexists.
    + intros [d Hd]. exists (id, d). split; [done|]. by apply elem_of_btree_map_iter.
  - intros c. pose proof (worth_nonneg c Logic.I) as Hc.
    assert (∀ s, holding L (h + worth c) s → holding L h s) as Hle.
    { intros s Hs. eapply holding_le; [exact Hs|]. simpl in *. lia. }
    destruct (is_supply_tracking_enabled res); [|by apply triple_ret].
    eapply triple_bind; [eapply triple_exc; [exact Hle|]|].
    { eapply on_resource_typed; [|exact Hl|exact Ha]. intros y. apply increase_typed. }
    intros u. by apply triple_ret.
Qed.
(** Burning a bucket takes what is in hand of the token. *)
Lemma burn_tokens_list L (l : list NonFungibleId) :
  NoDup l → ∀ h, 0 ≤ h →
  triple (holding L (h + in_set t (list_to_set l))) (for_each l (burn_token r))
    (λ _, holding L h) (holding L h).
Proof.
  induction l as [|id l IH]; intros Hn h Hh.
  { apply triple_ret. intros s Hs. csimpl in Hs. by rewrite in_set_empty, Z.add_0_r in Hs. }
  csimpl in *. apply list.NoDup_cons in Hn as [Hid Hn].
  rewrite (in_set_split t ({[id]} ∪ list_to_set l) {[id]} (list_to_set l)) by (done || set_solver).
  pose proof (in_set_bounds t (list_to_set l)) as Hb. pose proof (in_set_bounds t {[id]}) as Hb'.
  rewrite Z.add_assoc, Z.add_shuffle0.
  apply (triple_bind _ _ (λ _, holding L (h + in_set t (list_to_set l)))); [|intros []; by apply IH].
  eapply triple_exc; [|apply triple_burn_token; [lia..|]].
  { intros s Hs. eapply holding_le; [exact Hs|lia]. }
  intros m n x x' Hx Hlive Hburnt [(res & Hr & Ht) Hn'].
  exists (live (<[SidNonFungible (MkNonFungibleAddress r id) := SvNonFungible x']> m !! token_id r t)).
  split.
  - split; [|done]. exists res. by rewrite lookup_insert_ne.
  - intros n0 [_ ->]. unfold in_set. destruct (decide (id = t)) as [->|Hne].
    + rewrite decide_True by set_solver. unfold token_id. rewrite lookup_insert_eq, Hx. simpl.
      rewrite Hlive, Hburnt. lia.
    + rewrite decide_False by set_solver. rewrite lookup_insert_ne; [lia|]. unfold token_id. congruence.
Qed.
(** Tokens of another resource. *)
Lemma burn_other_token a id : a ≠ r → follows conserves (burn_token a id).
Proof.
  intros Ha. apply follows_triple. intros L h Hh.
  pose proof (triple_burn_token L h 0 a id Hh (Z.le_refl 0)) as Hb. rewrite Z.add_0_r in Hb. apply Hb.
  intros m n x x' Hx _ _ [(res & Hr & Ht) Hn]. exists n. split.
  - split; [exists res; by rewrite lookup_insert_ne|]. rewrite lookup_insert_ne; [done|].
    unfold token_id. congruence.
  - intros n0 [_ ->]. lia.
Qed.
Lemma burn_bucket_held L h bk :
  0 ≤ h →
  triple (holding L (h + worth (bucket_container bk))) (burn_bucket bk) (λ _, holding L h) (holding L h).
Proof.
  intros Hh. pose proof (worth_nonneg (bucket_container bk) Logic.I) as Hw.
  assert (∀ s, holding L (h + worth (bucket_container bk)) s → holding L h s) as Hle.
  { intros s Hs. eapply holding_le; [exact Hs|lia]. }
  unfold burn_bucket. destruct (Amount.is_zero _); [by apply triple_ret|].
  destruct bk as [id c]. unfold bucket_resource_address. simpl in *.
  destruct c as [|a ids locked| |]; simpl; try (by apply triple_ret).
  destruct (decide (a = r)) as [->|Hne].
  - eapply triple_pre; [|apply burn_tokens_list; [apply btree_iter_NoDup|done]].
    intros s Hs. eapply holding_le; [exact Hs|].
    rewrite list_to_set_btree_iter. pose proof (in_set_bounds t ids). pose proof (in_set_bounds t locked). lia.
  - rewrite Z.add_0_r. apply triple_follows; [|done].
    apply follows_for_each; [apply _|]. intros x. by apply burn_other_token.
Qed.
Lemma token_burn_conserves hook b :
  (∀ c m a k, follows conserves (hook c m a k)) → follows conserves (bucket_burn modules hook b).
Proof.
  intros Hhook. apply follows_triple. intros L h Hh. unfold bucket_burn. t_skip. t_skip.
  eapply triple_bind; [by apply triple_lock_substate|]. intros l. apply triple_pure. intros Ha.
  apply (triple_post _ _ _ (λ _, holding (l :: L) h)); [intros ??; apply drop_lock|].
  apply (triple_exc _ _ _ _ (holding (l :: L) h)); [intros ?; apply drop_lock|].
  apply burn_neutral; [done..|intros bk _; by apply burn_bucket_held|intros n].
  eapply on_resource_typed; [intros x; apply decrease_typed|by left|exact Ha].
Qed.
Lemma token_stealth_burn_conserves a id p : follows conserves (resource_stealth_burn a id p).
Proof.
  apply follows_triple. intros L h Hh. unfold resource_stealth_burn. t_skip. t_skip. t_skip.
  case_bool_decide; [by apply triple_throw|]. t_skip. t_skip. t_skip. t_skip.
  eapply triple_bind; [apply triple_follows; [solve [follow]|weaken]|]. intros value; cbv beta.
  apply (triple_bind _ _ (λ _, holding L h)).
  - destruct value as [v|]; [|t_ret]. destruct (Amount.is_positive v); [|t_ret].
    eapply triple_bind; [by apply triple_lock_substate|]. intros l'. apply triple_pure. intros Hla'.
    apply (triple_post _ _ _ (λ _, holding (l' :: L) h)); [intros ??; apply drop_lock|].
    apply (triple_exc _ _ _ _ (holding (l' :: L) h)); [intros ?; apply drop_lock|].
    eapply triple_bind;
      [eapply on_resource_typed; [intros x; apply decrease_typed|by left|exact Hla']|].
    intros ?; cbv beta. apply triple_follows; [follow|weaken].
  - intros ?; cbv beta. t_skip. t_ret.
Qed.
End laws.

(** ** The ledger *)
(** How often the token is in a vault of the ledger. *)
Definition vault_copies (r : ResourceAddress) (t : NonFungibleId) (ledger : Ledger) : Z :=
  map_total (λ v, match v with SvVault x => copies r t (vault_container x) | _ => 0 end)
    (substate_value <$> ledger).
(** The token is at most once in the vaults, and not at all before it is minted or
    after it is burnt. *)
Record in_one_place (r : ResourceAddress) (t : NonFungibleId) (ledger : Ledger) : Prop := {
  place_typed : ledger_typed ledger;
  place_minted :
    ∃ n, minted r t (substate_value <$> ledger) n ∧ vault_copies r t ledger ≤ n;
}.

Section one_place.
Context `{Ii : !I192} `{Ic : !Crypto} `{Cb : !Cbor} `{Ih : !IdHashes} `{Eh : !EngineHashes}.
Context `{Hi : !HashIter} `{Dp : !Display} `{Ce : !CborEncode}.

Lemma in_one_place_funds r t ledger :
  in_one_place r t ledger ↔ @ledger_funds (token_measure r t) ledger.
Proof.
  split.
  - intros [Ht (n & Hn & Hle)]. split; [done|]. split; try done.
    exists n. split; [done|]. change (map_total bucket_worth ∅) with 0.
    unfold vault_copies in Hle. unfold value_worth. simpl. lia.
  - intros [Ht [_ _ _ _ (n & Hn & Hle)]]. split; [done|].
    exists n. split; [done|]. change (map_total bucket_worth ∅) with 0 in Hle.
    unfold vault_copies. unfold value_worth in Hle. simpl in Hle. lia.
Qed.
Lemma token_calls r t encoded_len cost weight table functions_of signer :
  r ≠ XTR →
  CallLaws encoded_len [fee_module encoded_len cost weight table] functions_of signer
    (λ _, True) (@conserves (token_measure r t)).
Proof.
  intros Hr. pose proof (token_laws r t Hr) as Ml.
  assert (∀ m, m ∈ [fee_module encoded_len cost weight table] →
    module_follows (@conserves (token_measure r t)) m) as Hm.
  { intros m ->%list_elem_of_singleton. apply fee_module_follows, _. }
  eapply (call_laws_weaken _ _ _ _ (action_fits (λ _, True))); [by intros []; try done|].
  apply conserves_calls; [done|..].
  - intros L h l arg Hh _ Hl. by eapply mint_unique.
  - intros hook b. by apply token_burn_conserves.
  - by apply token_stealth_burn_conserves.
Qed.

(** C3: tokens are not duplicated.  On a ledger where the token [t] of a
    non-fungible resource is in at most one vault, and in none if it has not been
    minted or has been burnt, any accepted transaction whose diff applies, whatever
    its instructions and whatever the templates it calls do, leaves such a ledger: no
    sequence of withdrawals, deposits, joins, locks, proofs, recalls, mints and burns,
    failed calls included, puts the token in two places, or leaves it in or brings it
    back to a vault once it is burnt. *)
Theorem token_in_one_place r t encoded_len cost weight table template_provider verify_claim_proof
    verify_signature error_text loads_as_template max_template_size state_db epoch proofs tx f d
    ledger' :
  r ≠ XTR → in_one_place r t state_db →
  execute encoded_len [fee_module encoded_len cost weight table] template_provider
    verify_claim_proof verify_signature error_text loads_as_template max_template_size
    state_db epoch proofs tx = Ok f →
  any_accept (fin_result f) = Some d → apply_diff d state_db = Some ledger' →
  in_one_place r t ledger'.
Proof.
  rewrite !in_one_place_funds. intros Hr. pose proof (token_laws r t Hr) as Ml.
  apply (accepted_funds (λ _, True)); [|apply all_code_fits]. intros signer. by apply token_calls.
Qed.
End one_place.

(** Minting a second token next to the one in the vault. *)
Lemma token_example_placed : in_one_place 1 (Uint32 4) token_ledger.
Proof.
  split.
  - intros id x Hx. apply elem_of_map_to_list in Hx. revert Hx.
    vm_compute (map_to_list token_ledger).
    rewrite !elem_of_cons, elem_of_nil. intros Hx. by destruct_or!; simplify_eq.
  - exists 1. split; [|by vm_compute]. split; [|by vm_compute].
    eexists. split; [by vm_compute|done].
Qed.
Lemma token_example_commits : ∃ f d ledger',
  example_execute token_ledger (minting_provider (MintNonFungible {[Uint32 5 := (VNull, VNull)]}))
    [InsCallFunction 6%N "run" []] = Ok f ∧
  any_accept (fin_result f) = Some d ∧ apply_diff d token_ledger = Some ledger'.
Proof. apply example_commit_inv. by vm_compute. Qed.
Lemma token_in_one_place_witness :
  ∃ ledger', example_commit token_ledger
      (minting_provider (MintNonFungible {[Uint32 5 := (VNull, VNull)]}))
      [InsCallFunction 6%N "run" []] = Some ledger' ∧
    in_one_place 1 (Uint32 4) ledger'.
Proof.
  destruct token_example_commits as (f & d & ledger' & Hf & Hd & Ha). exists ledger'. split.
  - unfold example_commit. rewrite Hf, Hd. exact Ha.
  - exact (@token_in_one_place i192_panicking ideal_crypto int_cbor example_hashes
      example_engine_hashes hash_iter_elements example_display example_encode 1 (Uint32 4)
      _ _ _ _ _ _ _ _ _ _ _ _ _ _ _ _ _ ltac:(done) token_example_placed Hf Hd Ha).
Defined.
