(* ===== verification/RuntimeProps.v ===== *)
(** * Correctness of the runtime calls

    The handlers of [Runtime], run from a state in which the substates they touch
    are not locked: what a call does on every branch, that it gives back the locks
    it takes, and that matching calls undo each other. *)
From stdpp Require Import base gmap list strings numbers.
From S2P Require Import Prelude Bor BTree Ids IndexedValue IdProvider Amount Crypto Confidential.
From S2P Require Import ResourceContainer FreezeFlags Proof Bucket Vault AccessRules RuntimeError.
From S2P Require Import Auth Locking Fees Substate Stealth FeeState Scope StateStore WorkingState.
From S2P Require Import HandlerRuns Runtime Examples.
Open Scope Z_scope.

(** ** Preconditions *)
(** The ids in use were drawn from the counter. *)
Definition ids_fresh (s : WorkingState) : Prop :=
  let n := bucket_counter (object_ids s) in
  0 ≤ n < U32_MAX ∧ (∀ b, is_Some (buckets s !! b) → Z.of_N b < n) ∧
  (∀ p, is_Some (proofs s !! p) → Z.of_N p < n).

(** The state in which a template calls the engine. *)
Record state_wf (s : WorkingState) : Prop := {
  st_store : store_wf (store s);
  st_locks : 2 ≤ locks_left (store s);
  st_frames : call_frames s ≠ [];
  st_scope : scope_wf (current_call_scope s);
  st_events : (length (events s) < max_events)%nat;
}.

(** The vault [vid] holds [v], whose resource is [r]; neither is locked. *)
Record vault_at (s : WorkingState) (vid : VaultId) (v : Vault) (r : Resource) : Prop := {
  va_vault : view (store s) (SidVault vid) = Some (SvVault v);
  va_resource : view (store s) (SidResource (vault_resource_address v)) = Some (SvResource r);
  va_free_vault : free (store s) (SidVault vid);
  va_free_resource : free (store s) (SidResource (vault_resource_address v));
}.

(** Two locks, taken one after the other. *)
Record two_locked (st st' : WorkingStateStore) (l1 l2 : LockedSubstate) (v1 v2 : SubstateValue) :
    Prop := {
  tl_wf : store_wf st';
  tl_view : same_view st st';
  tl_holds1 : holds st' l1 v1;
  tl_holds2 : holds st' l2 v2;
  tl_ne : ls_address l1 ≠ ls_address l2;
  tl_fresh1 : lock_ids (locked_substates st) !! ls_lock_id l1 = None;
  tl_fresh2 : lock_ids (locked_substates st) !! ls_lock_id l2 = None;
  tl_free1 : free st (ls_address l1);
  tl_free2 : free st (ls_address l2);
  tl_ids : lock_ids (locked_substates st') =
    <[ls_lock_id l2 := ls_address l2]>
      (<[ls_lock_id l1 := ls_address l1]> (lock_ids (locked_substates st)));
  tl_locks : locks (locked_substates st') =
    <[ls_address l2 := lock_state_from (ls_lock_flag l2)]>
      (<[ls_address l1 := lock_state_from (ls_lock_flag l1)]> (locks (locked_substates st)));
  tl_left : locks_left st' = locks_left st - 2;
}.

(** Deleting two fresh keys that were inserted gives the map back. *)
Lemma delete_two {K A : Type} `{Countable K} (m : gmap K A) (a b : K) (x y : A) :
  m !! a = None → m !! b = None →
  delete a (delete b (<[b := y]> (<[a := x]> m))) = m ∧
  delete b (delete a (<[b := y]> (<[a := x]> m))) = m.
Proof.
  intros Ha Hb. assert (delete a (delete b (<[b := y]> (<[a := x]> m))) = m) as H1.
  { rewrite delete_insert_eq. destruct (decide (a = b)) as [->|].
    - by rewrite delete_insert_eq, delete_delete_eq, delete_id.
    - rewrite (delete_insert_ne _ b a) by done. rewrite delete_insert_eq, delete_delete.
      by rewrite !delete_id by (done || by rewrite lookup_delete_ne). }
  split; [done|]. by rewrite delete_delete.
Qed.

Lemma two_released (st st' st1 st2 st3 : WorkingStateStore) l1 l2 v1 v2 :
  two_locked st st' l1 l2 v1 v2 → locked_substates st1 = locked_substates st' →
  (released_run st1 st2 l1 ∧ released_run st2 st3 l2 ∨
   released_run st1 st2 l2 ∧ released_run st2 st3 l1) →
  same_locks st st3 ∧ locks_left st3 = locks_left st - 2.
Proof.
  intros [? ? ? ? ? Hf1 Hf2 Hr1 Hr2 Hids Hlocks Hleft] Heq Hrel.
  destruct (delete_two _ _ _ (ls_address l1) (ls_address l2) Hf1 Hf2) as [D1 D2].
  destruct (delete_two _ _ _ (lock_state_from (ls_lock_flag l1)) (lock_state_from (ls_lock_flag l2))
    Hr1 Hr2) as [E1 E2].
  assert (locks_left st1 = locks_left st') by (unfold locks_left; by rewrite Heq).
  destruct Hrel as [[R1 R2]|[R1 R2]]; (split; [split|]);
    rewrite ?(rr_ids _ _ _ R2), ?(rr_ids _ _ _ R1), ?(rr_locks _ _ _ R2), ?(rr_locks _ _ _ R1),
      ?(rr_left _ _ _ R2), ?(rr_left _ _ _ R1), ?Heq, ?Hids, ?Hlocks; (done || lia).
Qed.

Section runtime_props.
Context `{Ii : !I192} `{Ic : !Crypto} `{Cb : !Cbor} `{Ih : !IdHashes} `{Dp : !Display}.
Variable encoded_len : SubstateValue → option Z.
Variable modules : list RuntimeModule.
Variable call_method :
  ComponentAddress → string → ResourceAuthAction → AuthHookCaller → M WorkingState unit Value.

(** The access check on a resource, as the calls make it. *)
Definition access (s : WorkingState) (action : ResourceAuthAction) (r : Resource) :
    res RuntimeError unit :=
  check_resource_access_rules s action (resource_as_ownership r) (res_access_rules r).

Lemma access_agree (s s' : WorkingState) action r :
  auth_agree s s' → access s' action r = access s action r.
Proof. intros Ha. unfold access. by rewrite <- Ha. Qed.
Lemma access_set_store (s : WorkingState) st action r :
  access (set_store st s) action r = access s action r.
Proof. by apply access_agree. Qed.
Lemma access_set_fee_state (s : WorkingState) f action r :
  access (set_fee_state f s) action r = access s action r.
Proof. by apply access_agree. Qed.

Lemma check_access_rules_run (s : WorkingState) lk r action :
  holds (store s) lk (SvResource r) → call_frames s ≠ [] → access s action r = Ok tt →
  ∃ caller, check_access_rules lk action s = (Ok (res_auth_hook r, caller), s).
Proof.
  intros Hh Hf Ha. unfold check_access_rules, get_resource.
  rewrite (get_as_run as_resource _ _ _ _ Hh eq_refl). simpl. unfold access in Ha. rewrite Ha. simpl.
  unfold get_auth_caller. destruct (call_frames s) as [|f fs]; [done|]. eexists. reflexivity.
Qed.
Lemma check_access_rules_denied (s : WorkingState) lk r action e :
  holds (store s) lk (SvResource r) → access s action r = Err e →
  check_access_rules lk action s = (Err e, s).
Proof.
  intros Hh Ha. unfold check_access_rules, get_resource.
  rewrite (get_as_run as_resource _ _ _ _ Hh eq_refl). simpl. unfold access in Ha. by rewrite Ha.
Qed.

(** The vault is locked first: a frozen vault is refused. *)
Lemma lock_vault_for_frozen (s : WorkingState) vid v r flag action :
  state_wf s → vault_at s vid v r → flags_contains (vault_freeze_flags v) flag = true →
  ∃ st', lock_vault_for vid flag action s = (Err (VaultFrozen vid flag), set_store st' s) ∧
         same_view (store s) st'.
Proof.
  intros [Hwf Hl _ _ _] [Hv _ Hfv _] Hfz.
  destruct (lock_run s (SidVault vid) LockWrite _ Hwf ltac:(lia) Hv Hfv)
    as (lk & st' & Hrun & Ha & Hfl & Hlr).
  exists st'. split; [|apply Hlr]. unfold lock_vault_for. rewrite (bind_run _ _ _ _ _ Hrun).
  erewrite bind_run by reflexivity. erewrite bind_run.
  2: { unfold lift, get_vault. rewrite (get_as_run as_vault (set_store st' s) lk (SvVault v) v (lr_holds _ _ _ _ Hlr) eq_refl).
       reflexivity. }
  simpl. by rewrite Hfz.
Qed.

Lemma lock_vault_for_locks (s : WorkingState) vid v r flag action :
  state_wf s → vault_at s vid v r → flags_contains (vault_freeze_flags v) flag = false →
  ∃ vl rl st', two_locked (store s) st' vl rl (SvVault v) (SvResource r) ∧
    ls_address vl = SidVault vid ∧ ls_lock_flag vl = LockWrite ∧
    ls_address rl = SidResource (vault_resource_address v) ∧ ls_lock_flag rl = LockRead ∧
    lock_vault_for vid flag action s =
      (let! checked := check_access_rules rl action in
       ret (vl, rl, checked.1, checked.2)) (set_store st' s).
Proof.
  intros [Hwf Hl _ _ _] [Hv Hr Hfv Hfr] Hfz.
  destruct (lock_run s (SidVault vid) LockWrite _ Hwf ltac:(lia) Hv Hfv)
    as (vl & st1 & Hrun1 & Ha1 & Hf1 & L1).
  pose proof L1 as [W1 V1 H1 F1 I1 K1 C1 P1].
  destruct (lock_run (set_store st1 s) (SidResource (vault_resource_address v)) LockRead
    (SvResource r)) as (rl & st2 & Hrun2 & Ha2 & Hf2 & L2); simpl.
  { done. } { lia. } { by rewrite V1. }
  { unfold free in *. rewrite K1, Ha1, lookup_insert_ne by done. done. }
  pose proof L2 as [W2 V2 H2 F2 I2 K2 C2 P2]. simpl in *.
  assert (ls_lock_id vl ≠ ls_lock_id rl).
  { intros E. rewrite I1, E, lookup_insert_eq in F2. done. }
  exists vl, rl, st2. split_and!; try done.
  - split; try done.
    + intros id. rewrite V2. apply V1.
    + by apply P2.
    + by rewrite Ha1, Ha2.
    + by rewrite I1, lookup_insert_ne in F2.
    + by rewrite Ha1.
    + by rewrite Ha2.
    + by rewrite I2, I1.
    + by rewrite K2, K1.
    + lia.
  - unfold lock_vault_for. rewrite (bind_run _ _ _ _ _ Hrun1).
    erewrite bind_run by reflexivity. erewrite bind_run.
    2: { unfold lift, get_vault. rewrite (get_as_run as_vault (set_store st1 s) vl (SvVault v) v H1 eq_refl). reflexivity. }
    simpl. rewrite Hfz. by rewrite (bind_run _ _ _ _ _ Hrun2).
Qed.

Lemma lock_vault_for_run (s : WorkingState) vid v r flag action :
  state_wf s → vault_at s vid v r → flags_contains (vault_freeze_flags v) flag = false →
  access s action r = Ok tt →
  ∃ vl rl caller st', two_locked (store s) st' vl rl (SvVault v) (SvResource r) ∧
    ls_address vl = SidVault vid ∧ ls_lock_flag vl = LockWrite ∧
    lock_vault_for vid flag action s = (Ok (vl, rl, res_auth_hook r, caller), set_store st' s).
Proof.
  intros Hs Hv Hf Ha.
  destruct (lock_vault_for_locks s vid v r flag action Hs Hv Hf)
    as (vl & rl & st' & T & Ha1 & Hf1 & _ & _ & Heq).
  destruct (check_access_rules_run (set_store st' s) rl r action (tl_holds2 _ _ _ _ _ _ T)
    (st_frames s Hs)) as (caller & Hc); [by rewrite access_set_store|].
  exists vl, rl, caller, st'. split_and!; try done. by rewrite Heq, (bind_run _ _ _ _ _ Hc).
Qed.
Lemma lock_vault_for_denied (s : WorkingState) vid v r flag action e :
  state_wf s → vault_at s vid v r → flags_contains (vault_freeze_flags v) flag = false →
  access s action r = Err e →
  ∃ st', lock_vault_for vid flag action s = (Err e, set_store st' s) ∧ same_view (store s) st'.
Proof.
  intros Hs Hv Hf Ha.
  destruct (lock_vault_for_locks s vid v r flag action Hs Hv Hf)
    as (vl & rl & st' & T & _ & _ & _ & _ & Heq).
  exists st'. split; [|apply T]. rewrite Heq. apply bind_fail.
  apply (check_access_rules_denied (set_store st' s) rl r); [apply T|by rewrite access_set_store].
Qed.

(** What a call leaves as it was: the caller and its rights. *)
Record caller_kept (s s' : WorkingState) : Prop := {
  ck_template : state_current_template s' = state_current_template s;
  ck_hash : transaction_hash s' = transaction_hash s;
  ck_frames : call_frames s ≠ [] → call_frames s' ≠ [];
  ck_scope : scope_kept (current_call_scope s) (current_call_scope s');
}.

Lemma set_scope_caller (c : CallScope) (s s0 : WorkingState) :
  transaction_hash s0 = transaction_hash s → call_frames s0 = call_frames s →
  scope_kept (current_call_scope s) c → call_frames s ≠ [] →
  caller_kept s (set_current_call_scope c s0).
Proof.
  intros Hh Hf Hk Hn. unfold set_current_call_scope, state_current_template. rewrite Hf.
  destruct (call_frames s) as [|fr fs] eqn:E; [done|]. split; simpl; try done.
  unfold state_current_template. by rewrite E.
Qed.

Lemma caller_kept_store (s s' : WorkingState) st : caller_kept s s' → caller_kept s (set_store st s').
Proof. by intros [? ? ? ?]. Qed.

Lemma emit_run (s : WorkingState) o a sid payload :
  call_frames s ≠ [] → (length (events s) < max_events)%nat →
  ∃ e, emit_std_event o a sid payload s = (Ok tt, set_events (events s ++ [e]) s).
Proof.
  intros Hf He. unfold emit_std_event, state_current_template.
  destruct (call_frames s) as [|f fs] eqn:E; [done|]. eexists. unfold bind, lift, push_event.
  assert ((max_events <=? length (events s))%nat = false) as -> by by apply Nat.leb_gt.
  reflexivity.
Qed.

Lemma provide_bucket_id_run (s : WorkingState) :
  call_frames s ≠ [] →
  provide_bucket_id s =
    (Ok (Z.to_N (bucket_counter (object_ids s))),
     set_object_ids (next_bucket_counter (E:=unit) (object_ids s)).2 s).
Proof.
  intros Hf. unfold provide_bucket_id, with_ids. destruct (call_frames s); done.
Qed.
Lemma ids_fresh_bucket (s : WorkingState) :
  ids_fresh s → buckets s !! Z.to_N (bucket_counter (object_ids s)) = None.
Proof.
  intros (Hn & Hb & _). destruct (buckets s !! _) eqn:E; [|done].
  specialize (Hb _ ltac:(eauto)). lia.
Qed.

(** The state after a call that put [out] into the new bucket [bid] and [v'] into
    the vault [vid]. *)
Record withdrawn (s s' : WorkingState) (vid : VaultId) (v' : Vault) (bid : BucketId)
    (out : ResourceContainer) : Prop := {
  wd_fresh : buckets s !! bid = None;
  wd_buckets : buckets s' = <[bid := MkBucket bid out]> (buckets s);
  wd_scope : get_bucket s' bid = Ok (MkBucket bid out);
  wd_proofs : proofs s' = proofs s;
  wd_store : store_wf (store s');
  wd_view : view_set (store s) (store s') (SidVault vid) (Some (SvVault v'));
  wd_locks : same_locks (store s) (store s');
  wd_left : locks_left (store s') = locks_left (store s) - 2;
  wd_events : length (events s') = S (length (events s));
  wd_ids : bucket_counter (object_ids s') = bucket_counter (object_ids s) + 1;
  wd_caller : caller_kept s s';
}.

Lemma on_vault_run {A : Type} (s : WorkingState) lk v (m : M Vault RuntimeError A) q v' :
  store_wf (store s) → holds (store s) lk (SvVault v) → ls_lock_flag lk = LockWrite →
  (∃ vid, ls_address lk = SidVault vid) → m v = (q, v') →
  ∃ st', on_vault_mut lk m s = (q, set_store st' s) ∧
         mutated_run (store s) st' lk (SvVault v').
Proof.
  intros Hwf Hh Hf [vid Ha] Hm. apply (on_value_run as_vault SvVault s lk (SvVault v) v m q v');
    try done. by rewrite Ha.
Qed.

Lemma bucket_counter_succ (s : WorkingState) :
  ids_fresh s → u32_wrapping_succ (bucket_counter (object_ids s)) = bucket_counter (object_ids s) + 1.
Proof.
  intros [Hn _]. unfold u32_wrapping_succ, U32_MAX in *. rewrite Z.mod_small; lia.
Qed.

(** The end of the calls that take something out of a vault: the new bucket, and
    the locks released in the order of the source. *)
Lemma withdraw_tail (s : WorkingState) st1 st2 vl rl v v' r vid out e :
  state_wf s → ids_fresh s → ls_address vl = SidVault vid →
  two_locked (store s) st1 vl rl (SvVault v) (SvResource r) →
  mutated_run st1 st2 vl (SvVault v') →
  let bid := Z.to_N (bucket_counter (object_ids s)) in
  ∃ s', (let! bucket_id := provide_bucket_id in
         do! new_bucket bucket_id out in
         do! unlock_substate vl in
         do! unlock_substate rl in
         ret (IrBucket bucket_id)) (set_events (events s ++ [e]) (set_store st2 s)) =
        (Ok (IrBucket bid), s') ∧ withdrawn s s' vid v' bid out.
Proof.
  intros Hs Hids Ha T Mu bid. pose proof (ids_fresh_bucket s Hids) as Hfresh.
  pose proof (bucket_counter_succ s Hids) as Hsucc.
  pose proof (st_scope s Hs) as Hsc. pose proof (st_frames s Hs) as Hfr.
  set (s0 := set_events (events s ++ [e]) (set_store st2 s)).
  rewrite (bind_run _ _ _ _ _ (provide_bucket_id_run s0 Hfr)).
  set (s1 := set_object_ids _ s0).
  destruct (new_bucket_run s1 bid out Hsc Hfresh) as (c' & Hnb & Hk & Hbs).
  rewrite (bind_run _ _ _ _ _ Hnb). set (s2 := set_current_call_scope _ _).
  assert (store s2 = st2) as Hst2 by by (unfold s2, set_current_call_scope; destruct (call_frames _)).
  destruct (unlock_run s2 vl (SvVault v')) as (st3 & Hu1 & R1).
  { rewrite Hst2. apply Mu. } { rewrite Hst2. apply Mu. }
  rewrite (bind_run _ _ _ _ _ Hu1). rewrite Hst2 in R1.
  assert (holds st2 rl (SvResource r)) as Hr.
  { apply (mr_keep _ _ _ _ Mu); [|apply T]. intros E. by apply (tl_ne _ _ _ _ _ _ T). }
  destruct (unlock_run (set_store st3 s2) rl (SvResource r)) as (st4 & Hu2 & R2).
  { apply R1. } { apply (rr_keep _ _ _ R1); [|done]. intros E. by apply (tl_ne _ _ _ _ _ _ T). }
  rewrite (bind_run _ _ _ _ _ Hu2). eexists. split; [reflexivity|].
  destruct (two_released _ _ _ _ _ _ _ _ _ T (mr_locks _ _ _ _ Mu) (or_introl (conj R1 R2)))
    as [Hsl Hleft].
  assert (caller_kept s s2) as Hck by by apply set_scope_caller.
  assert (buckets s2 = <[bid := MkBucket bid out]> (buckets s) ∧ proofs s2 = proofs s ∧
    object_ids s2 = object_ids s1 ∧ events s2 = events s ++ [e] ∧ current_call_scope s2 = c')
    as (Hb & Hp & Ho & He & Hc).
  { unfold s2. rewrite current_set_scope. unfold set_current_call_scope.
    by destruct (call_frames _). }
  split; simpl; try done.
  - change (get_bucket s2 bid = Ok (MkBucket bid out)). unfold get_bucket, is_bucket_in_scope.
    rewrite Hc, Hbs, bool_decide_true by (apply elem_of_is_add; by left). simpl.
    by rewrite Hb, lookup_insert_eq.
  - apply R2.
  - intros id. rewrite (rr_view _ _ _ R2), (rr_view _ _ _ R1), (mr_view _ _ _ _ Mu), Ha.
    case_decide; [done|]. apply (tl_view _ _ _ _ _ _ T).
  - rewrite He, length_app. simpl. lia.
  - by rewrite Ho.
  - by do 2 apply caller_kept_store.
Qed.

Lemma vault_withdraw_locked (s : WorkingState) vid v r arg :
  state_wf s → vault_at s vid v r → res_auth_hook r = None →
  flags_contains (vault_freeze_flags v) Withdrawals = false → access s Withdraw r = Ok tt →
  ∃ vl rl st1, two_locked (store s) st1 vl rl (SvVault v) (SvResource r) ∧
    ls_address vl = SidVault vid ∧ ls_lock_flag vl = LockWrite ∧
    vault_invoke_withdraw modules call_method (VaultById vid) arg s =
    (let! maybe_view_key := lift (to_view_key_public_key r RuntimeInvariantError) in
     let! (resource_container, public_amount) := on_vault_mut vl (withdraw_from maybe_view_key arg) in
     do! emit_std_event "vault" "withdraw" (SidVault vid)
           [("resource_address", show_resource (resource_address resource_container));
            ("resource_type", show_resource_type (resource_type resource_container));
            ("amount", show_amount public_amount)] in
     let! bucket_id := provide_bucket_id in
     do! new_bucket bucket_id resource_container in
     do! unlock_substate vl in
     do! unlock_substate rl in
     ret (IrBucket bucket_id)) (set_store st1 s).
Proof.
  intros Hs Hv Hh Hf Ha.
  destruct (lock_vault_for_run s vid v r Withdrawals Withdraw Hs Hv Hf Ha)
    as (vl & rl & caller & st1 & T & Hav & Hfl & Hrun).
  exists vl, rl, st1. split_and!; try done.
  unfold vault_invoke_withdraw. erewrite bind_run by reflexivity.
  rewrite (bind_run _ _ _ _ _ Hrun), Hh. erewrite bind_run by reflexivity.
  erewrite bind_run by reflexivity. erewrite bind_run; [reflexivity|].
  unfold lift, get_resource.
  by rewrite (get_as_run as_resource (set_store st1 s) rl _ r (tl_holds2 _ _ _ _ _ _ T)).
Qed.

Lemma vault_withdraw_run (s : WorkingState) vid v r arg vk out pub v' :
  state_wf s → ids_fresh s → vault_at s vid v r → res_auth_hook r = None →
  flags_contains (vault_freeze_flags v) Withdrawals = false → access s Withdraw r = Ok tt →
  to_view_key_public_key r RuntimeInvariantError = Ok vk →
  withdraw_from vk arg v = (Ok (out, pub), v') →
  let bid := Z.to_N (bucket_counter (object_ids s)) in
  ∃ s', vault_invoke_withdraw modules call_method (VaultById vid) arg s = (Ok (IrBucket bid), s') ∧
        withdrawn s s' vid v' bid out.
Proof.
  intros Hs Hids Hv Hh Hf Ha Hvk Hw bid.
  destruct (vault_withdraw_locked s vid v r arg Hs Hv Hh Hf Ha)
    as (vl & rl & st1 & T & Hav & Hfl & ->).
  destruct (on_vault_run (set_store st1 s) vl v (withdraw_from vk arg) _ v' (tl_wf _ _ _ _ _ _ T)
    (tl_holds1 _ _ _ _ _ _ T) Hfl ltac:(eauto) Hw) as (st2 & Hm & Mu).
  destruct (emit_run (set_store st2 s) "vault" "withdraw" (SidVault vid)
    [("resource_address", show_resource (resource_address out));
     ("resource_type", show_resource_type (resource_type out));
     ("amount", show_amount pub)] (st_frames s Hs) (st_events s Hs)) as [e He].
  destruct (withdraw_tail s st1 st2 vl rl v v' r vid out e Hs Hids Hav T Mu) as (s' & Ht & Hwd).
  exists s'. split; [|done]. rewrite Hvk. erewrite bind_run by reflexivity.
  rewrite (bind_run _ _ _ _ _ Hm). by rewrite (bind_run _ _ _ _ _ He).
Qed.

Lemma vault_withdraw_fails (s : WorkingState) vid v r arg vk e v' :
  state_wf s → vault_at s vid v r → res_auth_hook r = None →
  flags_contains (vault_freeze_flags v) Withdrawals = false → access s Withdraw r = Ok tt →
  to_view_key_public_key r RuntimeInvariantError = Ok vk →
  withdraw_from vk arg v = (Err e, v') →
  (vault_invoke_withdraw modules call_method (VaultById vid) arg s).1 = Err e.
Proof.
  intros Hs Hv Hh Hf Ha Hvk Hw.
  destruct (vault_withdraw_locked s vid v r arg Hs Hv Hh Hf Ha)
    as (vl & rl & st1 & T & Hav & Hfl & ->).
  destruct (on_vault_run (set_store st1 s) vl v (withdraw_from vk arg) _ v' (tl_wf _ _ _ _ _ _ T)
    (tl_holds1 _ _ _ _ _ _ T) Hfl ltac:(eauto) Hw) as (st2 & Hm & _).
  rewrite Hvk. erewrite bind_run by reflexivity. by rewrite (bind_fail _ _ _ _ _ Hm).
Qed.

(** The call enters the arm of the action when the runtime modules accept it and
    the vault belongs to the caller. *)
Definition enters (s : WorkingState) (fs : FeeState) (vid : VaultId) : Prop :=
  invoke_modules_on_runtime_call modules "vault_invoke" s = (Ok tt, set_fee_state fs s) ∧
  check_component_scope s (SidVault vid) (NativeOther "vault") = Ok tt.

Lemma state_wf_fee (s : WorkingState) fs : state_wf s → state_wf (set_fee_state fs s).
Proof. by intros [? ? ? ? ?]. Qed.
Lemma vault_at_fee (s : WorkingState) fs vid v r :
  vault_at s vid v r → vault_at (set_fee_state fs s) vid v r.
Proof. by intros [? ? ? ?]. Qed.

Lemma vault_invoke_withdraw_enters (s : WorkingState) fs vid arg :
  enters s fs vid →
  vault_invoke encoded_len modules call_method (VaultById vid) (VaWithdraw arg) s =
  vault_invoke_withdraw modules call_method (VaultById vid) arg (set_fee_state fs s).
Proof.
  intros [Hm Hc]. unfold vault_invoke. rewrite (bind_run _ _ _ _ _ Hm).
  erewrite bind_run by reflexivity. erewrite bind_run; [reflexivity|]. simpl. unfold lift.
  change (check_component_scope (set_fee_state fs s) (SidVault vid)
    (vault_action_ident (VaWithdraw arg))) with
    (check_component_scope s (SidVault vid) (NativeOther "vault")). by rewrite Hc.
Qed.

(** ** Deposits *)
Record deposited (s s' : WorkingState) (vid : VaultId) (v' : Vault) (bid : BucketId) : Prop := {
  dp_buckets : buckets s' = delete bid (buckets s);
  dp_proofs : proofs s' = proofs s;
  dp_store : store_wf (store s');
  dp_view : view_set (store s) (store s') (SidVault vid) (Some (SvVault v'));
  dp_locks : same_locks (store s) (store s');
  dp_caller : caller_kept s s';
}.

Lemma vault_deposit_run (s : WorkingState) vid v r bid b v' :
  state_wf s → vault_at s vid v r → res_auth_hook r = None →
  flags_contains (vault_freeze_flags v) Deposits = false → access s Deposit r = Ok tt →
  get_bucket s bid = Ok b → bucket_locked_amount b = 0 →
  vault_deposit b v = (Ok tt, v') →
  ∃ s', vault_invoke_deposit modules call_method (VaultById vid) bid s = (Ok IrUnit, s') ∧
        deposited s s' vid v' bid.
Proof.
  intros Hs Hv Hh Hf Ha Hb Hl Hd.
  destruct (lock_vault_for_run s vid v r Deposits Deposit Hs Hv Hf Ha)
    as (vl & rl & caller & st1 & T & Hav & Hfl & Hrun).
  unfold vault_invoke_deposit. erewrite bind_run by reflexivity.
  rewrite (bind_run _ _ _ _ _ Hrun), Hh. erewrite bind_run by reflexivity.
  destruct (take_bucket_run (set_store st1 s) bid b Hb) as (c' & Ht & Hk).
  rewrite (bind_run _ _ _ _ _ Ht). set (s2 := set_current_call_scope _ _).
  assert (caller_kept s s2) as Hck by (apply set_scope_caller; try done; apply Hs).
  assert (buckets s2 = delete bid (buckets s) ∧ proofs s2 = proofs s ∧ store s2 = st1 ∧
    events s2 = events s) as (Hbs & Hps & Hst & Hev).
  { unfold s2, set_current_call_scope. by destruct (call_frames _). }
  erewrite bind_run by (unfold guard_err, Amount.is_zero; by rewrite Hl).
  destruct (emit_run s2 "vault" "deposit" (SidVault vid)
    [("resource_address", show_resource (bucket_resource_address b));
     ("resource_type", show_resource_type (bucket_resource_type b));
     ("amount", show_amount (bucket_amount b))]) as [e He].
  { apply Hck, Hs. } { rewrite Hev. apply Hs. }
  rewrite (bind_run _ _ _ _ _ He). set (s3 := set_events _ s2).
  destruct (on_vault_run s3 vl v (map_err RuntimeResourceError (vault_deposit b)) (Ok tt) v')
    as (st2 & Hm & Mu).
  { simpl. rewrite Hst. apply T. } { simpl. rewrite Hst. apply T. } { done. } { by eauto. }
  { by apply map_err_Ok. }
  rewrite (bind_run _ _ _ _ _ Hm). simpl in Mu. rewrite Hst in Mu.
  destruct (unlock_run (set_store st2 s3) rl (SvResource r)) as (st3 & Hu1 & R1).
  { apply Mu. }
  { apply (mr_keep _ _ _ _ Mu); [|apply T]. intros E. by apply (tl_ne _ _ _ _ _ _ T). }
  rewrite (bind_run _ _ _ _ _ Hu1).
  destruct (unlock_run (set_store st3 (set_store st2 s3)) vl (SvVault v')) as (st4 & Hu2 & R2).
  { apply R1. } { apply (rr_keep _ _ _ R1); [apply T|apply Mu]. }
  rewrite (bind_run _ _ _ _ _ Hu2). eexists. split; [reflexivity|].
  destruct (two_released _ _ _ _ _ _ _ _ _ T (mr_locks _ _ _ _ Mu) (or_intror (conj R1 R2)))
    as [Hsl _].
  split; simpl; try done.
  - apply R2.
  - intros id. rewrite (rr_view _ _ _ R2), (rr_view _ _ _ R1), (mr_view _ _ _ _ Mu), Hav.
    case_decide; [done|]. apply (tl_view _ _ _ _ _ _ T).
  - do 3 apply caller_kept_store. by destruct Hck.
Qed.

(** ** Theorems on vaults *)
Lemma withdrawn_fee (s s' : WorkingState) fs vid v' bid out :
  withdrawn (set_fee_state fs s) s' vid v' bid out → withdrawn s s' vid v' bid out.
Proof. intros []. split; try done. by destruct wd_caller0. Qed.

(** what withdrawing from a vault does, on every branch.  A vault whose
    withdrawals are frozen refuses, and so does one whose resource does not allow
    the caller to withdraw; then no substate has changed.  A withdrawal that the
    vault's container refuses fails with its error.  Otherwise the caller gets a
    new bucket with exactly what left the vault, no other substate, bucket or
    proof changes, and every lock taken is released. *)
Theorem vault_withdraw_spec (s : WorkingState) fs vid v r vk arg :
  state_wf s → ids_fresh s → vault_at s vid v r → enters s fs vid →
  res_auth_hook r = None → to_view_key_public_key r RuntimeInvariantError = Ok vk →
  let call := vault_invoke encoded_len modules call_method (VaultById vid) (VaWithdraw arg) s in
  if flags_contains (vault_freeze_flags v) Withdrawals then
    call.1 = Err (VaultFrozen vid Withdrawals) ∧ same_view (store s) (store call.2)
  else
    match access s Withdraw r, withdraw_from vk arg v with
    | Err e, _ => call.1 = Err e ∧ same_view (store s) (store call.2)
    | Ok _, (Err e, _) => call.1 = Err e
    | Ok _, (Ok (out, _), v') =>
        ∃ bid s', call = (Ok (IrBucket bid), s') ∧ withdrawn s s' vid v' bid out
    | _, _ => True
    end.
Proof.
  intros Hs Hids Hv He Hh Hvk call. unfold call.
  rewrite (vault_invoke_withdraw_enters s fs vid arg He).
  apply (state_wf_fee s fs) in Hs. apply (vault_at_fee s fs) in Hv.
  destruct (flags_contains (vault_freeze_flags v) Withdrawals) eqn:Hf.
  { destruct (lock_vault_for_frozen _ vid v r Withdrawals Withdraw Hs Hv Hf) as (st' & Hl & Hsv).
    unfold vault_invoke_withdraw. erewrite bind_run by reflexivity.
    rewrite (bind_fail _ _ _ _ _ Hl). done. }
  destruct (access s Withdraw r) as [[]|e|] eqn:Ha; [| |done].
  - rewrite <- (access_set_fee_state s fs) in Ha.
    destruct (withdraw_from vk arg v) as [[[out pub]|e|] v'] eqn:Hw; [| |done].
    + destruct (vault_withdraw_run _ vid v r arg vk out pub v' Hs Hids Hv Hh Hf Ha Hvk Hw)
        as (s' & Hrun & Hwd). eexists _, s'. split; [exact Hrun|by apply withdrawn_fee in Hwd].
    + by apply (vault_withdraw_fails _ vid v r arg vk e v' Hs Hv Hh Hf Ha Hvk Hw).
  - rewrite <- (access_set_fee_state s fs) in Ha.
    destruct (lock_vault_for_denied _ vid v r Withdrawals Withdraw e Hs Hv Hf Ha) as (st' & Hl & Hsv).
    unfold vault_invoke_withdraw. erewrite bind_run by reflexivity.
    rewrite (bind_fail _ _ _ _ _ Hl). done.
Qed.

(** A withdrawal of an amount or of tokens. *)
Definition is_plain (arg : VaultWithdrawArg) : bool :=
  match arg with WithdrawConfidential _ => false | _ => true end.

Lemma withdraw_from_splits vk arg v v' out pub :
  container_wf (vault_container v) → is_plain arg = true →
  withdraw_from vk arg v = (Ok (out, pub), v') →
  splits (vault_container v) (vault_container v') out ∧
  vault_freeze_flags v' = vault_freeze_flags v.
Proof.
  intros Hwf Hp Hw. destruct arg; simpl in *; [..|done|];
    unfold vault_withdraw, vault_withdraw_non_fungibles, in_vault in Hw; inv_ok;
    eauto using withdraw_splits, withdraw_by_ids_splits.
Qed.
Lemma splits_resource (c c' out : ResourceContainer) :
  splits c c' out → resource_address c' = resource_address c ∧ locked_amount out = 0.
Proof. destruct c, c', out; simpl; try done; naive_solver. Qed.

Lemma caller_kept_agree (s s' : WorkingState) :
  call_frames s ≠ [] → proofs s' = proofs s → caller_kept s s' → auth_agree s s'.
Proof.
  intros Hf Hp [Ht _ Hf' Hk]. split; simpl.
  - intros id. unfold state_get_proof. by rewrite Hp.
  - specialize (Hf' Hf). unfold state_current_component, current_call_scope in *.
    destruct (call_frames s), (call_frames s'); try done. by rewrite (sk_component _ _ Hk).
  - by rewrite Ht.
  - by rewrite (sk_auth _ _ Hk).
Qed.

(** After a withdrawal the vault can be called again. *)
Lemma withdrawn_ready (s s1 : WorkingState) vid v v' r bid out :
  state_wf s → 4 ≤ locks_left (store s) → (S (length (events s)) < max_events)%nat →
  vault_at s vid v r → resource_address (vault_container v') = resource_address (vault_container v) →
  withdrawn s s1 vid v' bid out → state_wf s1 ∧ vault_at s1 vid v' r.
Proof.
  intros [? ? ? ? ?] Hl He [V1 V2 F1 F2] Hra Hwd. pose proof (wd_caller _ _ _ _ _ _ Hwd) as Hck.
  split; split.
  - apply Hwd.
  - rewrite (wd_left _ _ _ _ _ _ Hwd). lia.
  - by apply Hck.
  - by apply (sk_wf _ _ (ck_scope _ _ Hck)).
  - by rewrite (wd_events _ _ _ _ _ _ Hwd).
  - by rewrite (wd_view _ _ _ _ _ _ Hwd), decide_True.
  - unfold vault_resource_address. by rewrite Hra, (wd_view _ _ _ _ _ _ Hwd), decide_False.
  - unfold free. by rewrite (proj2 (wd_locks _ _ _ _ _ _ Hwd)).
  - unfold free, vault_resource_address. by rewrite Hra, (proj2 (wd_locks _ _ _ _ _ _ Hwd)).
Qed.

(** C17: a plain withdrawal from a vault (by amount or of tokens, not with a
    confidential proof) followed by a deposit of the bucket is the identity on the
    substates, buckets, proofs and locks, and in between the vault and the bucket
    together hold what the vault held.  The resource has no authorization hook and
    allows the caller to withdraw and to deposit, the vault has no freeze flag, its
    container can make the withdrawal, and neither vault nor resource is locked; the
    state is well formed with room for the locks and the event.  Confidential
    withdrawals are excluded: they can lose revealed change. *)
Theorem vault_withdraw_deposit (s : WorkingState) vid v r vk arg out pub v' :
  state_wf s → 4 ≤ locks_left (store s) → (S (length (events s)) < max_events)%nat →
  ids_fresh s → vault_at s vid v r → container_wf (vault_container v) →
  res_auth_hook r = None → to_view_key_public_key r RuntimeInvariantError = Ok vk →
  flags_is_empty (vault_freeze_flags v) = true →
  access s Withdraw r = Ok tt → access s Deposit r = Ok tt →
  is_plain arg = true → withdraw_from vk arg v = (Ok (out, pub), v') →
  ∃ bid s1 s2,
    vault_invoke_withdraw modules call_method (VaultById vid) arg s = (Ok (IrBucket bid), s1) ∧
    buckets s1 = <[bid := MkBucket bid out]> (buckets s) ∧
    view (store s1) (SidVault vid) = Some (SvVault v') ∧
    splits (vault_container v) (vault_container v') out ∧
    vault_invoke_deposit modules call_method (VaultById vid) bid s1 = (Ok IrUnit, s2) ∧
    same_view (store s) (store s2) ∧ buckets s2 = buckets s ∧ proofs s2 = proofs s ∧
    same_locks (store s) (store s2).
Proof.
  intros Hs Hl He Hids Hv Hwf Hh Hvk Hfz Hw Hd Hp Hrun.
  unfold flags_is_empty in Hfz. apply Z.eqb_eq in Hfz.
  assert (∀ fl, flags_contains (vault_freeze_flags v) fl = false) as Hnf.
  { intros fl. unfold flags_contains. rewrite Hfz. by destruct fl. }
  destruct (vault_withdraw_run s vid v r arg vk out pub v' Hs Hids Hv Hh (Hnf _) Hw Hvk Hrun)
    as (s1 & Hr1 & Hwd).
  destruct (withdraw_from_splits vk arg v v' out pub Hwf Hp Hrun) as [Hsp Hfl].
  destruct (splits_resource _ _ _ Hsp) as [Hra Hla].
  destruct (withdrawn_ready s s1 vid v v' r _ out Hs Hl He Hv Hra Hwd) as [Hs1 Hv1].
  pose proof (deposit_splits _ _ _ Hwf Hsp) as Hdep.
  destruct (vault_deposit_run s1 vid v' r (Z.to_N (bucket_counter (object_ids s)))
    (MkBucket (Z.to_N (bucket_counter (object_ids s))) out) v) as (s2 & Hr2 & Hdp); try done.
  { by rewrite Hfl. }
  { rewrite (access_agree s s1); [done|]. apply caller_kept_agree; [apply Hs|apply Hwd..]. }
  { apply Hwd. }
  { unfold vault_deposit, in_vault, zoom. simpl. rewrite Hdep. f_equal. destruct v, v'; simpl in *. congruence. }
  eexists _, s1, s2. split_and!; [exact Hr1|apply Hwd| |done|exact Hr2| |..].
  - by rewrite (wd_view _ _ _ _ _ _ Hwd), decide_True.
  - intros id. rewrite (dp_view _ _ _ _ _ Hdp). case_decide; [subst; by destruct Hv|].
    by rewrite (wd_view _ _ _ _ _ _ Hwd), decide_False.
  - rewrite (dp_buckets _ _ _ _ _ Hdp), (wd_buckets _ _ _ _ _ _ Hwd).
    apply delete_insert_id, Hwd.
  - by rewrite (dp_proofs _ _ _ _ _ Hdp), (wd_proofs _ _ _ _ _ _ Hwd).
  - destruct (wd_locks _ _ _ _ _ _ Hwd), (dp_locks _ _ _ _ _ Hdp). split; congruence.
Qed.

(** ** Proofs over vaults *)
Lemma provide_proof_id_run (s : WorkingState) :
  call_frames s ≠ [] →
  provide_proof_id s =
    (Ok (Z.to_N (bucket_counter (object_ids s))),
     set_object_ids (next_bucket_counter (E:=unit) (object_ids s)).2 s).
Proof. intros Hf. unfold provide_proof_id, with_ids. destruct (call_frames s); done. Qed.
Lemma ids_fresh_proof (s : WorkingState) :
  ids_fresh s → proofs s !! Z.to_N (bucket_counter (object_ids s)) = None.
Proof.
  intros (Hn & _ & Hp). destruct (proofs s !! _) eqn:E; [|done].
  specialize (Hp _ ltac:(eauto)). lia.
Qed.

(** The state after a call that put the proof [pid] over a part of the vault. *)
Record proved (s s' : WorkingState) (vid : VaultId) (v' : Vault) (pid : ProofId)
    (lr : LockedResource) : Prop := {
  pv_fresh : proofs s !! pid = None;
  pv_proofs : proofs s' = <[pid := MkProof lr]> (proofs s);
  pv_scope : is_proof_in_scope (current_call_scope s') pid = true;
  pv_buckets : buckets s' = buckets s;
  pv_store : store_wf (store s');
  pv_view : view_set (store s) (store s') (SidVault vid) (Some (SvVault v'));
  pv_locks : same_locks (store s) (store s');
  pv_left : locks_left (store s') = locks_left (store s) - 2;
}.

Lemma vault_create_proof_run (s : WorkingState) vid v r v' lr
    (lock_funds : VaultId → M Vault ResourceError LockedResource) :
  state_wf s → ids_fresh s → vault_at s vid v r → res_auth_hook r = None →
  flags_contains (vault_freeze_flags v) Withdrawals = false → access s Withdraw r = Ok tt →
  lock_funds vid v = (Ok lr, v') →
  let pid := Z.to_N (bucket_counter (object_ids s)) in
  ∃ s', vault_create_proof modules call_method (VaultById vid) lock_funds s = (Ok (IrProof pid), s') ∧
        proved s s' vid v' pid lr.
Proof.
  intros Hs Hids Hv Hh Hf Ha Hl pid. pose proof (ids_fresh_proof s Hids) as Hfresh. fold pid in Hfresh.
  destruct (lock_vault_for_run s vid v r Withdrawals Withdraw Hs Hv Hf Ha)
    as (vl & rl & caller & st1 & T & Hav & Hfl & Hrun).
  unfold vault_create_proof. erewrite bind_run by reflexivity.
  rewrite (bind_run _ _ _ _ _ Hrun), Hh. erewrite bind_run by reflexivity.
  rewrite (bind_run _ _ _ _ _ (provide_proof_id_run (set_store st1 s) (st_frames s Hs))).
  set (s1 := set_object_ids _ _).
  destruct (on_vault_run s1 vl v (map_err RuntimeResourceError (lock_funds vid)) (Ok lr) v')
    as (st2 & Hm & Mu); try apply T; try done; [by eauto|by apply map_err_Ok|]. simpl in Mu.
  rewrite (bind_run _ _ _ _ _ Hm).
  assert (new_proof pid lr (set_store st2 s1) =
    (Ok tt, set_current_call_scope (add_proof_to_scope pid (current_call_scope s))
              (set_proofs (<[pid := MkProof lr]> (proofs s)) (set_store st2 s1)))) as Hnp.
  { unfold new_proof. change (proofs (set_store st2 s1)) with (proofs s). by rewrite Hfresh. }
  erewrite bind_run by exact Hnp. set (s2 := set_current_call_scope _ _).
  assert (proofs s2 = <[pid := MkProof lr]> (proofs s) ∧ buckets s2 = buckets s ∧ store s2 = st2 ∧
    current_call_scope s2 = add_proof_to_scope pid (current_call_scope s)) as (Hps & Hbs & Hst & Hc).
  { unfold s2. rewrite current_set_scope. unfold set_current_call_scope. by destruct (call_frames _). }
  destruct (unlock_run s2 vl (SvVault v')) as (st3 & Hu1 & R1); try (rewrite Hst; apply Mu).
  rewrite (bind_run _ _ _ _ _ Hu1). rewrite Hst in R1.
  destruct (unlock_run (set_store st3 s2) rl (SvResource r)) as (st4 & Hu2 & R2); [apply R1|..].
  { apply (rr_keep _ _ _ R1); [intros E; by apply (tl_ne _ _ _ _ _ _ T)|].
    apply (mr_keep _ _ _ _ Mu); [intros E; by apply (tl_ne _ _ _ _ _ _ T)|apply T]. }
  rewrite (bind_run _ _ _ _ _ Hu2). eexists. split; [reflexivity|].
  destruct (two_released _ _ _ _ _ _ _ _ _ T (mr_locks _ _ _ _ Mu) (or_introl (conj R1 R2)))
    as [Hsl Hleft].
  split; simpl; try done.
  - change (is_proof_in_scope (current_call_scope s2) pid = true). rewrite Hc.
    unfold is_proof_in_scope. apply bool_decide_true, elem_of_is_add. by left.
  - apply R2.
  - intros id. rewrite (rr_view _ _ _ R2), (rr_view _ _ _ R1), (mr_view _ _ _ _ Mu), Hav.
    case_decide; [done|]. apply (tl_view _ _ _ _ _ _ T).
Qed.

(** Dropping a proof over a vault: the vault must take its part back. *)
Lemma drop_vault_proof_run (s : WorkingState) vid v v' pid lr :
  store_wf (store s) → 0 < locks_left (store s) →
  is_proof_in_scope (current_call_scope s) pid = true → proofs s !! pid = Some (MkProof lr) →
  lr_container lr = RefVault vid → view (store s) (SidVault vid) = Some (SvVault v') →
  free (store s) (SidVault vid) → vault_unlock (MkProof lr) v' = (Ok tt, v) →
  ∃ s', drop_proof pid s = (Ok tt, s') ∧ proofs s' = delete pid (proofs s) ∧
    buckets s' = buckets s ∧ view_set (store s) (store s') (SidVault vid) (Some (SvVault v)) ∧
    same_locks (store s) (store s').
Proof.
  intros Hwf Hl Hin Hp Hc Hv Hf Hun. unfold drop_proof. rewrite Hin. simpl.
  erewrite bind_run by reflexivity. set (s1 := set_current_call_scope _ s).
  assert (proofs s1 = proofs s ∧ buckets s1 = buckets s ∧ store s1 = store s) as (Hps & Hbs & Hst).
  { unfold s1, set_current_call_scope. by destruct (call_frames s). }
  erewrite bind_run by (rewrite Hps, Hp; reflexivity). unfold proof_container. simpl. rewrite Hc.
  set (s2 := set_proofs _ s1). assert (store s2 = store s) as Hst2 by done.
  destruct (lock_run s2 (SidVault vid) LockWrite (SvVault v')) as (lk & st1 & Hlk & Ha & Hfl & L);
    rewrite ?Hst2; try done. rewrite Hst2 in L.
  rewrite (bind_run _ _ _ _ _ Hlk).
  destruct (on_vault_run (set_store st1 s2) lk v' (map_err RuntimeResourceError
    (vault_unlock (MkProof lr))) (Ok tt) v) as (st2 & Hm & Mu); try apply L; try done;
    [by eauto|by apply map_err_Ok|]. simpl in Mu.
  rewrite (bind_run _ _ _ _ _ Hm).
  destruct (unlock_run (set_store st2 (set_store st1 s2)) lk (SvVault v)) as (st3 & Hu & R);
    [apply Mu..|]. rewrite Hu. eexists. split; [reflexivity|]. simpl in *. split_and!; try done.
  - intros id. rewrite (rr_view _ _ _ R), (mr_view _ _ _ _ Mu), Ha. case_decide; [done|].
    apply (lr_view _ _ _ _ L).
  - destruct L as [_ _ _ F I K _ _]. pose proof (mr_locks _ _ _ _ Mu) as El.
    unfold free in Hf. rewrite <- Ha in Hf.
    split; rewrite ?(rr_ids _ _ _ R), ?(rr_locks _ _ _ R), El, ?I, ?K; by rewrite delete_insert_id.
Qed.

(** The two calls that lock a given part of the vault. *)
Inductive locks_part : (VaultId → M Vault ResourceError LockedResource) → Prop :=
  | lp_amount amt : i192_in amt → locks_part (λ id, vault_lock_by_amount id amt)
  | lp_ids ids : locks_part (λ id, vault_lock_by_non_fungible_ids id ids).

(** a proof over a part of a vault is a round trip.  Creating it locks the
    part in the vault; dropping the proof succeeds and leaves every substate,
    bucket, proof and lock as it was before. *)
Theorem vault_proof_roundtrip (s : WorkingState) vid v r v' lr
    (lock_funds : VaultId → M Vault ResourceError LockedResource) :
  state_wf s → 3 ≤ locks_left (store s) → ids_fresh s → vault_at s vid v r →
  container_wf (vault_container v) → res_auth_hook r = None →
  flags_contains (vault_freeze_flags v) Withdrawals = false → access s Withdraw r = Ok tt →
  locks_part lock_funds → lock_funds vid v = (Ok lr, v') →
  ∃ pid s1 s2,
    vault_create_proof modules call_method (VaultById vid) lock_funds s = (Ok (IrProof pid), s1) ∧
    proofs s1 = <[pid := MkProof lr]> (proofs s) ∧
    view (store s1) (SidVault vid) = Some (SvVault v') ∧
    ResourceContainer.locks (vault_container v) (vault_container v') (lr_locked lr) ∧
    drop_proof pid s1 = (Ok tt, s2) ∧
    same_view (store s) (store s2) ∧ buckets s2 = buckets s ∧ proofs s2 = proofs s ∧
    same_locks (store s) (store s2).
Proof.
  intros Hs Hl Hids Hv Hwf Hh Hf Ha Hp Hrun.
  destruct (vault_create_proof_run s vid v r v' lr lock_funds Hs Hids Hv Hh Hf Ha Hrun)
    as (s1 & Hr1 & Hpv).
  assert (lr_container lr = RefVault vid ∧ ResourceContainer.locks (vault_container v) (vault_container v') (lr_locked lr)
    ∧ vault_unlock (MkProof lr) v' = (Ok tt, v)) as (Hc & Hlk & Hun).
  { destruct Hp as [amt Hamt|ids].
    - apply (@ps_locks _ Vault vault_proof_source v v' (Some vid) lr amt ∅ Hwf). by left.
    - apply (@ps_locks _ Vault vault_proof_source v v' (Some vid) lr 0 ids Hwf). by right. }
  destruct (pv_locks _ _ _ _ _ _ Hpv) as [El1 El2].
  assert (view (store s1) (SidVault vid) = Some (SvVault v')) as Hvw.
  { by rewrite (pv_view _ _ _ _ _ _ Hpv), decide_True. }
  destruct (drop_vault_proof_run s1 vid v v' (Z.to_N (bucket_counter (object_ids s))) lr)
    as (s2 & Hr2 & Hp2 & Hb2 & Hv2 & [El3 El4]); try done; try apply Hpv.
  { rewrite (pv_left _ _ _ _ _ _ Hpv). lia. }
  { by rewrite (pv_proofs _ _ _ _ _ _ Hpv), lookup_insert_eq. }
  { unfold free. rewrite El2. apply Hv. }
  eexists _, s1, s2. split_and!; try done; [apply Hpv|..].
  - intros id. rewrite Hv2. case_decide; [subst; by destruct Hv|].
    by rewrite (pv_view _ _ _ _ _ _ Hpv), decide_False.
  - by rewrite Hb2, (pv_buckets _ _ _ _ _ _ Hpv).
  - rewrite Hp2, (pv_proofs _ _ _ _ _ _ Hpv). apply delete_insert_id, Hpv.
  - split; congruence.
Qed.




(** ** Authorization by proof *)
Lemma any_loop_last {E A : Type} (f : A → res E bool) (xs : list A) (x : A) :
  (∀ y, y ∈ xs → ∃ b, f y = Ok b) → f x = Ok true → any_loop f (xs ++ [x]) = Ok true.
Proof.
  induction xs as [|y xs IH]; intros Hf Hx; simpl; [by rewrite Hx|].
  destruct (Hf y) as [b ->]; [left|]. simpl. destruct b; [done|]. apply IH; [|done].
  intros z Hz. apply Hf. by right.
Qed.

(** a call can use any proof of the transaction.  [Authorize] asks only
    whether the proof exists: a frame that was not given the proof, and that is
    therefore not allowed to pass it on or to drop it, gets the rights of the
    proof all the same by naming its id. *)
Theorem authorize_ignores_scope (s : WorkingState) fs pid p :
  invoke_modules_on_runtime_call modules "proof_invoke" s = (Ok tt, set_fee_state fs s) →
  proofs s !! pid = Some p → is_proof_in_scope (current_call_scope s) pid = false →
  (∀ q, q ∈ scope_proofs (auth_scope (current_call_scope s)) → is_Some (proofs s !! q)) →
  ∃ s', proof_invoke modules (Some pid) PaAuthorize s = (Ok (IrAuthorized true), s') ∧
    is_proof_in_scope (current_call_scope s') pid = false ∧
    (drop_proof pid s').1 = Err (ProofNotFound pid) ∧
    check_requirement s' (auth_scope (current_call_scope s'))
      (ReqResource (proof_resource_address p)) = Ok true.
Proof.
  intros Hm Hp Hin Hq. unfold proof_invoke. rewrite (bind_run _ _ _ _ _ Hm).
  erewrite bind_run by reflexivity. unfold proof_authorize, proof_exists.
  change (proofs (set_fee_state fs s)) with (proofs s). rewrite Hp. simpl.
  erewrite bind_run by reflexivity. set (s' := set_current_call_scope _ _).
  assert (current_call_scope s' = set_auth_scope
    (add_proof pid (auth_scope (current_call_scope s))) (current_call_scope s)) as Hc
    by apply current_set_scope.
  assert (proofs s' = proofs s) as Hps.
  { unfold s', set_current_call_scope. by destruct (call_frames _). }
  exists s'. split; [done|]. rewrite Hc. simpl. split_and!; [done| |].
  - unfold drop_proof. rewrite Hc. unfold is_proof_in_scope in *. simpl. by rewrite Hin.
  - destruct (existsb _ _); [done|]. apply any_loop_last.
    + intros q Hqs. destruct (Hq q Hqs) as [pq Hpq]. unfold state_get_proof. rewrite Hps, Hpq.
      simpl. eauto.
    + unfold state_get_proof. rewrite Hps, Hp. simpl. by rewrite bool_decide_true.
Qed.

Lemma drop_proof_scope (s : WorkingState) pid :
  is_proof_in_scope (current_call_scope s) pid = true →
  current_call_scope (drop_proof pid s).2 =
    set_auth_scope (remove_proof pid (auth_scope (current_call_scope s))).2 (current_call_scope s) ∧
  proofs (drop_proof pid s).2 = delete pid (proofs s).
Proof.
  intros Hin. unfold drop_proof. rewrite Hin. simpl. erewrite bind_run by reflexivity.
  set (s1 := set_current_call_scope _ s).
  assert (current_call_scope s1 = set_auth_scope
    (remove_proof pid (auth_scope (current_call_scope s))).2 (current_call_scope s) ∧
    proofs s1 = proofs s) as [Hc Hp].
  { unfold s1. rewrite current_set_scope. unfold set_current_call_scope. by destruct (call_frames s). }
  destruct (proofs s !! pid) as [p|] eqn:E.
  2: { by erewrite bind_fail by (rewrite Hp, E; reflexivity). }
  erewrite bind_run by (rewrite Hp, E; reflexivity).
  set (s2 := set_proofs _ s1).
  assert (current_call_scope s2 = current_call_scope s1) as Hc2 by done.
  destruct (proof_container p) as [b|vid].
  - change (buckets s2) with (buckets s1). destruct (buckets s1 !! b) as [bk|]; [|done].
    by destruct (map_err RuntimeResourceError (bucket_unlock p) bk).
  - assert (∀ (A : Type) (m : M WorkingStateStore RuntimeError A) (s : WorkingState),
      current_call_scope (on_store m s).2 = current_call_scope s ∧
      proofs (on_store m s).2 = proofs s) as Hon.
    { intros A m s0. unfold on_store, zoom. by destruct (m (store s0)). }
    assert (preserves (λ s, (current_call_scope s, proofs s))
      (let! vault_lock := lock_substate (SidVault vid) LockWrite in
       do! on_vault_mut vault_lock (map_err RuntimeResourceError (vault_unlock p)) in
       unlock_substate vault_lock)) as Hpr.
    { assert (∀ (A : Type) (m : M WorkingStateStore RuntimeError A),
        preserves (λ s, (current_call_scope s, proofs s)) (on_store m)) as Hst.
      { intros A m s0. destruct (Hon A m s0) as [-> ->]. done. }
      apply preserves_bind; [apply preserves_bind; [apply Hst|intros; apply preserves_ret]|].
      intros lk. apply preserves_bind; [apply Hst|]. intros _. apply Hst. }
    specialize (Hpr s2). simpl in Hpr. injection Hpr as -> ->. done.
Qed.

(** a proof that was dropped can keep its place in the authorization scope.  A
    first call takes a copy of the transaction's scope and hands it back when it
    returns, which leaves each proof twice; dropping the proof removes one of the
    two.  Afterwards every rule that asks for a badge the caller does not hold
    fails with [ProofNotFound] instead of being evaluated. *)
Theorem dropped_proof_lingers (s : WorkingState) (f : CallFrame) pid (max_call_depth : nat) resx :
  call_frames s = [] → (1 ≤ max_call_depth)%nat →
  scope_proofs (auth_scope (initial_call_scope s)) = [pid] →
  is_proof_in_scope (initial_call_scope s) pid = true →
  component_lock (frame_scope f) = None → lock_scope (frame_scope f) = [] →
  orphans (frame_scope f) = [] →
  (∀ a, a ∈ virtual_proofs (auth_scope (initial_call_scope s)) → nfa_resource a ≠ resx) →
  ∃ s1 s2, push_frame f max_call_depth s = (Ok tt, s1) ∧ pop_frame s1 = (Ok tt, s2) ∧
    let s3 := (drop_proof pid s2).2 in
    proofs s3 !! pid = None ∧
    check_requirement s3 (auth_scope (current_call_scope s3)) (ReqResource resx) =
      Err (ProofNotFound pid).
Proof.
  intros Hf Hd Hp Hin Hcl Hls Ho Hv.
  assert (∃ s1, push_frame f max_call_depth s = (Ok tt, s1) ∧
    call_frames s1 = [set_frame_scope (set_auth_scope (auth_scope (initial_call_scope s))
                        (frame_scope f)) f] ∧ initial_call_scope s1 = initial_call_scope s)
    as (s1 & H1 & Hf1 & Hi1).
  { unfold push_frame, call_frame_depth, current_call_scope. rewrite Hf. simpl.
    assert ((max_call_depth <? 1)%nat = false) as -> by by apply Nat.ltb_ge.
    eexists. split; [done|]. simpl. done. }
  assert (∃ s2, pop_frame s1 = (Ok tt, s2) ∧ is_proof_in_scope (current_call_scope s2) pid = true ∧
    auth_scope (current_call_scope s2) =
      MkAuthorizationScope (virtual_proofs (auth_scope (initial_call_scope s))) [pid; pid])
    as (s2 & H2 & Hin2 & Has).
  { unfold pop_frame. rewrite Hf1. simpl. rewrite Hcl, Hls, Ho. unfold bind. simpl.
    eexists. split; [reflexivity|]. unfold set_current_call_scope, current_call_scope. simpl.
    rewrite Hi1. split.
    - unfold is_proof_in_scope in *. simpl. apply bool_decide_eq_true.
      apply bool_decide_eq_true in Hin. apply elem_of_is_extend. by right.
    - unfold update_from_child_scope, update_from_child. simpl. by rewrite Hp. }
  exists s1, s2. split_and!; [done..|]. destruct (drop_proof_scope s2 pid Hin2) as [Hc3 Hp3].
  intros s3. unfold s3. rewrite Hc3, Hp3. simpl. rewrite lookup_delete_eq. split; [done|].
  rewrite Has. unfold remove_proof. simpl. rewrite decide_True by (left; done). simpl.
  rewrite decide_True by done. simpl.
  assert (existsb (λ addr, bool_decide (nfa_resource addr = resx))
    (virtual_proofs (auth_scope (initial_call_scope s))) = false) as ->.
  { apply not_true_iff_false. rewrite existsb_exists. intros (a & Ha & Hb).
    apply bool_decide_eq_true in Hb. apply list_elem_of_In in Ha. by apply (Hv a). }
  unfold state_get_proof. by rewrite Hp3, lookup_delete_eq.
Qed.
End runtime_props.

(** ** Witnesses *)
Definition no_hooks :
    ComponentAddress → string → ResourceAuthAction → AuthHookCaller → M WorkingState unit Value :=
  λ _ _ _ _, throw tt.
Definition example_fees : FeeState :=
  fee_state (invoke_modules_on_runtime_call example_modules "vault_invoke" caller_state_example).2.

Lemma caller_store_wf : store_wf (store_new example_ledger).
Proof.
  apply store_new_wf. intros id x. unfold example_ledger.
  rewrite !lookup_insert_Some, lookup_singleton_Some. intros H. naive_solver.
Qed.
Lemma example_state_wf : state_wf caller_state_example.
Proof.
  split; [apply caller_store_wf|vm_compute; discriminate|discriminate| |vm_compute; lia].
  split; [constructor|]. intros id Hid. by apply elem_of_nil in Hid.
Qed.
Lemma example_ids : ids_fresh caller_state_example.
Proof.
  split; [vm_compute; by split|].
  split; intros b [x Hx]; change (@None Bucket = Some x) in Hx || change (@None Proof = Some x) in Hx; done.
Qed.
Lemma example_vault_at : vault_at caller_state_example 7 example_vault example_resource.
Proof. split; vm_compute; reflexivity. Qed.
Lemma example_enters : @enters int_cbor example_modules caller_state_example example_fees 7.
Proof. split; vm_compute; reflexivity. Qed.

Lemma vault_withdraw_spec_witness :
  ∃ bid s', @vault_invoke i192_panicking ideal_crypto int_cbor example_hashes example_display
    (λ _, Some 1) example_modules no_hooks (VaultById 7) (VaWithdraw (WithdrawFungible 4))
    caller_state_example = (Ok (IrBucket bid), s') ∧
    buckets s' = {[ bid := MkBucket bid (Fungible 1 4 0) ]}.
Proof.
  pose proof (@vault_withdraw_spec i192_panicking ideal_crypto int_cbor example_hashes
    example_display (λ _, Some 1) example_modules no_hooks caller_state_example example_fees 7
    example_vault example_resource None (WithdrawFungible 4) example_state_wf example_ids
    example_vault_at example_enters eq_refl eq_refl) as H.
  simpl in H. destruct H as (bid & s' & Hrun & Hw). exists bid, s'. split; [exact Hrun|].
  rewrite (wd_buckets _ _ _ _ _ _ Hw). reflexivity.
Defined.

Lemma vault_withdraw_deposit_witness :
  ∃ bid s1 s2,
    @vault_invoke_withdraw i192_panicking ideal_crypto example_display example_modules no_hooks
      (VaultById 7) (WithdrawFungible 4) caller_state_example = (Ok (IrBucket bid), s1) ∧
    @vault_invoke_deposit i192_panicking example_display example_modules no_hooks
      (VaultById 7) bid s1 = (Ok IrUnit, s2) ∧
    view (store s2) (SidVault 7) = Some (SvVault example_vault).
Proof.
  destruct (@vault_withdraw_deposit i192_panicking ideal_crypto example_display example_modules
    no_hooks caller_state_example 7 example_vault example_resource None (WithdrawFungible 4)
    (Fungible 1 4 0) 4 (vault_new (Fungible 1 6 0))) as (bid & s1 & s2 & H1 & _ & _ & _ & H2 & Hv & _).
  - exact example_state_wf.
  - vm_compute. discriminate.
  - vm_compute. lia.
  - exact example_ids.
  - exact example_vault_at.
  - unfold container_wf, amounts_wf, i192_MAX. simpl. lia.
  - reflexivity.
  - reflexivity.
  - reflexivity.
  - reflexivity.
  - reflexivity.
  - reflexivity.
  - vm_compute. reflexivity.
  - exists bid, s1, s2. split; [exact H1|]. split; [exact H2|]. rewrite Hv.
    exact (va_vault _ _ _ _ example_vault_at).
Defined.

Lemma vault_proof_roundtrip_witness :
  ∃ pid s1 s2,
    vault_create_proof example_modules no_hooks (VaultById 7)
      (λ id, @vault_lock_by_amount i192_panicking id 4) caller_state_example =
      (Ok (IrProof pid), s1) ∧
    view (store s1) (SidVault 7) = Some (SvVault (vault_new (Fungible 1 6 4))) ∧
    @drop_proof i192_panicking pid s1 = (Ok tt, s2) ∧
    view (store s2) (SidVault 7) = Some (SvVault example_vault).
Proof.
  destruct (@vault_proof_roundtrip i192_panicking example_modules no_hooks caller_state_example 7
    example_vault example_resource (vault_new (Fungible 1 6 4))
    (MkLockedResource (RefVault 7) (Fungible 1 4 0))
    (λ id, @vault_lock_by_amount i192_panicking id 4))
    as (pid & s1 & s2 & H1 & _ & Hv1 & _ & H2 & Hv & _).
  - exact example_state_wf.
  - vm_compute. discriminate.
  - exact example_ids.
  - exact example_vault_at.
  - unfold container_wf, amounts_wf, i192_MAX. simpl. lia.
  - reflexivity.
  - reflexivity.
  - reflexivity.
  - constructor. unfold i192_in, i192_MIN, i192_MAX. lia.
  - vm_compute. reflexivity.
  - exists pid, s1, s2. split; [exact H1|]. split; [exact Hv1|]. split; [exact H2|]. rewrite Hv.
    exact (va_vault _ _ _ _ example_vault_at).
Defined.


(** A proof of the caller's caller. *)
Definition foreign_proof : Proof := MkProof (MkLockedResource (RefVault 8) (Fungible 2 1 0)).
Definition foreign_proof_state : WorkingState := set_proofs {[ 3%N := foreign_proof ]} caller_state_example.
Lemma authorize_ignores_scope_witness :
  ∃ s', @proof_invoke i192_panicking example_modules (Some 3%N) PaAuthorize foreign_proof_state =
          (Ok (IrAuthorized true), s') ∧
    check_requirement s' (auth_scope (current_call_scope s')) (ReqResource 2) = Ok true.
Proof.
  destruct (@authorize_ignores_scope i192_panicking example_modules foreign_proof_state example_fees
    3 foreign_proof) as (s' & H1 & _ & _ & H2).
  - vm_compute. reflexivity.
  - reflexivity.
  - reflexivity.
  - intros q Hq. by apply elem_of_nil in Hq.
  - exists s'. by split.
Defined.

Definition lingering_state : WorkingState :=
  set_proofs {[ 3%N := foreign_proof ]}
    (state_new example_ledger None (add_proof_to_scope 3 scope_new) 0).
Lemma dropped_proof_lingers_witness :
  ∃ s2, let s3 := (@drop_proof i192_panicking 3 s2).2 in
    proofs s3 !! 3%N = None ∧
    check_requirement s3 (auth_scope (current_call_scope s3)) (ReqResource 9) =
      Err (ProofNotFound 3).
Proof.
  destruct (@dropped_proof_lingers i192_panicking lingering_state
    (MkCallFrame scope_new 0 "template" 0) 3 10 9) as (s1 & s2 & _ & _ & H);
    try reflexivity; [lia|intros a Ha; by apply elem_of_nil in Ha|].
  by exists s2.
Defined.
