(* ===== verification/RuntimeSupply.v ===== *)
(** * Supply of a resource

    Minting and burning through the runtime: the tracked supply of a resource
    moves with the buckets that are created and destroyed, and what burning a
    stealth UTXO does to it. *)
From stdpp Require Import base gmap list strings numbers.
From S2P Require Import Prelude Bor BTree Ids IndexedValue IdProvider Amount Crypto Confidential.
From S2P Require Import ResourceContainer FreezeFlags Proof Bucket Vault AccessRules RuntimeError.
From S2P Require Import Auth Locking Fees Substate Stealth FeeState Scope StateStore WorkingState.
From S2P Require Import HandlerRuns Runtime Examples RuntimeProps.
Open Scope Z_scope.

(** The amounts a resource with this supply can mint. *)
Definition can_mint (r : Resource) (amt : Z) : Prop :=
  0 ≤ amt ≤ i192_MAX ∧
  match total_supply r with Some n => 0 ≤ n ∧ n + amt ≤ i192_MAX | None => True end.
Definition with_supply (f : Z → Z) (r : Resource) : Resource :=
  set_total_supply (f <$> total_supply r) r.

(** Minting an amount, and the container it gives. *)
Inductive mints_amount (ra : ResourceAddress) (amt : Z) : MintArg → ResourceContainer → Prop :=
  | mints_fungible : mints_amount ra amt (MintFungible amt) (Fungible ra amt 0)
  | mints_stealth : mints_amount ra amt (MintStealth amt) (Stealth ra amt 0).

Lemma with_supply_back (r : Resource) amt :
  with_supply (λ n, n - amt) (with_supply (λ n, n + amt) r) = r.
Proof.
  unfold with_supply, set_total_supply. destruct r as [? ? ? ? ? [n|]]; simpl; [|done].
  do 2 f_equal. lia.
Qed.

Lemma mutated_same (st : WorkingStateStore) lk v :
  store_wf st → holds st lk v → mutated_run st st lk v.
Proof.
  intros Hwf Hh. split; try done. intros id. case_decide; [|done]. subst.
  by apply get_ref_view, Hh.
Qed.

Section supply.
Context `{Ii : !I192} `{Ic : !Crypto} `{Cb : !Cbor} `{Ih : !IdHashes} `{Dp : !Display}.
Variable encoded_len : SubstateValue → option Z.
Variable modules : list RuntimeModule.
Variable call_method :
  ComponentAddress → string → ResourceAuthAction → AuthHookCaller → M WorkingState unit Value.

Lemma i192_pos (z : Z) : 0 ≤ z ≤ i192_MAX → i192_in z.
Proof. unfold i192_in, i192_MIN, i192_MAX. lia. Qed.

Lemma increase_run {E : Type} (r : Resource) amt :
  can_mint r amt →
  @increase_total_supply _ E amt r = (Ok true, with_supply (λ n, n + amt) r).
Proof.
  intros [Ha Hs]. unfold increase_total_supply. rewrite is_non_negative_true by lia. simpl.
  unfold with_supply. destruct (total_supply r) as [n|] eqn:E1; simpl in *.
  - assert (Amount.checked_add n amt = Some (n + amt)) as ->; [|done].
    apply checked_add_Some; [apply i192_pos; lia..|]. split; [done|]. apply i192_pos. lia.
  - unfold set_total_supply. destruct r; simpl in *. by subst.
Qed.
Lemma decrease_run {E : Type} (r : Resource) amt :
  0 ≤ amt → match total_supply r with Some n => amt ≤ n ≤ i192_MAX | None => True end →
  @decrease_total_supply _ E amt r = (Ok tt, with_supply (λ n, n - amt) r).
Proof.
  intros Ha Hs. unfold decrease_total_supply. rewrite is_non_negative_true by lia. simpl.
  unfold with_supply. destruct (total_supply r) as [n|] eqn:E1; simpl in *.
  - rewrite checked_sub_positive_eq by (apply i192_pos; lia).
    rewrite decide_True by lia. reflexivity.
  - unfold set_total_supply. destruct r; simpl in *. by subst.
Qed.

Lemma mint_resource_run (s : WorkingState) lk r ra amt arg cont :
  store_wf (store s) → holds (store s) lk (SvResource r) → ls_lock_flag lk = LockWrite →
  ls_address lk = SidResource ra → can_mint r amt → mints_amount ra amt arg cont →
  res_type r = as_resource_type arg →
  ∃ st', mint_resource encoded_len lk arg s = (Ok cont, set_store st' s) ∧
         mutated_run (store s) st' lk (SvResource (with_supply (λ n, n + amt) r)).
Proof.
  intros Hwf Hh Hf Ha Hc Hm Ht. pose proof Hc as [Hamt Hsup]. unfold mint_resource. rewrite Ha.
  erewrite bind_run by reflexivity. erewrite bind_run.
  2: { unfold lift, get_resource. by rewrite (get_as_run as_resource s lk _ r Hh). }
  rewrite bool_decide_false by naive_solver.
  assert (mint_container encoded_len lk ra arg s = (Ok cont, s) ∧ amount cont = amt) as [Hmc Hac].
  { unfold mint_container, Amount.is_negative, fungible, stealth.
    destruct Hm; simpl; assert ((amt <? 0) = false) as -> by (apply Z.ltb_ge; lia);
      unfold lift; by rewrite is_non_negative_true by lia. }
  rewrite (bind_run _ _ _ _ _ Hmc). unfold is_supply_tracking_enabled.
  destruct (total_supply r) as [n|] eqn:Hts.
  - destruct (on_value_run as_resource SvResource s lk (SvResource r) r
      (let! increased := increase_total_supply (amount cont) in
       if increased then ret tt
       else
         let! r := get in
         let! current_supply := lift (expect (total_supply r)) in
         throw (ResourceSupplyWouldOverflow ra current_supply (amount cont)))
      (Ok tt) (with_supply (λ n, n + amt) r)) as (st' & Hrun & Mu); try done.
    + rewrite Hac. by rewrite (bind_run _ _ _ _ _ (increase_run r amt Hc)).
    + by rewrite Ha.
    + exists st'. split; [|done]. unfold on_resource_mut. by rewrite (bind_run _ _ _ _ _ Hrun).
  - exists (store s). assert (with_supply (λ n, n + amt) r = r) as ->.
    { unfold with_supply, set_total_supply. destruct r; simpl in *. by subst. }
    split; [|by apply mutated_same]. unfold ret. by destruct s.
Qed.

(** The state after minting [cont] into the bucket [bid]. *)
Record minted (s s' : WorkingState) (ra : ResourceAddress) (r' : Resource) (bid : BucketId)
    (cont : ResourceContainer) : Prop := {
  mt_fresh : buckets s !! bid = None;
  mt_buckets : buckets s' = <[bid := MkBucket bid cont]> (buckets s);
  mt_scope : get_bucket s' bid = Ok (MkBucket bid cont);
  mt_proofs : proofs s' = proofs s;
  mt_store : store_wf (store s');
  mt_view : view_set (store s) (store s') (SidResource ra) (Some (SvResource r'));
  mt_locks : same_locks (store s) (store s');
  mt_left : locks_left (store s') = locks_left (store s) - 1;
  mt_events : length (events s') = S (length (events s));
  mt_caller : caller_kept s s';
}.

Lemma one_released (st st1 st2 st3 : WorkingStateStore) lk v :
  free st (ls_address lk) → locked_run st st1 lk v →
  locked_substates st2 = locked_substates st1 → released_run st2 st3 lk →
  same_locks st st3 ∧ locks_left st3 = locks_left st - 1.
Proof.
  intros Hf [_ _ _ F I K C _] El [_ _ I' K' C' _]. unfold free in Hf. split; [split|].
  - rewrite I', El, I. by rewrite delete_insert_id.
  - rewrite K', El, K. by rewrite delete_insert_id.
  - rewrite C'. unfold locks_left in *. by rewrite El.
Qed.

Lemma resource_mint_run (s : WorkingState) ra r amt arg cont :
  state_wf s → ids_fresh s → view (store s) (SidResource ra) = Some (SvResource r) →
  free (store s) (SidResource ra) → res_auth_hook r = None → access s Mint r = Ok tt →
  can_mint r amt → mints_amount ra amt arg cont → res_type r = as_resource_type arg →
  let bid := Z.to_N (bucket_counter (object_ids s)) in
  ∃ s', resource_mint encoded_len modules call_method ra arg s = (Ok (IrBucket bid), s') ∧
        minted s s' ra (with_supply (λ n, n + amt) r) bid cont.
Proof.
  intros Hs Hids Hv Hf Hh Ha Hc Hm Ht bid. pose proof (st_frames s Hs) as Hfr.
  destruct (lock_run s (SidResource ra) LockWrite (SvResource r) (st_store s Hs)) as
    (lk & st1 & Hrun & Had & Hfl & L); try done; [pose proof (st_locks s Hs); lia|].
  destruct (check_access_rules_run (set_store st1 s) lk r Mint (lr_holds _ _ _ _ L) Hfr)
    as (caller & Hck); [by rewrite access_set_store|].
  destruct (mint_resource_run (set_store st1 s) lk r ra amt arg cont) as (st2 & Hmr & Mu);
    try done; [apply L..|]. simpl in Mu.
  set (s2 := set_store st2 (set_store st1 s)) in *.
  set (s3 := set_object_ids (next_bucket_counter (E:=unit) (object_ids s)).2 s2).
  destruct (emit_run s3 "resource" "mint" (SidResource ra)
    [("resource_type", show_resource_type (resource_type cont));
     ("amount", show_amount (amount cont))] Hfr (st_events s Hs)) as [e He].
  set (s4 := set_events _ s3) in *.
  destruct (new_bucket_run s4 bid cont (st_scope s Hs) (ids_fresh_bucket s Hids))
    as (c' & Hnb & Hk & Hbs). set (s5 := set_current_call_scope _ _) in *.
  assert (store s5 = st2 ∧ buckets s5 = <[bid := MkBucket bid cont]> (buckets s) ∧
    proofs s5 = proofs s ∧ events s5 = events s ++ [e] ∧ current_call_scope s5 = c')
    as (Hst & Hb & Hp & Hev & Hc5).
  { unfold s5. rewrite current_set_scope. unfold set_current_call_scope. by destruct (call_frames _). }
  destruct (unlock_run s5 lk (SvResource (with_supply (λ n, n + amt) r))) as (st3 & Hu & R);
    try (rewrite Hst; apply Mu). rewrite Hst in R.
  exists (set_store st3 s5). split.
  - unfold resource_mint. rewrite (bind_run _ _ _ _ _ Hrun), (bind_run _ _ _ _ _ Hck).
    simpl fst. simpl snd. rewrite Hh. erewrite bind_run by reflexivity.
    rewrite (bind_run _ _ _ _ _ Hmr), (bind_run _ _ _ _ _ (provide_bucket_id_run s2 Hfr)).
    rewrite (bind_run _ _ _ _ _ He), (bind_run _ _ _ _ _ Hnb). by rewrite (bind_run _ _ _ _ _ Hu).
  - destruct (one_released (store s) st1 st2 st3 lk (SvResource r)) as [Hsl Hleft];
      [by rewrite Had|done|apply Mu|done|].
    split; simpl; try done; [by apply ids_fresh_bucket| |apply R| | |].
    + change (get_bucket s5 bid = Ok (MkBucket bid cont)). unfold get_bucket, is_bucket_in_scope.
      rewrite Hc5, Hbs, bool_decide_true by (apply elem_of_is_add; by left). simpl.
      by rewrite Hb, lookup_insert_eq.
    + intros id. rewrite (rr_view _ _ _ R), (mr_view _ _ _ _ Mu), Had.
      case_decide; [done|]. apply (lr_view _ _ _ _ L).
    + rewrite Hev, length_app. simpl. lia.
    + apply caller_kept_store. by apply set_scope_caller.
Qed.

Lemma bucket_burn_run (s : WorkingState) ra r bid cont :
  state_wf s → view (store s) (SidResource ra) = Some (SvResource r) →
  free (store s) (SidResource ra) → res_auth_hook r = None → access s Burn r = Ok tt →
  get_bucket s bid = Ok (MkBucket bid cont) → resource_address cont = ra →
  into_non_fungible_ids cont = None → 0 ≤ amount cont →
  match total_supply r with Some n => amount cont ≤ n ≤ i192_MAX | None => True end →
  ∃ s', bucket_burn modules call_method bid s = (Ok IrUnit, s') ∧
    buckets s' = delete bid (buckets s) ∧ proofs s' = proofs s ∧
    view_set (store s) (store s') (SidResource ra)
      (Some (SvResource (with_supply (λ n, n - amount cont) r))) ∧
    same_locks (store s) (store s').
Proof.
  intros Hs Hv Hf Hh Ha Hb Hra Hnf Hamt Hsup. pose proof (st_frames s Hs) as Hfr.
  destruct (lock_run s (SidResource ra) LockWrite (SvResource r) (st_store s Hs)) as
    (lk & st1 & Hrun & Had & Hfl & L); try done; [pose proof (st_locks s Hs); lia|].
  destruct (check_access_rules_run (set_store st1 s) lk r Burn (lr_holds _ _ _ _ L) Hfr)
    as (caller & Hck); [by rewrite access_set_store|].
  destruct (take_bucket_run (set_store st1 s) bid _ Hb) as (c' & Htk & Hk).
  set (s2 := set_current_call_scope _ _) in *.
  assert (store s2 = st1 ∧ buckets s2 = delete bid (buckets s) ∧ proofs s2 = proofs s)
    as (Hst & Hbs & Hp).
  { unfold s2, set_current_call_scope. by destruct (call_frames _). }
  assert (burn_bucket (MkBucket bid cont) s2 = (Ok tt, s2)) as Hbb.
  { unfold burn_bucket. simpl. rewrite Hnf. by destruct (Amount.is_zero _). }
  destruct (on_value_run as_resource SvResource s2 lk (SvResource r) r
    (decrease_total_supply (amount cont)) (Ok tt) (with_supply (λ n, n - amount cont) r))
    as (st2 & Hd & Mu); try done; try (rewrite Hst; apply L).
  { by apply decrease_run. } { by rewrite Had. }
  rewrite Hst in Mu.
  destruct (unlock_run (set_store st2 s2) lk (SvResource (with_supply (λ n, n - amount cont) r)))
    as (st3 & Hu & R); [apply Mu..|].
  exists (set_store st3 (set_store st2 s2)). split.
  - unfold bucket_burn. erewrite bind_run by reflexivity.
    erewrite bind_run by (unfold lift; by rewrite Hb).
    unfold bucket_resource_address. simpl bucket_container. rewrite Hra.
    rewrite (bind_run _ _ _ _ _ Hrun), (bind_run _ _ _ _ _ Hck).
    simpl fst. simpl snd. rewrite Hh. erewrite bind_run by reflexivity.
    rewrite (bind_run _ _ _ _ _ Htk), (bind_run _ _ _ _ _ Hbb).
    unfold on_resource_mut. by rewrite (bind_run _ _ _ _ _ Hd), (bind_run _ _ _ _ _ Hu).
  - destruct (one_released (store s) st1 st2 st3 lk (SvResource r)) as [Hsl _];
      [by rewrite Had|done|apply Mu|done|].
    simpl. split_and!; try done.
    intros id. rewrite (rr_view _ _ _ R). simpl. rewrite (mr_view _ _ _ _ Mu), Had.
    case_decide; [done|]. apply (lr_view _ _ _ _ L).
Qed.

(** minting an amount of a fungible or stealth resource gives a bucket that
    holds exactly the amount and adds the amount to the tracked supply; burning
    the bucket takes both away again, so that every substate, bucket, proof and
    lock is as before. *)
Theorem mint_burn_roundtrip (s : WorkingState) ra r amt arg cont :
  state_wf s → 3 ≤ locks_left (store s) → (S (length (events s)) < max_events)%nat →
  ids_fresh s → view (store s) (SidResource ra) = Some (SvResource r) →
  free (store s) (SidResource ra) → res_auth_hook r = None →
  access s Mint r = Ok tt → access s Burn r = Ok tt →
  can_mint r amt → mints_amount ra amt arg cont → res_type r = as_resource_type arg →
  ∃ bid s1 s2,
    resource_mint encoded_len modules call_method ra arg s = (Ok (IrBucket bid), s1) ∧
    buckets s1 = <[bid := MkBucket bid cont]> (buckets s) ∧ amount cont = amt ∧
    view (store s1) (SidResource ra) = Some (SvResource (with_supply (λ n, n + amt) r)) ∧
    bucket_burn modules call_method bid s1 = (Ok IrUnit, s2) ∧
    same_view (store s) (store s2) ∧ buckets s2 = buckets s ∧ proofs s2 = proofs s ∧
    same_locks (store s) (store s2).
Proof.
  intros Hs Hl He Hids Hv Hf Hh Ham Hab Hc Hm Ht.
  destruct (resource_mint_run s ra r amt arg cont Hs Hids Hv Hf Hh Ham Hc Hm Ht) as (s1 & H1 & Hmt).
  pose proof (mt_caller _ _ _ _ _ _ Hmt) as Hck. destruct (mt_locks _ _ _ _ _ _ Hmt) as [El1 El2].
  assert (amount cont = amt ∧ resource_address cont = ra ∧ into_non_fungible_ids cont = None)
    as (Hac & Hra & Hnf) by by destruct Hm.
  assert (view (store s1) (SidResource ra) = Some (SvResource (with_supply (λ n, n + amt) r))) as Hv1.
  { by rewrite (mt_view _ _ _ _ _ _ Hmt), decide_True. }
  destruct (bucket_burn_run s1 ra (with_supply (λ n, n + amt) r) (Z.to_N (bucket_counter (object_ids s)))
    cont) as (s2 & H2 & Hb2 & Hp2 & Hv2 & [El3 El4]); try done.
  { destruct Hs as [? ? ? ? ?]. split; [apply Hmt|..].
    - rewrite (mt_left _ _ _ _ _ _ Hmt). lia.
    - by apply Hck.
    - by apply (sk_wf _ _ (ck_scope _ _ Hck)).
    - by rewrite (mt_events _ _ _ _ _ _ Hmt). }
  { unfold free. rewrite El2. apply Hf. }
  { change (access s1 Burn (with_supply (λ n, n + amt) r)) with (access s1 Burn r).
    rewrite (access_agree s s1); [done|]. apply caller_kept_agree; [apply Hs|apply Hmt..]. }
  { apply Hmt. }
  { rewrite Hac. apply Hc. }
  { rewrite Hac. destruct Hc as [? Hsup]. simpl. destruct (total_supply r); simpl; [lia|done]. }
  eexists _, s1, s2. split_and!; [exact H1|apply Hmt|done|done|exact H2| |..].
  - intros id. rewrite Hv2, Hac, with_supply_back. case_decide; [by subst|].
    by rewrite (mt_view _ _ _ _ _ _ Hmt), decide_False.
  - rewrite Hb2, (mt_buckets _ _ _ _ _ _ Hmt). apply delete_insert_id, Hmt.
  - by rewrite Hp2, (mt_proofs _ _ _ _ _ _ Hmt).
  - split; congruence.
Qed.

(** A stealth UTXO of a resource with a tracked supply cannot be burnt with an
    ElGamal value proof, even one that the check accepts for the UTXO: the call
    burns the UTXO, which discards its viewable balance, before it reads the
    balance to check the proof. *)
Theorem elgamal_burn_fails (s : WorkingState) ra r n utxo_id (o : UtxoOutput) value key :
  state_wf s → view (store s) (SidResource ra) = Some (SvResource r) →
  free (store s) (SidResource ra) → res_type r = RtStealth → total_supply r = Some n →
  access s Burn r = Ok tt →
  view (store s) (SidUtxo (MkUtxoAddress ra utxo_id)) = Some (SvUtxo (utxo_new o)) →
  free (store s) (SidUtxo (MkUtxoAddress ra utxo_id)) →
  let proof := MkStealthValueProof value (ElgamalEncrypted key) in
  validate_value_proof utxo_id (po_viewable_balance (utxo_private_output o)) proof = Ok value →
  (resource_stealth_burn ra utxo_id (Some proof) s).1 =
    Err (RuntimeResourceError (UtxoBurnFailed utxo_id)).
Proof.
  intros Hs Hv Hf Ht Hn Ha Hu Hfu proof _. pose proof (st_locks s Hs) as Hll.
  destruct (lock_run s (SidResource ra) LockRead (SvResource r) (st_store s Hs)) as
    (lk & st1 & Hrun & Had & Hfl & L); try done; [lia|].
  destruct (unlock_run (set_store st1 s) lk (SvResource r)) as (st2 & Hul & R); [apply L..|].
  simpl in R. set (s2 := set_store st2 (set_store st1 s)) in *.
  destruct (one_released (store s) st1 st1 st2 lk (SvResource r)) as [[_ El] Hleft];
    [by rewrite Had|done..|].
  destruct (lock_run s2 (SidUtxo (MkUtxoAddress ra utxo_id)) LockWrite (SvUtxo (utxo_new o)))
    as (ul & st3 & Hru & Hau & Hfu' & Lu); simpl.
  { apply R. } { lia. } { rewrite (rr_view _ _ _ R), (lr_view _ _ _ _ L). done. }
  { unfold free. by rewrite El. }
  destruct (on_value_run into_utxo SvUtxo (set_store st3 s2) ul (SvUtxo (utxo_new o)) (utxo_new o)
    (burn_utxo utxo_id (Some proof)) (Err (RuntimeResourceError (UtxoBurnFailed utxo_id)))
    (utxo_burn (utxo_new o))) as (st4 & Hb & _);
    [apply Lu|apply Lu|done|done| |rewrite Hau; simpl; by eexists|].
  { unfold burn_utxo. simpl. f_equal. unfold validate_value_proof. simpl.
    destruct (Amount.is_negative value); [done|].
    by destruct (point_from_canonical_bytes utxo_id). }
  unfold resource_stealth_burn. rewrite (bind_run _ _ _ _ _ Hrun).
  erewrite bind_run by reflexivity. erewrite bind_run.
  2: { unfold lift, get_resource. by rewrite (get_as_run as_resource (set_store st1 s) lk _ r (lr_holds _ _ _ _ L)). }
  rewrite bool_decide_false by naive_solver. unfold is_supply_tracking_enabled. rewrite Hn. simpl.
  erewrite bind_run by reflexivity. erewrite bind_run.
  2: { unfold lift. change (check_resource_access_rules (set_store st1 s) Burn
         (resource_as_ownership r) (res_access_rules r)) with (access (set_store st1 s) Burn r).
       by rewrite access_set_store, Ha. }
  rewrite (bind_run _ _ _ _ _ Hul), (bind_run _ _ _ _ _ Hru).
  unfold on_utxo_mut. by rewrite (bind_fail _ _ _ _ _ Hb).
Qed.
End supply.

(** ** Witnesses *)
Lemma mint_burn_roundtrip_witness :
  ∃ bid s1 s2,
    @resource_mint i192_panicking ideal_crypto example_display (λ _, Some 1) example_modules
      no_hooks 1 (MintFungible 5) caller_state_example = (Ok (IrBucket bid), s1) ∧
    view (store s1) (SidResource 1) =
      Some (SvResource (set_total_supply (Some 105) example_resource)) ∧
    @bucket_burn i192_panicking example_modules no_hooks bid s1 = (Ok IrUnit, s2) ∧
    view (store s2) (SidResource 1) = Some (SvResource example_resource).
Proof.
  destruct (@mint_burn_roundtrip i192_panicking ideal_crypto example_display (λ _, Some 1)
    example_modules no_hooks caller_state_example 1 example_resource 5 (MintFungible 5)
    (Fungible 1 5 0)) as (bid & s1 & s2 & H1 & _ & _ & Hv1 & H2 & Hv & _).
  - exact example_state_wf.
  - vm_compute. discriminate.
  - vm_compute. lia.
  - exact example_ids.
  - reflexivity.
  - reflexivity.
  - reflexivity.
  - reflexivity.
  - reflexivity.
  - unfold can_mint, i192_MAX. simpl. lia.
  - constructor.
  - reflexivity.
  - exists bid, s1, s2. split; [exact H1|]. split; [exact Hv1|]. split; [exact H2|]. by rewrite Hv.
Defined.

(** A stealth resource that tracks its supply, and a UTXO of it with a viewable
    balance. *)
Definition stealth_resource : Resource :=
  MkResource RtStealth OwnerNone None
    (MkResourceAccessRules DenyAll AllowAll DenyAll AllowAll AllowAll DenyAll DenyAll DenyAll)
    ∅ (Some 100) None None 0.
Definition viewable_output : UtxoOutput :=
  MkUtxoOutput (MkPrivateOutput 1 [] 0 (Some (MkElgamalBytes 1280 0))) 1 0.
Definition burn_ledger : gmap SubstateId Substate :=
  {[ SidResource 1 := MkSubstate (SvResource stealth_resource) 0;
     SidUtxo (MkUtxoAddress 1 1797) := MkSubstate (SvUtxo (utxo_new viewable_output)) 0 ]}.
Definition burn_state : WorkingState :=
  set_frames [MkCallFrame scope_new 0 "template" 0] scope_new (state_new burn_ledger None scope_new 0).

Lemma burn_state_wf : state_wf burn_state.
Proof.
  split; [|vm_compute; discriminate|discriminate| |vm_compute; lia].
  - apply store_new_wf. intros id x. unfold burn_ledger.
    rewrite !lookup_insert_Some, lookup_singleton_Some. intros H.
    destruct H as [[<- <-]|[_ [<- <-]]]; simpl; eauto.
  - split; [constructor|]. intros id Hid. by apply elem_of_nil in Hid.
Qed.

Lemma elgamal_burn_fails_witness :
  (@resource_stealth_burn i192_panicking ideal_crypto 1 1797
     (Some (MkStealthValueProof 3 (ElgamalEncrypted 512))) burn_state).1 =
    Err (RuntimeResourceError (UtxoBurnFailed 1797)).
Proof.
  apply (@elgamal_burn_fails i192_panicking ideal_crypto burn_state 1 stealth_resource 100 1797
    viewable_output 3 512); [exact burn_state_wf|vm_compute; reflexivity..].
Defined.
