(* ===== verification/Sharding.v ===== *)
(** * Sharding of the substate space

    The 256-bit address space is cut into [NumPreshards] shards of (nearly)
    equal size, numbered from 1; contiguous runs of shards form the shard
    groups that committees look after.  The file models
    [common_types/src/{shard,num_preshards,shard_group,substate_address}.rs]:
    a [SubstateAddress] is its 36-byte array read as a big-endian number (the
    array order is the numeric order), a [U256] the number it stands for.

    The theorems show that [SubstateAddress::to_shard_group] and
    [NumPreshards::all_shard_groups_iter], two loops that compute the division
    independently, give the same partition of the shards, and that every
    address has exactly one group in it. *)
From stdpp Require Import base gmap list numbers.
From S2P Require Import Prelude Ids.
Open Scope Z_scope.

(** ** Shards and their number *)
Notation Shard := Z (only parsing).
Definition shard_first : Shard := 1.
Definition shard_global : Shard := 0.
Definition shard_is_global (s : Shard) : bool := s =? 0.
Definition shard_is_first (s : Shard) : bool := s =? 1.

Inductive NumPreshards := P1 | P2 | P4 | P8 | P16 | P32 | P64 | P128 | P256.

#[export] Instance NumPreshards_eq_dec : EqDecision NumPreshards.
Proof. solve_decision. Defined.

Definition as_u32 (n : NumPreshards) : Z :=
  match n with
  | P1 => 1 | P2 => 2 | P4 => 4 | P8 => 8 | P16 => 16
  | P32 => 32 | P64 => 64 | P128 => 128 | P256 => 256
  end.

(** [TryFrom<u32> for NumPreshards]; the error carries the rejected number. *)
Definition num_preshards_try_from (value : Z) : res Z NumPreshards :=
  match value with
  | 1 => Ok P1 | 2 => Ok P2 | 4 => Ok P4 | 8 => Ok P8 | 16 => Ok P16
  | 32 => Ok P32 | 64 => Ok P64 | 128 => Ok P128 | 256 => Ok P256
  | _ => Err value
  end.

Definition is_one (n : NumPreshards) : bool := bool_decide (n = P1).
Definition all_shards_iter (n : NumPreshards) : list Shard :=
  seqZ 1 (as_u32 n).

(** [u32::trailing_zeros]. *)
Fixpoint pos_trailing_zeros (p : positive) : Z :=
  match p with
  | xO q => 1 + pos_trailing_zeros q
  | _ => 0
  end.
Definition trailing_zeros (n : Z) : Z :=
  match n with Zpos p => pos_trailing_zeros p | _ => 32 end.

Definition U256_MAX : Z := 2 ^ 256 - 1.

(** [U256::MAX >> num_shards.trailing_zeros()]. *)
Definition shard_size (n : NumPreshards) : Z :=
  Z.shiftr U256_MAX (trailing_zeros (as_u32 n)).

(** ** Shard groups *)
Record ShardGroup := MkShardGroup {
  sg_start : Shard;
  sg_end_inclusive : Shard;
}.

#[export] Instance ShardGroup_eq_dec : EqDecision ShardGroup.
Proof. solve_decision. Defined.
#[export] Instance ShardGroup_countable : Countable ShardGroup.
Proof.
  refine (inj_countable' (λ g, (sg_start g, sg_end_inclusive g))
    (λ p, MkShardGroup p.1 p.2) _). by intros [].
Defined.

Definition new_checked (start end_inclusive : Shard) : option ShardGroup :=
  if end_inclusive <? start then None else Some (MkShardGroup start end_inclusive).
Definition shard_group_new {E : Type} (start end_inclusive : Shard) : res E ShardGroup :=
  expect (new_checked start end_inclusive).
Definition all_shards {E : Type} (n : NumPreshards) : res E ShardGroup :=
  shard_group_new shard_first (as_u32 n).

(** [len] panics outside [u32]; [checked_len] does not. *)
Definition shard_group_len {E : Type} (g : ShardGroup) : res E Z :=
  let? e := u32_add (sg_end_inclusive g) 1 in u32_sub e (sg_start g).
Definition checked_len (g : ShardGroup) : option Z :=
  match u32_checked_add (sg_end_inclusive g) 1 with
  | None => None
  | Some e =>
      match u32_checked_sub e (sg_start g) with
      | None => None
      | Some len => if 0 <? len then Some len else None
      end
  end.

(** The encoding [(start << 16) | end] of a shard group; [<<] on [u32] drops
    the bits above the 32nd. *)
Definition MAX_ENCODED_VALUE : Z := Z.shiftl 256 16 + 256.
Definition encode_as_u32 (g : ShardGroup) : Z :=
  Z.lor (Z.land (Z.shiftl (sg_start g) 16) U32_MAX) (sg_end_inclusive g).
Definition decode_from_u32 (n : Z) : option ShardGroup :=
  if MAX_ENCODED_VALUE <? n then None
  else new_checked (Z.shiftr n 16) (Z.land n 65535).

(** [iter::successors] from the first shard to the last. *)
Definition shard_iter (g : ShardGroup) : list Shard :=
  seqZ (sg_start g) (sg_end_inclusive g - sg_start g + 1).

Definition shard_group_contains (g : ShardGroup) (s : Shard) : bool :=
  (sg_start g <=? s) && (s <=? sg_end_inclusive g).
Definition contains_or_global (g : ShardGroup) (s : Shard) : bool :=
  if shard_is_global s then true else shard_group_contains g s.
Definition overlaps_shard_group (g other : ShardGroup) : bool :=
  (sg_start g <=? sg_end_inclusive other) && (sg_start other <=? sg_end_inclusive g).
Definition shard_group_intersection (g other : ShardGroup) : option ShardGroup :=
  if overlaps_shard_group g other
  then Some (MkShardGroup (Z.max (sg_start g) (sg_start other))
                          (Z.min (sg_end_inclusive g) (sg_end_inclusive other)))
  else None.
Definition relative_to_shard_group_start (s : Shard) (g : ShardGroup) : option Z :=
  if negb (shard_group_contains g s) then None else u32_checked_sub s (sg_start g).

(** The items of [NumPreshards::all_shard_groups_iter]: the body of the closure
    given to [iter::from_fn], called until it returns [None].  A division by
    zero and [0 - 1] panic. *)
Fixpoint groups_from {E : Type} (fuel : nat) (num_shards per rem start end_ : Z) :
    res E (list ShardGroup) :=
  if num_shards <=? start then Ok [] else
  match fuel with
  | O => Panic
  | S fuel =>
      let end_ := if 0 <? rem then end_ + 1 else end_ in
      let rem := if 0 <? rem then rem - 1 else rem in
      let? group := shard_group_new (start + 1) (end_ + 1) in
      let start := end_ + 1 in
      let end_ := start + per - 1 in
      let? groups := groups_from fuel num_shards per rem start end_ in
      Ok (group :: groups)
  end.

Definition all_shard_groups_iter {E : Type} (n : NumPreshards) (num_committees : Z) :
    res E (list ShardGroup) :=
  if num_committees =? 0 then Panic else
  let num_shards := as_u32 n in
  let num_shards_per_committee := num_shards / num_committees in
  let remainder := num_shards mod num_committees in
  let? end_ := u32_sub num_shards_per_committee 1 in
  groups_from (Z.to_nat num_shards) num_shards num_shards_per_committee remainder 0 end_.

(** ** Substate addresses *)
Notation SubstateAddress := Z (only parsing).

Definition from_u256 (address version : Z) : SubstateAddress :=
  Z.lor (Z.shiftl address 32) version.
Definition from_u256_zero_version (address : Z) : SubstateAddress := from_u256 address 0.
Definition to_u256 (a : SubstateAddress) : Z := Z.shiftr a 32.
Definition to_version (a : SubstateAddress) : Z := Z.land a U32_MAX.
Definition address_is_zero (a : SubstateAddress) : bool := a =? 0.
Definition address_zero : SubstateAddress := 0.
Definition address_max : SubstateAddress := 2 ^ 288 - 1.
Definition is_address (a : SubstateAddress) : Prop := 0 ≤ a ≤ address_max.

(** [object_key ++ version.to_be_bytes()]. *)
Definition from_object_key (key : N) (version : Z) : SubstateAddress :=
  from_u256 (Z.of_N key) version.

Definition to_shard {E : Type} (a : SubstateAddress) (n : NumPreshards) : res E Shard :=
  if (as_u32 n =? 1) || address_is_zero a then Ok shard_first else
  let addr_u256 := to_u256 a in
  let? q := expect (uint_checked U32_MAX (addr_u256 / shard_size n)) in
  let? s := expect (u32_checked_add q 1) in
  Ok (Z.min s (as_u32 n)).

(** The [loop] of [to_shard_group], run for at most [fuel] iterations. *)
Fixpoint group_loop {E : Type} (fuel : nat) (per rem shard_index start end_ : Z) :
    res E ShardGroup :=
  if shard_index <? end_ then shard_group_new (start + 1) end_ else
  match fuel with
  | O => Panic
  | S fuel =>
      let start := start + per in
      let start := if 0 <? rem then start + 1 else start in
      let rem := if 0 <? rem then rem - 1 else rem in
      let end_ := start + per in
      let end_ := if 0 <? rem then end_ + 1 else end_ in
      group_loop fuel per rem shard_index start end_
  end.

Definition to_shard_group {E : Type} (a : SubstateAddress) (n : NumPreshards)
    (num_committees : Z) : res E ShardGroup :=
  let num_committees := Z.min num_committees (as_u32 n) in
  if num_committees <=? 1 then shard_group_new shard_first (as_u32 n) else
  let shards_per_committee := as_u32 n / num_committees in
  let shards_per_committee_rem := as_u32 n mod num_committees in
  let? s := to_shard a n in
  let? shard_index := u32_sub s 1 in
  let start := 0 in
  let end_ := shards_per_committee in
  let end_ := if 0 <? shards_per_committee_rem then end_ + 1 else end_ in
  group_loop (Z.to_nat (as_u32 n)) shards_per_committee shards_per_committee_rem
    shard_index start end_.

(** ** Address ranges

    The inclusive range of addresses [Shard::to_substate_address_range] and
    [ShardGroup::to_substate_address_range] give. *)
Definition shard_to_substate_address_range (s : Shard) (n : NumPreshards) :
    SubstateAddress * SubstateAddress :=
  if is_one n || shard_is_global s then (address_zero, address_max) else
  let num_shards := as_u32 n in
  let shard_u256 := s - 1 in
  let shard_index := s - 1 in
  let size := shard_size n in
  if shard_index =? 0 then (address_zero, from_u256_zero_version (size - 1)) else
  let start := shard_u256 * size in
  if shard_index =? num_shards - 1
  then (from_u256_zero_version (start + shard_u256 - 1), address_max)
  else
    let end_ := start + size in
    (from_u256_zero_version (start + shard_u256 - 1),
     from_u256_zero_version (end_ + shard_u256 - 1)).

Definition group_to_substate_address_range (g : ShardGroup) (n : NumPreshards) :
    SubstateAddress * SubstateAddress :=
  if is_one n then (address_zero, address_max) else
  let size := shard_size n in
  let start :=
    if shard_is_first (sg_start g) then 0 else size * sg_start g + (sg_start g - 1) in
  if sg_end_inclusive g =? as_u32 n
  then (from_u256_zero_version start, address_max)
  else
    let end_ := size * sg_end_inclusive g + size + sg_end_inclusive g in
    (from_u256_zero_version start, from_u256_zero_version (end_ - 1)).

Definition in_range (a : SubstateAddress) (r : SubstateAddress * SubstateAddress) : bool :=
  (r.1 <=? a) && (a <=? r.2).

(** ** The division into shards *)
Lemma as_u32_bounds (n : NumPreshards) : 1 ≤ as_u32 n ≤ 256.
Proof. destruct n; simpl; lia. Qed.

Lemma shard_size_spec (n : NumPreshards) : (shard_size n + 1) * as_u32 n = 2 ^ 256.
Proof. by destruct n; vm_compute. Qed.

Lemma shard_size_pos (n : NumPreshards) : 2 ^ 248 - 1 ≤ shard_size n.
Proof. by destruct n; vm_compute. Qed.

Lemma shard_size_ge_1 (n : NumPreshards) : 1 ≤ shard_size n.
Proof. pose proof (shard_size_pos n). lia. Qed.

Lemma shard_size_ge_256 (n : NumPreshards) : 256 ≤ shard_size n.
Proof. pose proof (shard_size_pos n). lia. Qed.

Lemma to_u256_bounds (a : Z) : is_address a → 0 ≤ to_u256 a < 2 ^ 256.
Proof.
  unfold is_address, address_max, to_u256. rewrite Z.shiftr_div_pow2 by lia. intros [??].
  split; [apply Z.div_pos; lia|]. apply Z.div_lt_upper_bound; lia.
Qed.

(** Dividing [u < (size + 1) * n] by [size]. *)
Lemma div_clamped (u size n : Z) :
  1 ≤ size → 1 ≤ n → 0 ≤ u < (size + 1) * n →
  let s := Z.min (u / size + 1) n in
  0 ≤ u / size ≤ 2 * n ∧ 1 ≤ s ∧ (s - 1) * size ≤ u ∧ (s < n → u < s * size).
Proof.
  intros Hz Hn Hu s.
  pose proof (Z.div_mod u size ltac:(lia)) as Hd.
  pose proof (Z.mod_pos_bound u size ltac:(lia)) as Hm.
  assert (0 ≤ u / size) by (apply Z.div_pos; lia).
  assert (u / size ≤ 2 * n) by (apply Z.div_le_upper_bound; nia).
  subst s. destruct (Z.min_spec (u / size + 1) n) as [[? ->]|[? ->]]; split_and!; nia.
Qed.

(** The shard of an address is the slice of the address space its key lies in,
    the last shard taking what the division leaves over. *)
Lemma to_shard_spec {E : Type} (a : Z) (n : NumPreshards) :
  is_address a →
  ∃ s, to_shard (E := E) a n = Ok s ∧ 1 ≤ s ≤ as_u32 n ∧
    (s - 1) * shard_size n ≤ to_u256 a ∧ (s < as_u32 n → to_u256 a < s * shard_size n).
Proof.
  intros Ha. pose proof (to_u256_bounds a Ha) as Hu. pose proof (as_u32_bounds n) as Hn.
  pose proof (shard_size_ge_1 n) as Hz.
  rewrite <- (shard_size_spec n) in Hu.
  destruct (div_clamped (to_u256 a) (shard_size n) (as_u32 n)) as (Hq & H1 & H2 & H3);
    [lia..|].
  unfold to_shard, address_is_zero, shard_first.
  destruct (Z.eqb_spec (as_u32 n) 1) as [E1|E1]; cbn [orb].
  { exists 1. rewrite E1. split_and!; [done|lia..]. }
  destruct (Z.eqb_spec a 0) as [->|E0].
  { exists 1. change (to_u256 0) with 0. split_and!; [done|lia..]. }
  unfold u32_checked_add, U32_MAX. rewrite uint_checked_in by lia. cbn [expect res_bind].
  rewrite uint_checked_in by lia. cbn [expect res_bind].
  eexists. split_and!; [done|lia..|done|done].
Qed.

(** ** The division into groups

    [cut n c i] shards come before the [i]-th of [c] groups. *)
Definition cut (n c i : Z) : Z := i * (n / c) + Z.min i (n mod c).
Definition nth_group (n c i : Z) : ShardGroup := MkShardGroup (cut n c i + 1) (cut n c (i + 1)).

Section division.
Context (n c : Z).
Hypothesis Hc : 1 ≤ c ≤ n.

Lemma per_pos : 1 ≤ n / c.
Proof. apply Z.div_le_lower_bound; lia. Qed.

Lemma rem_bounds : 0 ≤ n mod c < c.
Proof. apply Z.mod_pos_bound. lia. Qed.

Lemma cut_succ (i : Z) :
  0 ≤ i → cut n c (i + 1) = cut n c i + n / c + (if 0 <? n mod c - i then 1 else 0).
Proof. unfold cut. destruct (Z.ltb_spec 0 (n mod c - i)); lia. Qed.

Lemma cut_0 : cut n c 0 = 0.
Proof. unfold cut. pose proof rem_bounds. lia. Qed.

Lemma cut_last : cut n c c = n.
Proof. unfold cut. pose proof rem_bounds. pose proof (Z.div_mod n c). lia. Qed.

Lemma cut_mono (i j : Z) : 0 ≤ i ≤ j → cut n c i ≤ cut n c j.
Proof. unfold cut. pose proof per_pos. nia. Qed.

Lemma cut_lt (i j : Z) : 0 ≤ i < j → cut n c i < cut n c j.
Proof. unfold cut. pose proof per_pos. nia. Qed.

Lemma nth_group_new {E : Type} (i : Z) :
  0 ≤ i → shard_group_new (E := E) (cut n c i + 1) (cut n c (i + 1)) = Ok (nth_group n c i).
Proof.
  intros Hi. pose proof (cut_lt i (i + 1)). unfold shard_group_new, new_checked.
  by destruct (Z.ltb_spec (cut n c (i + 1)) (cut n c i + 1)); [lia|].
Qed.

(** The remainder left after [i] groups. *)
Lemma rem_step (i : Z) :
  0 ≤ i →
  (if 0 <? Z.max 0 (n mod c - i) then Z.max 0 (n mod c - i) - 1 else Z.max 0 (n mod c - i)) =
  Z.max 0 (n mod c - (i + 1)).
Proof. intros. destruct (Z.ltb_spec 0 (Z.max 0 (n mod c - i))); lia. Qed.

Lemma groups_from_spec {E : Type} (fuel : nat) (i : Z) :
  0 ≤ i ≤ c → c - i ≤ Z.of_nat fuel →
  groups_from (E := E) fuel n (n / c) (Z.max 0 (n mod c - i)) (cut n c i)
    (cut n c i + n / c - 1) =
  Ok (nth_group n c <$> seqZ i (c - i)).
Proof.
  revert i. induction fuel as [|fuel IH]; intros i Hi Hf.
  - replace i with c by lia. simpl. rewrite cut_last, Z.leb_refl, Z.sub_diag. done.
  - simpl. destruct (Z.leb_spec n (cut n c i)) as [Hle|Hgt].
    { destruct (decide (i = c)) as [->|]; [by rewrite Z.sub_diag|].
      pose proof (cut_lt i c). pose proof cut_last. lia. }
    assert (i < c).
    { destruct (decide (i = c)) as [->|]; [|lia]. pose proof cut_last. lia. }
    rewrite rem_step by lia.
    set (e := if 0 <? _ then _ else _).
    assert (e + 1 = cut n c (i + 1)) as He.
    { subst e. rewrite cut_succ by lia.
      destruct (Z.ltb_spec 0 (Z.max 0 (n mod c - i))), (Z.ltb_spec 0 (n mod c - i)); lia. }
    rewrite He, nth_group_new by lia. simpl. rewrite IH by lia. simpl.
    rewrite (seqZ_cons i (c - i)) by lia.
    by replace (Z.succ i) with (i + 1) by lia; replace (Z.pred (c - i)) with (c - (i + 1)) by lia.
Qed.

Lemma group_loop_spec {E : Type} (fuel : nat) (i idx : Z) :
  0 ≤ i < c → c - i ≤ Z.of_nat fuel → cut n c i ≤ idx < n →
  ∃ j, i ≤ j < c ∧ cut n c j ≤ idx < cut n c (j + 1) ∧
    group_loop (E := E) fuel (n / c) (Z.max 0 (n mod c - i)) idx (cut n c i)
      (cut n c (i + 1)) = Ok (nth_group n c j).
Proof.
  revert i. induction fuel as [|fuel IH]; intros i Hi Hf Hidx; [lia|].
  simpl. destruct (Z.ltb_spec idx (cut n c (i + 1))).
  { exists i. rewrite nth_group_new by lia. split_and!; [lia..|done]. }
  assert (i + 1 < c).
  { destruct (decide (i + 1 = c)) as [E'|]; [|lia]. rewrite E', cut_last in *. lia. }
  destruct (IH (i + 1)) as (j & ? & ? & Hj); [lia..|].
  exists j. split_and!; [lia..|]. rewrite <- Hj, rem_step by lia.
  f_equal; rewrite ?(cut_succ (i + 1)), ?(cut_succ i) by lia;
    repeat match goal with |- context [0 <? ?x] => destruct (Z.ltb_spec 0 x) end; lia.
Qed.
End division.

Lemma all_shard_groups_spec {E : Type} (n : NumPreshards) (c : Z) :
  1 ≤ c ≤ as_u32 n →
  all_shard_groups_iter (E := E) n c = Ok (nth_group (as_u32 n) c <$> seqZ 0 c).
Proof.
  intros Hc. unfold all_shard_groups_iter. pose proof (as_u32_bounds n).
  pose proof (per_pos (as_u32 n) c Hc). pose proof (rem_bounds (as_u32 n) c Hc).
  assert (as_u32 n / c ≤ as_u32 n) by (apply Z.div_le_upper_bound; nia).
  destruct (Z.eqb_spec c 0); [lia|].
  unfold u32_sub, u32_checked_sub, U32_MAX. rewrite uint_checked_in by lia.
  cbn [expect res_bind].
  pose proof (groups_from_spec (E := E) _ _ Hc (Z.to_nat (as_u32 n)) 0) as Hg.
  rewrite cut_0, Z.sub_0_r, Z.max_r, !Z.sub_0_r, Z.add_0_l in Hg by lia. apply Hg; lia.
Qed.

(** With at least one committee, [to_shard_group] returns the group of the
    division that holds the address's shard; more committees than shards count
    as one per shard. *)
Lemma to_shard_group_spec {E : Type} (a : Z) (n : NumPreshards) (num_committees s : Z) :
  1 ≤ num_committees → to_shard (E := E) a n = Ok s → 1 ≤ s ≤ as_u32 n →
  let c := Z.min num_committees (as_u32 n) in
  ∃ j, 0 ≤ j < c ∧ to_shard_group (E := E) a n num_committees = Ok (nth_group (as_u32 n) c j) ∧
    shard_group_contains (nth_group (as_u32 n) c j) s = true.
Proof.
  intros Hnc Hs Hb c. pose proof (as_u32_bounds n).
  assert (1 ≤ c ≤ as_u32 n) as Hc by lia.
  unfold to_shard_group. fold c. destruct (Z.leb_spec c 1).
  { replace c with 1 by lia. exists 0. split; [lia|].
    unfold nth_group, cut, shard_group_contains, shard_group_new, new_checked, shard_first.
    rewrite Z.div_1_r, Z.mod_1_r. cbn [sg_start sg_end_inclusive].
    replace (0 * as_u32 n + Z.min 0 0 + 1) with 1 by lia.
    replace ((0 + 1) * as_u32 n + Z.min (0 + 1) 0) with (as_u32 n) by lia.
    destruct (Z.ltb_spec (as_u32 n) 1); [lia|]. split; [done|].
    apply andb_true_intro. split; apply Z.leb_le; lia. }
  rewrite Hs. cbn [res_bind]. unfold u32_sub, u32_checked_sub, U32_MAX.
  rewrite uint_checked_in by lia. cbn [expect res_bind].
  pose proof (rem_bounds (as_u32 n) c Hc). pose proof (cut_0 (as_u32 n) c Hc) as Hc0.
  destruct (group_loop_spec (E := E) _ _ Hc (Z.to_nat (as_u32 n)) 0 (s - 1))
    as (j & ? & ? & Hj); [lia..|].
  exists j. split_and!; [lia..| |].
  - rewrite <- Hj, Hc0, Z.max_r, Z.sub_0_r, (cut_succ _ _ 0) by lia.
    rewrite Hc0, Z.sub_0_r. f_equal. destruct (Z.ltb_spec 0 (as_u32 n mod c)); lia.
  - unfold shard_group_contains, nth_group. cbn [sg_start sg_end_inclusive].
    apply andb_true_intro. split; apply Z.leb_le; lia.
Qed.

Lemma nth_group_contains (n c i s : Z) :
  shard_group_contains (nth_group n c i) s = true ↔ cut n c i < s ≤ cut n c (i + 1).
Proof.
  unfold shard_group_contains, nth_group. cbn [sg_start sg_end_inclusive].
  rewrite andb_true_iff, !Z.leb_le. lia.
Qed.

Lemma nth_group_disjoint (n c i j s : Z) :
  1 ≤ c ≤ n → 0 ≤ i → 0 ≤ j →
  shard_group_contains (nth_group n c i) s = true →
  shard_group_contains (nth_group n c j) s = true → i = j.
Proof.
  intros Hc Hi Hj. rewrite !nth_group_contains. intros ??.
  destruct (Z.lt_trichotomy i j) as [?|[?|?]]; [|done|].
  - pose proof (cut_mono n c Hc (i + 1) j). lia.
  - pose proof (cut_mono n c Hc (j + 1) i). lia.
Qed.

Lemma concat_groups (n c i : Z) (k : nat) :
  1 ≤ c ≤ n → 0 ≤ i →
  mjoin (shard_iter <$> (nth_group n c <$> seqZ i (Z.of_nat k))) =
  seqZ (cut n c i + 1) (cut n c (i + Z.of_nat k) - cut n c i).
Proof.
  intros Hc. revert i. induction k as [|k IH]; intros i Hi.
  - simpl. by rewrite Z.add_0_r, Z.sub_diag.
  - rewrite seqZ_cons by lia. cbn [fmap list_fmap mjoin list_join].
    replace (Z.pred (Z.of_nat (S k))) with (Z.of_nat k) by lia.
    rewrite IH by lia. unfold shard_iter at 1, nth_group at 1 2 3. cbn [sg_start sg_end_inclusive].
    pose proof (cut_mono n c Hc i (i + 1)). pose proof (cut_mono n c Hc (i + 1) (i + Z.of_nat (S k))).
    replace (cut n c (i + 1) - (cut n c i + 1) + 1) with (cut n c (i + 1) - cut n c i) by lia.
    replace (Z.succ i) with (i + 1) by lia.
    replace (i + 1 + Z.of_nat k) with (i + Z.of_nat (S k)) by lia.
    replace (cut n c (i + Z.of_nat (S k)) - cut n c i) with
      ((cut n c (i + 1) - cut n c i) + (cut n c (i + Z.of_nat (S k)) - cut n c (i + 1))) by lia.
    rewrite seqZ_app by lia.
    by replace (cut n c i + 1 + (cut n c (i + 1) - cut n c i)) with (cut n c (i + 1) + 1) by lia.
Qed.

(** ** The partition *)

(** For every number of committees from one to the number of shards,
    [NumPreshards::all_shard_groups_iter] yields exactly that many groups; they
    list every shard exactly once and in order, and their sizes differ by at
    most one. *)
Theorem shard_groups_partition {E : Type} (n : NumPreshards) (num_committees : Z) :
  1 ≤ num_committees ≤ as_u32 n →
  ∃ gs, all_shard_groups_iter (E := E) n num_committees = Ok gs ∧
    Z.of_nat (length gs) = num_committees ∧
    mjoin (shard_iter <$> gs) = all_shards_iter n ∧
    Forall (λ g, as_u32 n / num_committees ≤ sg_end_inclusive g - sg_start g + 1
                 ≤ as_u32 n / num_committees + 1) gs.
Proof.
  intros Hc. rewrite all_shard_groups_spec by done. eexists. split; [done|]. split_and!.
  - rewrite length_fmap, length_seqZ. lia.
  - pose proof (concat_groups (as_u32 n) num_committees 0 (Z.to_nat num_committees) Hc) as H.
    rewrite Z2Nat.id, cut_0, Z.add_0_l, cut_last in H by lia.
    rewrite H by lia. by rewrite Z.sub_0_r.
  - apply list.Forall_forall. intros g (i & -> & Hi)%list_elem_of_fmap.
    apply elem_of_seqZ in Hi. unfold nth_group. cbn [sg_start sg_end_inclusive].
    rewrite cut_succ by lia. destruct (Z.ltb_spec 0 (as_u32 n mod num_committees - i)); lia.
Qed.

Lemma shard_groups_partition_witness :
  ∃ gs, all_shard_groups_iter (E := unit) P256 3 = Ok gs ∧ Z.of_nat (length gs) = 3 ∧
    mjoin (shard_iter <$> gs) = all_shards_iter P256 ∧
    Forall (λ g, as_u32 P256 / 3 ≤ sg_end_inclusive g - sg_start g + 1 ≤ as_u32 P256 / 3 + 1) gs.
Proof. apply (shard_groups_partition P256 3). simpl. lia. Defined.

(** For every address, the group [to_shard_group] computes is the one group
    [all_shard_groups_iter] yields that contains the address's shard. *)
Lemma address_group {E : Type} (a : Z) (n : NumPreshards) (num_committees : Z) :
  is_address a → 1 ≤ num_committees ≤ as_u32 n →
  ∃ s g gs, to_shard (E := E) a n = Ok s ∧
    to_shard_group (E := E) a n num_committees = Ok g ∧
    all_shard_groups_iter (E := E) n num_committees = Ok gs ∧
    g ∈ gs ∧ ∀ g', g' ∈ gs → shard_group_contains g' s = true ↔ g' = g.
Proof.
  intros Ha Hc. destruct (to_shard_spec (E := E) a n Ha) as (s & Hs & Hb & _).
  destruct (to_shard_group_spec (E := E) a n num_committees s) as (j & Hj & Hg & Hin);
    [lia|done..|]. rewrite Z.min_l in Hj, Hg, Hin by lia.
  rewrite all_shard_groups_spec by done. do 3 eexists. split_and!; [done|done|done| |].
  - apply list_elem_of_fmap. exists j. split; [done|]. apply elem_of_seqZ. lia.
  - intros g' (i & -> & Hi)%list_elem_of_fmap. apply elem_of_seqZ in Hi. split.
    + intros Hs'. f_equal.
      apply (nth_group_disjoint (as_u32 n) num_committees i j s); by auto with lia.
    + by intros ->.
Qed.

(** Outside those bounds the iterator panics when it is built, where
    [to_shard_group] clamps the number of committees. *)
Lemma all_shard_groups_panics {E : Type} (n : NumPreshards) (c : Z) :
  0 ≤ c → c = 0 ∨ as_u32 n < c → all_shard_groups_iter (E := E) n c = Panic.
Proof.
  intros Hc H. pose proof (as_u32_bounds n). unfold all_shard_groups_iter.
  destruct (Z.eqb_spec c 0); [done|].
  rewrite Z.div_small by lia. done.
Qed.

(** ** Codecs *)
Lemma lor_shiftl (hi lo k : Z) :
  0 ≤ k → 0 ≤ lo < 2 ^ k → Z.lor (Z.shiftl hi k) lo = hi * 2 ^ k + lo.
Proof.
  intros Hk Hlo. rewrite <- Z.shiftl_mul_pow2 by done. symmetry. apply Z.add_nocarry_lor.
  apply Z.bits_inj'. intros i Hi. rewrite Z.land_spec, Z.bits_0.
  destruct (Z.ltb_spec i k); [by rewrite Z.shiftl_spec_low|].
  rewrite <- (Z.mod_small lo (2 ^ k)), Z.mod_pow2_bits_high by lia. by rewrite andb_false_r.
Qed.

Lemma div_mod_pack (hi lo b : Z) :
  0 ≤ lo < b → (hi * b + lo) / b = hi ∧ (hi * b + lo) mod b = lo.
Proof.
  intros Hlo. split.
  - rewrite Z.div_add_l, Z.div_small by lia. lia.
  - by rewrite Z.add_comm, Z.mod_add, Z.mod_small by lia.
Qed.

(** The key and the version of an address are read back as they were written. *)
Lemma address_roundtrip (key version : Z) :
  0 ≤ version ≤ U32_MAX →
  to_u256 (from_u256 key version) = key ∧ to_version (from_u256 key version) = version.
Proof.
  intros Hv. unfold U32_MAX in Hv. unfold to_u256, to_version, from_u256.
  rewrite lor_shiftl, Z.shiftr_div_pow2 by lia.
  change U32_MAX with (Z.ones 32). rewrite Z.land_ones by lia. apply div_mod_pack. lia.
Qed.

Lemma from_u256_is_address (key version : Z) :
  0 ≤ key ≤ U256_MAX → 0 ≤ version ≤ U32_MAX → is_address (from_u256 key version).
Proof.
  unfold U256_MAX, U32_MAX, is_address, address_max, from_u256. intros. rewrite lor_shiftl by lia.
  lia.
Qed.

Lemma decode_unfold (n : Z) :
  0 ≤ n → decode_from_u32 n =
    if MAX_ENCODED_VALUE <? n then None else new_checked (n / 2 ^ 16) (n mod 2 ^ 16).
Proof.
  intros. unfold decode_from_u32. change 65535 with (Z.ones 16).
  by rewrite Z.shiftr_div_pow2, Z.land_ones by lia.
Qed.

Lemma encode_unfold (g : ShardGroup) :
  0 ≤ sg_start g < 2 ^ 16 → 0 ≤ sg_end_inclusive g < 2 ^ 16 →
  encode_as_u32 g = sg_start g * 2 ^ 16 + sg_end_inclusive g.
Proof.
  intros. unfold encode_as_u32. change U32_MAX with (Z.ones 32).
  rewrite Z.land_ones, Z.mod_small by (rewrite ?Z.shiftl_mul_pow2; lia).
  apply lor_shiftl; lia.
Qed.

(** The [u32] encoding of shard groups is a bijection between the groups
    of existing shards and the numbers [ShardGroup::decode_from_u32] accepts:
    encoding then decoding is the identity, and whatever decodes encodes back
    to the same number (no two encodings of one group). *)
Theorem shard_group_codec (g : ShardGroup) (n : Z) :
  0 ≤ sg_start g ≤ sg_end_inclusive g → sg_end_inclusive g ≤ as_u32 P256 →
  0 ≤ n ≤ U32_MAX →
  decode_from_u32 (encode_as_u32 g) = Some g ∧
  (decode_from_u32 n = Some g → encode_as_u32 g = n).
Proof.
  intros Hs He Hn. simpl in He. rewrite encode_unfold by lia.
  rewrite !decode_unfold by lia. unfold new_checked, MAX_ENCODED_VALUE.
  change (Z.shiftl 256 16 + 256) with (256 * 2 ^ 16 + 256).
  destruct (div_mod_pack (sg_start g) (sg_end_inclusive g) (2 ^ 16)) as [-> ->]; [lia|].
  split.
  - destruct (Z.ltb_spec (256 * 2 ^ 16 + 256) (sg_start g * 2 ^ 16 + sg_end_inclusive g)); [lia|].
    destruct (Z.ltb_spec (sg_end_inclusive g) (sg_start g)); [lia|]. by destruct g.
  - pose proof (Z.div_mod n (2 ^ 16) ltac:(lia)) as Hd.
    destruct (_ <? n); [done|]. destruct (_ <? _); [done|]. intros [= <-].
    cbn [sg_start sg_end_inclusive]. lia.
Qed.

Lemma shard_group_codec_witness :
  decode_from_u32 (encode_as_u32 (MkShardGroup 87 171)) = Some (MkShardGroup 87 171) ∧
  (decode_from_u32 5701803 = Some (MkShardGroup 87 171) →
   encode_as_u32 (MkShardGroup 87 171) = 5701803).
Proof. apply (shard_group_codec (MkShardGroup 87 171) 5701803); simpl; unfold U32_MAX; lia. Defined.

(** The shards of the intersection of two groups are the shards of both. *)
Lemma shard_group_intersection_spec (g h : ShardGroup) (s : Z) :
  (∃ i, shard_group_intersection g h = Some i ∧ shard_group_contains i s = true) ↔
  shard_group_contains g s = true ∧ shard_group_contains h s = true.
Proof.
  unfold shard_group_intersection, overlaps_shard_group, shard_group_contains. split.
  - intros (i & H & Hs). case_all. cbn [sg_start sg_end_inclusive] in *. bool_to_prop.
    split; apply andb_true_intro; split; apply Z.leb_le; lia.
  - intros [Hg Hh]. bool_to_prop.
    rewrite (proj2 (Z.leb_le (sg_start g) (sg_end_inclusive h))),
      (proj2 (Z.leb_le (sg_start h) (sg_end_inclusive g))) by lia.
    eexists. split; [done|]. cbn [sg_start sg_end_inclusive].
    apply andb_true_intro; split; apply Z.leb_le; lia.
Qed.

Lemma checked_len_spec (g : ShardGroup) :
  0 ≤ sg_start g ≤ U32_MAX → 0 ≤ sg_end_inclusive g ≤ U32_MAX →
  checked_len g =
    if (sg_start g <=? sg_end_inclusive g) && (sg_end_inclusive g <? U32_MAX)
    then Some (sg_end_inclusive g - sg_start g + 1) else None.
Proof.
  intros Hs He. unfold checked_len, u32_checked_add, u32_checked_sub, uint_checked.
  repeat (case_match || bool_to_prop || simplify_eq); try (f_equal; lia); try done;
    exfalso; bool_to_prop; lia.
Qed.

(** ** The address ranges

    [to_shard] cuts the space at the multiples of the shard size, but
    [Shard::to_substate_address_range] adds one to every boundary for each
    shard before it, and [ShardGroup::to_substate_address_range] starts one
    shard too late. *)
Lemma boundary_bounds (k z n : Z) :
  1 ≤ k ≤ n → 1 ≤ z → 0 ≤ (k - 1) * z ≤ (z + 1) * n - 1.
Proof. nia. Qed.

Lemma boundary_u256 (n : NumPreshards) (k : Z) :
  1 ≤ k ≤ as_u32 n → 0 ≤ (k - 1) * shard_size n ≤ U256_MAX.
Proof.
  intros Hk. unfold U256_MAX. rewrite <- (shard_size_spec n).
  apply boundary_bounds; [exact Hk|apply shard_size_ge_1].
Qed.

(** A key lies in one slice only. *)
Lemma slice_unique (s s' u z n : Z) :
  1 ≤ z → s ≤ n → s' ≤ n → (s - 1) * z ≤ u → (s < n → u < s * z) →
  (s' - 1) * z ≤ u → (s' < n → u < s' * z) → s = s'.
Proof.
  intros Hz Hs Hs' Hl Hh Hl' Hh'.
  destruct (Z.lt_trichotomy s s') as [Hlt|[?|Hlt]]; [exfalso|done|exfalso].
  - specialize (Hh ltac:(lia)). nia.
  - specialize (Hh' ltac:(lia)). nia.
Qed.

(** The slice of a multiple of the shard size. *)
Lemma slice_of_multiple (s k z n : Z) :
  1 ≤ z → s ≤ n → k ≤ n → (s - 1) * z ≤ (k - 1) * z → (s < n → (k - 1) * z < s * z) → s = k.
Proof.
  intros Hz Hs Hk Hlo Hhi. apply Z.mul_le_mono_pos_r in Hlo; [|lia].
  destruct (decide (s < k)); [|lia]. specialize (Hhi ltac:(lia)).
  apply Z.mul_lt_mono_pos_r in Hhi; lia.
Qed.

Lemma to_shard_of_multiple {E : Type} (n : NumPreshards) (k : Z) :
  1 ≤ k ≤ as_u32 n →
  to_shard (E := E) (from_u256_zero_version ((k - 1) * shard_size n)) n = Ok k.
Proof.
  intros Hk. destruct (address_roundtrip ((k - 1) * shard_size n) 0) as [Hu _];
    [by split|].
  destruct (to_shard_spec (E := E) (from_u256 ((k - 1) * shard_size n) 0) n)
    as (s & Hs & Hb & Hlo & Hhi).
  { apply from_u256_is_address; [by apply boundary_u256|by split]. }
  unfold from_u256_zero_version. rewrite Hs. rewrite Hu in Hlo, Hhi. f_equal.
  eapply slice_of_multiple; [apply (shard_size_ge_1 n)| | |exact Hlo|exact Hhi]; apply Hb || apply Hk.
Qed.

Lemma from_u256_zero_le (x y : Z) :
  from_u256_zero_version x ≤ from_u256_zero_version y ↔ x ≤ y.
Proof. unfold from_u256_zero_version, from_u256. rewrite !lor_shiftl by lia. lia. Qed.

(** The first address of every shard from the third on is outside the shard's
    range, and inside the range of the shard before. *)
Lemma shard_range_excludes_own_address {E : Type} (n : NumPreshards) (k : Z) :
  3 ≤ k ≤ as_u32 n →
  let a := from_u256_zero_version ((k - 1) * shard_size n) in
  to_shard (E := E) a n = Ok k ∧
  in_range a (shard_to_substate_address_range k n) = false ∧
  in_range a (shard_to_substate_address_range (k - 1) n) = true.
Proof.
  intros Hk a. split; [apply to_shard_of_multiple; clear -Hk; lia|].
  assert (is_one n = false) as Hn by (apply bool_decide_eq_false_2; intros ->; simpl in *; lia).
  unfold shard_to_substate_address_range, shard_is_global. rewrite Hn. cbn [orb].
  destruct (Z.eqb_spec k 0), (Z.eqb_spec (k - 1) 0), (Z.eqb_spec (k - 1 - 1) 0),
    (Z.eqb_spec (k - 1 - 1) (as_u32 n - 1)); try lia.
  unfold in_range. split.
  - destruct (k - 1 =? as_u32 n - 1); apply andb_false_iff; left; apply Z.leb_gt;
      cbn [fst]; apply Z.lt_nge; subst a; rewrite from_u256_zero_le; lia.
  - apply andb_true_intro; split; apply Z.leb_le; cbn [fst snd]; subst a;
      rewrite from_u256_zero_le; pose proof (shard_size_ge_256 n); pose proof (as_u32_bounds n);
      lia.
Qed.

(** The first address of the first shard of a group is outside the group's range. *)
Lemma group_range_excludes_first_shard {E : Type} (n : NumPreshards) (g : ShardGroup) :
  2 ≤ sg_start g ≤ as_u32 n →
  let a := from_u256_zero_version ((sg_start g - 1) * shard_size n) in
  to_shard (E := E) a n = Ok (sg_start g) ∧
  in_range a (group_to_substate_address_range g n) = false.
Proof.
  intros Hk a. split; [apply to_shard_of_multiple; clear -Hk; lia|].
  assert (is_one n = false) as Hn by (apply bool_decide_eq_false_2; intros ->; simpl in *; lia).
  unfold group_to_substate_address_range, shard_is_first. rewrite Hn.
  destruct (Z.eqb_spec (sg_start g) 1); [lia|]. unfold in_range.
  destruct (sg_end_inclusive g =? as_u32 n); apply andb_false_iff; left; apply Z.leb_gt;
    cbn [fst]; apply Z.lt_nge; subst a; rewrite from_u256_zero_le;
    pose proof (shard_size_ge_1 n); nia.
Qed.
