(* ===== verification/Committee.v ===== *)
(** * Committees, voting power and leaders

    [common_types/src/{committee,vote_power}.rs], the leader schedule of
    [consensus/src/traits/leader_strategy.rs] with the round-robin strategy of
    the validator node, and [get_leader_for_view] of
    [consensus/src/hotstuff/common.rs].

    The theorems are the arithmetic the consensus protocol rests on: two quorums
    share an honest member as long as the faulty members hold at most
    [max_failures] of the power; every member leads exactly once in each
    round of heights, and the search for the next leader ends within one round. *)
From stdpp Require Import base gmap list numbers.
From S2P Require Import Prelude Ids IdProvider Sharding.
Open Scope Z_scope.

(** ** Committees *)
Record CommitteeMember (TAddr : Type) := MkCommitteeMember {
  cm_address : TAddr;
  cm_public_key : PublicKeyBytes;
  cm_vote_power : Z;
}.
Arguments MkCommitteeMember {TAddr} cm_address cm_public_key cm_vote_power.
Arguments cm_address {TAddr} c.
Arguments cm_public_key {TAddr} c.
Arguments cm_vote_power {TAddr} c.

Notation Committee TAddr := (list (CommitteeMember TAddr)) (only parsing).

Record NextLeader (TAddr : Type) := MkNextLeader {
  nl_address : TAddr;
  nl_height : Z;
  nl_vote_to_skip_next : bool;
}.
Arguments MkNextLeader {TAddr} nl_address nl_height nl_vote_to_skip_next.
Arguments nl_address {TAddr} n.
Arguments nl_height {TAddr} n.
Arguments nl_vote_to_skip_next {TAddr} n.

Section committee.
Context {TAddr : Type} `{!EqDecision TAddr} {E : Type}.
Implicit Types (c : Committee TAddr) (m : CommitteeMember TAddr).

(** The [fold] with [VotePower]'s [+], which panics outside [u64]. *)
Definition total_power c : res E Z :=
  fold_left (λ acc m, let? p := acc in u64_add p (cm_vote_power m)) c (Ok 0).

Definition failures_of (power : Z) : res E Z :=
  if power =? 0 then Ok 0 else let? p := u64_sub power 1 in Ok (p / 3).

Definition max_failures c : res E Z :=
  let? power := total_power c in failures_of power.

Definition quorum_threshold c : res E Z :=
  let? power := total_power c in
  let? f := max_failures c in
  u64_sub power f.

Definition max_node_failures c : Z :=
  if bool_decide (c = []) then 0 else (Z.of_nat (length c) + 1) / 3.

Definition contains_address c (addr : TAddr) : bool :=
  existsb (λ m, bool_decide (cm_address m = addr)) c.
Definition contains_public_key c (public_key : PublicKeyBytes) : bool :=
  existsb (λ m, bool_decide (public_key = cm_public_key m)) c.
Definition get_power_by_public_key c (public_key : PublicKeyBytes) : option Z :=
  cm_vote_power <$> List.find (λ m, bool_decide (cm_public_key m = public_key)) c.
Fixpoint index_of c (addr : TAddr) : option Z :=
  match c with
  | [] => None
  | m :: c => if decide (cm_address m = addr) then Some 0 else Z.succ <$> index_of c addr
  end.

(** [iter().cycle().skip(start).take(n)] with [start < len] and [n <= len]: two
    rounds are enough. *)
Definition select_n_starting_from c (n start_index_inclusive : Z) : list TAddr :=
  let len := Z.of_nat (length c) in
  let n := Z.min n len in
  let start := if bool_decide (c = []) then 0 else start_index_inclusive mod len in
  take (Z.to_nat n) (drop (Z.to_nat start) ((cm_address <$> c) ++ (cm_address <$> c))).

Definition calculate_steps_between c (member_a member_b : TAddr) : option Z :=
  match index_of c member_a, index_of c member_b with
  | Some index_a, Some index_b =>
      let steps := index_a - index_b in
      if steps <? 0 then Some (Z.of_nat (length c) + steps) else Some steps
  | _, _ => None
  end.

(** ** Leaders

    [RoundRobinLeaderStrategy::calculate_leader]; [%] by the length of an empty
    committee panics. *)
Definition calculate_leader c (height : Z) : res E Z :=
  if bool_decide (c = []) then Panic else Ok (height mod Z.of_nat (length c)).

Definition get_leader c (height : Z) : res E (TAddr * PublicKeyBytes) :=
  let? index := calculate_leader c height in
  let? m := expect (c !! Z.to_nat index) in
  Ok (cm_address m, cm_public_key m).

Definition is_leader (validator_addr : TAddr) c (height : Z) : res E bool :=
  let? position := calculate_leader c height in
  Ok (match c !! Z.to_nat position with
      | Some m => bool_decide (cm_address m = validator_addr)
      | None => false
      end).

Definition is_leader_for_next_height (validator_addr : TAddr) c (height : Z) : res E bool :=
  let? h := u64_add height 1 in is_leader validator_addr c h.

Definition get_leader_for_next_height c (height : Z) : res E (TAddr * PublicKeyBytes) :=
  let? h := u64_add height 1 in get_leader c h.

(** [get_leader_for_view]: [is_node_evicted] is the look-up of
    [ValidatorConsensusStats] at the block.  [None] when the [while] loop is
    still running after [fuel] rounds. *)
Section view_leader.
Context (is_node_evicted : PublicKeyBytes → res E bool).

Fixpoint skip_evicted (fuel : nat) c (num_skipped next_height : Z)
    (leader : TAddr * PublicKeyBytes) : option (res E (NextLeader TAddr)) :=
  match is_node_evicted leader.2 with
  | Err e => Some (Err e)
  | Panic => Some Panic
  | Ok false => Some (Ok (MkNextLeader leader.1 next_height (0 <? num_skipped)))
  | Ok true =>
      match fuel with
      | O => None
      | S fuel =>
          match u64_add (E := E) next_height 1 with
          | Ok next_height =>
              match get_leader c next_height with
              | Ok leader => skip_evicted fuel c (num_skipped + 1) next_height leader
              | Err e => Some (Err e)
              | Panic => Some Panic
              end
          | Err e => Some (Err e)
          | Panic => Some Panic
          end
      end
  end.

Definition get_leader_for_view (fuel : nat) c (height : Z) :
    option (res E (NextLeader TAddr)) :=
  match get_leader c height with
  | Ok leader => skip_evicted fuel c 0 height leader
  | Err e => Some (Err e)
  | Panic => Some Panic
  end.
End view_leader.
End committee.

(** ** What a node knows of its committee *)
Record CommitteeInfo := MkCommitteeInfo {
  ci_num_shards : NumPreshards;
  ci_num_shard_group_members : Z;
  ci_num_committees : Z;
  ci_shard_group : ShardGroup;
  ci_epoch : Z;
  ci_total_power : Z;
}.

(** The hashes of [SubstateId::to_object_key]. *)
Class ObjectKeyHashes := {
  hash_non_fungible_id : ResourceAddress → NonFungibleId → N;
  hash_utxo_address : ResourceAddress → CommitmentBytes → N;
}.

Section committee_info.
Context {E : Type}.
Implicit Types (ci : CommitteeInfo).

Definition ci_max_failures ci : res E Z := failures_of (ci_total_power ci).
Definition ci_quorum_threshold ci : res E Z :=
  let? f := ci_max_failures ci in u64_sub (ci_total_power ci) f.
Definition max_failure_shard_group_members ci : res E Z :=
  let? n := u32_add (ci_num_shard_group_members ci) 1 in Ok (n / 3).

Definition includes_substate_address ci (a : Z) : res E bool :=
  let? s := to_shard a (ci_num_shards ci) in
  Ok (shard_group_contains (ci_shard_group ci) s).

Context `{Kh : !ObjectKeyHashes}.

Definition to_object_key (id : SubstateId) : N :=
  match id with
  | SidComponent a | SidResource a | SidVault a | SidClaimedOutputTombstone a
  | SidTransactionReceipt a | SidTemplate a | SidValidatorFeePool a => a
  | SidNonFungible a =>
      let key := trailing_bytes (hash_non_fungible_id (nfa_resource a) (nfa_id a)) in
      object_key_new (N.div (nfa_resource a) (256 ^ 12)) key
  | SidUtxo a => hash_utxo_address (utxo_resource a) (utxo_id a)
  end.

(** [VersionedSubstateIdRef::new(id, 0).to_shard(n)] of an id that is not global. *)
Definition substate_id_to_shard (id : SubstateId) (version : Z) (n : NumPreshards) : res E Z :=
  if is_global id then Ok shard_global
  else to_shard (from_object_key (to_object_key id) version) n.

Definition includes_substate_id ci (id : SubstateId) : res E bool :=
  if is_global id then Ok true else
  let? s := substate_id_to_shard id 0 (ci_num_shards ci) in
  Ok (shard_group_contains (ci_shard_group ci) s).

Fixpoint is_all_local ci (ids : list SubstateId) : res E bool :=
  match ids with
  | [] => Ok true
  | id :: ids =>
      let? here :=
        if is_global id && (1 <? ci_num_committees ci) then Ok false
        else includes_substate_id ci id in
      if here then is_all_local ci ids else Ok false
  end.
End committee_info.

(** ** Power of a set of members *)
Section power.
Context {TAddr : Type} `{!EqDecision TAddr} {E : Type}.
Implicit Types (c : Committee TAddr) (P Q B : PublicKeyBytes → bool).

Fixpoint members_power c P : Z :=
  match c with
  | [] => 0
  | m :: c => (if P (cm_public_key m) then cm_vote_power m else 0) + members_power c P
  end.

Definition powers_ok c : Prop := Forall (λ m, 0 ≤ cm_vote_power m) c.

Lemma members_power_nonneg c P : powers_ok c → 0 ≤ members_power c P.
Proof. induction 1; simpl; [lia|]. destruct (P _); lia. Qed.

Lemma members_power_mono c P Q :
  powers_ok c → (∀ k, P k = true → Q k = true) → members_power c P ≤ members_power c Q.
Proof.
  intros Hc HPQ. induction Hc as [|m c Hm Hc IH]; simpl; [lia|].
  specialize (HPQ (cm_public_key m)).
  destruct (P _), (Q _); naive_solver lia.
Qed.

Lemma members_power_union c P Q :
  members_power c (λ k, P k || Q k) + members_power c (λ k, P k && Q k) =
  members_power c P + members_power c Q.
Proof. induction c as [|m c IH]; simpl; [lia|]. destruct (P _), (Q _); simpl; lia. Qed.

Lemma members_power_none c P : (∀ k, P k = false) → members_power c P = 0.
Proof. intros HP. induction c as [|m c IH]; simpl; [done|]. by rewrite HP, IH. Qed.

Lemma power_of_key c (k : PublicKeyBytes) (p : Z) :
  powers_ok c → get_power_by_public_key c k = Some p →
  p ≤ members_power c (λ k', bool_decide (k' = k)).
Proof.
  induction 1 as [|m c Hm Hc IH]; [done|]. unfold get_power_by_public_key in *. simpl.
  pose proof (members_power_nonneg c (λ k', bool_decide (k' = k)) Hc).
  case_bool_decide; simpl; [intros [= <-]; lia|]. intros H'. apply IH in H'. lia.
Qed.

Lemma total_power_from c (acc t : Z) :
  powers_ok c →
  fold_left (λ acc m, let? p := acc in u64_add p (cm_vote_power m)) c (Ok acc) = Ok (E := E) t →
  t = acc + members_power c (λ _, true).
Proof.
  intros Hc. revert acc. induction Hc as [|m c Hm Hc IH]; intros acc; simpl.
  - intros [= ->]. lia.
  - destruct (u64_add acc (cm_vote_power m)) as [p| |] eqn:Hp.
    + intros H%IH. unfold u64_add in Hp. apply expect_Ok in Hp.
      unfold u64_checked_add in Hp. apply uint_checked_Some in Hp. lia.
    + clear. intros H. exfalso. revert H. by induction c.
    + clear. intros H. exfalso. revert H. by induction c.
Qed.

Lemma total_power_Ok c (t : Z) :
  powers_ok c → total_power (E := E) c = Ok t → t = members_power c (λ _, true).
Proof. intros Hc H. apply total_power_from in H; [lia|done]. Qed.

Lemma total_power_bound c (t : Z) : total_power (E := E) c = Ok t → t ≤ U64_MAX.
Proof.
  unfold total_power. assert (0 ≤ U64_MAX) as H0 by (vm_compute; done).
  revert H0. generalize 0 as acc. induction c as [|m c IH]; intros acc Hacc; simpl.
  - by intros [= <-].
  - destruct (u64_add acc (cm_vote_power m)) as [p| |] eqn:Hp.
    + apply IH. unfold u64_add, u64_checked_add in Hp. apply expect_Ok, uint_checked_Some in Hp. lia.
    + clear. intros H. exfalso. revert H. by induction c.
    + clear. intros H. exfalso. revert H. by induction c.
Qed.

Lemma failures_of_Ok (t f : Z) :
  0 ≤ t → failures_of (E := E) t = Ok f → 0 ≤ f ∧ 3 * f ≤ t ∧ (0 < t → 3 * f < t).
Proof.
  unfold failures_of, u64_sub. intros Ht H. destruct (Z.eqb_spec t 0); inv_ok; [lia|].
  match goal with H : u64_checked_sub _ _ = _ |- _ => apply uint_checked_Some in H end.
  destruct_and!; subst. pose proof (Z.div_mod (t - 1) 3). pose proof (Z.mod_pos_bound (t - 1) 3). lia.
Qed.

Lemma quorum_threshold_Ok c (t : Z) :
  quorum_threshold (E := E) c = Ok t →
  ∃ n f, total_power (E := E) c = Ok n ∧ max_failures (E := E) c = Ok f ∧ t = n - f ∧ 0 ≤ n - f.
Proof.
  unfold quorum_threshold, u64_sub. intros H. inv_ok.
  match goal with H : u64_checked_sub _ _ = _ |- _ => apply uint_checked_Some in H end.
  naive_solver.
Qed.

Lemma member_of_power c P :
  0 < members_power c P → ∃ m, m ∈ c ∧ P (cm_public_key m) = true.
Proof.
  induction c as [|m c IH]; simpl; [lia|]. destruct (P (cm_public_key m)) eqn:HP.
  - intros _. exists m. split; [by left|done].
  - intros (m' & Hm' & ?)%IH. exists m'. split; [by right|done].
Qed.

(** Quorums intersect in an honest member: if two sets of members both
    reach the committee's [quorum_threshold] and the faulty members together
    hold at most [max_failures] of the voting power, some member is in both
    sets and not faulty. *)
Lemma quorum_intersection c P Q B (n t f : Z) :
  powers_ok c → total_power (E := E) c = Ok n → 0 < n →
  quorum_threshold (E := E) c = Ok t → max_failures (E := E) c = Ok f →
  t ≤ members_power c P → t ≤ members_power c Q → members_power c B ≤ f →
  ∃ m, m ∈ c ∧ P (cm_public_key m) = true ∧ Q (cm_public_key m) = true ∧
    B (cm_public_key m) = false.
Proof.
  intros Hc Hn Hpow Ht Hf HP HQ HB.
  apply quorum_threshold_Ok in Ht as (n' & f' & Hn' & Hf' & -> & _).
  assert (n' = n) as -> by congruence. assert (f' = f) as -> by congruence. clear Hn' Hf'.
  unfold max_failures in Hf. rewrite Hn in Hf. simpl in Hf.
  apply failures_of_Ok in Hf as (_ & _ & Hf); [|lia]. specialize (Hf Hpow).
  apply total_power_Ok in Hn; [|done]. subst n.
  pose proof (members_power_union c P Q) as Hu.
  pose proof (members_power_mono c (λ k, P k || Q k) (λ _, true) Hc ltac:(done)).
  set (PQ := λ k, P k && Q k) in *.
  pose proof (members_power_union c (λ k, PQ k && negb (B k)) B) as Hb. cbv beta in Hb.
  assert (members_power c PQ ≤ members_power c (λ k, PQ k && negb (B k) || B k)).
  { apply members_power_mono; [done|]. intros k Hk. rewrite Hk. by destruct (B k). }
  assert (members_power c (λ k, PQ k && negb (B k) && B k) ≤ 0).
  { transitivity (members_power c (λ _, false)).
    - apply members_power_mono; [done|]. intros k. destruct (PQ k), (B k); done.
    - clear. induction c; simpl; lia. }
  destruct (member_of_power c (λ k, PQ k && negb (B k))) as (m & Hm & HPQ).
  { pose proof (members_power_nonneg c (λ k, PQ k && negb (B k) && B k) Hc). lia. }
  subst PQ. simpl in HPQ. exists m. bool_to_prop. done.
Qed.

(** [Committee] and [CommitteeInfo] compute the same thresholds. *)
Lemma committee_info_thresholds c ci :
  total_power (E := E) c = Ok (ci_total_power ci) →
  max_failures (E := E) c = ci_max_failures ci ∧
  quorum_threshold (E := E) c = ci_quorum_threshold ci.
Proof.
  intros H. unfold quorum_threshold, max_failures, ci_quorum_threshold, ci_max_failures.
  by rewrite H.
Qed.
End power.

Definition four_members : Committee N :=
  [MkCommitteeMember 1 11 1; MkCommitteeMember 2 12 1;
   MkCommitteeMember 3 13 1; MkCommitteeMember 4 14 1]%N.

(** ** The leader schedule *)
Section leaders.
Context {TAddr : Type} `{!EqDecision TAddr} {E : Type}.
Implicit Types (c : Committee TAddr).

Lemma get_leader_lookup c (h : Z) :
  c ≠ [] → 0 ≤ h →
  ∃ m, c !! Z.to_nat (h mod Z.of_nat (length c)) = Some m ∧
    get_leader (E := E) c h = Ok (cm_address m, cm_public_key m).
Proof.
  intros Hc Hh. assert (0 < Z.of_nat (length c)) by (destruct c; simpl; [done|lia]).
  pose proof (Z.mod_pos_bound h (Z.of_nat (length c))).
  destruct (lookup_lt_is_Some_2 c (Z.to_nat (h mod Z.of_nat (length c)))) as [m Hm]; [lia|].
  exists m. split; [done|]. unfold get_leader, calculate_leader.
  rewrite bool_decide_eq_false_2 by done. cbn [res_bind]. by rewrite Hm.
Qed.

(** Every residue comes up in a window of [n] heights. *)
Lemma residue_in_window (h n i : Z) :
  0 < n → 0 ≤ i < n → ∃ k, h ≤ k < h + n ∧ k mod n = i.
Proof.
  intros Hn Hi.
  pose proof (Z.div_mod h n ltac:(lia)) as Hd. pose proof (Z.mod_pos_bound h n Hn) as Hm.
  destruct (Z.ltb_spec i (h mod n)).
  - exists (i + (h / n + 1) * n). split; [lia|]. rewrite Z.mod_add by lia. by apply Z.mod_small.
  - exists (i + h / n * n). split; [lia|]. rewrite Z.mod_add by lia. by apply Z.mod_small.
Qed.

Lemma window_residue_inj (h n k k' : Z) :
  0 < n → h ≤ k < h + n → h ≤ k' < h + n → k mod n = k' mod n → k = k'.
Proof.
  intros Hn Hk Hk' He.
  pose proof (Z.div_mod k n ltac:(lia)). pose proof (Z.div_mod k' n ltac:(lia)).
  assert (k / n = k' / n) by nia. lia.
Qed.

(** The round-robin schedule is fair: among any [len] consecutive heights
    each member of the committee is the leader of exactly one. *)
Theorem round_robin_fair c (h : Z) (i : nat) (m : CommitteeMember TAddr) :
  0 ≤ h → c !! i = Some m →
  ∃ k, (h ≤ k < h + Z.of_nat (length c) ∧ calculate_leader (E := E) c k = Ok (Z.of_nat i) ∧
        get_leader (E := E) c k = Ok (cm_address m, cm_public_key m)) ∧
    ∀ k', h ≤ k' < h + Z.of_nat (length c) →
          calculate_leader (E := E) c k' = Ok (Z.of_nat i) → k' = k.
Proof.
  intros Hh Hi. assert (c ≠ []) as Hc by (by intros ->).
  assert (i < length c)%nat as Hlt by (by eapply lookup_lt_Some).
  destruct (residue_in_window h (Z.of_nat (length c)) (Z.of_nat i)) as (k & Hr & Hk); [lia..|].
  exists k. unfold get_leader, calculate_leader. rewrite bool_decide_eq_false_2 by done.
  cbn [res_bind]. rewrite Hk, Nat2Z.id, Hi. split; [done|].
  intros k' Hk' [= E']. apply (window_residue_inj h (Z.of_nat (length c))); lia.
Qed.

Lemma first_true (P : nat → bool) (n : nat) :
  (∃ k, (k < n)%nat ∧ P k = true) →
  ∃ d, (d < n)%nat ∧ P d = true ∧ ∀ j, (j < d)%nat → P j = false.
Proof.
  intros (k & Hk & HP). revert Hk HP. induction (lt_wf k) as [k _ IH]. intros Hk HP.
  destruct (decide (Exists (λ j, P j = true) (seq 0 k))) as [He|He].
  - apply list.Exists_exists in He as (j & Hj%elem_of_seq & Hpj). apply (IH j); [lia..|done].
  - exists k. split_and!; [done..|]. intros j Hj. destruct (P j) eqn:Hpj; [|done].
    exfalso. apply He, list.Exists_exists. exists j. split; [apply elem_of_seq; lia|done].
Qed.

Section evictions.
Context (is_node_evicted : PublicKeyBytes → res E bool) (evicted : PublicKeyBytes → bool).
Hypothesis evicted_ok : ∀ pk, is_node_evicted pk = Ok (evicted pk).

Definition leader_at c (h : Z) : option (CommitteeMember TAddr) :=
  c !! Z.to_nat (h mod Z.of_nat (length c)).

(** The search returns the first height at or after the given one whose
    leader is not evicted. *)
Lemma skip_evicted_spec (fuel : nat) c (skipped h : Z) (m : CommitteeMember TAddr) (d : nat) :
  c ≠ [] → 0 ≤ h → h + Z.of_nat fuel ≤ U64_MAX →
  leader_at c h = Some m →
  (d ≤ fuel)%nat →
  (∀ j : Z, 0 ≤ j < Z.of_nat d → ∃ m', leader_at c (h + j) = Some m' ∧
     evicted (cm_public_key m') = true) →
  (∃ m', leader_at c (h + Z.of_nat d) = Some m' ∧ evicted (cm_public_key m') = false) →
  ∃ m', leader_at c (h + Z.of_nat d) = Some m' ∧
    skip_evicted is_node_evicted fuel c skipped h (cm_address m, cm_public_key m) =
    Some (Ok (MkNextLeader (cm_address m') (h + Z.of_nat d) (0 <? skipped + Z.of_nat d))).
Proof.
  intros Hc. revert h skipped m d.
  induction fuel as [|fuel IH]; intros h skipped m d Hh Hmax Hm Hd Hev (m' & Hm' & Hne).
  - assert (d = 0%nat) as -> by lia. change (Z.of_nat 0) with 0 in *. rewrite !Z.add_0_r in *.
    assert (m' = m) as -> by congruence.
    exists m. split; [done|]. simpl. by rewrite evicted_ok, Hne.
  - destruct d as [|d].
    { change (Z.of_nat 0) with 0 in *. rewrite !Z.add_0_r in *.
      assert (m' = m) as -> by congruence.
      exists m. split; [done|]. simpl. by rewrite evicted_ok, Hne. }
    destruct (Hev 0) as (m0 & Hm0 & Hev0); [lia|]. rewrite Z.add_0_r in Hm0.
    assert (m0 = m) as -> by congruence. simpl. rewrite evicted_ok, Hev0.
    unfold u64_add, u64_checked_add. rewrite uint_checked_in by lia. simpl.
    destruct (get_leader_lookup c (h + 1)) as (m1 & Hm1 & ->); [done|lia|].
    replace (h + Z.of_nat (S d)) with (h + 1 + Z.of_nat d) in * by lia.
    replace (skipped + Z.of_nat (S d)) with (skipped + 1 + Z.of_nat d) by lia.
    apply IH; [lia..|done|lia| |by exists m'].
    intros j Hj. replace (h + 1 + j) with (h + (1 + j)) by lia. apply Hev. lia.
Qed.

(** [get_leader_for_view] finds a leader: as long as some member of the
    committee is not evicted, the search ends within one round of the
    committee, at the first height whose leader is not evicted, and reports
    whether any height was skipped. *)
Theorem leader_for_view_found c (h : Z) (m : CommitteeMember TAddr) :
  0 ≤ h → h + Z.of_nat (length c) ≤ U64_MAX →
  m ∈ c → evicted (cm_public_key m) = false →
  ∃ (d : nat) m', (d < length c)%nat ∧
    leader_at c (h + Z.of_nat d) = Some m' ∧ evicted (cm_public_key m') = false ∧
    (∀ j : Z, 0 ≤ j < Z.of_nat d → ∃ mj, leader_at c (h + j) = Some mj ∧
       evicted (cm_public_key mj) = true) ∧
    get_leader_for_view is_node_evicted (length c) c h =
      Some (Ok (MkNextLeader (cm_address m') (h + Z.of_nat d) (0 <? Z.of_nat d))).
Proof.
  intros Hh Hmax Hm Hne. assert (c ≠ []) as Hc by (intros ->; by apply elem_of_nil in Hm).
  apply list_elem_of_lookup in Hm as [i Hi].
  assert (i < length c)%nat as Hlt by (by eapply lookup_lt_Some).
  destruct (residue_in_window h (Z.of_nat (length c)) (Z.of_nat i)) as (k & Hr & Hk); [lia..|].
  set (P := λ d : nat, match leader_at c (h + Z.of_nat d) with
                       | Some mj => negb (evicted (cm_public_key mj)) | None => true end).
  assert (∀ j : nat, is_Some (leader_at c (h + Z.of_nat j))) as Hall.
  { intros j. destruct (get_leader_lookup c (h + Z.of_nat j)) as (mj & ? & _); [done|lia|by exists mj]. }
  destruct (first_true P (length c)) as (d & Hd & Hp & Hq).
  { exists (Z.to_nat (k - h)). split; [lia|]. unfold P, leader_at.
    replace (h + Z.of_nat (Z.to_nat (k - h))) with k by lia.
    by rewrite Hk, Nat2Z.id, Hi, Hne. }
  destruct (Hall d) as [m' Hm']. unfold P in Hp. rewrite Hm' in Hp.
  assert (∀ j : Z, 0 ≤ j < Z.of_nat d → ∃ mj, leader_at c (h + j) = Some mj ∧
            evicted (cm_public_key mj) = true) as Hev.
  { intros j Hj. specialize (Hq (Z.to_nat j) ltac:(lia)). unfold P in Hq.
    rewrite Z2Nat.id in Hq by lia. destruct (Hall (Z.to_nat j)) as [mj Hmj].
    rewrite Z2Nat.id in Hmj by lia. rewrite Hmj in Hq. exists mj. bool_to_prop. done. }
  bool_to_prop. exists d, m'. split_and!; [done..|].
  destruct (get_leader_lookup c h Hc Hh) as (m0 & Hm0 & Hl).
  unfold get_leader_for_view. rewrite Hl.
  destruct (skip_evicted_spec (length c) c 0 h m0 d) as (m2 & Hm2 & ->); [done..|lia|done| |].
  - by exists m'.
  - by simplify_eq.
Qed.

(** With every member evicted the search does not end before the height
    overflows. *)
Lemma skip_evicted_spins c (fuel : nat) (skipped h : Z) (m : CommitteeMember TAddr) :
  c ≠ [] → Forall (λ m, evicted (cm_public_key m) = true) c →
  0 ≤ h → h + Z.of_nat fuel ≤ U64_MAX → leader_at c h = Some m →
  skip_evicted is_node_evicted fuel c skipped h (cm_address m, cm_public_key m) = None.
Proof.
  intros Hc Hall. revert skipped h m.
  induction fuel as [|fuel IH]; intros skipped h m Hh Hmax Hm; simpl;
    rewrite evicted_ok, (proj1 (Forall_lookup _ _) Hall _ _ Hm); [done|].
  unfold u64_add, u64_checked_add. rewrite uint_checked_in by lia. simpl.
  destruct (get_leader_lookup c (h + 1) Hc ltac:(lia)) as (m1 & Hm1 & ->). apply IH; [lia..|done].
Qed.

Lemma leader_for_view_spins c (fuel : nat) (h : Z) :
  c ≠ [] → 0 ≤ h → h + Z.of_nat fuel ≤ U64_MAX →
  Forall (λ m, evicted (cm_public_key m) = true) c →
  get_leader_for_view is_node_evicted fuel c h = None.
Proof.
  intros Hc Hh Hmax Hall. unfold get_leader_for_view.
  destruct (get_leader_lookup c h Hc Hh) as (m & Hm & ->). by apply skip_evicted_spins.
Qed.
End evictions.
End leaders.

Lemma round_robin_fair_witness :
  ∃ k, (7 ≤ k < 7 + Z.of_nat (length four_members) ∧
        calculate_leader (E := unit) four_members k = Ok (Z.of_nat 1) ∧
        get_leader (E := unit) four_members k = Ok (2, 12)%N) ∧
    ∀ k', 7 ≤ k' < 7 + Z.of_nat (length four_members) →
          calculate_leader (E := unit) four_members k' = Ok (Z.of_nat 1) → k' = k.
Proof.
  apply (round_robin_fair (E := unit) four_members 7 1 (MkCommitteeMember 2 12 1)%N);
    [lia|reflexivity].
Defined.

Lemma leader_for_view_found_witness :
  ∃ (d : nat) m', (d < length four_members)%nat ∧
    leader_at four_members (5 + Z.of_nat d) = Some m' ∧ N.eqb (cm_public_key m') 12 = false ∧
    (∀ j : Z, 0 ≤ j < Z.of_nat d → ∃ mj, leader_at four_members (5 + j) = Some mj ∧
       N.eqb (cm_public_key mj) 12 = true) ∧
    get_leader_for_view (E := unit) (λ pk, Ok (N.eqb pk 12)) (length four_members) four_members 5 =
      Some (Ok (MkNextLeader (cm_address m') (5 + Z.of_nat d) (0 <? Z.of_nat d))).
Proof.
  apply (leader_for_view_found (E := unit) (λ pk, Ok (N.eqb pk 12)) (λ pk, N.eqb pk 12)
    (λ _, eq_refl) four_members 5 (MkCommitteeMember 1 11 1)%N);
    [lia|vm_compute; congruence|left|reflexivity].
Defined.

(** ** Which committee holds a substate *)
Section locality.
Context {E : Type} `{Kh : !ObjectKeyHashes}.

(** The version of a substate does not move it to another shard. *)
Lemma to_shard_version (key version : Z) (n : NumPreshards) :
  0 ≤ key ≤ U256_MAX → 0 ≤ version ≤ U32_MAX →
  to_shard (E := E) (from_u256 key version) n = to_shard (from_u256 key 0) n.
Proof.
  intros Hk Hv.
  assert (is_address (from_u256 key version)) as Ha by (by apply from_u256_is_address).
  assert (is_address (from_u256 key 0)) as Ha0 by (by apply from_u256_is_address).
  destruct (to_shard_spec (E := E) _ n Ha) as (s & -> & Hs & Hl & Hh).
  destruct (to_shard_spec (E := E) _ n Ha0) as (s0 & -> & Hs0 & Hl0 & Hh0).
  rewrite (proj1 (address_roundtrip key version Hv)) in Hl, Hh.
  rewrite (proj1 (address_roundtrip key 0 ltac:(done))) in Hl0, Hh0. f_equal.
  apply (slice_unique s s0 key (shard_size n) (as_u32 n)); [apply shard_size_ge_1|tauto..].
Qed.

Definition with_group (ci : CommitteeInfo) (g : ShardGroup) : CommitteeInfo :=
  MkCommitteeInfo (ci_num_shards ci) (ci_num_shard_group_members ci) (ci_num_committees ci) g
    (ci_epoch ci) (ci_total_power ci).

(** The group of a substate. *)
Lemma substate_group (id : SubstateId) (version : Z) (ci : CommitteeInfo)
    (gs : list ShardGroup) :
  Z.of_N (to_object_key id) ≤ U256_MAX → 0 ≤ version ≤ U32_MAX →
  1 ≤ ci_num_committees ci ≤ as_u32 (ci_num_shards ci) →
  all_shard_groups_iter (E := E) (ci_num_shards ci) (ci_num_committees ci) = Ok gs →
  let address := from_object_key (to_object_key id) version in
  ∃ g, g ∈ gs ∧ to_shard_group (E := E) address (ci_num_shards ci) (ci_num_committees ci) = Ok g ∧
    ∀ g', g' ∈ gs →
      includes_substate_address (E := E) (with_group ci g') address = Ok (bool_decide (g' = g)) ∧
      includes_substate_id (E := E) (with_group ci g') id = Ok (is_global id || bool_decide (g' = g)).
Proof.
  intros Hk Hv Hc Hgs address.
  destruct (address_group (E := E) (from_object_key (to_object_key id) 0) (ci_num_shards ci)
    (ci_num_committees ci)) as (s & g & gs' & Hs & Hsg & Hgs' & Hin & Hu).
  { by apply from_u256_is_address; [split; [lia|]|]. } { done. }
  rewrite Hgs in Hgs'. injection Hgs' as <-. exists g. split_and!; [done| |].
  - rewrite <- Hsg. unfold address, to_shard_group, from_object_key. by rewrite to_shard_version by lia.
  - intros g' Hg'.
    assert (shard_group_contains g' s = bool_decide (g' = g)) as Hcont.
    { apply eq_bool_prop_intro. rewrite bool_decide_spec, <- Hu by done. by rewrite Is_true_true. }
    split.
    + unfold includes_substate_address, address, from_object_key. rewrite to_shard_version by lia.
      unfold from_object_key in Hs. simpl. rewrite Hs. simpl. by rewrite Hcont.
    + unfold includes_substate_id, substate_id_to_shard. destruct (is_global id); [done|]. simpl.
      rewrite Hs. simpl. by rewrite Hcont.
Qed.

(** C21: Every substate belongs to exactly one committee: of the groups
    [all_shard_groups_iter] divides the shards into, exactly one includes the
    address of the substate by [CommitteeInfo::includes_substate_address],
    whatever the version, and it is the group [SubstateAddress::to_shard_group]
    computes from the address.  [CommitteeInfo::includes_substate_id] holds for
    the same group only, except for a global substate (a template, say), which
    every group includes. *)
Theorem substate_in_one_committee (id : SubstateId) (version : Z) (ci : CommitteeInfo)
    (gs : list ShardGroup) :
  Z.of_N (to_object_key id) ≤ U256_MAX → 0 ≤ version ≤ U32_MAX →
  1 ≤ ci_num_committees ci ≤ as_u32 (ci_num_shards ci) →
  all_shard_groups_iter (E := E) (ci_num_shards ci) (ci_num_committees ci) = Ok gs →
  let address := from_object_key (to_object_key id) version in
  ∃ g, g ∈ gs ∧ to_shard_group (E := E) address (ci_num_shards ci) (ci_num_committees ci) = Ok g ∧
    ∀ g', g' ∈ gs →
      includes_substate_address (E := E) (with_group ci g') address = Ok (bool_decide (g' = g)) ∧
      includes_substate_id (E := E) (with_group ci g') id = Ok (is_global id || bool_decide (g' = g)).
Proof. apply substate_group. Qed.
End locality.

#[local] Instance sample_hashes : ObjectKeyHashes := {|
  hash_non_fungible_id := λ r _, r;
  hash_utxo_address := λ r i, (r + i)%N;
|}.

Lemma substate_in_one_committee_witness :
  let groups := [MkShardGroup 1 86; MkShardGroup 87 171; MkShardGroup 172 256] in
  let address := from_object_key (to_object_key (SidVault (2 ^ 255))) 7 in
  let ci := MkCommitteeInfo P256 4 3 (MkShardGroup 1 86) 0 4 in
  ∃ g, g ∈ groups ∧ to_shard_group (E := unit) address P256 3 = Ok g ∧
    ∀ g', g' ∈ groups →
      includes_substate_address (E := unit) (with_group ci g') address = Ok (bool_decide (g' = g)) ∧
      includes_substate_id (E := unit) (with_group ci g') (SidVault (2 ^ 255)) = Ok (bool_decide (g' = g)).
Proof.
  apply (substate_in_one_committee (SidVault (2 ^ 255)) 7
    (MkCommitteeInfo P256 4 3 (MkShardGroup 1 86) 0 4)); try reflexivity; try (vm_compute; split; congruence).
  vm_compute. congruence.
Defined.

(** ** Thresholds *)

(** [max_node_failures] is documented as less than a third of the members;
    with five members it is two. *)
Lemma max_node_failures_above_third :
  max_node_failures (four_members ++ [MkCommitteeMember 5 15 1]%N) = 2.
Proof. reflexivity. Qed.

(** Following [calculate_steps_between a b] steps from [b] leads to [a]. *)
Lemma calculate_steps_between_spec {TAddr : Type} `{!EqDecision TAddr} (c : Committee TAddr)
    (a b : TAddr) (i j : Z) :
  index_of c a = Some i → index_of c b = Some j →
  0 ≤ i < Z.of_nat (length c) → 0 ≤ j < Z.of_nat (length c) →
  ∃ k, calculate_steps_between c a b = Some k ∧ 0 ≤ k < Z.of_nat (length c) ∧
    (j + k) mod Z.of_nat (length c) = i.
Proof.
  intros Ha Hb Hi Hj. unfold calculate_steps_between. rewrite Ha, Hb.
  destruct (Z.ltb_spec (i - j) 0); eexists; (split; [done|]); split; try lia.
  - replace (j + (Z.of_nat (length c) + (i - j))) with (i + 1 * Z.of_nat (length c)) by lia.
    rewrite Z.mod_add by lia. by apply Z.mod_small.
  - replace (j + (i - j)) with i by lia. by apply Z.mod_small.
Qed.
