(* ===== verification/Blocks.v ===== *)
(** * Blocks and certificates

    The data of the consensus protocol: votes and certificates
    ([consensus_types/src/certificates]), block headers and blocks
    ([storage/src/consensus_models/{block_header,block}.rs]) and the decoding
    of a block received from the network
    ([p2p/src/conversions/consensus.rs]).

    Block ids, certificate ids and hashes are the numbers their bytes spell; the
    hash functions are the class [BlockHashes].  A block's commands appear as
    the list of their hashes: the header commits to them, and what a node makes
    of them is decided outside this model (see [HotStuff.v]). *)
From stdpp Require Import base gmap list numbers.
From S2P Require Import Prelude Ids Sharding.
Open Scope Z_scope.

Notation BlockId := N (only parsing).
Notation QcId := N (only parsing).
Notation FixedHash := N (only parsing).
Notation NodeHeight := Z (only parsing).
Notation Epoch := Z (only parsing).

(** ** Votes and certificates *)
Inductive QuorumDecision := QAccept | QReject.
#[export] Instance QuorumDecision_eq_dec : EqDecision QuorumDecision.
Proof. solve_decision. Defined.
#[export] Instance QuorumDecision_countable : Countable QuorumDecision.
Proof.
  refine (inj_countable' (λ d, match d with QAccept => true | QReject => false end)
    (λ b : bool, if b then QAccept else QReject) _). by intros [].
Defined.

(** [ValidatorSignatureBytes]. *)
Record ValidatorSignature := MkValidatorSignature {
  vs_public_key : PublicKeyBytes;
  vs_signature : N;
}.
#[export] Instance ValidatorSignature_eq_dec : EqDecision ValidatorSignature.
Proof. solve_decision. Defined.
#[export] Instance ValidatorSignature_countable : Countable ValidatorSignature.
Proof.
  refine (inj_countable' (λ s, (vs_public_key s, vs_signature s))
    (λ p, MkValidatorSignature p.1 p.2) _). by intros [].
Defined.

Record ProposalCertificate := MkProposalCertificate {
  pc_height : NodeHeight;
  pc_header_hash : FixedHash;
  pc_parent_id : BlockId;
  pc_epoch : Epoch;
  pc_shard_group : ShardGroup;
  pc_signatures : list ValidatorSignature;
  pc_decision : QuorumDecision;
}.

Record TimeoutCertificate := MkTimeoutCertificate {
  tc_epoch : Epoch;
  tc_height : NodeHeight;
  tc_signatures : list ValidatorSignature;
}.

Definition pc_genesis (epoch : Epoch) (shard_group : ShardGroup) : ProposalCertificate :=
  MkProposalCertificate 0 0%N 0%N epoch shard_group [] QAccept.

Definition justifies_zero_block (pc : ProposalCertificate) : bool := N.eqb (pc_header_hash pc) 0.

(** ** Headers and blocks *)
Record BlockHeader := MkBlockHeader {
  bh_id : BlockId;
  bh_network : N;
  bh_parent : BlockId;
  bh_justify_id : QcId;
  bh_height : NodeHeight;
  bh_epoch : Epoch;
  bh_shard_group : ShardGroup;
  bh_proposed_by : PublicKeyBytes;
  bh_total_leader_fee : Z;
  bh_state_merkle_root : FixedHash;
  bh_command_merkle_root : FixedHash;
  bh_signature : option N;
  bh_timestamp : Z;
  bh_epoch_hash : FixedHash;
  bh_extra_data : option PublicKeyBytes; (* [ExtraFieldKey::SidechainId], the only key *)
}.

Record Block := MkBlock {
  b_header : BlockHeader;
  b_justify : ProposalCertificate;
  b_commands : list N;
  b_timeout_certificate : option TimeoutCertificate;
  b_justify_qc_id : option QcId;
  b_commit_qc_id : option QcId;
}.

(** The domain-separated hashers: of a parent and a header hash, of the hashed
    header fields and metadata, of the parts of a certificate, and the Merkle
    root of the commands. *)
Class BlockHashes := {
  hash_block : BlockId → FixedHash → BlockId;
  hash_header : N → QcId → NodeHeight → Epoch → ShardGroup → PublicKeyBytes → FixedHash →
                FixedHash → FixedHash → FixedHash;
  hash_metadata : Z → Z → FixedHash → option PublicKeyBytes → FixedHash;
  hash_qc : FixedHash → BlockId → list ValidatorSignature → QuorumDecision → QcId;
  hash_tc : Epoch → NodeHeight → list ValidatorSignature → N;
  commands_merkle_root : list N → FixedHash;
}.

(** Collision resistance, no preimage of the zero hash, and the root of no
    commands. *)
Class BlockHashLaws `{Bh : BlockHashes} : Prop := {
  hash_block_inj p1 h1 p2 h2 : hash_block p1 h1 = hash_block p2 h2 → p1 = p2 ∧ h1 = h2;
  hash_block_nonzero p h : hash_block p h ≠ 0%N;
  hash_header_inj n1 j1 h1 e1 g1 b1 s1 c1 m1 n2 j2 h2 e2 g2 b2 s2 c2 m2 :
    hash_header n1 j1 h1 e1 g1 b1 s1 c1 m1 = hash_header n2 j2 h2 e2 g2 b2 s2 c2 m2 →
    n1 = n2 ∧ j1 = j2 ∧ h1 = h2 ∧ e1 = e2 ∧ g1 = g2 ∧ b1 = b2 ∧ s1 = s2 ∧ c1 = c2 ∧ m1 = m2;
  hash_header_nonzero n j h e g b s c m : hash_header n j h e g b s c m ≠ 0%N;
  hash_qc_inj h1 p1 s1 d1 h2 p2 s2 d2 :
    hash_qc h1 p1 s1 d1 = hash_qc h2 p2 s2 d2 → h1 = h2 ∧ p1 = p2 ∧ s1 = s2 ∧ d1 = d2;
  commands_merkle_root_nil : commands_merkle_root [] = 0%N;
}.

Section blocks.
Context `{Bh : !BlockHashes}.
Implicit Types (h : BlockHeader) (b : Block) (pc : ProposalCertificate).

Definition from_parent_and_header_hash (parent_id : BlockId) (header_hash : FixedHash) : BlockId :=
  if N.eqb header_hash 0 && N.eqb parent_id 0 then 0%N else hash_block parent_id header_hash.

(** [ProposalCertificate::calculate_id]: neither the height nor the epoch is
    part of it. *)
Definition pc_calculate_id pc : QcId :=
  hash_qc (pc_header_hash pc) (pc_parent_id pc) (pc_signatures pc) (pc_decision pc).
Definition calculate_block_id pc : BlockId :=
  from_parent_and_header_hash (pc_parent_id pc) (pc_header_hash pc).
Definition tc_calculate_id (tc : TimeoutCertificate) : N :=
  hash_tc (tc_epoch tc) (tc_height tc) (tc_signatures tc).

Definition calculate_metadata_hash h : FixedHash :=
  hash_metadata (bh_total_leader_fee h) (bh_timestamp h) (bh_epoch_hash h) (bh_extra_data h).
Definition calculate_hash h : FixedHash :=
  hash_header (bh_network h) (bh_justify_id h) (bh_height h) (bh_epoch h) (bh_shard_group h)
    (bh_proposed_by h) (bh_state_merkle_root h) (bh_command_merkle_root h)
    (calculate_metadata_hash h).
Definition calculate_id h : BlockId :=
  from_parent_and_header_hash (bh_parent h) (calculate_hash h).

Definition set_id h : BlockHeader :=
  MkBlockHeader (calculate_id h) (bh_network h) (bh_parent h) (bh_justify_id h) (bh_height h)
    (bh_epoch h) (bh_shard_group h) (bh_proposed_by h) (bh_total_leader_fee h)
    (bh_state_merkle_root h) (bh_command_merkle_root h) (bh_signature h) (bh_timestamp h)
    (bh_epoch_hash h) (bh_extra_data h).

(** [BlockHeader::create]: the id is computed before the signature is set, and
    does not depend on it. *)
Definition header_create (network : N) (parent : BlockId) (justify_id : QcId) (height : NodeHeight)
    (epoch : Epoch) (shard_group : ShardGroup) (proposed_by : PublicKeyBytes)
    (state_merkle_root : FixedHash) (commands : list N) (total_leader_fee : Z) (signature : N)
    (timestamp : Z) (epoch_hash : FixedHash) (extra_data : option PublicKeyBytes) : BlockHeader :=
  set_id (MkBlockHeader 0 network parent justify_id height epoch shard_group proposed_by
    total_leader_fee state_merkle_root (commands_merkle_root commands) (Some signature) timestamp
    epoch_hash extra_data).

Definition header_genesis (network : N) (justify_id : QcId) (epoch : Epoch)
    (shard_group : ShardGroup) (state_merkle_root epoch_hash : FixedHash)
    (extra_data : option PublicKeyBytes) : BlockHeader :=
  header_create network 0 justify_id 0 epoch shard_group 0 state_merkle_root [] 0 0 0 epoch_hash
    extra_data.

Definition header_dummy_block (network : N) (parent : BlockId) (proposed_by : PublicKeyBytes)
    (height : NodeHeight) (justify_id : QcId) (epoch : Epoch) (shard_group : ShardGroup)
    (parent_state_merkle_root : FixedHash) (parent_timestamp : Z) (parent_epoch_hash : FixedHash) :
    BlockHeader :=
  set_id (MkBlockHeader 0 network parent justify_id height epoch shard_group proposed_by 0
    parent_state_merkle_root (commands_merkle_root []) None parent_timestamp parent_epoch_hash None).

(** The parent of all genesis blocks, created at time [now]. *)
Definition header_zero_block (network : N) (n : NumPreshards) (now : Z) : BlockHeader :=
  let shard_group := MkShardGroup shard_first (as_u32 n) in
  MkBlockHeader 0 network 0 (pc_calculate_id (pc_genesis 0 shard_group)) 0 0 shard_group 0 0 0 0
    (Some 0%N) now 0 None.

Definition is_dummy_header h : bool := bool_decide (bh_signature h = None).

Definition is_genesis_header h : bool :=
  (bh_height h =? 0) && N.eqb (bh_parent h) 0 && (bh_timestamp h =? 0) &&
  N.eqb (bh_command_merkle_root h) 0 && N.eqb (bh_proposed_by h) 0 &&
  bool_decide (bh_signature h = None).

Definition block_new h pc (commands : list N) (tc : option TimeoutCertificate) : Block :=
  MkBlock h pc commands tc None None.

Definition block_genesis (network : N) (epoch : Epoch) (epoch_hash : FixedHash)
    (shard_group : ShardGroup) (state_merkle_root : FixedHash)
    (sidechain_id : option PublicKeyBytes) : Block :=
  let justify := pc_genesis epoch shard_group in
  block_new (header_genesis network (pc_calculate_id justify) epoch shard_group state_merkle_root
               epoch_hash sidechain_id) justify [] None.

Definition zero_block (network : N) (n : NumPreshards) (now : Z) : Block :=
  let qc := pc_genesis 0 (MkShardGroup shard_first (as_u32 n)) in
  MkBlock (header_zero_block network n now) qc [] None None (Some (pc_calculate_id qc)).

Definition block_id b : BlockId := bh_id (b_header b).
Definition block_parent b : BlockId := bh_parent (b_header b).
Definition block_height b : NodeHeight := bh_height (b_header b).
Definition block_epoch b : Epoch := bh_epoch (b_header b).
Definition block_proposed_by b : PublicKeyBytes := bh_proposed_by (b_header b).
Definition is_dummy b : bool := is_dummy_header (b_header b).
Definition is_genesis b : bool := is_genesis_header (b_header b).
Definition is_committed b : bool := bool_decide (b_commit_qc_id b ≠ None).
Definition has_justify_qc b : bool := bool_decide (b_justify_qc_id b ≠ None).
(** The id of the block that [b]'s certificate justifies. *)
Definition justify_block_id b : BlockId := calculate_block_id (b_justify b).

Definition max_certificate_height b : NodeHeight :=
  Z.max (pc_height (b_justify b))
    (match b_timeout_certificate b with Some tc => tc_height tc | None => 0 end).
Definition justifies_parent b : bool := N.eqb (justify_block_id b) (block_parent b).

Definition set_commit_qc (qc_id : QcId) b : Block :=
  MkBlock (b_header b) (b_justify b) (b_commands b) (b_timeout_certificate b) (b_justify_qc_id b)
    (Some qc_id).
Definition set_justify_qc (qc_id : QcId) b : Block :=
  MkBlock (b_header b) (b_justify b) (b_commands b) (b_timeout_certificate b) (Some qc_id)
    (b_commit_qc_id b).

(** [TryFrom<proto::consensus::Block>] with [try_convert_proto_block_header]:
    the certificate id, the command root and the block id are computed by the
    receiver; a header without signature becomes a dummy header.  (A shard group
    travels as its [u32] encoding: the decoding fails when the group does not
    decode.) *)
Definition decode_block b : option Block :=
  let h := b_header b in
  let justify_id := pc_calculate_id (b_justify b) in
  match decode_from_u32 (encode_as_u32 (bh_shard_group h)) with
  | None => None
  | Some shard_group =>
      let header :=
        match bh_signature h with
        | None =>
            header_dummy_block (bh_network h) (bh_parent h) (bh_proposed_by h) (bh_height h)
              justify_id (bh_epoch h) shard_group (bh_state_merkle_root h) (bh_timestamp h)
              (bh_epoch_hash h)
        | Some signature =>
            header_create (bh_network h) (bh_parent h) justify_id (bh_height h) (bh_epoch h)
              shard_group (bh_proposed_by h) (bh_state_merkle_root h) (b_commands b)
              (bh_total_leader_fee h) signature (bh_timestamp h) (bh_epoch_hash h)
              (bh_extra_data h)
        end in
      Some (block_new header (b_justify b) (b_commands b) (b_timeout_certificate b))
  end.

(** ** Ids *)

(** A header that was created here carries its own hash. *)
Definition well_identified b : Prop :=
  block_id b = calculate_id (b_header b) ∧ bh_justify_id (b_header b) = pc_calculate_id (b_justify b).

Lemma calculate_id_set_id h : calculate_id (set_id h) = calculate_id h.
Proof. done. Qed.

Lemma decode_block_well_identified b b' : decode_block b = Some b' → well_identified b'.
Proof.
  unfold decode_block. destruct (decode_from_u32 _); [|done].
  intros [= <-]. by destruct (bh_signature (b_header b)).
Qed.

Section laws.
Context `{Bl : !BlockHashLaws}.

Lemma from_parent_inj (p1 h1 p2 h2 : N) :
  from_parent_and_header_hash p1 h1 = from_parent_and_header_hash p2 h2 → p1 = p2 ∧ h1 = h2.
Proof.
  unfold from_parent_and_header_hash.
  destruct (N.eqb_spec h1 0), (N.eqb_spec p1 0), (N.eqb_spec h2 0), (N.eqb_spec p2 0); simpl;
    intros H; try (by apply hash_block_inj in H); subst; try done;
    try (by symmetry in H; apply hash_block_nonzero in H); by apply hash_block_nonzero in H.
Qed.

Lemma calculate_id_nonzero h : calculate_id h ≠ 0%N.
Proof.
  unfold calculate_id, from_parent_and_header_hash.
  destruct (N.eqb_spec (calculate_hash h) 0) as [Hz|Hz]; simpl.
  - by apply hash_header_nonzero in Hz.
  - apply hash_block_nonzero.
Qed.

(** Two blocks with the same id have the same parent, height, epoch, and
    certificates for the same block. *)
Lemma same_id b1 b2 :
  well_identified b1 → well_identified b2 → block_id b1 = block_id b2 →
  block_parent b1 = block_parent b2 ∧ block_height b1 = block_height b2 ∧
  justify_block_id b1 = justify_block_id b2.
Proof.
  intros [H1 J1] [H2 J2] Heq. rewrite H1, H2 in Heq. unfold calculate_id in Heq.
  apply from_parent_inj in Heq as [Hp Hh]. unfold calculate_hash in Hh.
  apply hash_header_inj in Hh. destruct_and!. split_and!; [done..|].
  rewrite J1, J2 in *. unfold pc_calculate_id in *.
  match goal with H : hash_qc _ _ _ _ = _ |- _ => apply hash_qc_inj in H end. destruct_and!.
  unfold justify_block_id, calculate_block_id. by f_equal.
Qed.

(** The certificate of a zero block names the zero id only when its parent is
    zero as well. *)
Lemma calculate_block_id_zero pc :
  calculate_block_id pc = 0%N ↔ pc_header_hash pc = 0%N ∧ pc_parent_id pc = 0%N.
Proof.
  unfold calculate_block_id, from_parent_and_header_hash.
  destruct (N.eqb_spec (pc_header_hash pc) 0), (N.eqb_spec (pc_parent_id pc) 0); simpl;
    split; intros H; try done; try (by apply hash_block_nonzero in H); naive_solver.
Qed.

(** [BlockHeader::is_genesis] expects a header without signature, but
    [BlockHeader::genesis] sets one: it holds of no genesis header. *)
Lemma genesis_not_recognised (network : N) (epoch : Epoch) (epoch_hash : FixedHash)
    (shard_group : ShardGroup) (state_merkle_root : FixedHash) (sidechain_id : option PublicKeyBytes) :
  is_genesis (block_genesis network epoch epoch_hash shard_group state_merkle_root sidechain_id) = false.
Proof.
  unfold is_genesis, is_genesis_header, block_genesis, header_genesis, header_create, set_id. simpl.
  by rewrite ?andb_false_r.
Qed.
End laws.
End blocks.
