(* ===== verification/BlockStore.v ===== *)
(** * The block store of a validator

    What a node keeps of the chain: the blocks, the index of pending blocks
    and the single-entry records (locked block, last executed block, highest
    certificates, ...), with the operations of
    [state_store_rocksdb/src/{reader,writer}.rs] and
    [storage/src/consensus_models/block.rs] on them, the certificate updates of
    [consensus/src/traits/certificate.rs] and the chain update [update_nodes]
    of [consensus/src/traits/block_store.rs].

    The index of blocks by epoch and height and the parent-child index are kept
    in step with the two maps modelled here; they appear as queries on them.
    The records hold one entry each, whose epoch must be the one asked for. *)
From stdpp Require Import base gmap list numbers.
From S2P Require Import Prelude Ids Sharding Blocks.
Open Scope Z_scope.

(** ** Errors *)
Inductive StorageError := NotFound | QueryError | DataInconsistency.

Inductive ProposalValidationError :=
  | NotSafeBlock
  | ProposingGenesisBlock
  | ProposingDummyBlock
  | ParentNotFound
  | JustifyBlockNotFound
  | JustifyBlockInvalid
  | CandidateBlockNotHigherThanJustify
  | InvalidBlockHeight
  | CandidateBlockDoesNotExtendJustify
  | NotLeader
  | MissingSignature
  | InvalidSignature
  | QcInvalidSignature
  | QcDuplicateSignature
  | QuorumWasNotReached
  | InvalidNetwork
  | ValidatorNotInCommittee
  | InvalidEpochHash
  | InvalidShardGroup
  | InvalidSidechainId
  | MismatchedSidechainId
  | FutureEpoch
  | InvalidEpochInBlock
  | InvalidEpochInQc
  | MalformedBlock.

Inductive HotStuffError :=
  | HsStorageError (e : StorageError)
  | HsProposalValidationError (e : ProposalValidationError)
  | ReceivedVoteFromNonCommitteeMember
  | InvalidVote
  | InvalidVoteSignature
  | FallenBehind
  | HsOtherError.

(** ** State *)

(** [LockedBlock], [LastVoted], [LastExecuted], [HighestSeenBlock] and
    [LeafBlock]: a block by id, height and epoch. *)
Record BlockRef := MkBlockRef {
  br_block_id : BlockId;
  br_height : NodeHeight;
  br_epoch : Epoch;
}.

Record HighPc := MkHighPc {
  hp_block_id : BlockId;
  hp_block_height : NodeHeight;
  hp_epoch : Epoch;
  hp_qc_id : QcId;
}.

Record HighTc := MkHighTc {
  ht_epoch : Epoch;
  ht_height : NodeHeight;
  ht_tc_id : N;
}.

Record ConsensusStore := MkConsensusStore {
  cs_blocks : gmap BlockId Block;
  cs_pending : gmap BlockId BlockId; (* [PendingChainIndex]: block to parent *)
  cs_certificates : gmap (Epoch * QcId) ProposalCertificate;
  cs_timeout_certificates : gmap (Epoch * N) TimeoutCertificate;
  cs_highest_seen : option BlockRef;
  cs_high_pc : option HighPc;
  cs_high_tc : option HighTc;
  cs_leaf : option BlockRef;
  cs_locked : option BlockRef;
  cs_last_executed : option BlockRef;
  cs_last_voted : option BlockRef;
  cs_last_sent_vote : option (BlockId * QuorumDecision);
  cs_last_sent_new_view : option (Epoch * NodeHeight);
}.

Definition set_blocks (m : gmap BlockId Block) (s : ConsensusStore) : ConsensusStore :=
  MkConsensusStore m (cs_pending s) (cs_certificates s) (cs_timeout_certificates s)
    (cs_highest_seen s) (cs_high_pc s) (cs_high_tc s) (cs_leaf s) (cs_locked s)
    (cs_last_executed s) (cs_last_voted s) (cs_last_sent_vote s) (cs_last_sent_new_view s).
Definition set_pending (m : gmap BlockId BlockId) (s : ConsensusStore) : ConsensusStore :=
  MkConsensusStore (cs_blocks s) m (cs_certificates s) (cs_timeout_certificates s)
    (cs_highest_seen s) (cs_high_pc s) (cs_high_tc s) (cs_leaf s) (cs_locked s)
    (cs_last_executed s) (cs_last_voted s) (cs_last_sent_vote s) (cs_last_sent_new_view s).
Definition set_certificates (m : gmap (Epoch * QcId) ProposalCertificate) (s : ConsensusStore) :
    ConsensusStore :=
  MkConsensusStore (cs_blocks s) (cs_pending s) m (cs_timeout_certificates s)
    (cs_highest_seen s) (cs_high_pc s) (cs_high_tc s) (cs_leaf s) (cs_locked s)
    (cs_last_executed s) (cs_last_voted s) (cs_last_sent_vote s) (cs_last_sent_new_view s).
Definition set_timeout_certificates (m : gmap (Epoch * N) TimeoutCertificate) (s : ConsensusStore) :
    ConsensusStore :=
  MkConsensusStore (cs_blocks s) (cs_pending s) (cs_certificates s) m
    (cs_highest_seen s) (cs_high_pc s) (cs_high_tc s) (cs_leaf s) (cs_locked s)
    (cs_last_executed s) (cs_last_voted s) (cs_last_sent_vote s) (cs_last_sent_new_view s).
Definition set_highest_seen (r : BlockRef) (s : ConsensusStore) : ConsensusStore :=
  MkConsensusStore (cs_blocks s) (cs_pending s) (cs_certificates s) (cs_timeout_certificates s)
    (Some r) (cs_high_pc s) (cs_high_tc s) (cs_leaf s) (cs_locked s)
    (cs_last_executed s) (cs_last_voted s) (cs_last_sent_vote s) (cs_last_sent_new_view s).
Definition set_high_pc (r : HighPc) (s : ConsensusStore) : ConsensusStore :=
  MkConsensusStore (cs_blocks s) (cs_pending s) (cs_certificates s) (cs_timeout_certificates s)
    (cs_highest_seen s) (Some r) (cs_high_tc s) (cs_leaf s) (cs_locked s)
    (cs_last_executed s) (cs_last_voted s) (cs_last_sent_vote s) (cs_last_sent_new_view s).
Definition set_high_tc (r : HighTc) (s : ConsensusStore) : ConsensusStore :=
  MkConsensusStore (cs_blocks s) (cs_pending s) (cs_certificates s) (cs_timeout_certificates s)
    (cs_highest_seen s) (cs_high_pc s) (Some r) (cs_leaf s) (cs_locked s)
    (cs_last_executed s) (cs_last_voted s) (cs_last_sent_vote s) (cs_last_sent_new_view s).
Definition set_leaf (r : BlockRef) (s : ConsensusStore) : ConsensusStore :=
  MkConsensusStore (cs_blocks s) (cs_pending s) (cs_certificates s) (cs_timeout_certificates s)
    (cs_highest_seen s) (cs_high_pc s) (cs_high_tc s) (Some r) (cs_locked s)
    (cs_last_executed s) (cs_last_voted s) (cs_last_sent_vote s) (cs_last_sent_new_view s).
Definition set_locked (r : BlockRef) (s : ConsensusStore) : ConsensusStore :=
  MkConsensusStore (cs_blocks s) (cs_pending s) (cs_certificates s) (cs_timeout_certificates s)
    (cs_highest_seen s) (cs_high_pc s) (cs_high_tc s) (cs_leaf s) (Some r)
    (cs_last_executed s) (cs_last_voted s) (cs_last_sent_vote s) (cs_last_sent_new_view s).
Definition set_last_executed (r : BlockRef) (s : ConsensusStore) : ConsensusStore :=
  MkConsensusStore (cs_blocks s) (cs_pending s) (cs_certificates s) (cs_timeout_certificates s)
    (cs_highest_seen s) (cs_high_pc s) (cs_high_tc s) (cs_leaf s) (cs_locked s)
    (Some r) (cs_last_voted s) (cs_last_sent_vote s) (cs_last_sent_new_view s).
Definition set_last_voted (r : BlockRef) (s : ConsensusStore) : ConsensusStore :=
  MkConsensusStore (cs_blocks s) (cs_pending s) (cs_certificates s) (cs_timeout_certificates s)
    (cs_highest_seen s) (cs_high_pc s) (cs_high_tc s) (cs_leaf s) (cs_locked s)
    (cs_last_executed s) (Some r) (cs_last_sent_vote s) (cs_last_sent_new_view s).
Definition set_last_sent_vote (v : BlockId * QuorumDecision) (s : ConsensusStore) : ConsensusStore :=
  MkConsensusStore (cs_blocks s) (cs_pending s) (cs_certificates s) (cs_timeout_certificates s)
    (cs_highest_seen s) (cs_high_pc s) (cs_high_tc s) (cs_leaf s) (cs_locked s)
    (cs_last_executed s) (cs_last_voted s) (Some v) (cs_last_sent_new_view s).
Definition set_last_sent_new_view (v : option (Epoch * NodeHeight)) (s : ConsensusStore) :
    ConsensusStore :=
  MkConsensusStore (cs_blocks s) (cs_pending s) (cs_certificates s) (cs_timeout_certificates s)
    (cs_highest_seen s) (cs_high_pc s) (cs_high_tc s) (cs_leaf s) (cs_locked s)
    (cs_last_executed s) (cs_last_voted s) (cs_last_sent_vote s) v.

(** ** Queries and updates *)
Notation Tx A := (M ConsensusStore HotStuffError A).

(** The single-entry records: an entry of another epoch counts as missing. *)
Definition ref_get (r : option BlockRef) (epoch : Epoch) : option BlockRef :=
  match r with
  | Some r => if br_epoch r =? epoch then Some r else None
  | None => None
  end.
Definition record_get (f : ConsensusStore → option BlockRef) (epoch : Epoch) : Tx BlockRef :=
  λ s, (ok_or (ref_get (f s) epoch) (HsStorageError NotFound), s).
Definition high_pc_get (s : ConsensusStore) (epoch : Epoch) : option HighPc :=
  match cs_high_pc s with
  | Some r => if hp_epoch r =? epoch then Some r else None
  | None => None
  end.
Definition high_tc_get (s : ConsensusStore) (epoch : Epoch) : option HighTc :=
  match cs_high_tc s with
  | Some r => if ht_epoch r =? epoch then Some r else None
  | None => None
  end.

Section store.
Context `{Bh : !BlockHashes}.
Implicit Types (b : Block) (id : BlockId) (s : ConsensusStore).

Definition block_ref b : BlockRef := MkBlockRef (block_id b) (block_height b) (block_epoch b).

Definition blocks_get id : Tx Block :=
  λ s, (ok_or (cs_blocks s !! id) (HsStorageError NotFound), s).
Definition blocks_exists id : Tx bool := λ s, (Ok (bool_decide (is_Some (cs_blocks s !! id))), s).

Definition blocks_insert b : Tx unit :=
  let! exists_ := blocks_exists (block_id b) in
  if exists_ then throw (HsStorageError QueryError) else
  do! modify (λ s, set_blocks (<[block_id b := b]> (cs_blocks s)) s) in
  if N.eqb (block_id b) 0 then ret tt
  else modify (λ s, set_pending (<[block_id b := block_parent b]> (cs_pending s)) s).

(** [Block::save]. *)
Definition block_save b : Tx bool :=
  let! exists_ := blocks_exists (block_id b) in
  if exists_ then ret false else do! blocks_insert b in ret true.

Definition blocks_set_qcs id (commit_qc_id justify_qc_id : option QcId) : Tx unit :=
  match commit_qc_id, justify_qc_id with
  | None, None => ret tt
  | _, _ =>
      let! b := blocks_get id in
      let b1 := match commit_qc_id with Some q => set_commit_qc q b | None => b end in
      do! match commit_qc_id with
          | Some _ => modify (λ s, set_pending (delete id (cs_pending s)) s)
          | None => ret tt
          end in
      let b2 := match justify_qc_id with Some q => set_justify_qc q b1 | None => b1 end in
      modify (λ s, set_blocks (<[id := b2]> (cs_blocks s)) s)
  end.

Definition blocks_delete id : Tx unit :=
  let! b := blocks_get id in
  if is_committed b then throw (HsStorageError QueryError) else
  do! modify (λ s, set_blocks (delete id (cs_blocks s)) s) in
  modify (λ s, set_pending (delete id (cs_pending s)) s).

(** Keys of the index by epoch and height, and of the parent-child index. *)
Definition blocks_get_all_ids_by_height (epoch : Epoch) (height : NodeHeight) : Tx (list BlockId) :=
  λ s, (Ok (fst <$> filter (λ p, block_epoch p.2 = epoch ∧ block_height p.2 = height)
              (map_to_list (cs_blocks s))), s).
Definition blocks_get_pending_ids_by_parent id : Tx (list BlockId) :=
  λ s, (Ok (fst <$> filter (λ p, p.2 = id) (map_to_list (cs_pending s))), s).

Definition get_genesis_for_epoch (epoch : Epoch) : Tx Block :=
  let! ids := blocks_get_all_ids_by_height epoch 0 in
  match ids with
  | [] => throw (HsStorageError DataInconsistency)
  | [id] => blocks_get id
  | _ => throw (HsStorageError DataInconsistency)
  end.

Definition get_parent b : Tx Block :=
  if N.eqb (block_id b) 0 && N.eqb (block_parent b) 0 then throw (HsStorageError NotFound)
  else blocks_get (block_parent b).

(** [delete_orphaned_block_and_children]; the recursion follows the pending
    index, whose size bounds its depth. *)
Fixpoint delete_orphaned_block_and_children (fuel : nat) id : Tx unit :=
  match fuel with
  | O => panic
  | S fuel =>
      let! children := blocks_get_pending_ids_by_parent id in
      do! for_each children (delete_orphaned_block_and_children fuel) in
      blocks_delete id
  end.

Definition remove_orphaned_blocks b : Tx unit :=
  let! other_blocks := blocks_get_all_ids_by_height (block_epoch b) (block_height b) in
  for_each other_blocks (λ id,
    if N.eqb id (block_id b) then ret tt
    else λ s, delete_orphaned_block_and_children (S (size (cs_pending s))) id s).

(** [blocks_is_pending_ancestor]: the [while let] loop over the pending index. *)
Fixpoint pending_ancestor_loop (fuel : nat) (pending : gmap BlockId BlockId) id
    (ancestor : BlockId) : res HotStuffError bool :=
  match fuel with
  | O => Panic
  | S fuel =>
      match pending !! id with
      | None => Ok false
      | Some parent =>
          if N.eqb parent ancestor then Ok true
          else if N.eqb parent id then Ok false
          else pending_ancestor_loop fuel pending parent ancestor
      end
  end.

Definition blocks_is_pending_ancestor (descendant ancestor : BlockId) : Tx bool :=
  let! d := blocks_exists descendant in
  if negb d then throw (HsStorageError QueryError) else
  let! a := blocks_exists ancestor in
  if negb a then throw (HsStorageError QueryError) else
  λ s, (pending_ancestor_loop (S (size (cs_pending s))) (cs_pending s) descendant ancestor, s).

Definition extends_pending b (ancestor : BlockId) : Tx bool :=
  if N.eqb (block_id b) ancestor then ret false
  else if N.eqb (block_parent b) ancestor then ret true
  else
    let! p := blocks_exists (block_parent b) in
    if negb p then ret false else blocks_is_pending_ancestor (block_parent b) ancestor.

(** The safeNode predicate. *)
Definition is_safe b : Tx bool :=
  let! locked := record_get cs_locked (block_epoch b) in
  if br_height locked <? pc_height (b_justify b) then ret true
  else
    let! e := extends_pending b (br_block_id locked) in
    ret e.

(** ** Certificates *)
Definition as_high_pc (pc : ProposalCertificate) : HighPc :=
  MkHighPc (calculate_block_id pc) (pc_height pc) (pc_epoch pc) (pc_calculate_id pc).
Definition as_leaf_block (pc : ProposalCertificate) : BlockRef :=
  MkBlockRef (calculate_block_id pc) (pc_height pc) (pc_epoch pc).
Definition as_high_tc (tc : TimeoutCertificate) : HighTc :=
  MkHighTc (tc_epoch tc) (tc_height tc) (tc_calculate_id tc).

Definition pc_save (pc : ProposalCertificate) : Tx unit :=
  modify (λ s, set_certificates (<[(pc_epoch pc, pc_calculate_id pc) := pc]> (cs_certificates s)) s).
Definition tc_save (tc : TimeoutCertificate) : Tx unit :=
  modify (λ s, set_timeout_certificates
    (<[(tc_epoch tc, tc_calculate_id tc) := tc]> (cs_timeout_certificates s)) s).

(** [ProposalCertificate::update_highest]. *)
Definition update_highest_pc (pc : ProposalCertificate) : Tx HighPc :=
  λ s,
    (match high_pc_get s (pc_epoch pc) with
     | Some high_pc =>
         if pc_height pc <=? hp_block_height high_pc
         then do! modify (set_last_sent_new_view None) in ret high_pc
         else
           do! pc_save pc in
           do! modify (set_leaf (as_leaf_block pc)) in
           do! modify (set_high_pc (as_high_pc pc)) in
           ret (as_high_pc pc)
     | None =>
         do! pc_save pc in
         do! modify (set_leaf (as_leaf_block pc)) in
         do! modify (set_high_pc (as_high_pc pc)) in
         ret (as_high_pc pc)
     end) s.

(** [TimeoutCertificate::update_highest]. *)
Definition update_highest_tc (tc : TimeoutCertificate) : Tx HighTc :=
  λ s,
    (match high_tc_get s (tc_epoch tc) with
     | Some high_tc =>
         if tc_height tc <=? ht_height high_tc then ret high_tc
         else
           do! tc_save tc in
           do! modify (set_high_tc (as_high_tc tc)) in
           ret (as_high_tc tc)
     | None =>
         do! tc_save tc in
         do! modify (set_high_tc (as_high_tc tc)) in
         ret (as_high_tc tc)
     end) s.

(** ** The chain update

    [update_nodes] runs on the store and on what its two callbacks capture. *)
Section update_nodes.
Context {C : Type}.
Notation Txc A := (M (ConsensusStore * C) HotStuffError A).

Definition on_store {A : Type} (m : Tx A) : Txc A := zoom fst (λ t st, (t, st.2)) m.

Context (on_lock_block : BlockRef → Block → ProposalCertificate → Txc unit).
Context (on_commit : Block → Txc unit).

(** The recursions end because the heights of parents decrease; [fuel] bounds
    the number of blocks walked. *)
Fixpoint on_locked_block_recurse (fuel : nat) (locked : BlockRef) b
    (justify_qc : ProposalCertificate) : Txc unit :=
  if br_height locked <? block_height b then
    match fuel with
    | O => panic
    | S fuel =>
        let! parent := on_store (get_parent b) in
        do! on_locked_block_recurse fuel locked parent (b_justify b) in
        on_lock_block locked b justify_qc
    end
  else ret tt.

Fixpoint on_commit_block_recurse (fuel : nat) (last_executed : BlockRef) b : Txc unit :=
  if br_height last_executed <? block_height b then
    match fuel with
    | O => panic
    | S fuel =>
        let! parent := on_store (get_parent b) in
        do! on_commit_block_recurse fuel last_executed parent in
        on_commit b
    end
  else ret tt.

Definition update_nodes b : Txc HighPc :=
  do! on_store (λ s,
        match ref_get (cs_highest_seen s) (block_epoch b) with
        | Some h => if br_height h <? block_height b
                    then (Ok tt, set_highest_seen (block_ref b) s) else (Ok tt, s)
        | None => (Ok tt, set_highest_seen (block_ref b) s)
        end) in
  let! high_qc := on_store (update_highest_pc (b_justify b)) in
  (* b'' *)
  let! justified_node := on_store (blocks_get (justify_block_id b)) in
  (* b' *)
  let! new_locked := on_store (blocks_get (justify_block_id justified_node)) in
  if is_genesis new_locked then ret high_qc else
  let! current_locked := on_store (record_get cs_locked (block_epoch b)) in
  do! if br_height current_locked <? block_height new_locked then
        do! (λ st, on_locked_block_recurse (S (size (cs_blocks st.1))) current_locked new_locked
                     (b_justify justified_node) st) in
        on_store (modify (set_locked (block_ref new_locked)))
      else ret tt in
  (* b *)
  let commit_node := justify_block_id new_locked in
  if N.eqb (block_parent justified_node) (block_id new_locked) &&
     N.eqb (block_parent new_locked) commit_node then
    if N.eqb commit_node 0 then ret high_qc else
    let! prepare_node := on_store (blocks_get commit_node) in
    let! last_executed := on_store (record_get cs_last_executed (block_epoch b)) in
    do! (λ st, on_commit_block_recurse (S (size (cs_blocks st.1))) last_executed prepare_node st) in
    do! on_store (modify (set_last_executed (block_ref prepare_node))) in
    ret high_qc
  else ret high_qc.
End update_nodes.
End store.
