(* ===== verification/HotStuff.v ===== *)
(** * Proposals and votes

    How a validator handles a proposed block: the stateless checks of
    [consensus/src/validations/{common,block}.rs], the validation, storing and
    processing of [hotstuff/on_receive_local_proposal.rs], the chain update and
    the decision to vote of [hotstuff/on_ready_to_vote_on_local_block.rs], and
    the dummy blocks and justified-chain processing of [hotstuff/common.rs].

    The node's state is its [ConsensusStore] with two logs: the votes it has
    sent and the blocks it has committed.  What the handlers do to the
    transaction pool and the substates is outside this model; where it decides
    how they go on (a refusal to vote, an error that rolls the store back) it is
    an argument, the [Environment] of the step, as are the evicted nodes.
    [verify_vote] and [verify_header] are the signature checks of the
    [ValidatorSignatureVerifierService]. *)
From stdpp Require Import base gmap list numbers.
From S2P Require Import Prelude Ids Sharding Committee Blocks BlockStore.
Open Scope Z_scope.

Class Signatures := {
  verify_vote : PublicKeyBytes → BlockId → QuorumDecision → N → bool;
  verify_header : PublicKeyBytes → BlockId → N → bool;
}.

Record HotstuffConfig := MkHotstuffConfig {
  hc_network : N;
  hc_sidechain_id : option PublicKeyBytes;
  hc_num_preshards : NumPreshards;
}.

Record EpochState := MkEpochState {
  es_epoch : Epoch;
  es_epoch_hash : FixedHash;
  es_local_committee : Committee N;
  es_local_committee_info : CommitteeInfo;
}.

(** Why a node does not vote: it has voted at the height, or the commands of the
    block are not what it would propose. *)
Inductive NoVoteReason := AlreadyVotedAtHeight | CommandDisagreement.

Record Environment := MkEnvironment {
  env_decide : ConsensusStore → Block → res HotStuffError (option NoVoteReason);
  env_finalize : Block → res HotStuffError unit;
  env_evidence : Block → res HotStuffError unit;
  env_is_node_evicted : BlockId → PublicKeyBytes → res HotStuffError bool;
  env_foreign_proposals_valid : bool;
  env_is_epoch_end : Block → bool;
}.

Section hotstuff.
Context `{Bh : !BlockHashes} `{Sg : !Signatures}.
Implicit Types (b : Block) (h : BlockHeader) (c : Committee N).

Definition invalid {A : Type} (e : ProposalValidationError) : res HotStuffError A :=
  Err (HsProposalValidationError e).
Definition check (ok : bool) (e : ProposalValidationError) : res HotStuffError unit :=
  if ok then Ok tt else invalid e.

(** ** Stateless validation *)
Definition check_current_epoch b (current_epoch : Epoch) : res HotStuffError unit :=
  check (block_epoch b <=? current_epoch) FutureEpoch.
Definition check_network h (network : N) : res HotStuffError unit :=
  check (N.eqb (bh_network h) network) InvalidNetwork.
Definition check_epoch_hash h (expected_epoch_hash : FixedHash) : res HotStuffError unit :=
  check (N.eqb (bh_epoch_hash h) expected_epoch_hash) InvalidEpochHash.
Definition check_shard_group_matches h (expected : ShardGroup) : res HotStuffError unit :=
  check (bool_decide (bh_shard_group h = expected)) InvalidShardGroup.

Definition check_shard_group_bounds h (n : NumPreshards) : res HotStuffError unit :=
  let? len := match checked_len (bh_shard_group h) with
              | Some len => Ok len
              | None => invalid InvalidShardGroup
              end in
  if (as_u32 n <? sg_start (bh_shard_group h)) || (as_u32 n <? sg_end_inclusive (bh_shard_group h))
  then invalid InvalidShardGroup
  else check (len <=? as_u32 n) InvalidShardGroup.

Definition check_height b : res HotStuffError unit :=
  if block_height b =? 0 then invalid InvalidBlockHeight else
  let? expected := u64_add (max_certificate_height b) 1 in
  check (block_height b =? expected) InvalidBlockHeight.

Definition check_proposed_by_leader c b : res HotStuffError unit :=
  let? view := u64_sub (block_height b) 1 in
  let? leader := get_leader c view in
  check (N.eqb leader.2 (block_proposed_by b)) NotLeader.

Definition check_block_signature h : res HotStuffError unit :=
  if is_genesis_header h then Ok tt else
  match bh_signature h with
  | None => invalid MissingSignature
  | Some signature => check (verify_header (bh_proposed_by h) (bh_id h) signature) InvalidSignature
  end.

(** The loop over the signatures of a certificate, with the keys seen and the
    power counted so far. *)
Fixpoint check_signatures (pc : ProposalCertificate) c (sigs : list ValidatorSignature)
    (check_dups : gset PublicKeyBytes) (total_vote_power : Z) : res HotStuffError Z :=
  match sigs with
  | [] => Ok total_vote_power
  | sig :: sigs =>
      let? power := match get_power_by_public_key c (vs_public_key sig) with
                    | Some power => Ok power
                    | None => invalid ValidatorNotInCommittee
                    end in
      let? total := u64_add total_vote_power power in
      if bool_decide (vs_public_key sig ∈ check_dups) then invalid QcDuplicateSignature else
      if negb (verify_vote (vs_public_key sig) (calculate_block_id pc) (pc_decision pc)
                 (vs_signature sig))
      then invalid QcInvalidSignature
      else check_signatures pc c sigs ({[vs_public_key sig]} ∪ check_dups) total
  end.

Definition check_quorum_certificate_signatures (pc : ProposalCertificate) c :
    res HotStuffError unit :=
  if justifies_zero_block pc then Ok tt else
  let? total_vote_power := check_signatures pc c (pc_signatures pc) ∅ 0 in
  let? threshold := quorum_threshold c in
  check (threshold <=? total_vote_power) QuorumWasNotReached.

Definition check_quorum_certificate b c : res HotStuffError unit :=
  if block_height b <=? pc_height (b_justify b) then invalid CandidateBlockNotHigherThanJustify
  else check_quorum_certificate_signatures (b_justify b) c.

Definition check_sidechain_id h (config : HotstuffConfig) : res HotStuffError unit :=
  if negb (is_genesis_header h) then Ok tt else
  match hc_sidechain_id config with
  | None => Ok tt
  | Some expected =>
      match bh_extra_data h with
      | None => invalid InvalidSidechainId
      | Some sidechain_id => check (N.eqb sidechain_id expected) MismatchedSidechainId
      end
  end.

Definition check_header h (expected_epoch_hash : FixedHash) (config : HotstuffConfig) :
    res HotStuffError unit :=
  let? _ := check_network h (hc_network config) in
  if is_genesis_header h then invalid ProposingGenesisBlock else
  if is_dummy_header h then invalid ProposingDummyBlock else
  let? _ := check_epoch_hash h expected_epoch_hash in
  let? _ := check_shard_group_bounds h (hc_num_preshards config) in
  let? _ := check_block_signature h in
  check_sidechain_id h config.

Definition check_block c b : res HotStuffError unit :=
  let? _ := check_height b in check_proposed_by_leader c b.

Definition check_proposal b c (config : HotstuffConfig) (expected_epoch_hash : FixedHash) :
    res HotStuffError unit :=
  let? _ := check_header (b_header b) expected_epoch_hash config in
  let? _ := check_block c b in
  check_quorum_certificate b c.

Definition check_local_proposal (config : HotstuffConfig) (es : EpochState) b :
    res HotStuffError unit :=
  let? _ := check_proposal b (es_local_committee es) config (es_epoch_hash es) in
  let? _ := check_shard_group_matches (b_header b) (ci_shard_group (es_local_committee_info es)) in
  check_current_epoch b (es_epoch es).

(** ** Dummy blocks

    [with_dummy_blocks] with the callback of [calculate_dummy_blocks]: blocks
    that fill the heights from [from_height] up to [new_height], exclusive, until
    the expected parent turns up.  All carry the candidate's certificate. *)
Fixpoint dummy_loop (fuel : nat) (current new_height : NodeHeight) (network : N) (epoch : Epoch)
    (shard_group : ShardGroup) (parent_block_id : BlockId) (qc : ProposalCertificate)
    (expected_parent : BlockId) (parent_merkle_root : FixedHash) c (parent_timestamp : Z)
    (parent_epoch_hash : FixedHash) : res HotStuffError (list Block) :=
  match fuel with
  | O => Ok []
  | S fuel =>
      let? current := u64_add current 1 in
      if current =? new_height then Ok [] else
      let? leader := get_leader c (current - 1) in
      let header := header_dummy_block network parent_block_id leader.2 current (pc_calculate_id qc)
        epoch shard_group parent_merkle_root parent_timestamp parent_epoch_hash in
      let dummy := block_new header qc [] None in
      if N.eqb (block_id dummy) expected_parent then Ok [dummy] else
      let? rest := dummy_loop fuel current new_height network epoch shard_group (block_id dummy) qc
        expected_parent parent_merkle_root c parent_timestamp parent_epoch_hash in
      Ok (dummy :: rest)
  end.

Definition calculate_dummy_blocks_from_justify (candidate justify_block : Block) c :
    res HotStuffError (list Block) :=
  if block_height candidate <=? block_height justify_block then Ok [] else
  dummy_loop (Z.to_nat (block_height candidate - block_height justify_block))
    (block_height justify_block) (block_height candidate) (bh_network (b_header candidate))
    (block_epoch candidate) (bh_shard_group (b_header candidate)) (block_id justify_block)
    (b_justify candidate) (block_parent candidate) (bh_state_merkle_root (b_header justify_block)) c
    (bh_timestamp (b_header justify_block)) (bh_epoch_hash (b_header justify_block)).

(** ** Validation against the store *)
Record ValidBlock := MkValidBlock {
  vb_block : Block;
  vb_dummy_blocks : list Block;
}.

Definition require (ok : bool) (e : ProposalValidationError) : Tx unit := lift (check ok e).

(** The block the certificate is for; the genesis block stands for the zero
    block. *)
Definition load_justify_block (candidate_block : Block) : Tx Block :=
  if justifies_zero_block (b_justify candidate_block)
  then get_genesis_for_epoch (block_epoch candidate_block)
  else λ s, (match cs_blocks s !! justify_block_id candidate_block with
             | Some b => Ok b
             | None => invalid JustifyBlockNotFound
             end, s).

(** With a timeout certificate, the dummy blocks between the highest block seen
    and the candidate; none when there is no height to fill. *)
Definition candidate_dummy_blocks (candidate_block justify_block : Block) c : Tx (list Block) :=
  match b_timeout_certificate candidate_block with
  | None => ret []
  | Some _ =>
      let! d := lift (u64_sub (block_height candidate_block) (block_height justify_block)) in
      do! lift (u64_sub d 1) in
      let! highest_seen := record_get cs_highest_seen (block_epoch candidate_block) in
      let! highest_seen_block := blocks_get (br_block_id highest_seen) in
      let! dummy_blocks :=
        lift (calculate_dummy_blocks_from_justify candidate_block highest_seen_block c) in
      match list.last dummy_blocks with
      | None => ret []
      | Some last_dummy =>
          do! require (N.eqb (block_parent candidate_block) (block_id last_dummy))
                CandidateBlockDoesNotExtendJustify in
          ret dummy_blocks
      end
  end.

Definition validate_local_proposed_block (current_epoch : Epoch) (candidate_block : Block) c :
    Tx ValidBlock :=
  do! require (negb (block_height candidate_block =? 0)) MalformedBlock in
  do! require (N.eqb (bh_justify_id (b_header candidate_block))
                     (pc_calculate_id (b_justify candidate_block))) MalformedBlock in
  do! require (contains_public_key c (block_proposed_by candidate_block))
        ValidatorNotInCommittee in
  do! require (block_epoch candidate_block =? current_epoch) InvalidEpochInBlock in
  do! require (pc_epoch (b_justify candidate_block) =? current_epoch) InvalidEpochInQc in
  let! justify_block := load_justify_block candidate_block in
  let! parent_exists := blocks_exists (block_parent candidate_block) in
  do! require (negb (justifies_parent candidate_block && negb parent_exists)) ParentNotFound in
  do! require (block_height justify_block =? pc_height (b_justify candidate_block))
        JustifyBlockInvalid in
  do! require (block_height justify_block <=? block_height candidate_block)
        CandidateBlockNotHigherThanJustify in
  let! high_pc := (λ s, (ok_or (high_pc_get s (block_epoch candidate_block))
                               (HsStorageError NotFound), s)) in
  let! dummy_blocks := candidate_dummy_blocks candidate_block justify_block c in
  match dummy_blocks with
  | _ :: _ => ret (MkValidBlock candidate_block dummy_blocks)
  | [] =>
      if N.eqb (hp_block_id high_pc) 0 then ret (MkValidBlock candidate_block [])
      else
        let! safe := is_safe candidate_block in
        do! require safe NotSafeBlock in
        ret (MkValidBlock candidate_block [])
  end.

(** [validate_block]: validation errors discard the proposal, except for an
    unknown justified block, which starts a sync. *)
Definition validate_block (current_epoch : Epoch) b c : Tx (option ValidBlock) :=
  λ s, match validate_local_proposed_block current_epoch b c s with
       | (Ok v, s') => (Ok (Some v), s')
       | (Err (HsProposalValidationError JustifyBlockNotFound), s') =>
           (invalid JustifyBlockNotFound, s')
       | (Err (HsProposalValidationError _), s') => (Ok None, s')
       | (Err e, s') => (Err e, s')
       | (Panic, s') => (Panic, s')
       end.

Definition save_block (v : ValidBlock) : Tx unit :=
  do! pc_save (b_justify (vb_block v)) in
  do! for_each (vb_dummy_blocks v) (λ d, do! block_save d in ret tt) in
  do! block_save (vb_block v) in ret tt.

(** ** Processing *)
Record BlockDecision := MkBlockDecision {
  bd_quorum_decision : option QuorumDecision;
  bd_commit_blocks : list Block;
  bd_high_pc : HighPc;
  bd_new_high_tc : option HighTc;
  bd_no_vote_reason : option NoVoteReason;
}.

(** The chain of newly justified blocks: the ancestors without a justifying
    certificate, nearest first. *)
Fixpoint justified_chain (fuel : nat) (parent_block : Block) : Tx (list Block) :=
  match fuel with
  | O => panic
  | S fuel =>
      let! parent := get_parent parent_block in
      if has_justify_qc parent then ret []
      else let! rest := justified_chain fuel parent in ret (parent :: rest)
  end.

Definition process_newly_justified_block (env : Environment) (new_leaf_block : Block)
    (justify_id : QcId) : Tx (list Block) :=
  if bool_decide (b_justify_qc_id new_leaf_block = Some justify_id) then ret []
  else
    let! blocks_to_process :=
      (λ s, justified_chain (S (size (cs_blocks s))) new_leaf_block s) in
    do! lift (collect (env_evidence env) (reverse blocks_to_process ++ [new_leaf_block])) in
    ret blocks_to_process.

Definition add_justify_qc b (qc_id : QcId) : Tx unit := blocks_set_qcs (block_id b) None (Some qc_id).

(** [should_vote]: only above the height of the last vote in this epoch. *)
Definition should_vote b : Tx bool :=
  λ s, (Ok match ref_get (cs_last_voted s) (block_epoch b) with
           | None => true
           | Some last_voted => br_height last_voted <? block_height b
           end, s).

(** [on_lock_block] and [on_commit], as far as they concern this store. *)
Definition on_lock_block (_ : BlockRef) b (_ : ProposalCertificate) :
    M (ConsensusStore * list Block) HotStuffError unit :=
  on_store (remove_orphaned_blocks b).

Definition on_commit (env : Environment) (block_qc_id : QcId) b :
    M (ConsensusStore * list Block) HotStuffError unit :=
  do! lift (env_finalize env b) in
  do! on_store (blocks_set_qcs (block_id b) (Some block_qc_id) None) in
  let commit_block := set_commit_qc block_qc_id b in
  if is_dummy commit_block then ret tt
  else modify (λ s, (s.1, s.2 ++ [commit_block])).

(** [OnReadyToVoteOnLocalBlock::handle]; the second part of the state is the
    vector [commit_blocks]. *)
Definition ready_to_vote (env : Environment) (v : ValidBlock) :
    M (ConsensusStore * list Block) HotStuffError BlockDecision :=
  let b := vb_block v in
  let block_qc_id := pc_calculate_id (b_justify b) in
  let! maybe_high_tc :=
    match b_timeout_certificate b with
    | Some tc => let! high_tc := on_store (update_highest_tc tc) in ret (Some high_tc)
    | None => ret None
    end in
  let! high_qc := update_nodes on_lock_block (on_commit env block_qc_id) b in
  let! justified_block := on_store (blocks_get (justify_block_id b)) in
  do! if has_justify_qc justified_block then ret tt
      else
        let! processed_blocks :=
          on_store (process_newly_justified_block env justified_block block_qc_id) in
        do! for_each processed_blocks (λ p, on_store (add_justify_qc p block_qc_id)) in
        on_store (add_justify_qc justified_block block_qc_id) in
  let! vote := on_store (should_vote b) in
  let! no_vote :=
    if vote then (λ s, (env_decide env s.1 b, s)) else ret (Some AlreadyVotedAtHeight) in
  let! st := get in
  ret (MkBlockDecision (match no_vote with None => Some QAccept | Some _ => None end) st.2 high_qc
         maybe_high_tc no_vote).

(** ** A validator *)
Record Node := MkNode {
  nd_store : ConsensusStore;
  nd_votes : list (BlockId * QuorumDecision); (* votes sent, latest first *)
  nd_committed : list Block; (* blocks committed, latest first *)
}.

Notation NodeM A := (M Node HotStuffError A).

(** [store.with_write_tx]: an error rolls the transaction back. *)
Definition with_write_tx {A : Type} (m : Tx A) : NodeM A :=
  λ n, match m (nd_store n) with
       | (Ok a, s') => (Ok a, MkNode s' (nd_votes n) (nd_committed n))
       | (r, _) => (r, n)
       end.
Definition with_read_tx {A : Type} (m : Tx A) : NodeM A := λ n, ((m (nd_store n)).1, n).

(** The write transaction of [process_block]; what it commits is logged. *)
Definition run_ready_to_vote (env : Environment) (v : ValidBlock) : NodeM BlockDecision :=
  λ n, match ready_to_vote env v (nd_store n, []) with
       | (Ok d, (s', commits)) => (Ok d, MkNode s' (nd_votes n) (reverse commits ++ nd_committed n))
       | (Err e, _) => (Err e, n)
       | (Panic, _) => (Panic, n)
       end.

(** [send_vote_to_leader] and [send_new_view_and_vote_to_leader]: the message
    leaves the node, then the store records it. *)
Definition send_vote b (decision : QuorumDecision) : NodeM unit :=
  do! modify (λ n, MkNode (nd_store n) ((block_id b, decision) :: nd_votes n) (nd_committed n)) in
  with_write_tx (modify (set_last_sent_vote (block_id b, decision))).

Definition send_new_view_and_vote b (high_pc : HighPc) (decision : QuorumDecision) : NodeM unit :=
  do! if N.eqb (hp_qc_id high_pc) (pc_calculate_id (b_justify b)) then ret tt
      else with_read_tx (λ s, (ok_or ((λ _, tt) <$> cs_certificates s !! (hp_epoch high_pc, hp_qc_id high_pc))
                                     (HsStorageError NotFound), s)) in
  send_vote b decision.

Definition process_block_decision (env : Environment) (es : EpochState) (v : ValidBlock)
    (d : BlockDecision) : NodeM (option NoVoteReason) :=
  let b := vb_block v in
  do! if existsb (env_is_epoch_end env) (bd_commit_blocks d) then ret tt
      else
        match bd_quorum_decision d with
        | None => ret tt
        | Some decision =>
            let! next_leader :=
              match get_leader_for_view (env_is_node_evicted env (block_id b))
                      (length (es_local_committee es)) (es_local_committee es) (block_height b) with
              | Some r => lift r
              | None => panic
              end in
            if nl_vote_to_skip_next next_leader
            then send_new_view_and_vote b (bd_high_pc d) decision
            else
              do! send_vote b decision in
              with_write_tx (modify (set_last_voted (block_ref b)))
        end in
  ret (bd_no_vote_reason d).

(** The read transaction that opens [handle]. *)
Definition validate_new_block (es : EpochState) b : Tx (option ValidBlock) :=
  let! exists_ := blocks_exists (block_id b) in
  if exists_ then ret None
  else validate_block (es_epoch es) b (es_local_committee es).

(** [OnReceiveLocalProposalHandler::handle]. *)
Definition handle_proposal (env : Environment) (es : EpochState) b : NodeM (option NoVoteReason) :=
  let! maybe_valid_block := with_read_tx (validate_new_block es b) in
  match maybe_valid_block with
  | None => ret None
  | Some valid_block =>
      let! valid := with_write_tx
        (if env_foreign_proposals_valid env then do! save_block valid_block in ret true
         else ret false) in
      if negb valid then ret None
      else
        let! decision := run_ready_to_vote env valid_block in
        process_block_decision env es valid_block decision
  end.

(** A proposal from the network: it is decoded, checked against the committee
    and the epoch, and handled. *)
Definition receive_proposal (config : HotstuffConfig) (env : Environment) (es : EpochState) b :
    NodeM (option NoVoteReason) :=
  match decode_block b with
  | None => ret None
  | Some b =>
      match check_local_proposal config es b with
      | Ok _ => handle_proposal env es b
      | Err _ => ret None
      | Panic => panic
      end
  end.
End hotstuff.
