(* ===== verification/Agreement.v ===== *)
(** * Agreement of the three-chain rule

    The argument behind the commit rule of [update_nodes], on a tree of block
    ids with the votes honest validators cast.  The hypotheses are what the
    validators' rules amount to: an honest validator votes at most once at each
    height and in increasing order, keeps a lock on the grandparent certificate
    of what it voted for, and votes only for blocks that extend its lock or
    carry a higher certificate; two quorums share an honest validator; a block
    extends the block its certificate is for.  [HotStuffSafety.v] establishes
    them for the validators of [HotStuff.v]. *)
From stdpp Require Import base gmap list numbers.
From S2P Require Import Prelude.
Open Scope Z_scope.

Section agreement.
Context {Id V : Type}.
Context (known root certified : Id → Prop) (parent justify : Id → Id) (height : Id → Z).
Context (votes : V → list Id). (* latest first *)

(** [anc a x]: [a] is [x] or an ancestor of it. *)
Inductive anc (a : Id) : Id → Prop :=
  | anc_refl : anc a a
  | anc_step x : ¬ root x → anc a (parent x) → anc a x.

Lemma anc_trans a b x : anc a b → anc b x → anc a x.
Proof. intros Hab Hbx. induction Hbx as [|x Hr Hbx IH]; [done|]. by apply anc_step. Qed.

(** The ancestors of a block form a chain. *)
Lemma anc_linear a b x : anc a x → anc b x → anc a b ∨ anc b a.
Proof.
  intros Ha. revert b. induction Ha as [|x Hr Ha IH]; intros b Hb; [by right|].
  inversion Hb as [|y Hr' Hb']; subst.
  - left. by apply anc_step.
  - by apply IH.
Qed.

Hypothesis known_parent :
  ∀ x, known x → ¬ root x → known (parent x) ∧ height x = height (parent x) + 1.
Hypothesis root_height : ∀ x, root x → height x = 0.
Hypothesis height_nonneg : ∀ x, known x → 0 ≤ height x.
Hypothesis known_justify :
  ∀ x, known x → ¬ root x →
    known (justify x) ∧ height (justify x) < height x ∧
    (root (justify x) ∨ certified (justify x) ∧ anc (justify x) x).
Hypothesis voted_known : ∀ v x, x ∈ votes v → known x ∧ ¬ root x.
Hypothesis votes_increase :
  ∀ v l1 x l2 y, votes v = l1 ++ x :: l2 → y ∈ l2 → height y < height x.
Hypothesis votes_safe :
  ∀ v l1 x l2 y, votes v = l1 ++ x :: l2 → y ∈ l2 →
    ∃ l, known l ∧ (root l ∨ certified l) ∧ height (justify (justify y)) ≤ height l ∧
      (root l ∨ (anc l x ∧ l ≠ x) ∨ height l < height (justify x)).
Hypothesis quorums_meet :
  ∀ x y, certified x → certified y → ∃ v, x ∈ votes v ∧ y ∈ votes v.

Lemma anc_known a x : known x → anc a x → known a.
Proof.
  intros Hx Ha. induction Ha as [|x Hr Ha IH]; [done|]. by apply IH, known_parent.
Qed.

Lemma anc_height a x : known x → anc a x → a = x ∨ height a < height x.
Proof.
  intros Hx Ha. induction Ha as [|x Hr Ha IH]; [by left|]. right.
  destruct (known_parent x Hx Hr) as [Hp Hh]. destruct (IH Hp) as [->|?]; lia.
Qed.

(** At most one block is certified at each height. *)
Lemma certified_unique x y :
  certified x → certified y → height x = height y → x = y.
Proof.
  intros Hx Hy Hh. destruct (quorums_meet x y Hx Hy) as (v & Hvx & Hvy).
  apply list_elem_of_split in Hvx as (l1 & l2 & Hv).
  rewrite Hv in Hvy. apply elem_of_app in Hvy as [Hin|[->|Hin]%elem_of_cons]; [|done|].
  - apply list_elem_of_split in Hin as (k1 & k2 & ->). rewrite <- app_assoc in Hv. simpl in Hv.
    assert (height x < height y); [|lia].
    eapply votes_increase; [exact Hv|]. apply elem_of_app. right. by left.
  - assert (height y < height x); [|lia]. by eapply votes_increase.
Qed.

(** Two honest votes of one validator are cast in the order of their heights. *)
Lemma voted_before v x y :
  x ∈ votes v → y ∈ votes v → height y < height x →
  ∃ l1 l2, votes v = l1 ++ x :: l2 ∧ y ∈ l2.
Proof.
  intros Hvx Hvy Hh. apply list_elem_of_split in Hvx as (l1 & l2 & Hv). exists l1, l2.
  split; [done|]. rewrite Hv in Hvy.
  apply elem_of_app in Hvy as [Hin|[->|Hin]%elem_of_cons]; [|lia|done].
  apply list_elem_of_split in Hin as (k1 & k2 & ->). rewrite <- app_assoc in Hv. simpl in Hv.
  assert (height x < height y); [|lia].
  eapply votes_increase; [exact Hv|]. apply elem_of_app. right. by left.
Qed.

(** A block that the three-chain rule commits. *)
Definition three_chain (b : Id) : Prop :=
  known b ∧ certified b ∧
  ∃ b1 b2, known b1 ∧ ¬ root b1 ∧ parent b1 = b ∧ justify b1 = b ∧
    known b2 ∧ ¬ root b2 ∧ parent b2 = b1 ∧ justify b2 = b1 ∧ certified b2.

(** Every certified block at or above the height of a committed block extends it. *)
Lemma certified_extends_committed b w :
  three_chain b → known w → certified w → height b ≤ height w → anc b w.
Proof.
  intros (Hb & Hc & b1 & b2 & Hb1 & Hr1 & Hp1 & Hj1 & Hb2 & Hr2 & Hp2 & Hj2 & Hc2).
  assert (¬ root b) as Hrb by (destruct (quorums_meet b b Hc Hc) as (v & Hv & _); by eapply voted_known).
  assert (0 < height b) as Hpos.
  { destruct (known_parent b Hb Hrb) as [Hk ?]. pose proof (height_nonneg _ Hk). lia. }
  destruct (known_parent b1 Hb1 Hr1) as [_ Hh1]. rewrite Hp1 in Hh1.
  destruct (known_parent b2 Hb2 Hr2) as [_ Hh2]. rewrite Hp2 in Hh2.
  assert (certified b1) as Hc1.
  { destruct (known_justify b2 Hb2 Hr2) as (_ & _ & [Hr|[Hc' _]]); rewrite Hj2 in *; done. }
  remember (height w) as n eqn:Hn. revert w Hn.
  induction (Z.lt_wf 0 n) as [n _ IH]. intros w -> Hw Hcw Hge.
  destruct (decide (height w ≤ height b + 2)) as [Hle|Hgt].
  { assert (height w = height b ∨ height w = height b1 ∨ height w = height b2)
      as [He|[He|He]] by lia.
    - rewrite (certified_unique w b) by done. apply anc_refl.
    - rewrite (certified_unique w b1) by done. apply anc_step; [done|]. rewrite Hp1. apply anc_refl.
    - rewrite (certified_unique w b2) by done. apply anc_step; [done|]. rewrite Hp2.
      apply anc_step; [done|]. rewrite Hp1. apply anc_refl. }
  destruct (quorums_meet w b2 Hcw Hc2) as (v & Hvw & Hv2).
  destruct (voted_before v w b2 Hvw Hv2) as (l1 & l2 & Hv & Hin); [lia|].
  destruct (votes_safe v l1 w l2 b2 Hv Hin) as (l & Hl & Hcl & Hlh & Hs).
  rewrite Hj2, Hj1 in Hlh.
  destruct (voted_known v w Hvw) as [_ Hrw].
  assert (¬ root l) as Hrl by (intros Hr; apply root_height in Hr; lia).
  destruct Hcl as [?|Hcl]; [done|]. destruct Hs as [?|[[Hlw Hne]|Hlj]]; [done| |].
  - destruct (anc_height l w Hw Hlw) as [?|Hlt]; [done|].
    eapply anc_trans; [|exact Hlw]. apply (IH (height l)); [lia..|done|done|done|lia].
  - destruct (known_justify w Hw Hrw) as (Hkj & Hlt & [Hr|[Hcj Haj]]).
    { apply root_height in Hr. lia. }
    eapply anc_trans; [|exact Haj]. apply (IH (height (justify w))); [lia..|done|done|done|lia].
Qed.

(** No two committed blocks conflict, and neither do their ancestors. *)
Lemma three_chains_agree b c x y :
  three_chain b → three_chain c → anc x b → anc y c → anc x y ∨ anc y x.
Proof.
  intros Hb Hc Hx Hy.
  pose proof Hb as (Hkb & Hcb & _). pose proof Hc as (Hkc & Hcc & _).
  destruct (decide (height b ≤ height c)).
  - eapply anc_linear; [|exact Hy]. eapply anc_trans; [exact Hx|].
    by apply certified_extends_committed.
  - eapply anc_linear; [exact Hx|]. eapply anc_trans; [exact Hy|].
    apply certified_extends_committed; [done..|lia].
Qed.
End agreement.
