(* ===== verification/BlockStoreProps.v ===== *)
(** * Properties of the block store

    What the operations of [BlockStore.v] can change: apart from saving blocks,
    they only drop blocks or mark them as justified or committed, and each
    touches only its own record.  Walking the chain of parents visits
    ancestors. *)
From stdpp Require Import base gmap list numbers.
From S2P Require Import Prelude Ids Sharding Committee Blocks BlockStore HotStuff.
Open Scope Z_scope.

(** A stored block is another with its certificate marks changed. *)
Definition same_content (b b' : Block) : Prop := b_header b' = b_header b ∧ b_justify b' = b_justify b.

Record shrinks (s s' : ConsensusStore) : Prop := {
  sh_blocks x b' :
    cs_blocks s' !! x = Some b' → ∃ b, cs_blocks s !! x = Some b ∧ same_content b b';
  sh_pending x p : cs_pending s' !! x = Some p → cs_pending s !! x = Some p;
  sh_high_pc : cs_high_pc s' = cs_high_pc s;
  sh_locked : cs_locked s' = cs_locked s;
  sh_last_executed : cs_last_executed s' = cs_last_executed s;
  sh_last_voted : cs_last_voted s' = cs_last_voted s;
}.

#[export] Instance same_content_preorder : PreOrder same_content.
Proof. split; [done|]. intros x y z [H1 H2] [H3 H4]. split; congruence. Qed.

#[export] Instance shrinks_preorder : PreOrder shrinks.
Proof.
  split.
  - intros s. split; [|done..]. intros x b H. by exists b.
  - intros s1 s2 s3 H12 H23. split.
    + intros x b3 (b2 & H2 & Hc)%(sh_blocks _ _ H23).
      apply (sh_blocks _ _ H12) in H2 as (b1 & H1 & Hc'). exists b1. split; [done|]. by transitivity b2.
    + intros x p H. by apply (sh_pending _ _ H12), (sh_pending _ _ H23).
    + by rewrite (sh_high_pc _ _ H23), (sh_high_pc _ _ H12).
    + by rewrite (sh_locked _ _ H23), (sh_locked _ _ H12).
    + by rewrite (sh_last_executed _ _ H23), (sh_last_executed _ _ H12).
    + by rewrite (sh_last_voted _ _ H23), (sh_last_voted _ _ H12).
Qed.

Section props.
Context `{Bh : !BlockHashes} `{Sg : !Signatures}.
Implicit Types (b : Block) (s : ConsensusStore).

(** The side conditions of the updates that leave blocks and index alone. *)
Ltac same_store := split; [intros ?? ?; by eexists|done..].

Lemma set_certificates_shrinks m s : shrinks s (set_certificates m s).
Proof. same_store. Qed.
Lemma set_timeout_certificates_shrinks m s : shrinks s (set_timeout_certificates m s).
Proof. same_store. Qed.
Lemma set_high_tc_shrinks m s : shrinks s (set_high_tc m s).
Proof. same_store. Qed.
Lemma set_highest_seen_shrinks m s : shrinks s (set_highest_seen m s).
Proof. same_store. Qed.
Lemma set_leaf_shrinks m s : shrinks s (set_leaf m s).
Proof. same_store. Qed.
Lemma set_last_sent_vote_shrinks m s : shrinks s (set_last_sent_vote m s).
Proof. same_store. Qed.
Lemma set_last_sent_new_view_shrinks m s : shrinks s (set_last_sent_new_view m s).
Proof. same_store. Qed.
Lemma delete_pending_shrinks x s : shrinks s (set_pending (delete x (cs_pending s)) s).
Proof.
  split; [intros ?? ?; by eexists| |done..].
  intros y p. simpl. rewrite lookup_delete_Some. by intros [_ ?].
Qed.
Lemma delete_block_shrinks x s : shrinks s (set_blocks (delete x (cs_blocks s)) s).
Proof.
  split; [|done..]. intros y b'. simpl. rewrite lookup_delete_Some. intros [_ ?]. by exists b'.
Qed.
Lemma replace_block_shrinks x b b' s :
  cs_blocks s !! x = Some b → same_content b b' → shrinks s (set_blocks (<[x := b']> (cs_blocks s)) s).
Proof.
  intros Hx Hc. split; [|done..]. intros y b2. simpl. destruct (decide (x = y)) as [<-|Hne].
  - rewrite lookup_insert_eq. intros [= <-]. by exists b.
  - rewrite lookup_insert_ne by done. intros ?. by exists b2.
Qed.

Lemma blocks_get_follows x : follows shrinks (blocks_get x).
Proof. apply follows_read. apply _. Qed.
Lemma blocks_exists_follows x : follows shrinks (blocks_exists x).
Proof. by intros s r s' [= _ <-] _. Qed.
Lemma record_get_follows f e : follows shrinks (record_get f e).
Proof. by intros s r s' [= _ <-] _. Qed.
Lemma ids_by_height_follows e h : follows shrinks (blocks_get_all_ids_by_height e h).
Proof. by intros s r s' [= _ <-] _. Qed.
Lemma ids_by_parent_follows x : follows shrinks (blocks_get_pending_ids_by_parent x).
Proof. by intros s r s' [= _ <-] _. Qed.
#[local] Hint Resolve blocks_get_follows blocks_exists_follows record_get_follows
  ids_by_height_follows ids_by_parent_follows : steps.

Lemma get_parent_follows b : follows shrinks (get_parent b).
Proof. unfold get_parent. follow. Qed.
Lemma modify_follows f : (∀ s, shrinks s (f s)) → follows shrinks (modify (E := HotStuffError) f).
Proof. apply follows_modify. Qed.

Lemma blocks_set_qcs_follows x q1 q2 : follows shrinks (blocks_set_qcs x q1 q2).
Proof.
  intros s r s' H Hp. unfold blocks_set_qcs in H.
  destruct q1 as [q1|], q2 as [q2|]; [..|by inversion H].
  all: unfold bind, blocks_get in H; destruct (cs_blocks s !! x) as [b|] eqn:Hx; simpl in H;
    inversion H; subst; try done.
  - transitivity (set_pending (delete x (cs_pending s)) s); [apply delete_pending_shrinks|].
    eapply (replace_block_shrinks x b (set_justify_qc q2 (set_commit_qc q1 b))
      (set_pending (delete x (cs_pending s)) s)); [exact Hx|done].
  - transitivity (set_pending (delete x (cs_pending s)) s); [apply delete_pending_shrinks|].
    eapply (replace_block_shrinks x b (set_commit_qc q1 b)
      (set_pending (delete x (cs_pending s)) s)); [exact Hx|done].
  - eapply (replace_block_shrinks x b (set_justify_qc q2 b)); [exact Hx|done].
Qed.

Lemma blocks_delete_follows x : follows shrinks (blocks_delete x).
Proof.
  unfold blocks_delete. follow.
  - apply modify_follows, delete_block_shrinks.
  - apply modify_follows. intros. apply delete_pending_shrinks.
Qed.
#[local] Hint Resolve get_parent_follows blocks_set_qcs_follows blocks_delete_follows : steps.

Lemma delete_orphaned_follows fuel x : follows shrinks (delete_orphaned_block_and_children fuel x).
Proof. revert x. induction fuel as [|fuel IH]; intros x; simpl; follow. Qed.
#[local] Hint Resolve delete_orphaned_follows : steps.

Lemma remove_orphaned_follows b : follows shrinks (remove_orphaned_blocks b).
Proof.
  unfold remove_orphaned_blocks. follow.
  apply (follows_at shrinks (λ s, delete_orphaned_block_and_children (S (size (cs_pending s))) _)).
  intros. apply delete_orphaned_follows.
Qed.

Lemma pc_save_follows pc : follows shrinks (pc_save pc).
Proof. apply modify_follows. intros. apply set_certificates_shrinks. Qed.
Lemma tc_save_follows tc : follows shrinks (tc_save tc).
Proof. apply modify_follows. intros. apply set_timeout_certificates_shrinks. Qed.
#[local] Hint Resolve remove_orphaned_follows pc_save_follows tc_save_follows : steps.

Lemma update_highest_tc_follows tc : follows shrinks (update_highest_tc tc).
Proof.
  assert (follows shrinks (do! tc_save tc in do! modify (set_high_tc (as_high_tc tc)) in
    ret (E := HotStuffError) (as_high_tc tc))) as Hnew.
  { follow. apply modify_follows. intros. apply set_high_tc_shrinks. }
  intros s r s' H Hp. unfold update_highest_tc in H.
  destruct (high_tc_get s (tc_epoch tc)) as [h|]; [destruct (_ <=? _); [by inversion H|]|];
    by eapply Hnew.
Qed.
#[local] Hint Resolve update_highest_tc_follows : steps.

Lemma add_justify_qc_follows b q : follows shrinks (add_justify_qc b q).
Proof. apply blocks_set_qcs_follows. Qed.
#[local] Hint Resolve add_justify_qc_follows : steps.

Lemma justified_chain_follows fuel b : follows shrinks (justified_chain fuel b).
Proof. revert b. induction fuel as [|fuel IH]; intros b; simpl; follow. Qed.

Lemma process_newly_justified_follows env b q :
  follows shrinks (process_newly_justified_block env b q).
Proof.
  unfold process_newly_justified_block. follow.
  apply (follows_at shrinks (λ s, justified_chain (S (size (cs_blocks s))) b)).
  intros. apply justified_chain_follows.
Qed.

Lemma should_vote_follows b : follows shrinks (should_vote b).
Proof. by intros s r s' [= _ <-] _. Qed.
End props.
