(* ===== verification/NodeInvariant.v ===== *)
(** * What a validator keeps true

    The invariant of a validator that handles proposals in one epoch, relative
    to the tree of all blocks that honest validators accept: its store holds
    blocks of the tree, its lock is the root or a certified block and only
    moves up, it votes at increasing heights for blocks that are safe with
    respect to its lock, and every block it commits is an ancestor of the head
    of a three-chain. *)
From stdpp Require Import base gmap list numbers.
From S2P Require Import Prelude Ids Sharding Committee Blocks BlockStore HotStuff Agreement BlockStoreProps.
Open Scope Z_scope.

#[local] Arguments blocks_set_qcs : simpl never.
#[local] Arguments blocks_get : simpl never.
#[local] Arguments get_parent : simpl never.
#[local] Arguments update_highest_pc : simpl never.
#[local] Arguments record_get : simpl never.

Section invariant.
Context `{Bh : !BlockHashes} `{Bl : !BlockHashLaws} `{Sg : !Signatures}.
Context (es : EpochState) (gid : BlockId).
Context (known : BlockId → Prop) (parent justify : BlockId → BlockId) (height : BlockId → Z).
Implicit Types (b : Block) (s : ConsensusStore) (x y : BlockId).

Definition root x : Prop := x = 0%N ∨ x = gid.
Definition certified x : Prop :=
  ∃ pc, calculate_block_id pc = x ∧ justifies_zero_block pc = false ∧
    check_quorum_certificate_signatures pc (es_local_committee es) = Ok tt.
Notation anc := (anc root parent).
Notation three_chain := (three_chain known root certified parent justify).

(** A block of the tree. *)
Definition agrees b : Prop :=
  known (block_id b) ∧ parent (block_id b) = block_parent b ∧
  justify (block_id b) = justify_block_id b ∧ height (block_id b) = block_height b.

(** A block below the head of a three-chain. *)
Definition committed_ok b : Prop := agrees b ∧ ∃ head, three_chain head ∧ anc (block_id b) head.

Hypothesis known_parent :
  ∀ x, known x → ¬ root x → known (parent x) ∧ height x = height (parent x) + 1.
Hypothesis root_height : ∀ x, root x → height x = 0.
Hypothesis root_parent : ∀ x, root x → parent x = 0%N.
Hypothesis root_justify : ∀ x, root x → justify x = 0%N.
Hypothesis height_nonneg : ∀ x, known x → 0 ≤ height x.
Hypothesis known_justify :
  ∀ x, known x → ¬ root x →
    known (justify x) ∧ height (justify x) < height x ∧
    (justify x = 0%N ∨ certified (justify x) ∧ anc (justify x) x).

Lemma known_positive x : known x → ¬ root x → 0 < height x.
Proof. intros Hx Hr. destruct (known_parent x Hx Hr) as [Hp ->]. pose proof (height_nonneg _ Hp). lia. Qed.

Lemma zero_height_root x : known x → height x ≤ 0 → root x.
Proof.
  intros Hx Hh. destruct (decide (x = 0%N)); [by left|]. destruct (decide (x = gid)); [by right|].
  assert (0 < height x); [|lia]. apply known_positive; [done|]. by intros [?|?].
Qed.

(** ** The store *)
Record store_ok s : Prop := {
  so_blocks x b : cs_blocks s !! x = Some b →
    block_id b = x ∧ agrees b ∧ (x ≠ 0%N → block_epoch b = es_epoch es);
  so_pending x p : cs_pending s !! x = Some p → known x ∧ parent x = p;
  so_locked : ∃ l, cs_locked s = Some l ∧ br_epoch l = es_epoch es ∧ known (br_block_id l) ∧
    height (br_block_id l) = br_height l ∧ (root (br_block_id l) ∨ certified (br_block_id l));
  so_high_pc : ∃ hp, cs_high_pc s = Some hp ∧ hp_epoch hp = es_epoch es ∧
    0 ≤ hp_block_height hp ∧
    (hp_block_id hp = 0%N →
     hp_block_height hp = 0 ∧ ∃ l, cs_locked s = Some l ∧ br_block_id l = gid);
  so_executed : ∃ le, cs_last_executed s = Some le ∧ br_epoch le = es_epoch es ∧ 0 ≤ br_height le;
  so_voted : ∃ lv, cs_last_voted s = Some lv ∧ br_epoch lv = es_epoch es;
}.

Lemma shrinks_ok s s' : shrinks s s' → store_ok s → store_ok s'.
Proof.
  intros Hs H. split.
  - intros x b' (b & Hb & Hh & Hj)%(sh_blocks _ _ Hs).
    apply (so_blocks _ H) in Hb. unfold agrees, block_id, block_parent, justify_block_id,
      block_height, block_epoch in *. by rewrite Hh, Hj.
  - intros x p Hx. by apply (so_pending _ H), (sh_pending _ _ Hs).
  - rewrite (sh_locked _ _ Hs). apply H.
  - rewrite (sh_high_pc _ _ Hs), (sh_locked _ _ Hs). apply H.
  - rewrite (sh_last_executed _ _ Hs). apply H.
  - rewrite (sh_last_voted _ _ Hs). apply H.
Qed.

Lemma follows_ok {A : Type} (m : Tx A) s a s' :
  follows shrinks m → m s = (Ok a, s') → store_ok s → store_ok s'.
Proof. intros Hm H. apply shrinks_ok. by eapply Hm. Qed.

(** The height of the lock. *)
Definition lock_height s : Z := match cs_locked s with Some l => br_height l | None => 0 end.

Lemma get_block s x b s' :
  store_ok s → blocks_get x s = (Ok b, s') → 
  s' = s ∧ block_id b = x ∧ agrees b ∧ (x ≠ 0%N → block_epoch b = es_epoch es).
Proof.
  intros H. unfold blocks_get. intros [= Hb <-]. apply ok_or_Ok in Hb.
  apply (so_blocks _ H) in Hb. done.
Qed.

Lemma update_highest_ok pc s hp s' :
  store_ok s → pc_epoch pc = es_epoch es → 0 ≤ pc_height pc →
  (calculate_block_id pc = 0%N → pc_height pc = 0) →
  update_highest_pc pc s = (Ok hp, s') →
  store_ok s' ∧ cs_locked s' = cs_locked s ∧ cs_last_voted s' = cs_last_voted s ∧
  ∃ hp', cs_high_pc s' = Some hp' ∧ pc_height pc ≤ hp_block_height hp'.
Proof.
  intros H He Hh Hz. destruct (so_high_pc _ H) as (hp0 & Hhp & Hep & Hnn & Hzero).
  unfold update_highest_pc, high_pc_get. rewrite Hhp, Hep, He, Z.eqb_refl.
  destruct (Z.leb_spec (pc_height pc) (hp_block_height hp0)) as [Hle|Hgt]; intros [= _ <-].
  - split; [|split_and!; [done..|by exists hp0]].
    eapply shrinks_ok; [apply set_last_sent_new_view_shrinks|done].
  - split; [|split_and!; [done..|]; eexists; split; [done|]; simpl; lia].
    split; [apply H..| |apply H|apply H]. simpl. eexists. split; [done|]. simpl. split_and!; [done..|].
    intros Hpz. specialize (Hz Hpz). lia.
Qed.

Lemma set_locked_ok b s :
  store_ok s → agrees b → block_epoch b = es_epoch es →
  (root (block_id b) ∨ certified (block_id b)) →
  (∀ hp, cs_high_pc s = Some hp → hp_block_id hp ≠ 0%N) →
  store_ok (set_locked (block_ref b) s).
Proof.
  intros H (Hk & _ & _ & Hh) He Hc Hhp. split; [apply H|apply H| | |apply H|apply H].
  - eexists. split; [done|]. done.
  - destruct (so_high_pc _ H) as (hp & E & ? & ? & _). exists hp. split_and!; [done..|].
    intros Hz. by apply Hhp in Hz.
Qed.

Lemma set_last_executed_ok b s :
  store_ok s → agrees b → block_epoch b = es_epoch es →
  store_ok (set_last_executed (block_ref b) s).
Proof.
  intros H (Hk & _ & _ & Hh) He. split; [apply H|apply H|apply H|apply H| |apply H].
  eexists. split; [done|]. simpl. split; [done|]. rewrite <- Hh. by apply height_nonneg.
Qed.

(** ** The chain update *)
Definition shrinks_fst (st st' : ConsensusStore * list Block) : Prop :=
  shrinks st.1 st'.1 ∧ st'.2 = st.2.
#[local] Instance shrinks_fst_preorder : PreOrder shrinks_fst.
Proof.
  split; [done|]. intros s1 s2 s3 [H12 E12] [H23 E23]. split; [by transitivity s2.1|congruence].
Qed.

Lemma on_store_follows {A : Type} (m : Tx A) :
  follows shrinks m → follows shrinks_fst (on_store (C := list Block) m).
Proof.
  intros Hm [s c] r st' H Hp. unfold on_store, zoom in H. simpl in H.
  destruct (m s) as [q t] eqn:E. inversion H; subst. split; [|done]. simpl. by eapply Hm.
Qed.

Lemma on_locked_follows fuel locked b pc :
  follows shrinks_fst (on_locked_block_recurse on_lock_block fuel locked b pc).
Proof.
  revert b pc. induction fuel as [|fuel IH]; intros b pc; simpl; follow.
  - apply on_store_follows, get_parent_follows.
  - apply on_store_follows, remove_orphaned_follows.
Qed.

(** A commit marks the block and appends it to the committed blocks, unless it
    is a dummy. *)
Lemma on_commit_spec env q b st u st' :
  on_commit env q b st = (Ok u, st') →
  shrinks st.1 st'.1 ∧ ∃ cs, st'.2 = st.2 ++ cs ∧ ∀ c, c ∈ cs → same_content b c.
Proof.
  unfold on_commit, on_store. intros H. inv_ok.
  match goal with H : blocks_set_qcs _ _ _ _ = (Ok _, _) |- _ =>
    pose proof (blocks_set_qcs_follows _ _ _ _ _ _ H ltac:(done)) as Hsh end.
  destruct (is_dummy _); inv_ok; simpl.
  - split; [done|]. exists []. rewrite app_nil_r. split; [done|]. by intros c ?%elem_of_nil.
  - split; [done|]. eexists. split; [done|]. intros c ->%list_elem_of_singleton. done.
Qed.

Lemma on_commit_recurse_spec env q fuel le b st u st' :
  0 ≤ br_height le → store_ok st.1 → agrees b →
  on_commit_block_recurse (on_commit env q) fuel le b st = (Ok u, st') →
  shrinks st.1 st'.1 ∧ ∃ cs, st'.2 = st.2 ++ cs ∧ ∀ c, c ∈ cs → agrees c ∧ anc (block_id c) (block_id b).
Proof.
  intros Hle. revert b st u st'. induction fuel as [|fuel IH]; intros b st u st' Hok Hb; simpl;
    destruct (Z.ltb_spec (br_height le) (block_height b)) as [Hlt|Hge]; intros H; inv_ok.
  - split; [done|]. exists []. rewrite app_nil_r. split; [done|]. by intros c ?%elem_of_nil.
  - unfold on_store in *. inv_ok.
    match goal with H : get_parent b _ = (Ok ?p, ?t) |- _ => rename H into Hp; rename p into par end.
    assert (¬ root (block_id b)) as Hnr.
    { intros Hr%root_height. destruct Hb as (_ & _ & _ & Hh). lia. }
    unfold get_parent in Hp. destruct (_ && _); [done|].
    apply get_block in Hp as (-> & Hid & Hpar & _); [|done].
    match goal with H : on_commit_block_recurse _ _ _ _ _ = _ |- _ => apply IH in H as (Hs1 & cs1 & E1 & A1) end;
      [|done|done].
    match goal with H : on_commit _ _ _ _ = _ |- _ => apply on_commit_spec in H as (Hs2 & cs2 & E2 & A2) end.
    simpl in *. split; [by etransitivity|]. exists (cs1 ++ cs2). split; [by rewrite E2, E1, app_assoc|].
    intros c [Hc|Hc]%elem_of_app.
    + destruct (A1 c Hc) as [? Ha]. split; [done|]. apply anc_step; [done|].
      destruct Hb as (_ & -> & _). by rewrite <- Hid.
    + destruct (A2 c Hc) as [Hhd Hju]. unfold agrees, block_id, block_parent, block_height,
        justify_block_id in *. rewrite Hhd, Hju. split; [done|apply anc_refl].
  - split; [done|]. exists []. rewrite app_nil_r. split; [done|]. by intros c ?%elem_of_nil.
Qed.

Lemma lock_height_of s : store_ok s →
  ∃ l, cs_locked s = Some l ∧ lock_height s = br_height l ∧ br_epoch l = es_epoch es ∧ 0 ≤ br_height l.
Proof.
  intros H. destruct (so_locked _ H) as (l & Hl & He & Hk & Hh & _). exists l. unfold lock_height.
  rewrite Hl. split_and!; [done..|]. rewrite <- Hh. by apply height_nonneg.
Qed.

Lemma record_get_Ok f e s r s' :
  record_get f e s = (Ok r, s') → s' = s ∧ f s = Some r ∧ br_epoch r = e.
Proof.
  unfold record_get, ref_get. destruct (f s) as [l|]; [|done].
  destruct (Z.eqb_spec (br_epoch l) e); [|done]. by intros [= -> <-].
Qed.

(** The blocks [b''], [b'] and [b] of the commit rule. *)
Lemma three_chain_intro b2 b1 :
  agrees b2 → agrees b1 → justify (block_id b2) = block_id b1 →
  (block_id b2 = 0%N ∨ certified (block_id b2)) →
  block_parent b2 = block_id b1 → block_parent b1 = justify_block_id b1 →
  justify_block_id b1 ≠ 0%N → three_chain (justify_block_id b1).
Proof.
  intros (Hk2 & Hp2 & Hj2 & _) (Hk1 & Hp1 & Hj1 & _) Hj Hc2 Hpar2 Hpar1 Hnz.
  assert (¬ root (block_id b1)) as Hr1.
  { intros Hr%root_justify. by rewrite Hj1 in Hr. }
  assert (¬ root (block_id b2)) as Hr2.
  { intros Hr%root_justify. rewrite Hj in Hr. apply Hr1. by left. }
  destruct (known_justify _ Hk1 Hr1) as (Hkj & _ & [Hz|[Hcj _]]); rewrite Hj1 in *; [done|].
  split; [done|]. split; [done|]. exists (block_id b1), (block_id b2).
  split_and!; try done; [congruence..|]. destruct Hc2 as [Hz|?]; [|done]. by destruct Hr2; left.
Qed.

#[local] Arguments on_locked_block_recurse : simpl never.
#[local] Arguments on_commit_block_recurse : simpl never.

(** The lock moves up to [b']. *)
Lemma lock_stage_ok cl b1 pc st u st' :
  store_ok st.1 → cs_locked st.1 = Some cl → agrees b1 →
  (block_id b1 ≠ 0%N → block_epoch b1 = es_epoch es) →
  (block_id b1 = 0%N ∨ certified (block_id b1)) →
  (0 < block_height b1 → ∀ hp, cs_high_pc st.1 = Some hp → hp_block_id hp ≠ 0%N) →
  (if br_height cl <? block_height b1 then
     do! (λ st, on_locked_block_recurse on_lock_block (S (size (cs_blocks st.1))) cl b1 pc st) in
     on_store (modify (set_locked (block_ref b1)))
   else ret tt) st = (Ok u, st') →
  store_ok st'.1 ∧ cs_last_voted st'.1 = cs_last_voted st.1 ∧ lock_height st.1 ≤ lock_height st'.1 ∧
  block_height b1 ≤ lock_height st'.1 ∧ st'.2 = st.2.
Proof.
  intros Hok Hcl Hb1 He1 Hc1 Hhp H.
  destruct (lock_height_of _ Hok) as (l & Hl & Hlh & _ & Hnn). rewrite Hcl in Hl. simplify_eq.
  destruct (Z.ltb_spec (br_height l) (block_height b1)) as [Hlt|Hge]; inv_ok.
  - unfold on_store in *. inv_ok.
    match goal with H : on_locked_block_recurse _ _ _ _ _ _ = _ |- _ =>
      destruct (on_locked_follows _ _ _ _ _ _ _ H ltac:(done)) as [Hsh Hc] end.
    assert (block_id b1 ≠ 0%N) as Hnz.
    { intros Hz. destruct Hb1 as (_ & _ & _ & Hh). rewrite root_height in Hh by (by left). lia. }
    simpl. split_and!; [|by rewrite (sh_last_voted _ _ Hsh)|unfold lock_height at 2; simpl; lia
      |unfold lock_height; simpl; lia|done].
    apply set_locked_ok; [by eapply shrinks_ok|done|by apply He1| |].
    + destruct Hc1; [by left; left|by right].
    + rewrite (sh_high_pc _ _ Hsh). apply Hhp. lia.
  - split_and!; [done|done|lia|lia|done].
Qed.

(** The three-chain rule commits [b] and its ancestors. *)
Lemma commit_stage_ok env q (hq hp : HighPc) b b1 b2 st st' :
  store_ok st.1 → block_epoch b = es_epoch es →
  agrees b2 → agrees b1 → justify (block_id b2) = block_id b1 →
  (block_id b2 = 0%N ∨ certified (block_id b2)) →
  (if N.eqb (block_parent b2) (block_id b1) && N.eqb (block_parent b1) (justify_block_id b1) then
     if N.eqb (justify_block_id b1) 0 then ret hq else
     let! prepare_node := on_store (blocks_get (justify_block_id b1)) in
     let! last_executed := on_store (record_get cs_last_executed (block_epoch b)) in
     do! (λ st, on_commit_block_recurse (on_commit env q) (S (size (cs_blocks st.1))) last_executed
                  prepare_node st) in
     do! on_store (modify (set_last_executed (block_ref prepare_node))) in
     ret hq
   else ret hq) st = (Ok hp, st') →
  store_ok st'.1 ∧ cs_last_voted st'.1 = cs_last_voted st.1 ∧ lock_height st'.1 = lock_height st.1 ∧
  ∃ cs, st'.2 = st.2 ++ cs ∧ ∀ c, c ∈ cs → committed_ok c.
Proof.
  intros Hok He Hb2 Hb1 Hj Hc2 H.
  assert (∀ st : ConsensusStore * list Block, ∃ cs, st.2 = st.2 ++ cs ∧
    ∀ c, c ∈ cs → committed_ok c) as Hnone.
  { intros s0. exists []. rewrite app_nil_r. split; [done|]. by intros c ?%elem_of_nil. }
  destruct (N.eqb_spec (block_parent b2) (block_id b1)) as [Hp2|]; simpl in H; [|inv_ok; auto].
  destruct (N.eqb_spec (block_parent b1) (justify_block_id b1)) as [Hp1|]; [|inv_ok; auto].
  destruct (N.eqb_spec (justify_block_id b1) 0) as [|Hnz]; [inv_ok; auto|].
  unfold on_store in H. inv_ok.
  match goal with H : blocks_get _ _ = _ |- _ => apply get_block in H as (-> & Hid & Hpn & Hpe); [|done] end.
  match goal with H : record_get _ _ _ = _ |- _ => apply record_get_Ok in H as (-> & Hle & _) end.
  destruct (so_executed _ Hok) as (le & Hle' & _ & Hnn). rewrite Hle in Hle'. simplify_eq.
  match goal with H : on_commit_block_recurse _ _ _ _ _ = _ |- _ =>
    apply on_commit_recurse_spec in H as (Hsh & cs & Hcs & Hanc); [|done..] end.
  simpl in *. split_and!.
  - apply set_last_executed_ok; [by eapply shrinks_ok|done|by apply Hpe].
  - apply (sh_last_voted _ _ Hsh).
  - unfold lock_height. simpl. by rewrite (sh_locked _ _ Hsh).
  - exists cs. split; [done|]. intros c Hc. destruct (Hanc c Hc) as [? Ha]. split; [done|].
    exists (justify_block_id b1). split; [by apply (three_chain_intro b2 b1)|]. by rewrite <- Hid.
Qed.

Lemma highest_seen_ok b s u s' :
  match ref_get (cs_highest_seen s) (block_epoch b) with
  | Some h => if br_height h <? block_height b
              then (Ok (E := HotStuffError) tt, set_highest_seen (block_ref b) s) else (Ok tt, s)
  | None => (Ok tt, set_highest_seen (block_ref b) s)
  end = (Ok u, s') → shrinks s s'.
Proof.
  destruct (ref_get _ _) as [h|]; [destruct (_ <? _)|]; intros [= _ <-]; try done;
    apply set_highest_seen_shrinks.
Qed.

(** What a block's certificate is for is the zero block or certified. *)
Lemma justified_by b1 b2 :
  agrees b2 → justify (block_id b2) = block_id b1 → block_id b1 = 0%N ∨ certified (block_id b1).
Proof.
  intros (Hk & _ & _ & _) Hj. destruct (decide (block_id b1 = 0%N)) as [|Hnz]; [by left|].
  destruct (known_justify (block_id b2)) as (_ & _ & [Hz|[Hc _]]); [done| |congruence|].
  - intros Hr%root_justify. congruence.
  - right. by rewrite Hj in Hc.
Qed.

Lemma update_nodes_ok env q b st hp st' :
  store_ok st.1 → agrees b → ¬ root (block_id b) → block_epoch b = es_epoch es →
  pc_epoch (b_justify b) = es_epoch es → pc_height (b_justify b) = height (justify_block_id b) →
  update_nodes on_lock_block (on_commit env q) b st = (Ok hp, st') →
  store_ok st'.1 ∧ cs_last_voted st'.1 = cs_last_voted st.1 ∧
  lock_height st.1 ≤ lock_height st'.1 ∧
  height (justify (justify (block_id b))) ≤ lock_height st'.1 ∧
  ∃ cs, st'.2 = st.2 ++ cs ∧ ∀ c, c ∈ cs → committed_ok c.
Proof.
  intros Hok (Hkb & Hpb & Hjb & Hhb) Hnr He Hpe Hph H. unfold update_nodes, on_store in H. inv_ok.
  destruct (known_justify _ Hkb Hnr) as (Hkj & _ & Hcj). rewrite Hjb in *.
  match goal with H : match ref_get _ _ with _ => _ end = _ |- _ => apply highest_seen_ok in H as Hs1 end.
  pose proof (shrinks_ok _ _ Hs1 Hok) as Hok1.
  match goal with H : update_highest_pc _ _ = _ |- _ =>
    apply update_highest_ok in H as (Hok2 & Hl2 & Hv2 & hp2 & Hhp2 & Hle2); [|done|done| |] end.
  2: { rewrite Hph. by apply height_nonneg. }
  2: { intros Hz. rewrite Hph. apply root_height. left. done. }
  match goal with H : blocks_get (justify_block_id b) _ = _ |- _ =>
    apply get_block in H as (-> & Hid2 & Hb2 & _); [|done] end.
  match goal with H : blocks_get _ _ = _ |- _ => apply get_block in H as (-> & Hid1 & Hb1 & He1); [|done] end.
  match goal with H : context [is_genesis ?n] |- _ => rename n into b1 end.
  match goal with H : block_id ?n = justify_block_id b |- _ => rename n into b2 end.
  assert (block_id b2 = 0%N ∨ certified (block_id b2)) as Hc2 by (rewrite Hid2; tauto).
  assert (justify (block_id b2) = block_id b1) as Hj2 by (destruct Hb2 as (_ & _ & -> & _); done).
  assert (block_id b1 = 0%N ∨ certified (block_id b1)) as Hc1 by (by apply (justified_by b1 b2)).
  assert (lock_height x9 = lock_height st.1) as Hlk.
  { unfold lock_height. by rewrite Hl2, (sh_locked _ _ Hs1). }
  assert (height (justify (justify_block_id b)) = block_height b1) as Hjj.
  { rewrite <- Hid2, Hj2. by destruct Hb1 as (_ & _ & _ & ->). }
  rewrite Hjj. destruct (is_genesis b1) eqn:Hg.
  { inv_ok. split_and!; [done|by rewrite Hv2, (sh_last_voted _ _ Hs1)|lia| |].
    - destruct (lock_height_of _ Hok2) as (l & _ & Hlh & _ & ?). unfold is_genesis, is_genesis_header in Hg.
      bool_to_prop. unfold block_height. lia.
    - exists []. rewrite app_nil_r. split; [done|]. by intros c ?%elem_of_nil. }
  apply bind_Ok in H as (cl & st1 & Hcl & H). apply zoom_Ok in Hcl as (t & Hcl & ->).
  apply record_get_Ok in Hcl as (-> & Hcl & _).
  apply bind_Ok in H as (u & st2 & Hlock & H).
  eapply lock_stage_ok in Hlock as (Hok3 & Hv3 & Hl3 & Hh3 & Hcs3); [|done..|by rewrite Hid1 in *|done|].
  - eapply commit_stage_ok in H as (Hok4 & Hv4 & Hl4 & cs & Hcs & Hall); [|done..].
    simpl in *. split_and!; [done| |lia|lia|].
    + by rewrite Hv4, Hv3, Hv2, (sh_last_voted _ _ Hs1).
    + exists cs. split; [by rewrite Hcs, Hcs3|done].
  - simpl. intros Hpos hp' Hhp' Hz. rewrite Hhp2 in Hhp'. simplify_eq.
    destruct (so_high_pc _ Hok2) as (hp3 & E & _ & _ & Hzero). rewrite Hhp2 in E. simplify_eq.
    destruct (Hzero Hz) as [Hz0 _].
    assert (root (block_id b2)) as Hr2.
    { rewrite Hid2. apply zero_height_root; [done|lia]. }
    apply root_justify in Hr2. rewrite Hj2 in Hr2.
    destruct Hb1 as (_ & _ & _ & Hh1). rewrite root_height in Hh1 by (by left). lia.
Qed.

#[local] Arguments update_nodes : simpl never.
#[local] Arguments update_highest_tc : simpl never.
#[local] Arguments process_newly_justified_block : simpl never.
#[local] Arguments add_justify_qc : simpl never.
#[local] Arguments should_vote : simpl never.

(** ** Deciding on a block *)
Lemma ready_to_vote_ok env v s d st' :
  let b := vb_block v in
  store_ok s → agrees b → ¬ root (block_id b) → block_epoch b = es_epoch es →
  pc_epoch (b_justify b) = es_epoch es → pc_height (b_justify b) = height (justify_block_id b) →
  ready_to_vote env v (s, []) = (Ok d, st') →
  store_ok st'.1 ∧ cs_last_voted st'.1 = cs_last_voted s ∧
  lock_height s ≤ lock_height st'.1 ∧ height (justify (justify (block_id b))) ≤ lock_height st'.1 ∧
  (∀ c, c ∈ st'.2 → committed_ok c) ∧
  (is_Some (bd_quorum_decision d) →
   ∀ lv, cs_last_voted s = Some lv → br_height lv < block_height b).
Proof.
  intros b Hok Hb Hnr He Hpe Hph H. unfold ready_to_vote in H. fold b in H.
  apply bind_Ok in H as (ht & st1 & Htc & H).
  assert (shrinks_fst (s, []) st1) as [Hs1 Hc1].
  { refine ((_ : follows shrinks_fst _) _ _ _ Htc ltac:(done)).
    follow. apply on_store_follows, update_highest_tc_follows. }
  apply bind_Ok in H as (hq & st2 & Hun & H).
  apply update_nodes_ok in Hun as (Hok2 & Hv2 & Hl2 & Hj2 & cs & Hcs & Hall);
    [|by eapply shrinks_ok|done..].
  apply bind_Ok in H as (jb & st3 & Hjb & H).
  apply bind_Ok in H as (u & st4 & Hproc & H).
  assert (shrinks_fst st2 st4) as [Hs4 Hc4].
  { transitivity st3.
    - exact (on_store_follows _ (blocks_get_follows _) _ _ _ Hjb ltac:(done)).
    - refine ((_ : follows shrinks_fst _) _ _ _ Hproc ltac:(done)). follow.
      + apply on_store_follows, process_newly_justified_follows.
      + apply on_store_follows, add_justify_qc_follows.
      + apply on_store_follows, add_justify_qc_follows. }
  assert (cs_last_voted st4.1 = cs_last_voted s) as Hv4.
  { by rewrite (sh_last_voted _ _ Hs4), Hv2, (sh_last_voted _ _ Hs1). }
  assert (lock_height st4.1 = lock_height st2.1) as Hl4.
  { unfold lock_height. by rewrite (sh_locked _ _ Hs4). }
  assert (lock_height st1.1 = lock_height s) as Hl1.
  { unfold lock_height. by rewrite (sh_locked _ _ Hs1). }
  apply bind_Ok in H as (vote & st5 & Hvote & H).
  apply bind_Ok in H as (nv & st6 & Hnv & H).
  apply bind_Ok in H as (st7 & st8 & Hget & H).
  unfold get in Hget. injection Hget as <- <-. unfold ret in H. injection H as <- <-.
  unfold on_store, zoom, should_vote in Hvote. injection Hvote as <- <-.
  assert (st6.1 = st4.1 ∧ st6.2 = st4.2) as [E1 E2].
  { destruct (ref_get (cs_last_voted st4.1) (block_epoch b)) as [lv|];
      [destruct (_ <? _)|]; by inversion Hnv. }
  rewrite E1. split_and!; [by eapply shrinks_ok|done|lia|lia| |].
  - rewrite E2, Hc4, Hcs, Hc1. done.
  - intros Hq lv Hlv. destruct (so_voted _ Hok) as (lv' & Hlv' & Hle). rewrite Hlv in Hlv'. simplify_eq.
    rewrite Hv4, Hlv in Hnv. unfold ref_get in Hnv. rewrite Hle, He, Z.eqb_refl in Hnv.
    destruct (Z.ltb_spec (br_height lv') (block_height b)); [done|].
    inversion Hnv; subst. simpl in Hq. by destruct Hq.
Qed.

(** ** Validation *)
Lemma require_Ok ok e s u s' : require ok e s = (Ok u, s') → ok = true ∧ s' = s.
Proof. unfold require, check, lift. destruct ok; by intros [= <-]. Qed.

Lemma is_safe_Ok b s v s' : is_safe b s = (Ok v, s') → s' = s.
Proof.
  intros H. unfold is_safe, extends_pending, blocks_is_pending_ancestor, record_get, blocks_exists in H.
  unfold bind, throw, ret, lift in H. simpl in H. repeat (case_match; simplify_eq/=; try done).
Qed.

Lemma load_justify_Ok b s jb s' :
  load_justify_block b s = (Ok jb, s') →
  s' = s ∧
  (if justifies_zero_block (b_justify b) then block_height jb = 0
   else cs_blocks s !! justify_block_id b = Some jb).
Proof.
  unfold load_justify_block. destruct (justifies_zero_block _) eqn:Hz.
  - unfold get_genesis_for_epoch, blocks_get_all_ids_by_height, bind, throw, blocks_get.
    destruct (fst <$> _) as [|x [|y l]] eqn:Hids; try done. intros [= Hb <-]. split; [done|].
    apply ok_or_Ok in Hb.
    assert (x ∈ fst <$> filter (λ p : N * Block, block_epoch p.2 = block_epoch b ∧ block_height p.2 = 0)
      (map_to_list (cs_blocks s))) as Hin by (rewrite Hids; left).
    apply list_elem_of_fmap in Hin as ((x' & b') & -> & Hf).
    apply list_elem_of_filter in Hf as ((_ & Hh) & Hl%elem_of_map_to_list). simpl in *. congruence.
  - intros [= Hb <-]. split; [done|]. by case_match; simplify_eq.
Qed.

(** A dummy block made for a candidate. *)
Definition dummy_of b d : Prop :=
  well_identified d ∧ b_justify d = b_justify b ∧ block_epoch d = block_epoch b ∧ 0 ≤ block_height d.

Lemma dummy_loop_Ok fuel cur nh net e sg pid qc ep mr c pt pe ds :
  dummy_loop fuel cur nh net e sg pid qc ep mr c pt pe = Ok ds →
  Forall (λ d, well_identified d ∧ b_justify d = qc ∧ block_epoch d = e ∧ 0 ≤ block_height d) ds.
Proof.
  revert cur pid ds. induction fuel as [|fuel IH]; intros cur pid ds; simpl; [by intros [= <-]|].
  intros H. inv_ok. unfold u64_add, u64_checked_add in *. inv_ok.
  match goal with H : uint_checked _ _ = Some _ |- _ => apply uint_checked_Some in H as [-> Hr] end.
  case_match; [by inv_ok|]. inv_ok. case_match; inv_ok.
  - constructor; [|done]. split_and!; [done..|]. apply Hr.
  - constructor; [|by eapply IH]. split_and!; [done..|]. apply Hr.
Qed.

Lemma dummy_blocks_Ok b jb c s ds s' :
  candidate_dummy_blocks b jb c s = (Ok ds, s') → s' = s ∧ Forall (dummy_of b) ds.
Proof.
  unfold candidate_dummy_blocks. destruct (b_timeout_certificate b); intros H; inv_ok; [|done].
  match goal with H : record_get _ _ _ = _ |- _ => apply record_get_Ok in H as (-> & _ & _) end.
  match goal with H : blocks_get _ _ = _ |- _ => unfold blocks_get in H; injection H as _ <- end.
  destruct (list.last _); inv_ok; [|done].
  match goal with H : require _ _ _ = _ |- _ => apply require_Ok in H as [_ ->] end.
  split; [done|]. unfold calculate_dummy_blocks_from_justify in *.
  destruct (_ <=? _); [by simplify_eq|]. by eapply dummy_loop_Ok.
Qed.

Lemma validate_Ok e b c s v s' :
  validate_local_proposed_block e b c s = (Ok v, s') →
  s' = s ∧ vb_block v = b ∧ block_epoch b = e ∧ pc_epoch (b_justify b) = e ∧
  (∃ jb, (if justifies_zero_block (b_justify b) then block_height jb = 0
          else cs_blocks s !! justify_block_id b = Some jb) ∧
         block_height jb = pc_height (b_justify b)) ∧
  Forall (dummy_of b) (vb_dummy_blocks v) ∧
  (vb_dummy_blocks v = [] →
   (∃ hp, cs_high_pc s = Some hp ∧ hp_block_id hp = 0%N) ∨ is_safe b s = (Ok true, s)).
Proof.
  unfold validate_local_proposed_block. intros H.
  do 5 (apply bind_Ok in H as (? & ? & Hr & H); apply require_Ok in Hr as [? ->]).
  apply bind_Ok in H as (jb & s1 & Hjb & H). apply load_justify_Ok in Hjb as [-> Hjb].
  apply bind_Ok in H as (pe & s1 & Hpe & H). unfold blocks_exists in Hpe. injection Hpe as <- <-.
  do 3 (apply bind_Ok in H as (? & ? & Hr & H); apply require_Ok in Hr as [? ->]).
  apply bind_Ok in H as (hp & s1 & Hhp & H). injection Hhp as Hhp <-. apply ok_or_Ok in Hhp.
  apply bind_Ok in H as (ds & s1 & Hds & H). apply dummy_blocks_Ok in Hds as [-> Hds].
  assert (cs_high_pc s = Some hp) as Hhp'.
  { unfold high_pc_get in Hhp. by repeat case_match; simplify_eq. }
  bool_to_prop. destruct ds as [|d ds].
  - destruct (N.eqb_spec (hp_block_id hp) 0) as [Hz|Hz].
    + injection H as <- <-. split_and!; [done..|by exists jb|done|]. intros _. left. by exists hp.
    + apply bind_Ok in H as (safe & s1 & Hsafe & H). pose proof (is_safe_Ok _ _ _ _ Hsafe) as ->.
      apply bind_Ok in H as (? & ? & Hr & H). apply require_Ok in Hr as [-> ->].
      injection H as <- <-. split_and!; [done..|by exists jb|done|]. intros _. by right.
  - injection H as <- <-. split_and!; [done..|by exists jb|done|done].
Qed.

(** ** The safeNode predicate *)
Lemma pending_ancestor_anc s fuel x a :
  store_ok s → pending_ancestor_loop fuel (cs_pending s) x a = Ok true → root a ∨ anc a x.
Proof.
  intros Hok. revert x. induction fuel as [|fuel IH]; intros x; simpl; [done|].
  destruct (cs_pending s !! x) as [p|] eqn:Hp; [|done].
  apply (so_pending _ Hok) in Hp as [_ Hp].
  assert (root a ∨ anc a p → root a ∨ anc a x) as Hstep.
  { intros [?|Ha]; [by left|]. destruct (decide (x = 0%N ∨ x = gid)) as [Hr|Hr].
    - left. apply root_parent in Hr. rewrite Hp in Hr. subst p. rewrite Hr in Ha.
      inversion Ha as [|? Hn _]; subst; [by left|]. by destruct Hn; left.
    - right. apply anc_step; [done|]. by rewrite Hp. }
  destruct (N.eqb_spec p a) as [->|]; [intros _; apply Hstep; right; apply anc_refl|].
  destruct (N.eqb_spec p x); [done|]. intros H. by apply Hstep, IH.
Qed.

Definition safe_for l b : Prop :=
  root l ∨ (anc l (block_id b) ∧ l ≠ block_id b) ∨ height l < height (justify (block_id b)).

Lemma extends_pending_safe b l s s' :
  store_ok s → agrees b → ¬ root (block_id b) → extends_pending b l s = (Ok true, s') → safe_for l b.
Proof.
  intros Hok (_ & Hpar & _ & _) Hnr. unfold extends_pending, ret.
  destruct (N.eqb_spec (block_id b) l) as [|Hne]; [done|].
  destruct (N.eqb_spec (block_parent b) l) as [Heq|Hnp].
  { intros _. right. left. split; [|done]. apply anc_step; [done|]. rewrite Hpar, Heq. apply anc_refl. }
  unfold bind, blocks_exists. destruct (negb _); [done|].
  unfold blocks_is_pending_ancestor, bind, blocks_exists, throw. do 2 (destruct (negb _); [done|]).
  intros [= H _].
  apply (pending_ancestor_anc s (S (size (cs_pending s)))) in H as [?|Ha]; [by left| |done].
  right. left. split; [|done]. apply anc_step; [done|]. by rewrite Hpar.
Qed.

Lemma is_safe_spec b l s s' :
  store_ok s → agrees b → ¬ root (block_id b) → cs_locked s = Some l →
  pc_height (b_justify b) = height (justify (block_id b)) →
  is_safe b s = (Ok true, s') → safe_for (br_block_id l) b.
Proof.
  intros Hok Hb Hnr Hl Hph H. unfold is_safe in H.
  apply bind_Ok in H as (l' & s1 & Hl' & H). apply record_get_Ok in Hl' as (-> & Hl' & _).
  rewrite Hl in Hl'. simplify_eq.
  destruct (so_locked _ Hok) as (l & Hl2 & _ & _ & Hh & _). rewrite Hl in Hl2. simplify_eq.
  destruct (Z.ltb_spec (br_height l) (pc_height (b_justify b))).
  - right. right. lia.
  - apply bind_Ok in H as (e & s1 & He & H). unfold ret in H. simplify_eq.
    by eapply extends_pending_safe.
Qed.

(** ** Saving blocks *)
Definition storable b : Prop := agrees b ∧ block_id b ≠ 0%N ∧ block_epoch b = es_epoch es.

Lemma block_save_ok b s r s' :
  store_ok s → storable b → block_save b s = (Ok r, s') →
  store_ok s' ∧ cs_locked s' = cs_locked s ∧ cs_last_voted s' = cs_last_voted s ∧
  cs_high_pc s' = cs_high_pc s.
Proof.
  intros Hok (Hb & Hnz & He) H. unfold block_save, blocks_insert, blocks_exists, bind, modify, ret in H.
  destruct (bool_decide (is_Some (cs_blocks s !! block_id b))) eqn:Hex; [by inversion H; subst|].
  simpl in H. rewrite Hex in H. destruct (N.eqb_spec (block_id b) 0); [done|]. injection H as _ <-.
  split; [|by split_and!]. split; [| |apply Hok|apply Hok|apply Hok|apply Hok].
  - intros x b'. simpl. destruct (decide (block_id b = x)) as [<-|Hne].
    + rewrite lookup_insert_eq. by intros [= <-].
    + rewrite lookup_insert_ne by done. apply Hok.
  - intros x p. simpl. destruct (decide (block_id b = x)) as [<-|Hne].
    + rewrite lookup_insert_eq. intros [= <-]. by destruct Hb as (? & ? & _).
    + rewrite lookup_insert_ne by done. apply Hok.
Qed.

Lemma save_block_ok v s u s' :
  store_ok s → Forall storable (vb_dummy_blocks v) → storable (vb_block v) →
  save_block v s = (Ok u, s') →
  store_ok s' ∧ cs_locked s' = cs_locked s ∧ cs_last_voted s' = cs_last_voted s ∧
  cs_high_pc s' = cs_high_pc s.
Proof.
  intros Hok Hds Hb H. unfold save_block in H.
  apply bind_Ok in H as (? & s1 & H1 & H).
  pose proof (pc_save_follows _ _ _ _ H1 ltac:(done)) as Hs1.
  apply bind_Ok in H as (? & s2 & H2 & H).
  assert (store_ok s2 ∧ cs_locked s2 = cs_locked s ∧ cs_last_voted s2 = cs_last_voted s ∧
    cs_high_pc s2 = cs_high_pc s) as (Hok2 & E1 & E2 & E3).
  { eapply (for_each_inv (λ t, store_ok t ∧ cs_locked t = cs_locked s ∧
      cs_last_voted t = cs_last_voted s ∧ cs_high_pc t = cs_high_pc s)); [| |exact H2].
    - intros d t q t' Hd (Ht & Ht1 & Ht2 & Ht3) Hq. unfold bind in Hq.
      destruct (block_save d t) as [[r|e|] t1] eqn:Hsave.
      + inversion Hq; subst. eapply block_save_ok in Hsave as (? & -> & -> & ->); [done|done|].
        by eapply (proj1 (list.Forall_forall _ _) Hds).
      + exfalso. revert Hsave. unfold block_save, blocks_insert, blocks_exists, bind, ret, throw, modify.
        repeat case_match; by intros [=].
      + exfalso. revert Hsave. unfold block_save, blocks_insert, blocks_exists, bind, ret, throw, modify.
        repeat case_match; by intros [=].
    - split_and!; [by eapply shrinks_ok|apply Hs1..]. }
  apply bind_Ok in H as (? & s3 & H3 & H). unfold ret in H. simplify_eq.
  eapply block_save_ok in H3 as (? & -> & -> & ->); done.
Qed.

(** ** The validator *)
Definition voted (n : Node) : list BlockId := fst <$> nd_votes n.

Record node_ok (n : Node) : Prop := {
  no_store : store_ok (nd_store n);
  no_known x : x ∈ voted n → known x ∧ ¬ root x;
  no_height lv x : cs_last_voted (nd_store n) = Some lv → x ∈ voted n → height x ≤ br_height lv;
  no_lock x : x ∈ voted n → height (justify (justify x)) ≤ lock_height (nd_store n);
  no_increase l1 x l2 y : voted n = l1 ++ x :: l2 → y ∈ l2 → height y < height x;
  no_safe l1 x l2 y : voted n = l1 ++ x :: l2 → y ∈ l2 →
    ∃ l, known l ∧ (root l ∨ certified l) ∧ height (justify (justify y)) ≤ height l ∧
      (root l ∨ (anc l x ∧ l ≠ x) ∨ height l < height (justify x));
  no_committed b : b ∈ nd_committed n → committed_ok b;
}.

(** A change of the store that keeps its invariant, the last vote and does not
    lower the lock, together with new commits. *)
Lemma node_ok_store n s' cs :
  node_ok n → store_ok s' → cs_last_voted s' = cs_last_voted (nd_store n) →
  lock_height (nd_store n) ≤ lock_height s' →
  (∀ c, c ∈ cs → committed_ok c) →
  node_ok (MkNode s' (nd_votes n) (cs ++ nd_committed n)).
Proof.
  intros H Hs Hv Hl Hc. split; try apply H; simpl.
  - done.
  - intros lv x. rewrite Hv. apply H.
  - intros x Hx. pose proof (no_lock _ H x Hx). lia.
  - intros b [Hb|Hb]%elem_of_app; [by apply Hc|by apply H].
Qed.

(** A vote for a block above the last vote that is safe with respect to a lock
    that covers the earlier votes. *)
Lemma node_ok_vote n b d l :
  node_ok n → storable b → ¬ root (block_id b) →
  (∀ lv, cs_last_voted (nd_store n) = Some lv → br_height lv < block_height b) →
  height (justify (justify (block_id b))) ≤ lock_height (nd_store n) →
  known l → (root l ∨ certified l) →
  (∀ y, y ∈ voted n → height (justify (justify y)) ≤ height l) → safe_for l b →
  node_ok (MkNode (set_last_voted (block_ref b) (set_last_sent_vote (block_id b, d) (nd_store n)))
             ((block_id b, d) :: nd_votes n) (nd_committed n)).
Proof.
  intros H ((Hk & Hpar & Hju & Hh) & _ & He) Hnr Hlv Hjj Hkl Hcl Hlock Hsafe.
  destruct (so_voted _ (no_store _ H)) as (lv & Elv & _). specialize (Hlv lv Elv).
  split; simpl.
  - destruct (no_store _ H). split; try done. simpl. by eexists.
  - intros x [->|Hx]%elem_of_cons; [done|]. by apply (no_known _ H).
  - intros lv' x [= <-] Hx. change (height x ≤ block_height b).
    apply elem_of_cons in Hx as [->|Hx]; [simpl; lia|].
    pose proof (no_height _ H lv x Elv Hx). lia.
  - intros x [->|Hx]%elem_of_cons; [done|]. by apply (no_lock _ H).
  - intros l1 x l2 y. unfold voted. simpl. destruct l1 as [|z l1]; simpl.
    + intros [= <- <-] Hy. pose proof (no_height _ H lv y Elv Hy). lia.
    + intros [= _ Hv] Hy. by eapply (no_increase _ H).
  - intros l1 x l2 y. unfold voted. simpl. destruct l1 as [|z l1]; simpl.
    + intros [= <- <-] Hy. exists l. split_and!; [done..|by apply Hlock|done].
    + intros [= _ Hv] Hy. by eapply (no_safe _ H).
  - apply H.
Qed.

(** ** One proposal *)

(** Without evictions no view is skipped. *)
Lemma leader_no_skip (ev : PublicKeyBytes → res HotStuffError bool) fuel (c : Committee N) h nl :
  (∀ pk, ev pk = Ok false) → get_leader_for_view ev fuel c h = Some (Ok nl) →
  nl_vote_to_skip_next nl = false.
Proof.
  intros Hev. unfold get_leader_for_view. destruct (get_leader c h) as [p|e|]; [|done..].
  destruct fuel; simpl; rewrite Hev; by intros [= <-].
Qed.

(** What is assumed of a proposal that passes validation: its blocks are blocks
    of the tree, and with dummy blocks it satisfies the safeNode predicate,
    which validation does not evaluate then. *)
Definition sound_proposal (v : ValidBlock) s : Prop :=
  Forall storable (vb_dummy_blocks v) ∧ storable (vb_block v) ∧ ¬ root (block_id (vb_block v)) ∧
  (vb_dummy_blocks v ≠ [] →
   ∀ s', save_block v s = (Ok tt, s') → (is_safe (vb_block v) s').1 = Ok true).

Lemma validate_new_Ok b s v :
  (validate_new_block es b s).1 = Ok (Some v) →
  validate_local_proposed_block (es_epoch es) b (es_local_committee es) s = (Ok v, s).
Proof.
  unfold validate_new_block, bind, blocks_exists. destruct (bool_decide _); [done|].
  unfold validate_block. destruct (validate_local_proposed_block _ _ _ s) as [[v'|e|] s'] eqn:Hv.
  - intros [= <-]. pose proof (validate_Ok _ _ _ _ _ _ Hv) as [-> _]. done.
  - by destruct e as [|[]| | | | |].
  - done.
Qed.

(** The height in a validated certificate is that of the justified block. *)
Lemma validated_height b s jb :
  store_ok s → agrees b → ¬ root (block_id b) →
  (if justifies_zero_block (b_justify b) then block_height jb = 0
   else cs_blocks s !! justify_block_id b = Some jb) →
  block_height jb = pc_height (b_justify b) →
  pc_height (b_justify b) = height (justify_block_id b).
Proof.
  intros Hok (Hk & _ & Hj & _) Hnr Hjb <-. destruct (justifies_zero_block (b_justify b)) eqn:Hz.
  - destruct (known_justify _ Hk Hnr) as (_ & _ & Hc). rewrite Hj in Hc.
    destruct Hc as [Hc|[(pc & Hid & Hnz & _) _]].
    + rewrite Hjb, Hc. symmetry. apply root_height. by left.
    + unfold justify_block_id, calculate_block_id in Hid.
      apply from_parent_inj in Hid as [_ Hh]. unfold justifies_zero_block in *. congruence.
  - apply (so_blocks _ Hok) in Hjb as (Hid & (_ & _ & _ & Hh) & _). congruence.
Qed.

Lemma validated_safe b s v l :
  store_ok s → (validate_new_block es b s).1 = Ok (Some v) → cs_locked s = Some l →
  sound_proposal v s →
  ∀ s1, save_block v s = (Ok tt, s1) →
  block_epoch (vb_block v) = es_epoch es ∧ pc_epoch (b_justify (vb_block v)) = es_epoch es ∧
  pc_height (b_justify (vb_block v)) = height (justify_block_id (vb_block v)) ∧
  safe_for (br_block_id l) (vb_block v).
Proof.
  intros Hok Hv Hl (Hds & Hb & Hnr & Hsafe) s1 Hs1.
  apply validate_new_Ok, validate_Ok in Hv as (_ & <- & He & Hpe & (jb & Hjb & Hjh) & _ & Hv).
  pose proof Hb as (Hag & _ & _).
  pose proof (validated_height _ _ _ Hok Hag Hnr Hjb Hjh) as Hph.
  split_and!; [done..|]. pose proof Hag as (_ & _ & Hj & _).
  destruct (decide (vb_dummy_blocks v = [])) as [Hn|Hn].
  - destruct (Hv Hn) as [(hp & Hhp & Hz)|Hs].
    + destruct (so_high_pc _ Hok) as (hp' & E & _ & _ & Hzero). rewrite Hhp in E. simplify_eq.
      destruct (Hzero Hz) as (_ & l' & El & Hg). rewrite Hl in El. simplify_eq. left. by right.
    + eapply is_safe_spec; [done..| |exact Hs]. by rewrite Hj.
  - destruct (save_block_ok _ _ _ _ Hok Hds Hb Hs1) as (Hok1 & El & _).
    specialize (Hsafe Hn s1 Hs1). destruct (is_safe (vb_block v) s1) as [r s2] eqn:Es. simpl in Hsafe.
    subst r. eapply is_safe_spec; [done..| | |exact Es]; [by rewrite El|by rewrite Hj].
Qed.

Lemma handle_proposal_ok env b n r n' :
  node_ok n →
  (∀ id pk, env_is_node_evicted env id pk = Ok false) →
  (∀ v, (validate_new_block es b (nd_store n)).1 = Ok (Some v) →
        env_foreign_proposals_valid env = true → sound_proposal v (nd_store n)) →
  handle_proposal env es b n = (r, n') → node_ok n'.
Proof.
  intros Hn Hev Hsound. unfold handle_proposal, with_read_tx, bind.
  destruct (validate_new_block es b (nd_store n)).1 as [[v|]|e|] eqn:Hv; [|by intros [= _ <-]..].
  specialize (Hsound v eq_refl). unfold with_write_tx at 1.
  destruct (env_foreign_proposals_valid env); [|by destruct n; intros [= _ <-]].
  specialize (Hsound eq_refl).
  destruct (save_block v (nd_store n)) as [[[]|e|] s1] eqn:Hs1; [|by intros [= _ <-]..].
  destruct (so_locked _ (no_store _ Hn)) as (l & Hl & _ & Hkl & Hlh & Hcl).
  destruct (validated_safe _ _ _ _ (no_store _ Hn) Hv Hl Hsound _ Hs1) as (He & Hpe & Hph & Hsafe).
  destruct Hsound as (Hds & Hb & Hnr & _).
  destruct (save_block_ok _ _ _ _ (no_store _ Hn) Hds Hb Hs1) as (Hok1 & El1 & Ev1 & _).
  assert (lock_height s1 = lock_height (nd_store n)) as Hl1 by (unfold lock_height; by rewrite El1).
  simpl. unfold run_ready_to_vote at 1. simpl.
  destruct (ready_to_vote env v (s1, [])) as [[d|e|] [s2 cs]] eqn:Hr.
  2-3: intros [= _ <-]; apply (node_ok_store n s1 []); [done..|lia|by intros c ?%elem_of_nil].
  destruct (ready_to_vote_ok env v s1 d (s2, cs) Hok1 (proj1 Hb) Hnr He Hpe Hph Hr)
    as (Hok2 & Ev2 & Hl2 & Hjj & Hcs & Hq). simpl in Hok2, Ev2, Hl2, Hjj, Hcs.
  assert (node_ok (MkNode s2 (nd_votes n) (reverse cs ++ nd_committed n))) as Hn2.
  { apply node_ok_store; [done|done|congruence|lia|].
    intros c Hc. apply Hcs. by apply elem_of_reverse. }
  unfold process_block_decision, bind at 1. destruct (existsb _ _); [by intros [= _ <-]|].
  destruct (bd_quorum_decision d) as [decision|] eqn:Hd; [|by intros [= _ <-]].
  unfold bind at 1 2.
  destruct (get_leader_for_view _ _ _ _) as [[nl|e|]|] eqn:Hnl; [|by intros [= _ <-]..].
  apply leader_no_skip in Hnl; [|done]. simpl. rewrite Hnl. intros [= _ <-].
  apply (node_ok_vote (MkNode s2 (nd_votes n) (reverse cs ++ nd_committed n)) (vb_block v) decision
    (br_block_id l)); simpl; try done.
  - rewrite Ev2. by apply Hq.
  - intros y Hy. pose proof (no_lock _ Hn y Hy). unfold lock_height in *. rewrite Hl in *. lia.
Qed.
End invariant.
