(* ===== verification/HotStuffSafety.v ===== *)
(** * Agreement of validators

    Validators of one committee that start from the genesis block of an epoch
    ([create_genesis_block_if_required] of [hotstuff/worker.rs]) and handle
    proposals with [receive_proposal], in any order and number.  While the
    faulty members hold at most [max_failures] of the voting power, no two
    honest validators commit conflicting blocks.

    The theorem assumes of the accepted proposals what the handler does not
    check (see [proposals_extend] and [sound_step]); [HotStuffRuns.v] has runs
    that satisfy these assumptions and runs on proposals that violate them. *)
From stdpp Require Import base gmap list numbers.
From S2P Require Import Prelude Ids Sharding Committee Blocks BlockStore HotStuff Agreement BlockStoreProps NodeInvariant.
Open Scope Z_scope.

Definition empty_store : ConsensusStore :=
  MkConsensusStore ∅ ∅ ∅ ∅ None None None None None None None None None.

Section replica.
Context `{Bh : !BlockHashes} `{Sg : !Signatures}.
Context (config : HotstuffConfig) (es : EpochState).
(** The state root of the shard group before the epoch, and the time at which a
    node creates the zero block. *)
Context (state_root : FixedHash) (now : Z).
Implicit Types (b : Block) (n : Node) (ev : Environment * Block) (evs : list (Environment * Block)).

(** ** Genesis *)
Definition genesis_block : Block :=
  block_genesis (hc_network config) (es_epoch es) (es_epoch_hash es)
    (ci_shard_group (es_local_committee_info es)) state_root (hc_sidechain_id config).
Definition zero_block_ : Block := zero_block (hc_network config) (hc_num_preshards config) now.

Definition commit_block_without_state_changes b (commit_qc_id : QcId) : Tx unit :=
  blocks_set_qcs (block_id b) (Some commit_qc_id) None.

Definition create_genesis (zero genesis : Block) : Tx unit :=
  let! exists_ := blocks_exists (block_id zero) in
  do! if exists_ then ret tt
      else
        do! pc_save (b_justify zero) in
        do! blocks_insert zero in
        do! add_justify_qc zero 0%N in
        commit_block_without_state_changes zero (pc_calculate_id (b_justify zero)) in
  let! ids := blocks_get_all_ids_by_height (es_epoch es) 0 in
  match ids with
  | _ :: _ => ret tt
  | [] =>
      do! pc_save (b_justify genesis) in
      do! blocks_insert genesis in
      do! add_justify_qc genesis 0%N in
      do! modify (set_locked (block_ref genesis)) in
      do! modify (set_leaf (block_ref genesis)) in
      do! modify (set_highest_seen (block_ref genesis)) in
      do! modify (set_last_executed (block_ref genesis)) in
      do! modify (set_last_voted (block_ref genesis)) in
      do! modify (set_high_pc (as_high_pc (b_justify genesis))) in
      commit_block_without_state_changes genesis (pc_calculate_id (b_justify genesis))
  end.
Definition create_genesis_block_if_required : Tx unit := create_genesis zero_block_ genesis_block.

(** A validator that starts with an empty store. *)
Definition initial_node : Node :=
  MkNode (create_genesis_block_if_required empty_store).2 [] [].

(** ** Runs *)
Definition receive n ev : Node := (receive_proposal config ev.1 es ev.2 n).2.
Definition run n evs : Node := fold_left receive evs n.

(** The blocks a validator stores when it receives a proposal, and those it
    stores in the course of a run. *)
Definition accepted n ev : list Block :=
  match decode_block ev.2 with
  | None => []
  | Some b =>
      match check_local_proposal config es b with
      | Ok _ =>
          match (validate_new_block es b (nd_store n)).1 with
          | Ok (Some v) =>
              if env_foreign_proposals_valid ev.1 then vb_dummy_blocks v ++ [vb_block v] else []
          | _ => []
          end
      | _ => []
      end
  end.

Fixpoint accepted_blocks n evs : list Block :=
  match evs with
  | [] => []
  | ev :: evs => accepted n ev ++ accepted_blocks (receive n ev) evs
  end.

(** What a run is assumed to satisfy step by step: no validator is evicted, and
    a proposal with dummy blocks, for which validation does not evaluate it,
    satisfies the safeNode predicate. *)
Definition sound_step n ev : Prop :=
  (∀ id pk, env_is_node_evicted ev.1 id pk = Ok false) ∧
  (∀ b v, decode_block ev.2 = Some b → (validate_new_block es b (nd_store n)).1 = Ok (Some v) →
     vb_dummy_blocks v ≠ [] →
     ∀ s', save_block v (nd_store n) = (Ok tt, s') → (is_safe (vb_block v) s').1 = Ok true).

Fixpoint sound_run n evs : Prop :=
  match evs with
  | [] => True
  | ev :: evs => sound_step n ev ∧ sound_run (receive n ev) evs
  end.

(** ** The committee *)

(** The members that follow the protocol, and what each of them received. *)
Context (honest : PublicKeyBytes → bool).
Context (history : PublicKeyBytes → list (Environment * Block)).

Definition replica (k : PublicKeyBytes) : Node := run initial_node (history k).
Definition honest_members : list PublicKeyBytes :=
  filter (λ k, honest k = true) (cm_public_key <$> es_local_committee es).
(** All blocks that honest members accept. *)
Definition all_accepted : list Block :=
  honest_members ≫= λ k, accepted_blocks initial_node (history k).

(** [extends a x]: block [a] is [x] or an ancestor of [x]. *)
Inductive extends (a : BlockId) : BlockId → Prop :=
  | extends_refl : extends a a
  | extends_step b : b ∈ all_accepted → extends a (block_parent b) → extends a (block_id b).

(** Each accepted block is one above its parent, which is the genesis block or
    accepted as well, and its certificate is for an ancestor. *)
Definition proposals_extend : Prop :=
  ∀ b, b ∈ all_accepted →
    (∃ p, p ∈ genesis_block :: all_accepted ∧ block_id p = block_parent b ∧
       block_height b = block_height p + 1) ∧
    (justify_block_id b = 0%N ∨ extends (justify_block_id b) (block_parent b)).

(** ** Genesis in the store *)
Section proofs.
Context `{Bl : !BlockHashLaws}.

Lemma genesis_well_identified : well_identified genesis_block.
Proof. done. Qed.

Lemma genesis_id_nonzero : block_id genesis_block ≠ 0%N.
Proof. apply calculate_id_nonzero. Qed.

Definition stored b : Block := set_commit_qc (pc_calculate_id (b_justify b)) (set_justify_qc 0%N b).

Lemma blocks_insert_run b s :
  cs_blocks s !! block_id b = None →
  blocks_insert b s =
    (Ok tt, let s' := set_blocks (<[block_id b := b]> (cs_blocks s)) s in
            if N.eqb (block_id b) 0 then s'
            else set_pending (<[block_id b := block_parent b]> (cs_pending s)) s').
Proof.
  intros Hb. unfold blocks_insert, blocks_exists, bind, modify, ret. rewrite Hb.
  rewrite bool_decide_eq_false_2 by (by intros [? ?]). by destruct (N.eqb _ _).
Qed.

Lemma add_justify_run b b' s :
  cs_blocks s !! block_id b = Some b' →
  add_justify_qc b 0%N s =
    (Ok tt, set_blocks (<[block_id b := set_justify_qc 0%N b']> (cs_blocks s)) s).
Proof.
  intros Hb. unfold add_justify_qc, blocks_set_qcs, blocks_get, bind, modify, ret. by rewrite Hb.
Qed.

Lemma commit_run b b' q s :
  cs_blocks s !! block_id b = Some b' →
  commit_block_without_state_changes b q s =
    (Ok tt, set_blocks (<[block_id b := set_commit_qc q b']> (cs_blocks s))
              (set_pending (delete (block_id b) (cs_pending s)) s)).
Proof.
  intros Hb. unfold commit_block_without_state_changes, blocks_set_qcs, blocks_get, bind, modify, ret.
  by rewrite Hb.
Qed.

Lemma modify_run f s : modify (E := HotStuffError) f s = (Ok tt, f s : ConsensusStore).
Proof. done. Qed.

#[local] Arguments blocks_insert : simpl never.
#[local] Arguments add_justify_qc : simpl never.
#[local] Arguments commit_block_without_state_changes : simpl never.

Lemma create_zero_run z :
  block_id z = 0%N →
  (do! pc_save (b_justify z) in
   do! blocks_insert z in
   do! add_justify_qc z 0%N in
   commit_block_without_state_changes z (pc_calculate_id (b_justify z))) empty_store =
  (Ok tt, MkConsensusStore {[0%N := stored z]} ∅
     {[(pc_epoch (b_justify z), pc_calculate_id (b_justify z)) := b_justify z]} ∅
     None None None None None None None None None).
Proof.
  intros Hz. unfold bind, pc_save. rewrite modify_run.
  rewrite blocks_insert_run by done. rewrite Hz. simpl.
  rewrite (add_justify_run z z) by (simpl; rewrite Hz; apply lookup_insert_eq). simpl.
  rewrite (commit_run z (set_justify_qc 0%N z)) by (simpl; rewrite Hz; apply lookup_insert_eq).
  unfold set_blocks, set_pending, set_certificates. simpl.
  rewrite Hz, !insert_insert_eq, !insert_empty, delete_empty. done.
Qed.

(** The store of a validator before its first proposal. *)
Record genesis_store (z g : Block) (s : ConsensusStore) : Prop := {
  gs_blocks : cs_blocks s = <[block_id g := stored g]> {[0%N := stored z]};
  gs_pending : cs_pending s = ∅;
  gs_highest_seen : cs_highest_seen s = Some (block_ref g);
  gs_high_pc : cs_high_pc s = Some (as_high_pc (b_justify g));
  gs_leaf : cs_leaf s = Some (block_ref g);
  gs_locked : cs_locked s = Some (block_ref g);
  gs_last_executed : cs_last_executed s = Some (block_ref g);
  gs_last_voted : cs_last_voted s = Some (block_ref g);
}.

Lemma create_genesis_spec z g :
  block_id z = 0%N → block_epoch z ≠ es_epoch es → block_id g ≠ 0%N →
  ∃ s, create_genesis z g empty_store = (Ok tt, s) ∧ genesis_store z g s.
Proof.
  intros Hz Hze Hg. unfold create_genesis, bind at 1 2, blocks_exists.
  rewrite Hz, bool_decide_eq_false_2 by (by intros [? ?]).
  rewrite create_zero_run by done. unfold bind, blocks_get_all_ids_by_height. simpl.
  rewrite map_to_list_singleton, filter_cons_False, filter_nil by (intros [H _]; by destruct Hze).
  rewrite fmap_nil. simpl. rewrite blocks_insert_run by (by apply lookup_singleton_ne).
  rewrite (add_justify_run g g) by (destruct (N.eqb _ _); apply lookup_insert_eq).
  rewrite (commit_run g (set_justify_qc 0%N g)) by apply lookup_insert_eq.
  destruct (N.eqb_spec (block_id g) 0) as [|_]; [done|].
  eexists. split; [reflexivity|]. split; [|apply delete_singleton_eq|reflexivity..].
  cbn [cs_blocks set_blocks set_pending set_certificates set_locked set_leaf set_highest_seen
    set_last_executed set_last_voted set_high_pc]. by rewrite !insert_insert_eq.
Qed.

(** ** The tree of accepted blocks *)
Definition verified b : Prop :=
  justifies_zero_block (b_justify b) = true ∨
  check_quorum_certificate_signatures (b_justify b) (es_local_committee es) = Ok tt.

Lemma check_local_verified b :
  check_local_proposal config es b = Ok tt → 0 ≤ block_height b ∧ verified b.
Proof.
  intros H. unfold check_local_proposal, check_proposal, check_quorum_certificate, check_block,
    check_height, check in H. inv_ok. split.
  { repeat case_match; try done. inv_ok. unfold u64_add, u64_checked_add in *. inv_ok.
    match goal with H : uint_checked _ _ = Some _ |- _ => apply uint_checked_Some in H end.
    repeat case_match; try done. bool_to_prop. lia. }
  case_match; [done|]. right.
  by destruct x.
Qed.

Lemma accepted_spec n ev b :
  b ∈ accepted n ev →
  well_identified b ∧ block_epoch b = es_epoch es ∧ 0 ≤ block_height b ∧ verified b.
Proof.
  unfold accepted. destruct (decode_block ev.2) as [c|] eqn:Hdec; [|by intros ?%elem_of_nil].
  destruct (check_local_proposal config es c) as [[]|e|] eqn:Hc; [|by intros ?%elem_of_nil..].
  destruct (validate_new_block es c (nd_store n)).1 as [[v|]|e|] eqn:Hv; [|by intros ?%elem_of_nil..].
  destruct (env_foreign_proposals_valid ev.1); [|by intros ?%elem_of_nil].
  apply validate_new_Ok, validate_Ok in Hv as (_ & Hvb & He & _ & _ & Hds & _).
  apply check_local_verified in Hc as [Hh Hc].
  intros [Hb|Hb]%elem_of_app.
  - apply (proj1 (list.Forall_forall _ _) Hds) in Hb as (Hw & Hj & Hd & Hdh).
    split_and!; [done|congruence|done|]. unfold verified. by rewrite Hj.
  - apply list_elem_of_singleton in Hb as ->. rewrite Hvb.
    split_and!; [by eapply decode_block_well_identified|done..].
Qed.

Lemma accepted_blocks_spec n evs b :
  b ∈ accepted_blocks n evs → well_identified b ∧ block_epoch b = es_epoch es ∧ 0 ≤ block_height b ∧ verified b.
Proof.
  revert n. induction evs as [|ev evs IH]; intros n; simpl; [by intros ?%elem_of_nil|].
  intros [Hb|Hb]%elem_of_app; [by eapply accepted_spec|by eapply IH].
Qed.

Lemma all_accepted_spec b :
  b ∈ all_accepted → well_identified b ∧ block_epoch b = es_epoch es ∧ 0 ≤ block_height b ∧ verified b.
Proof.
  unfold all_accepted. intros (k & Hk & _)%list_elem_of_bind. by eapply accepted_blocks_spec.
Qed.

Definition tree_blocks : list Block := zero_block_ :: genesis_block :: all_accepted.
Definition tree : gmap BlockId Block := list_to_map ((λ b, (block_id b, b)) <$> tree_blocks).
Definition known (x : BlockId) : Prop := is_Some (tree !! x).
Definition tree_parent (x : BlockId) : BlockId := from_option block_parent 0%N (tree !! x).
Definition tree_justify (x : BlockId) : BlockId := from_option justify_block_id 0%N (tree !! x).
Definition tree_height (x : BlockId) : Z := from_option block_height 0 (tree !! x).

Lemma tree_lookup x b : tree !! x = Some b → b ∈ tree_blocks ∧ block_id b = x.
Proof.
  intros H. apply elem_of_list_to_map_2 in H. apply list_elem_of_fmap in H as (b' & [= -> ->] & Hb). done.
Qed.

Lemma tree_nonzero b : b ∈ genesis_block :: all_accepted → well_identified b ∧ block_id b ≠ 0%N.
Proof.
  intros Hb. assert (well_identified b) as Hw.
  { apply elem_of_cons in Hb as [->|Hb]; [apply genesis_well_identified|by apply all_accepted_spec]. }
  split; [done|]. destruct Hw as [-> _]. apply calculate_id_nonzero.
Qed.

Lemma tree_agrees b :
  b ∈ tree_blocks → agrees known tree_parent tree_justify tree_height b.
Proof.
  intros Hb. unfold agrees, known, tree_parent, tree_justify, tree_height.
  assert (∃ b', tree !! block_id b = Some b') as (b' & Hb').
  { destruct (tree !! block_id b) eqn:Hn; [by eexists|]. exfalso.
    apply not_elem_of_list_to_map_2 in Hn. apply Hn. rewrite <- list_fmap_compose.
    apply list_elem_of_fmap. by exists b. }
  pose proof (tree_lookup _ _ Hb') as [Hin Hid]. rewrite Hb'. simpl.
  assert (b' = b ∨ well_identified b ∧ well_identified b') as [->|[Hw Hw']]; [| |].
  { apply elem_of_cons in Hb as [->|Hb], Hin as [->|Hin]; [by left| | |].
    - apply tree_nonzero in Hin as [_ Hz]. by destruct Hz.
    - apply tree_nonzero in Hb as [_ Hz]. by destruct Hz.
    - right. by split; apply tree_nonzero. }
  - split_and!; [by eexists|done..].
  - destruct (same_id b' b) as (? & ? & ?); [done..|]. split_and!; [by eexists|done..].
Qed.

Notation root := (root (block_id genesis_block)).
Notation certified := (certified es).
Notation anc := (anc root tree_parent).

Lemma tree_zero : agrees known tree_parent tree_justify tree_height zero_block_.
Proof. apply tree_agrees. by left. Qed.
Lemma tree_genesis : agrees known tree_parent tree_justify tree_height genesis_block.
Proof. apply tree_agrees. right. by left. Qed.

Lemma tree_root x : root x → tree_height x = 0 ∧ tree_parent x = 0%N ∧ tree_justify x = 0%N.
Proof.
  intros [-> | ->].
  - destruct tree_zero as (_ & Hp & Hj & Hh). change (block_id zero_block_) with 0%N in *.
    rewrite Hp, Hj, Hh. done.
  - destruct tree_genesis as (_ & Hp & Hj & Hh). rewrite Hp, Hj, Hh. done.
Qed.

Section safety.
Context (Hextend : proposals_extend).

Lemma parent_in_tree b :
  b ∈ all_accepted →
  known (block_parent b) ∧ block_height b = tree_height (block_parent b) + 1 ∧
  0 ≤ tree_height (block_parent b).
Proof.
  intros Hb. destruct (Hextend b Hb) as [(p & Hp & Hid & Hh) _].
  destruct (tree_agrees p) as (Hk & _ & _ & Hph); [by right|]. rewrite <- Hid, Hph.
  split_and!; [done|done|]. apply elem_of_cons in Hp as [->|Hp]; [done|].
  by apply all_accepted_spec in Hp as (_ & _ & ? & _).
Qed.

Lemma accepted_not_root b : b ∈ all_accepted → ¬ root (block_id b).
Proof.
  intros Hb. pose proof (tree_nonzero b) as [Hw Hnz]; [by right|].
  destruct (parent_in_tree b Hb) as (_ & Hh & Hp). intros [Hz|Hg]; [done|].
  destruct (same_id b genesis_block) as (_ & Hbh & _); [done..|].
  change (block_height genesis_block) with 0 in Hbh. lia.
Qed.

(** A block of the tree is the root or an accepted block. *)
Lemma known_cases x :
  known x → root x ∨
  ∃ b, b ∈ all_accepted ∧ block_id b = x ∧ ¬ root x ∧ tree_parent x = block_parent b ∧
    tree_justify x = justify_block_id b ∧ tree_height x = block_height b.
Proof.
  intros [b Hx]. apply tree_lookup in Hx as [Hb <-].
  pose proof (tree_agrees b Hb) as (_ & ? & ? & ?).
  apply elem_of_cons in Hb as [->|[->|Hb]%elem_of_cons]; [left; by left|left; by right|].
  right. exists b. split_and!; [done|done|by apply accepted_not_root|done..].
Qed.

Lemma tree_known_parent x :
  known x → ¬ root x → known (tree_parent x) ∧ tree_height x = tree_height (tree_parent x) + 1.
Proof.
  intros [Hr|(b & Hb & <- & _ & -> & _ & ->)]%known_cases Hnr; [done|].
  by destruct (parent_in_tree b Hb) as (? & ? & _).
Qed.

Lemma tree_height_nonneg x : known x → 0 ≤ tree_height x.
Proof.
  intros [Hr|(b & Hb & <- & _ & _ & _ & ->)]%known_cases.
  - apply tree_root in Hr as [-> _]. done.
  - destruct (parent_in_tree b Hb) as (_ & ? & ?). lia.
Qed.

Lemma extends_anc a x : extends a x → anc a x.
Proof.
  induction 1 as [|b Hb _ IH]; [apply anc_refl|]. apply anc_step; [by apply accepted_not_root|].
  destruct (tree_agrees b) as (_ & -> & _); [by do 2 right|]. done.
Qed.

Lemma anc_extends a x : known x → anc a x → extends a x.
Proof.
  intros Hx Ha. induction Ha as [|x Hr Ha IH]; [apply extends_refl|].
  destruct (known_cases x Hx) as [?|(b & Hb & <- & _ & Hp & _)]; [done|].
  rewrite Hp in *. apply extends_step; [done|]. apply IH. by apply parent_in_tree.
Qed.

(** A certificate for a block of the tree that is not the zero block carries a
    quorum of signatures. *)
Lemma verified_certified b :
  verified b → known (justify_block_id b) → justify_block_id b ≠ 0%N → certified (justify_block_id b).
Proof.
  intros Hv Hk Hnz. exists (b_justify b).
  assert (justifies_zero_block (b_justify b) = false) as Hjz.
  { destruct (justifies_zero_block (b_justify b)) eqn:Hjz; [|done]. exfalso.
    unfold justifies_zero_block in Hjz. apply N.eqb_eq in Hjz.
    destruct Hk as [b' Hb']. apply tree_lookup in Hb' as [Hin Hid].
    apply elem_of_cons in Hin as [->|Hin]; [by destruct Hnz|].
    apply tree_nonzero in Hin as [[Hw _] _]. rewrite Hw in Hid.
    unfold calculate_id, justify_block_id, calculate_block_id in Hid.
    apply from_parent_inj in Hid as [_ Hh]. rewrite Hjz in Hh. by apply hash_header_nonzero in Hh. }
  split_and!; [done..|]. destruct Hv as [?|?]; [congruence|done].
Qed.

Lemma tree_known_justify x :
  known x → ¬ root x →
  known (tree_justify x) ∧ tree_height (tree_justify x) < tree_height x ∧
  (tree_justify x = 0%N ∨ certified (tree_justify x) ∧ anc (tree_justify x) x).
Proof.
  intros Hx Hnr. destruct (known_cases x Hx) as [?|(b & Hb & Hid & _ & Hp & Hj & Hh)]; [done|].
  rewrite Hj, Hh. destruct (parent_in_tree b Hb) as (Hkp & Hph & Hnn).
  destruct (decide (justify_block_id b = 0%N)) as [Hz|Hnz].
  { rewrite Hz. destruct tree_zero as (Hk0 & _ & _ & Hh0). change (block_id zero_block_) with 0%N in *.
    change (block_height zero_block_) with 0 in Hh0. split_and!; [done|lia|by left]. }
  destruct (Hextend b Hb) as [_ [?|Hext]]; [done|]. apply extends_anc in Hext.
  pose proof (anc_known _ _ _ _ tree_known_parent _ _ Hkp Hext) as Hkj.
  destruct (anc_height _ _ _ _ tree_known_parent _ _ Hkp Hext) as [He|Hlt].
  1: rewrite He in *. all: split_and!; [done|lia|right; split].
  1,3: rewrite <- ?He; apply verified_certified; rewrite ?He; try done; by apply all_accepted_spec.
  all: apply anc_step; [done|]; rewrite Hp; try done; apply anc_refl.
Qed.

(** ** Honest validators *)
Context (Hepoch : es_epoch es ≠ 0).
Notation gid := (block_id genesis_block).
Notation store_ok := (store_ok es gid known tree_parent tree_justify tree_height).
Notation node_ok := (node_ok es gid known tree_parent tree_justify tree_height).
Notation three_chain := (three_chain known root certified tree_parent tree_justify).

Lemma stored_agrees b :
  agrees known tree_parent tree_justify tree_height b →
  agrees known tree_parent tree_justify tree_height (stored b).
Proof. done. Qed.

Lemma genesis_store_ok s : genesis_store zero_block_ genesis_block s → store_ok s.
Proof.
  intros Hs. pose proof tree_genesis as (Hkg & _ & _ & Hhg). split.
  - intros x b. rewrite (gs_blocks _ _ _ Hs). intros Hx.
    apply lookup_insert_Some in Hx as [[<- <-]|[_ Hx]].
    + split_and!; [done|apply stored_agrees, tree_genesis|done].
    + apply lookup_singleton_Some in Hx as [<- <-].
      split_and!; [done|apply stored_agrees, tree_zero|done].
  - intros x p. by rewrite (gs_pending _ _ _ Hs), lookup_empty.
  - rewrite (gs_locked _ _ _ Hs). eexists. split; [done|].
    split_and!; [done|exact Hkg|exact Hhg|left; by right].
  - rewrite (gs_high_pc _ _ _ Hs), (gs_locked _ _ _ Hs). eexists. split; [done|].
    split_and!; [done|done|]. intros _. split; [done|]. by eexists.
  - rewrite (gs_last_executed _ _ _ Hs). by eexists.
  - rewrite (gs_last_voted _ _ _ Hs). by eexists.
Qed.

Lemma initial_node_ok : node_ok initial_node.
Proof.
  destruct (create_genesis_spec zero_block_ genesis_block) as (s & Hs & Hgs); [done|done|apply genesis_id_nonzero|].
  unfold initial_node, create_genesis_block_if_required. rewrite Hs. apply genesis_store_ok in Hgs.
  assert (∀ l1 (x : BlockId) l2, voted (MkNode s [] []) = l1 ++ x :: l2 → False) as Hno by (by intros []).
  split; [exact Hgs|..].
  - by intros x ?%elem_of_nil.
  - by intros lv x _ ?%elem_of_nil.
  - by intros x ?%elem_of_nil.
  - by intros l1 x l2 y ?%Hno.
  - by intros l1 x l2 y ?%Hno.
  - by intros b ?%elem_of_nil.
Qed.

Lemma receive_ok n ev :
  node_ok n → sound_step n ev → (∀ b, b ∈ accepted n ev → b ∈ all_accepted) → node_ok (receive n ev).
Proof.
  intros Hn [Hev Hsafe] Hacc. unfold receive, receive_proposal. unfold accepted in Hacc.
  destruct (decode_block ev.2) as [b|]; [|done]. specialize (Hsafe b).
  destruct (check_local_proposal config es b) as [u|e|]; [|done..].
  destruct (handle_proposal ev.1 es b n) as [r n'] eqn:Hh.
  eapply (handle_proposal_ok es gid known tree_parent tree_justify tree_height tree_known_parent);
    [apply tree_root|apply tree_root|apply tree_root|apply tree_height_nonneg|apply tree_known_justify
    |exact Hn|exact Hev| |exact Hh].
  intros v Hv Hf. rewrite Hv, Hf in Hacc.
  assert (∀ d, d ∈ vb_dummy_blocks v ++ [vb_block v] →
    storable es known tree_parent tree_justify tree_height d ∧ ¬ root (block_id d)) as Hst.
  { intros d Hd%Hacc. split; [|by apply accepted_not_root]. split_and!.
    - apply tree_agrees. by do 2 right.
    - apply tree_nonzero. by right.
    - by apply all_accepted_spec. }
  split_and!.
  - apply list.Forall_forall. intros d Hd. apply Hst. apply elem_of_app. by left.
  - apply Hst. apply elem_of_app. right. by left.
  - apply Hst. apply elem_of_app. right. by left.
  - by apply Hsafe.
Qed.

Lemma run_ok n evs :
  node_ok n → sound_run n evs → (∀ b, b ∈ accepted_blocks n evs → b ∈ all_accepted) →
  node_ok (run n evs).
Proof.
  revert n. induction evs as [|ev evs IH]; intros n Hn Hs Hacc; [done|]. simpl in *.
  destruct Hs as [Hs Hss]. apply IH; [|done|].
  - apply receive_ok; [done..|]. intros b Hb. apply Hacc, elem_of_app. by left.
  - intros b Hb. apply Hacc, elem_of_app. by right.
Qed.

Context (Hsound : ∀ k, k ∈ honest_members → sound_run initial_node (history k)).

Lemma replica_ok k : k ∈ honest_members → node_ok (replica k).
Proof.
  intros Hk. apply run_ok; [apply initial_node_ok|by apply Hsound|].
  intros b Hb. apply list_elem_of_bind. by exists k.
Qed.

(** ** Quorums *)
Context (Hunforged : ∀ k x d sig, k ∈ honest_members → verify_vote k x d sig = true →
  (x, d) ∈ nd_votes (replica k)).
Notation committee := (es_local_committee es).
Context (power faults : Z).
Context (Hpowers : powers_ok committee).
Context (Hpower : total_power (E := HotStuffError) committee = Ok power) (Hpos : 0 < power).
Context (Hfaults : max_failures (E := HotStuffError) committee = Ok faults).
Context (Hfew : members_power committee (λ k, negb (honest k)) ≤ faults).

Definition signed_by (sigs : list ValidatorSignature) (k : PublicKeyBytes) : bool :=
  bool_decide (k ∈ vs_public_key <$> sigs).

(** The power counted for a certificate is that of distinct members. *)
Lemma check_signatures_power pc sigs dups total t :
  check_signatures pc committee sigs dups total = Ok t →
  t - total ≤ members_power committee (λ k, signed_by sigs k && negb (bool_decide (k ∈ dups))) ∧
  ∀ k, signed_by sigs k = true → ∃ sig, verify_vote k (calculate_block_id pc) (pc_decision pc) sig = true.
Proof.
  revert dups total. induction sigs as [|sig sigs IH]; intros dups total; simpl.
  - intros [= <-]. split; [rewrite Z.sub_diag; by apply members_power_nonneg|]. done.
  - destruct (get_power_by_public_key committee (vs_public_key sig)) as [p|] eqn:Hp; [|done]. simpl.
    destruct (u64_add total p) as [total'|e|] eqn:Ht; [|done..]. simpl.
    case_bool_decide as Hdup; [done|].
    destruct (verify_vote _ _ _ _) eqn:Hver; [|done]. simpl. intros H.
    apply IH in H as [Hle Hall]. apply (power_of_key _ _ _ Hpowers) in Hp.
    unfold u64_add, u64_checked_add in Ht. apply expect_Ok, uint_checked_Some in Ht as [-> _]. split.
    + pose proof (members_power_union committee (λ k, bool_decide (k = vs_public_key sig))
        (λ k, signed_by sigs k && negb (bool_decide (k ∈ {[vs_public_key sig]} ∪ dups)))) as Hu. cbv beta in Hu.
      rewrite (members_power_none committee (λ k, bool_decide (k = vs_public_key sig) &&
        (signed_by sigs k && negb (bool_decide (k ∈ {[vs_public_key sig]} ∪ dups))))) in Hu.
      2: { intros k. case_bool_decide; [|done]. rewrite (bool_decide_eq_true_2 (k ∈ _)) by set_solver.
           by destruct (signed_by sigs k). }
      transitivity (members_power committee (λ k, bool_decide (k = vs_public_key sig) ||
        signed_by sigs k && negb (bool_decide (k ∈ {[vs_public_key sig]} ∪ dups)))); [lia|].
      apply members_power_mono; [done|].
      intros k. unfold signed_by. simpl. rewrite !orb_true_iff, !andb_true_iff, !negb_true_iff,
        !bool_decide_eq_true, !bool_decide_eq_false. set_solver.
    + intros k. unfold signed_by. rewrite bool_decide_eq_true. simpl.
      intros [->|Hk]%elem_of_cons; [by eexists|]. apply Hall. by apply bool_decide_eq_true.
Qed.

Lemma certified_quorum x :
  certified x → ∃ P d t, quorum_threshold (E := HotStuffError) committee = Ok t ∧
    t ≤ members_power committee P ∧
    ∀ k, P k = true → ∃ sig, verify_vote k x d sig = true.
Proof.
  intros (pc & <- & Hz & H). unfold check_quorum_certificate_signatures in H. rewrite Hz in H.
  apply res_bind_Ok in H as (v & Hv & H). apply res_bind_Ok in H as (t & Ht & H).
  unfold check in H. destruct (Z.leb_spec t v) as [Htv|]; [|done].
  apply check_signatures_power in Hv as [Hle Hall].
  exists (λ k, signed_by (pc_signatures pc) k && negb (bool_decide (k ∈ (∅ : gset PublicKeyBytes)))), (pc_decision pc), t.
  split_and!; [done|rewrite Z.sub_0_r in Hle; by transitivity v|].
  intros k Hk. apply Hall. by apply andb_true_iff in Hk as [? _].
Qed.

Lemma quorums_meet x y :
  certified x → certified y →
  ∃ k, k ∈ honest_members ∧ x ∈ voted (replica k) ∧ y ∈ voted (replica k).
Proof.
  intros (P & d & t & Ht & HP & HPs)%certified_quorum (Q & d' & t' & Ht' & HQ & HQs)%certified_quorum.
  rewrite Ht in Ht'. injection Ht' as <-.
  destruct (quorum_intersection (E := HotStuffError) committee P Q (λ k, negb (honest k)) power t faults)
    as (m & Hm & HmP & HmQ & Hh); [done..|].
  exists (cm_public_key m).
  assert (cm_public_key m ∈ honest_members) as Hk.
  { apply list_elem_of_filter. split; [by apply negb_false_iff|]. apply list_elem_of_fmap. by exists m. }
  destruct (HPs _ HmP) as [sig Hsig], (HQs _ HmQ) as [sig' Hsig'].
  apply (Hunforged _ _ _ _ Hk) in Hsig, Hsig'.
  split_and!; [done|apply list_elem_of_fmap; by exists (x, d)|apply list_elem_of_fmap; by exists (y, d')].
Qed.

Definition honest_votes (k : PublicKeyBytes) : list BlockId :=
  if decide (k ∈ honest_members) then voted (replica k) else [].

Lemma honest_votes_split k l1 x l2 :
  honest_votes k = l1 ++ x :: l2 → k ∈ honest_members ∧ voted (replica k) = l1 ++ x :: l2.
Proof. unfold honest_votes. case_decide; [done|]. by destruct l1. Qed.

(** What honest validators commit lies on one chain. *)
Lemma commits_agree k1 k2 b1 b2 :
  k1 ∈ honest_members → k2 ∈ honest_members →
  b1 ∈ nd_committed (replica k1) → b2 ∈ nd_committed (replica k2) →
  (extends (block_id b1) (block_id b2) ∨ extends (block_id b2) (block_id b1)) ∧
  (block_height b1 = block_height b2 → block_id b1 = block_id b2).
Proof.
  intros Hk1 Hk2 (Hag1 & h1 & Hh1 & Ha1)%(no_committed _ _ _ _ _ _ _ (replica_ok k1 Hk1))
    (Hag2 & h2 & Hh2 & Ha2)%(no_committed _ _ _ _ _ _ _ (replica_ok k2 Hk2)).
  pose proof Hag1 as (Hb1 & _ & _ & He1). pose proof Hag2 as (Hb2 & _ & _ & He2).
  rewrite <- He1, <- He2.
  destruct (three_chains_agree (V := PublicKeyBytes) known root certified tree_parent tree_justify tree_height
    honest_votes) with (b := h1) (c := h2) (x := block_id b1) (y := block_id b2) as [H|H]; try done.
  - apply tree_known_parent.
  - apply tree_root.
  - apply tree_height_nonneg.
  - intros x Hx Hr. destruct (tree_known_justify x Hx Hr) as (? & ? & [Hz|?]); split_and!; try done.
    + left. left. exact Hz.
    + by right.
  - intros k x. unfold honest_votes. case_decide as Hk; [|by intros ?%elem_of_nil].
    apply (no_known _ _ _ _ _ _ _ (replica_ok k Hk)).
  - intros k l1 x l2 y [Hk H]%honest_votes_split. by eapply (no_increase _ _ _ _ _ _ _ (replica_ok k Hk)).
  - intros k l1 x l2 y [Hk H]%honest_votes_split. by eapply (no_safe _ _ _ _ _ _ _ (replica_ok k Hk)).
  - intros x y Hx Hy. destruct (quorums_meet x y Hx Hy) as (k & Hk & ? & ?). exists k.
    unfold honest_votes. by rewrite decide_True.
  - split; [left; by apply anc_extends|]. intros Heq.
    destruct (anc_height _ _ _ _ tree_known_parent _ _ Hb2 H) as [?|?]; [done|lia].
  - split; [right; by apply anc_extends|]. intros Heq.
    destruct (anc_height _ _ _ _ tree_known_parent _ _ Hb1 H) as [?|?]; [done|lia].
Qed.
End safety.
End proofs.
End replica.
