(* ===== verification/HotStuffRuns.v ===== *)
(** * Runs of a committee

    The agreement theorem, with a concrete committee whose run satisfies its
    assumptions, and runs of the handler on proposals that do not: what
    [on_receive_local_proposal.rs] accepts although the protocol relies on it
    not being proposed.

    The example instantiates the hash functions by [memo]: injective functions
    that are small on the inputs of the run. *)
From stdpp Require Import base gmap list numbers.
From S2P Require Import Prelude Ids Sharding Committee Blocks BlockStore HotStuff HotStuffSafety.
Open Scope Z_scope.

(** ** Deciding the assumptions of a run *)
Section checkers.
Context `{Bh : !BlockHashes} `{Sg : !Signatures}.
Context (config : HotstuffConfig) (es : EpochState) (state_root : FixedHash) (now : Z).
Context (honest : PublicKeyBytes → bool) (history : PublicKeyBytes → list (Environment * Block)).

Fixpoint extendsb (fuel : nat) (blocks : list Block) (a x : BlockId) : bool :=
  N.eqb a x ||
  match fuel with
  | O => false
  | S fuel => existsb (λ b, N.eqb (block_id b) x && extendsb fuel blocks a (block_parent b)) blocks
  end.

Notation all_accepted := (all_accepted config es state_root now honest history).
Notation extends := (extends config es state_root now honest history).

Lemma extendsb_extends fuel a x : extendsb fuel all_accepted a x = true → extends a x.
Proof.
  revert x. induction fuel as [|fuel IH]; intros x; simpl.
  - rewrite orb_false_r. intros ->%N.eqb_eq. apply extends_refl.
  - intros [->%N.eqb_eq|H]%orb_true_iff; [apply extends_refl|].
    apply existsb_exists in H as (b & Hb & [<-%N.eqb_eq He]%andb_true_iff).
    apply extends_step; [by apply list_elem_of_In|by apply IH].
Qed.

Definition proposals_extendb (fuel : nat) (genesis : Block) (blocks : list Block) : bool :=
  forallb (λ b,
    existsb (λ p, N.eqb (block_id p) (block_parent b) && (block_height b =? block_height p + 1))
      (genesis :: blocks) &&
    (N.eqb (justify_block_id b) 0 || extendsb fuel blocks (justify_block_id b) (block_parent b))) blocks.

Lemma proposals_extendb_spec fuel :
  proposals_extendb fuel (genesis_block config es state_root) all_accepted = true →
  proposals_extend config es state_root now honest history.
Proof.
  unfold proposals_extendb. rewrite forallb_forall. intros H b Hb%list_elem_of_In.
  specialize (H b Hb). apply andb_true_iff in H as [Hp Hj]. split.
  - apply existsb_exists in Hp as (p & Hp & [Hid%N.eqb_eq Hh%Z.eqb_eq]%andb_true_iff).
    exists p. split; [by apply list_elem_of_In|done].
  - apply orb_true_iff in Hj as [Hj%N.eqb_eq|Hj]; [by left|right]. by eapply extendsb_extends.
Qed.

(** No step of the run needs dummy blocks. *)
Definition no_dummies (n : Node) (b : Block) : bool :=
  match decode_block b with
  | None => true
  | Some b =>
      match (validate_new_block es b (nd_store n)).1 with
      | Ok (Some (MkValidBlock _ (_ :: _))) => false
      | _ => true
      end
  end.

Fixpoint run_without_dummies (env : Environment) (n : Node) (bs : list Block) : bool :=
  match bs with
  | [] => true
  | b :: bs => no_dummies n b && run_without_dummies env (receive config es n (env, b)) bs
  end.

Lemma run_without_dummies_sound env n bs :
  (∀ id pk, env_is_node_evicted env id pk = Ok false) → run_without_dummies env n bs = true →
  sound_run config es n (pair env <$> bs).
Proof.
  intros Hev. revert n. induction bs as [|b bs IH]; intros n; simpl; [done|].
  intros [Hn H]%andb_true_iff. split; [|by apply IH]. split; [done|]. simpl.
  intros b' v Hb Hv Hne. unfold no_dummies in Hn. rewrite Hb, Hv in Hn. by destruct v as [? []].
Qed.
End checkers.

(** ** Hash functions of the example *)
Section memo.
Context {A : Type} `{Countable A} (table : list A).

Definition memo (a : A) : N :=
  match list_find (a =.) table with
  | Some (i, _) => 2 * N.of_nat i + 2
  | None => N.pos (encode a)~1
  end.

Lemma memo_nonzero a : memo a ≠ 0%N.
Proof. unfold memo. destruct (list_find _ _) as [[i ?]|]; [lia|done]. Qed.

Lemma memo_inj a b : memo a = memo b → a = b.
Proof.
  unfold memo. destruct (list_find (a =.) table) as [[i a']|] eqn:Ha,
    (list_find (b =.) table) as [[j b']|] eqn:Hb; intros Heq.
  - apply list_find_Some in Ha as (Ha & <- & _), Hb as (Hb & <- & _).
    assert (i = j) as <- by lia. congruence.
  - lia.
  - lia.
  - injection Heq as Heq. by apply (inj encode) in Heq.
Qed.
End memo.

(** ** A committee of four, one of them faulty *)
Definition sg_all : ShardGroup := MkShardGroup 1 256.
Definition config0 : HotstuffConfig := MkHotstuffConfig 1%N None P256.
Definition es0 : EpochState := MkEpochState 1 9%N four_members (MkCommitteeInfo P256 4 1 sg_all 1 4).
Definition sigs0 : list ValidatorSignature :=
  [MkValidatorSignature 11 1; MkValidatorSignature 12 1; MkValidatorSignature 13 1]%N.

(** Inputs of the hash functions that occur: metadata, headers, certificates and
    blocks of the genesis block and of the blocks [chain 1] to [chain 5]. *)
Definition metadata_table : list (Z * Z * N * option N) := [(0, 0, 9%N, None); (0, 1, 9%N, None)].
Definition header_key (justify_id : N) (height : Z) (proposed_by metadata : N) :
    N * N * Z * Z * (Z * Z) * N * N * N * N :=
  (1%N, justify_id, height, 1, (1, 256), proposed_by, 7%N, 0%N, metadata).
Definition header_table : list (N * N * Z * Z * (Z * Z) * N * N * N * N) :=
  header_key 2 0 0 2 ::
  ((λ i : N, header_key (2 * i) (Z.of_N i) (11 + (i - 1) mod 4) 4) <$> [1; 2; 3; 4; 5]%N).
Definition qc_table : list (N * N * list ValidatorSignature * QuorumDecision) :=
  (0%N, 0%N, [], QAccept) ::
  ((λ i : N, (2 * i + 2, 2 * i, sigs0, QAccept)%N) <$> [1; 2; 3; 4]%N).
Definition block_table : list (N * N) :=
  (0, 2)%N :: ((λ i : N, (2 * i, 2 * i + 2)%N) <$> [1; 2; 3; 4; 5]%N).

#[local] Instance hashes0 : BlockHashes := {|
  hash_block p h := memo block_table (p, h);
  hash_header n j h e g b s c m :=
    memo header_table (n, j, h, e, (sg_start g, sg_end_inclusive g), b, s, c, m);
  hash_metadata f t e x := memo metadata_table (f, t, e, x);
  hash_qc h p s d := memo qc_table (h, p, s, d);
  hash_tc e h s := memo [] (e, h, s);
  commands_merkle_root l := match l with [] => 0%N | _ => memo [] l end;
|}.

#[local] Instance hash_laws0 : BlockHashLaws.
Proof.
  split; simpl; try done; try (intros; apply memo_nonzero).
  - intros p1 h1 p2 h2 H%memo_inj. by simplify_eq.
  - intros. apply memo_inj in H. destruct g1, g2. simpl in *. by simplify_eq.
  - intros. apply memo_inj in H. by simplify_eq.
Qed.

(** The block at height [i]: it extends the block at [i - 1] and carries a
    certificate for it. *)
Definition pc0 (i : N) : ProposalCertificate :=
  if N.eqb i 0 then pc_genesis 1 sg_all
  else MkProposalCertificate (Z.of_N i) (2 * i + 2) (2 * i) 1 sg_all sigs0 QAccept.
Definition chain (i : N) : Block :=
  block_new (header_create 1 (2 * i) (pc_calculate_id (pc0 (i - 1))) (Z.of_N i) 1 sg_all
               (11 + (i - 1) mod 4) 7 [] 0 1 1 9 None)%N (pc0 (i - 1)) [] None.

(** Each member signs the votes it casts and no other. *)
#[local] Instance signatures0 : Signatures := {|
  verify_vote k x d sig := N.eqb sig 1 && bool_decide (d = QAccept) && bool_decide (x ∈ [4; 6; 8; 10]%N);
  verify_header k x sig := N.eqb sig 1;
|}.

Definition env0 : Environment := {|
  env_decide _ _ := Ok None;
  env_finalize _ := Ok tt;
  env_evidence _ := Ok tt;
  env_is_node_evicted _ _ := Ok false;
  env_foreign_proposals_valid := true;
  env_is_epoch_end _ := false;
|}.

Definition honest0 (k : PublicKeyBytes) : bool := negb (N.eqb k 14).
Definition proposals0 (k : PublicKeyBytes) : list Block :=
  if N.eqb k 12 then chain <$> [1; 2; 3; 4; 2; 5]%N else chain <$> [1; 2; 3; 4]%N.
Definition history0 (k : PublicKeyBytes) : list (Environment * Block) := pair env0 <$> proposals0 k.
Definition replica0 : PublicKeyBytes → Node := replica config0 es0 7%N 0 history0.

(** ** Agreement *)

(** C1: No two honest validators commit conflicting blocks.  Members of a
    committee start from the genesis block and handle arbitrary sequences of
    proposals; if the faulty members hold at most [max_failures] of the voting
    power, a signature of an honest member on a vote means that it cast the
    vote, nobody is evicted, the accepted proposals form a tree in which
    blocks extend the blocks they carry certificates for, and the proposals
    that honest members accept with dummy blocks pass [is_safe], then of any two
    blocks committed by honest members one extends the other, and blocks
    committed at the same height are the same.  The last assumption is the
    second part of [sound_step]: the handler checks [is_safe] of the other
    proposals itself but skips it behind a timeout certificate, which it does
    not verify, so that agreement is not shown for a faulty leader that sends
    such a proposal. *)
Theorem committed_blocks_agree `{Bh : !BlockHashes} `{Bl : !BlockHashLaws} `{Sg : !Signatures}
    (config : HotstuffConfig) (es : EpochState) (state_root : FixedHash) (now : Z)
    (honest : PublicKeyBytes → bool) (history : PublicKeyBytes → list (Environment * Block))
    (power faults : Z) (k1 k2 : PublicKeyBytes) (b1 b2 : Block) :
  let committee := es_local_committee es in
  let replica := replica config es state_root now history in
  let extends := extends config es state_root now honest history in
  es_epoch es ≠ 0 →
  powers_ok committee → total_power (E := HotStuffError) committee = Ok power → 0 < power →
  max_failures (E := HotStuffError) committee = Ok faults →
  members_power committee (λ k, negb (honest k)) ≤ faults →
  (∀ k x d sig, k ∈ honest_members es honest → verify_vote k x d sig = true →
     (x, d) ∈ nd_votes (replica k)) →
  (∀ k, k ∈ honest_members es honest →
     sound_run config es (initial_node config es state_root now) (history k)) →
  proposals_extend config es state_root now honest history →
  k1 ∈ honest_members es honest → k2 ∈ honest_members es honest →
  b1 ∈ nd_committed (replica k1) → b2 ∈ nd_committed (replica k2) →
  (extends (block_id b1) (block_id b2) ∨ extends (block_id b2) (block_id b1)) ∧
  (block_height b1 = block_height b2 → block_id b1 = block_id b2).
Proof.
  intros committee replica extends He Hp Hpow Hpos Hf Hfew Hun Hs Hext Hk1 Hk2 Hb1 Hb2.
  by apply (commits_agree config es state_root now honest history Hext He Hs Hun power faults
    Hp Hpow Hpos Hf Hfew k1 k2).
Qed.

(** The run of the example: one member commits the block at height one, another
    those at heights one and two. *)
Lemma honest_members0 k : k ∈ honest_members es0 honest0 → k = 11%N ∨ k = 12%N ∨ k = 13%N.
Proof.
  change (honest_members es0 honest0) with [11; 12; 13]%N. set_solver.
Qed.

Lemma committed0 k i :
  head (block_id <$> nd_committed (replica0 k)) = Some i →
  ∃ b, b ∈ nd_committed (replica0 k) ∧ block_id b = i.
Proof.
  destruct (nd_committed (replica0 k)) as [|b l]; [done|]. intros [= <-]. exists b. split; [by left|done].
Qed.

Lemma votes0 k x :
  k ∈ honest_members es0 honest0 → x ∈ [4; 6; 8; 10]%N → (x, QAccept) ∈ nd_votes (replica0 k).
Proof.
  intros Hk. revert x. apply (list.Forall_forall (λ x, (x, QAccept) ∈ nd_votes (replica0 k))).
  apply (bool_decide_eq_true_1 (Forall (λ x, (x, QAccept) ∈ nd_votes (replica0 k)) [4; 6; 8; 10]%N)).
  apply honest_members0 in Hk as [-> |[-> | ->]]; vm_compute; reflexivity.
Qed.

Lemma sound0 k :
  k ∈ honest_members es0 honest0 → sound_run config0 es0 (initial_node config0 es0 7%N 0) (history0 k).
Proof.
  intros Hk. apply run_without_dummies_sound; [done|].
  apply honest_members0 in Hk as [-> |[-> | ->]]; vm_compute; reflexivity.
Qed.

Lemma extend0 : proposals_extend config0 es0 7%N 0 honest0 history0.
Proof. apply (proposals_extendb_spec _ _ _ _ _ _ 1). vm_compute. reflexivity. Qed.

Lemma committed_blocks_agree_witness :
  ∃ b1 b2, block_id b1 = 4%N ∧ block_id b2 = 6%N ∧
    b1 ∈ nd_committed (replica0 11%N) ∧ b2 ∈ nd_committed (replica0 12%N) ∧
    (extends config0 es0 7%N 0 honest0 history0 (block_id b1) (block_id b2) ∨
     extends config0 es0 7%N 0 honest0 history0 (block_id b2) (block_id b1)) ∧
    (block_height b1 = block_height b2 → block_id b1 = block_id b2).
Proof.
  destruct (committed0 11%N 4%N) as (b1 & Hb1 & Hid1); [vm_compute; reflexivity|].
  destruct (committed0 12%N 6%N) as (b2 & Hb2 & Hid2); [vm_compute; reflexivity|].
  exists b1, b2. split; [exact Hid1|]. split; [exact Hid2|]. split; [exact Hb1|]. split; [exact Hb2|].
  apply (committed_blocks_agree config0 es0 7%N 0 honest0 history0 4 1 11%N 12%N b1 b2).
  - done.
  - repeat constructor; done.
  - reflexivity.
  - lia.
  - reflexivity.
  - vm_compute. done.
  - intros k x d sig Hk Hv. simpl in Hv.
    apply andb_true_iff in Hv as [[_ Hd%bool_decide_eq_true]%andb_true_iff Hx%bool_decide_eq_true].
    rewrite Hd. exact (votes0 k x Hk Hx).
  - exact sound0.
  - exact extend0.
  - change (honest_members es0 honest0) with [11; 12; 13]%N. left.
  - change (honest_members es0 honest0) with [11; 12; 13]%N. right. left.
  - exact Hb1.
  - exact Hb2.
Defined.

(** ** Outside the assumptions *)

(** The next leader after height one is evicted. *)
Definition env_evicted : Environment := {|
  env_decide _ _ := Ok None;
  env_finalize _ := Ok tt;
  env_evidence _ := Ok tt;
  env_is_node_evicted _ pk := Ok (N.eqb pk 12);
  env_foreign_proposals_valid := true;
  env_is_epoch_end _ := false;
|}.

(** A second block for height one by the same leader, with another timestamp. *)
Definition equivocation : Block :=
  block_new (header_create 1 2 (pc_calculate_id (pc0 0)) 1 1 sg_all 11 7 [] 0 1 2 9 None)%N (pc0 0) []
    None.

(** With an evicted next leader the vote goes out with a new-view message and the
    last voted height is not recorded: the validator votes for both blocks. *)
Theorem evicted_leader_second_vote :
  fst <$> nd_votes (receive config0 es0 (receive config0 es0 (initial_node config0 es0 7%N 0)
    (env_evicted, chain 1%N)) (env_evicted, equivocation)) = [block_id equivocation; block_id (chain 1%N)] ∧
  block_height equivocation = block_height (chain 1%N) ∧ block_id equivocation ≠ block_id (chain 1%N).
Proof. vm_compute. split_and!; [done|done|done]. Qed.

(** A block at height two with a certificate for the block at height one, whose
    parent is not that block but a block nobody has seen. *)
Definition detached : Block :=
  block_new (header_create 1 99 (pc_calculate_id (pc0 1)) 2 1 sg_all 12 7 [] 0 1 1 9 None)%N (pc0 1) []
    None.

(** Validation looks the parent up only when it is the block the certificate is
    for: the validator stores the detached block and votes for it. *)
Lemma detached_block_accepted :
  let n := receive config0 es0 (initial_node config0 es0 7%N 0) (env0, chain 1%N) in
  let n' := receive config0 es0 n (env0, detached) in
  cs_blocks (nd_store n') !! block_parent detached = None ∧
  is_Some (cs_blocks (nd_store n') !! block_id detached) ∧
  (fst <$> nd_votes n') = [block_id detached; block_id (chain 1%N)] ∧
  justify_block_id detached = block_id (chain 1%N) ∧ block_parent detached ≠ justify_block_id detached.
Proof. vm_compute. split_and!; [done|by eexists|done..]. Qed.
