(* ===== verification/VoteCollector.v ===== *)
(** * Collecting votes

    How a leader turns votes into certificates
    ([consensus/src/hotstuff/vote_collector/{collector,helpers,
    proposal_collector,timeout_collector}.rs]) and the handlers of votes and of
    new-view messages ([on_receive_vote.rs], [on_receive_new_view.rs]).

    The collector is generic in the kind of vote (the [Vote] trait), with
    proposal votes and timeout votes as its two instances.  The registry of
    validators (the epoch manager), the node hash and the signatures on timeout
    votes are the class [ValidatorRegistry].  The order in which a [HashMap]
    yields its values is not specified; here it is that of [map_to_list], and
    the theorems hold for every order of the signatures in a certificate. *)
From stdpp Require Import base gmap list numbers.
From S2P Require Import Prelude Ids Sharding Committee Blocks BlockStore HotStuff.
Open Scope Z_scope.

(** ** Votes *)
Class Vote (V K : Type) := {
  vote_key : V → K;
  vote_epoch : V → Epoch;
  vote_height : V → NodeHeight;
  vote_decision : V → QuorumDecision;
  vote_signature : V → ValidatorSignature;
}.
#[export] Hint Mode Vote ! - : typeclass_instances.

Record ProposalVote := MkProposalVote {
  pv_epoch : Epoch;
  pv_block_id : BlockId;
  pv_block_height : NodeHeight; (* not covered by the signature *)
  pv_decision : QuorumDecision;
  pv_signature : ValidatorSignature;
}.
#[export] Instance ProposalVote_Vote : Vote ProposalVote BlockId := {|
  vote_key := pv_block_id;
  vote_epoch := pv_epoch;
  vote_height := pv_block_height;
  vote_decision := pv_decision;
  vote_signature := pv_signature;
|}.

Record TimeoutVote := MkTimeoutVote {
  tv_epoch : Epoch;
  tv_height : NodeHeight;
  tv_signature : ValidatorSignature;
}.
#[export] Instance TimeoutVote_Vote : Vote TimeoutVote (Epoch * NodeHeight) := {|
  vote_key v := (tv_epoch v, tv_height v);
  vote_epoch := tv_epoch;
  vote_height := tv_height;
  vote_decision _ := QAccept;
  vote_signature := tv_signature;
|}.

(** ** The collector *)
Record ThresholdDecision := MkThresholdDecision {
  td_decision : option QuorumDecision;
  td_total_power : Z;
}.

(** [VoteStoreInner]: (epoch, height) to key to sender hash to vote. *)
Notation VoteStore V K := (gmap (Epoch * NodeHeight) (gmap K (gmap FixedHash V))) (only parsing).

Section collector.
Context {V K : Type} `{Hk : Countable K} `{Hv : !Vote V K}.

Implicit Types (st : VoteStore V K) (v : V) (c : Committee N).

Definition vote_public_key v : PublicKeyBytes := vs_public_key (vote_signature v).
Definition view_of v : Epoch * NodeHeight := (vote_epoch v, vote_height v).

(** [BTreeMap::split_off]: the views from this one on, in lexicographic order. *)
Definition view_le (a b : Epoch * NodeHeight) : Prop := a.1 < b.1 ∨ (a.1 = b.1 ∧ a.2 ≤ b.2).
#[global] Instance view_le_dec a b : Decision (view_le a b).
Proof. unfold view_le. apply _. Defined.
Definition clear_votes_before (epoch : Epoch) (height : NodeHeight) st : VoteStore V K :=
  filter (λ p, view_le (epoch, Z.max 0 (height - 1)) p.1) st.

Definition keyed_votes st (view : Epoch * NodeHeight) (key : K) : gmap FixedHash V :=
  default ∅ (default ∅ (st !! view) !! key).

Definition save_vote (sender_hash : FixedHash) v st : bool * (VoteStore V K) :=
  let view_votes := default ∅ (st !! view_of v) in
  let votes := default ∅ (view_votes !! vote_key v) in
  match votes !! sender_hash with
  | Some _ => (false, st)
  | None => (true, <[view_of v := <[vote_key v := <[sender_hash := v]> votes]> view_votes]> st)
  end.

Definition take_votes_with_decision_for_key (epoch : Epoch) (height : NodeHeight) (key : K)
    (decision : QuorumDecision) st : option (list V) * (VoteStore V K) :=
  match st !! (epoch, height) with
  | None => (None, st)
  | Some keyed_votes =>
      let st := delete (epoch, height) st in
      match keyed_votes !! key with
      | None => (None, st)
      | Some votes => (Some (filter (λ v, vote_decision v = decision) (map_to_list votes).*2), st)
      end
  end.

(** The [for] loop over the votes, with [VotePower]'s [+=]. *)
Fixpoint count_votes c (votes : list V) (accept reject : Z) : res HotStuffError (Z * Z) :=
  match votes with
  | [] => Ok (accept, reject)
  | v :: votes =>
      let power := default 0 (get_power_by_public_key c (vote_public_key v)) in
      match vote_decision v with
      | QAccept => let? accept := u64_add accept power in count_votes c votes accept reject
      | QReject => let? reject := u64_add reject power in count_votes c votes accept reject
      end
  end.

Definition calculate_threshold_decision (epoch : Epoch) (height : NodeHeight) (key : K) c st :
    res HotStuffError ThresholdDecision :=
  match st !! (epoch, height) ≫= (.!! key) with
  | None => Ok (MkThresholdDecision None 0)
  | Some votes =>
      let? counts := count_votes c (map_to_list votes).*2 0 0 in
      let? quorum_threshold := quorum_threshold c in
      if quorum_threshold <=? counts.1 then Ok (MkThresholdDecision (Some QAccept) counts.1)
      else if quorum_threshold <=? counts.2 then Ok (MkThresholdDecision (Some QReject) counts.2)
      else let? total := u64_add counts.1 counts.2 in Ok (MkThresholdDecision None total)
  end.

Definition collect_vote (current_epoch : Epoch) (current_height : NodeHeight)
    (sender_hash : FixedHash) v c : M (VoteStore V K) HotStuffError (option (list V * QuorumDecision)) :=
  do! modify (clear_votes_before current_epoch current_height) in
  let! saved := (λ st, let r := save_vote sender_hash v st in (Ok r.1, r.2)) in
  if negb saved then ret None else
  let! threshold := lift (quorum_threshold c) in
  let! d := (λ st, (calculate_threshold_decision (vote_epoch v) (vote_height v) (vote_key v) c st, st)) in
  match td_decision d with
  | None => ret None
  | Some quorum_decision =>
      if td_total_power d <? threshold then ret None
      else
        λ st, let r := take_votes_with_decision_for_key (vote_epoch v) (vote_height v) (vote_key v)
                         quorum_decision st in
              (Ok ((λ votes, (votes, quorum_decision)) <$> r.1), r.2)
  end.
End collector.

(** ** Eligible voters *)
Record ValidatorNode := MkValidatorNode {
  vn_public_key : PublicKeyBytes;
  vn_shard_key : Z;
}.

Class ValidatorRegistry := {
  get_validator_node_by_public_key : Epoch → PublicKeyBytes → res HotStuffError (option ValidatorNode);
  vn_node_hash : N → PublicKeyBytes → Z → FixedHash;
  verify_timeout : PublicKeyBytes → Epoch → NodeHeight → N → bool;
}.

Inductive PacemakerSignal :=
  | ResetLeaderTimeout (height : NodeHeight)
  | Beat
  | ForceBeat (height : NodeHeight).

Record NewViewMessage := MkNewViewMessage {
  nv_high_pc : ProposalCertificate;
  nv_last_vote : option ProposalVote;
  nv_timeout : TimeoutVote;
}.

(** A leader: its store and its two collectors. *)
Record Leader := MkLeader {
  ld_store : ConsensusStore;
  ld_votes : VoteStore ProposalVote BlockId;
  ld_timeouts : VoteStore TimeoutVote (Epoch * NodeHeight);
}.
Definition set_ld_store (s : ConsensusStore) (l : Leader) : Leader :=
  MkLeader s (ld_votes l) (ld_timeouts l).
Definition set_ld_votes (vs : VoteStore ProposalVote BlockId) (l : Leader) : Leader :=
  MkLeader (ld_store l) vs (ld_timeouts l).
Definition set_ld_timeouts (vs : VoteStore TimeoutVote (Epoch * NodeHeight)) (l : Leader) : Leader :=
  MkLeader (ld_store l) (ld_votes l) vs.

Notation LeaderM A := (M Leader HotStuffError A).

Section leader.
Context `{Bh : !BlockHashes} `{Sg : !Signatures} `{Vr : !ValidatorRegistry}.
Context (config : HotstuffConfig) (es : EpochState) (local_addr : N).

(** [store.with_write_tx] and [store.with_read_tx]. *)
Definition write_tx {A : Type} (m : Tx A) : LeaderM A :=
  λ l, match m (ld_store l) with
       | (Ok a, s) => (Ok a, set_ld_store s l)
       | (r, _) => (r, l)
       end.
Definition read_tx {A : Type} (m : Tx A) : LeaderM A := λ l, ((m (ld_store l)).1, l).

Definition check_eligibility (epoch : Epoch) (public_key : PublicKeyBytes) :
    res HotStuffError ValidatorNode :=
  let? vn := get_validator_node_by_public_key epoch public_key in
  match vn with
  | None => Err ReceivedVoteFromNonCommitteeMember
  | Some sender_vn =>
      let? local := includes_substate_address (es_local_committee_info es) (vn_shard_key sender_vn) in
      if local then Ok sender_vn else Err ReceivedVoteFromNonCommitteeMember
  end.

Definition get_node_hash (vn : ValidatorNode) : FixedHash :=
  vn_node_hash (hc_network config) (vn_public_key vn) (vn_shard_key vn).

Definition validate_proposal_vote (v : ProposalVote) : res HotStuffError unit :=
  if negb (es_epoch es =? pv_epoch v) then Err InvalidVote
  else if verify_vote (vs_public_key (pv_signature v)) (pv_block_id v) (pv_decision v)
            (vs_signature (pv_signature v))
  then Ok tt else Err InvalidVoteSignature.

Definition validate_timeout_vote (v : TimeoutVote) : res HotStuffError unit :=
  if negb (es_epoch es =? tv_epoch v) then Err InvalidVote
  else if verify_timeout (vs_public_key (tv_signature v)) (tv_epoch v) (tv_height v)
            (vs_signature (tv_signature v))
  then Ok tt else Err InvalidVoteSignature.

Definition create_proposal_certificate (signatures : list ValidatorSignature)
    (quorum_decision : QuorumDecision) (b : Block) : ProposalCertificate :=
  MkProposalCertificate (block_height b) (calculate_hash (b_header b)) (block_parent b) (block_epoch b)
    (bh_shard_group (b_header b)) signatures quorum_decision.

(** [ProposalVoteCollector::check_and_collect_vote]. *)
Definition check_and_collect_vote (current_height : NodeHeight) (v : ProposalVote) :
    LeaderM (option (ProposalCertificate * HighPc)) :=
  let! sender_vn := lift (check_eligibility (pv_epoch v) (vs_public_key (pv_signature v))) in
  do! lift (validate_proposal_vote v) in
  let! quorum := zoom ld_votes set_ld_votes
    (collect_vote (es_epoch es) current_height (get_node_hash sender_vn) v (es_local_committee es)) in
  match quorum with
  | None => ret None
  | Some (quorum_votes, quorum_decision) =>
      let! maybe_block := read_tx (λ s, (Ok (cs_blocks s !! pv_block_id v), s)) in
      match maybe_block with
      | None => ret None
      | Some b =>
          let new_qc := create_proposal_certificate (vote_signature <$> quorum_votes) quorum_decision b in
          let! high_qc := write_tx (update_highest_pc new_qc) in
          ret (Some (new_qc, high_qc))
      end
  end.

(** [TimeoutVoteCollector::check_and_collect_vote]. *)
Definition check_and_collect_timeout (current_height : NodeHeight) (v : TimeoutVote) :
    LeaderM (option (TimeoutCertificate * HighTc)) :=
  let! sender_vn := lift (check_eligibility (tv_epoch v) (vs_public_key (tv_signature v))) in
  do! lift (validate_timeout_vote v) in
  let! quorum := zoom ld_timeouts set_ld_timeouts
    (collect_vote (es_epoch es) current_height (get_node_hash sender_vn) v (es_local_committee es)) in
  match quorum with
  | None => ret None
  | Some (quorum_votes, _) =>
      let new_tc := MkTimeoutCertificate (es_epoch es) (tv_height v) (vote_signature <$> quorum_votes) in
      let! high_tc := write_tx (update_highest_tc new_tc) in
      ret (Some (new_tc, high_tc))
  end.

(** A handler that logs an error and goes on. *)
Definition log_error {A : Type} (m : LeaderM (option A)) : LeaderM (option A) :=
  λ l, match m l with
       | (Err _, l') => (Ok None, l')
       | r => r
       end.

Definition check_leader_for_vote (v : ProposalVote) : res HotStuffError bool :=
  let? leader := get_leader (es_local_committee es) (pv_block_height v) in
  Ok (N.eqb leader.1 local_addr).

(** [OnReceiveVoteHandler::handle]: what it tells the pacemaker. *)
Definition on_receive_vote (current_height : NodeHeight) (v : ProposalVote) :
    LeaderM (list PacemakerSignal) :=
  let! ours := lift (check_leader_for_vote v) in
  if negb ours then ret []
  else
    let! r := log_error (check_and_collect_vote current_height v) in
    ret (match r with
         | Some (_, high_qc) => [ResetLeaderTimeout (hp_block_height high_qc); Beat]
         | None => []
         end).

(** The read transaction of [OnReceiveNewViewHandler::handle]. *)
Definition is_qc_valid (high_pc : ProposalCertificate) : Tx bool :=
  let! local_high_qc := (λ s, (ok_or (high_pc_get s (es_epoch es)) (HsStorageError NotFound), s)) in
  if pc_height high_pc <? hp_block_height local_high_qc then ret false
  else if negb (pc_epoch high_pc =? es_epoch es) then ret false
  else
    match check_quorum_certificate_signatures high_pc (es_local_committee es) with
    | Ok _ =>
        let! exists_ := blocks_exists (calculate_block_id high_pc) in
        if exists_ then ret true else throw FallenBehind
    | Err _ => ret false
    | Panic => panic
    end.

(** [OnReceiveNewViewHandler::handle]. *)
Definition on_receive_new_view (current_height : NodeHeight) (message : NewViewMessage) :
    LeaderM (list PacemakerSignal) :=
  let timeout_height := tv_height (nv_timeout message) in
  if negb (pc_epoch (nv_high_pc message) =? es_epoch es) then ret []
  else if timeout_height <? current_height then ret []
  else
    let! valid := read_tx (is_qc_valid (nv_high_pc message)) in
    if negb valid then ret []
    else
      let! leader := lift (get_leader (es_local_committee es) timeout_height) in
      if negb (N.eqb leader.1 local_addr) then ret []
      else
        do! match nv_last_vote message with
            | Some vote => do! log_error (check_and_collect_vote current_height vote) in ret tt
            | None => ret tt
            end in
        let! r := check_and_collect_timeout current_height (nv_timeout message) in
        match r with
        | None => ret []
        | Some (timeout_certificate, high_tc) =>
            if N.eqb (tc_calculate_id timeout_certificate) (ht_tc_id high_tc) then
              do! write_tx (modify (set_last_sent_new_view None)) in
              ret [ForceBeat (ht_height high_tc)]
            else ret []
        end.
End leader.
