(* ===== verification/VoteCollectorProps.v ===== *)
(** * Certificates from votes

    Correctness of the collector of [VoteCollector.v]: a certificate that a
    leader creates passes the signature check of every validator, and a quorum of
    votes for a block yields a certificate whatever the order of arrival and
    whatever the other members send. *)
From stdpp Require Import base gmap list numbers.
From S2P Require Import Prelude Ids Sharding Committee Blocks BlockStore HotStuff VoteCollector.
Open Scope Z_scope.

(** ** Power of a list of keys *)
Section keys_power.
Implicit Types (c : Committee N) (ks : list PublicKeyBytes).

Definition power_of c (k : PublicKeyBytes) : Z := default 0 (get_power_by_public_key c k).

Fixpoint keys_power c ks : Z :=
  match ks with
  | [] => 0
  | k :: ks => power_of c k + keys_power c ks
  end.

Lemma power_of_nonneg c k : powers_ok c → 0 ≤ power_of c k.
Proof.
  unfold power_of, get_power_by_public_key. induction 1 as [|m c Hm Hc IH]; simpl; [done|].
  case_bool_decide; [done|apply IH].
Qed.

Lemma keys_power_nonneg c ks : powers_ok c → 0 ≤ keys_power c ks.
Proof.
  intros Hc. induction ks as [|k ks IH]; simpl; [done|]. pose proof (power_of_nonneg c k Hc). lia.
Qed.

Lemma keys_power_app c ks1 ks2 : keys_power c (ks1 ++ ks2) = keys_power c ks1 + keys_power c ks2.
Proof. induction ks1 as [|k ks1 IH]; simpl; lia. Qed.

#[global] Instance keys_power_proper c : Proper ((≡ₚ) ==> (=)) (keys_power c).
Proof. intros ks1 ks2. induction 1; simpl; lia. Qed.

Lemma keys_power_submseteq c ks1 ks2 :
  powers_ok c → ks1 ⊆+ ks2 → keys_power c ks1 ≤ keys_power c ks2.
Proof.
  intros Hc [ks3 ->]%submseteq_Permutation. rewrite keys_power_app.
  pose proof (keys_power_nonneg c ks3 Hc). lia.
Qed.

(** Distinct keys hold at most the power of the members they belong to. *)
Lemma keys_power_le c ks :
  powers_ok c → NoDup ks → keys_power c ks ≤ members_power c (λ k, bool_decide (k ∈ ks)).
Proof.
  intros Hc. induction 1 as [|k ks Hk Hks IH]; simpl; [by apply members_power_nonneg|].
  assert (power_of c k ≤ members_power c (λ k', bool_decide (k' = k))) as Hp.
  { unfold power_of. destruct (get_power_by_public_key c k) as [p|] eqn:E; simpl.
    - by apply power_of_key.
    - by apply members_power_nonneg. }
  pose proof (members_power_union c (λ k', bool_decide (k' = k)) (λ k', bool_decide (k' ∈ ks))) as Hu.
  cbv beta in Hu. rewrite (members_power_none c (λ k', _ && _)) in Hu.
  2: { intros k'. case_bool_decide; [subst|done]. by rewrite bool_decide_eq_false_2. }
  transitivity (members_power c (λ k', bool_decide (k' = k) || bool_decide (k' ∈ ks))); [lia|].
  apply members_power_mono; [done|]. intros k'.
  rewrite orb_true_iff, !bool_decide_eq_true, elem_of_cons. done.
Qed.

Lemma keys_power_total c ks (n : Z) :
  powers_ok c → total_power (E := HotStuffError) c = Ok n → NoDup ks → keys_power c ks ≤ n.
Proof.
  intros Hc Hn Hks. apply total_power_Ok in Hn as ->; [|done].
  etransitivity; [by apply keys_power_le|]. by apply members_power_mono.
Qed.

(** When no two members share a key, a set of members has the power of their
    keys. *)
Lemma members_power_keys c (Q : PublicKeyBytes → bool) ks :
  powers_ok c → NoDup (cm_public_key <$> c) →
  (∀ m, m ∈ c → Q (cm_public_key m) = true → cm_public_key m ∈ ks) →
  members_power c Q ≤ keys_power c ks.
Proof.
  intros Hc Hnd HQ.
  assert (∀ m, m ∈ c → power_of c (cm_public_key m) = cm_vote_power m) as Hpow.
  { clear -Hnd. unfold power_of, get_power_by_public_key. induction c as [|m c IH]; [by intros m ?%elem_of_nil|].
    simpl in Hnd. apply list.NoDup_cons in Hnd as [Hm Hnd].
    intros m' [->|Hm']%elem_of_cons; simpl; [by rewrite bool_decide_eq_true_2|].
    rewrite bool_decide_eq_false_2; [by apply IH|]. intros Heq. apply Hm. rewrite Heq.
    apply list_elem_of_fmap. by exists m'. }
  set (sel := filter (λ k, Q k = true) (cm_public_key <$> c)).
  transitivity (keys_power c sel).
  - unfold sel. clear HQ sel. assert (∀ d, (∀ m, m ∈ d → m ∈ c) →
      members_power d Q = keys_power c (filter (λ k, Q k = true) (cm_public_key <$> d))) as Hd.
    { induction d as [|m d IH]; intros Hsub; [done|]. simpl. rewrite filter_cons.
      rewrite IH by (intros m' ?; apply Hsub; by right).
      case_decide as Hq; [|by apply not_true_is_false in Hq as ->].
      rewrite Hq. simpl. rewrite Hpow by (apply Hsub; by left).
      done. }
    by rewrite (Hd c).
  - apply keys_power_submseteq; [done|]. apply NoDup_submseteq; [by apply list.NoDup_filter|].
    intros k [Hk Hin]%list_elem_of_filter. apply list_elem_of_fmap in Hin as (m & -> & Hm). by apply HQ.
Qed.
End keys_power.

(** ** The store of votes *)
Section store.
Context {V K : Type} `{Hk : Countable K} `{Hv : !Vote V K}.
Implicit Types (st : VoteStore V K) (v : V) (c : Committee N) (vs : list V).

Lemma keyed_votes_empty view key : keyed_votes (∅ : VoteStore V K) view key = ∅.
Proof. unfold keyed_votes. rewrite lookup_empty. simpl. by rewrite lookup_empty. Qed.

Lemma keyed_votes_clear e h st view key :
  keyed_votes (clear_votes_before e h st) view key =
  if decide (view_le (e, Z.max 0 (h - 1)) view) then keyed_votes st view key else ∅.
Proof.
  unfold keyed_votes, clear_votes_before. rewrite map_lookup_filter.
  destruct (st !! view) as [m|]; simpl; [|by case_decide].
  case_decide as Hle; [by rewrite option_guard_True|by rewrite option_guard_False].
Qed.

Lemma save_vote_true sh v st st' :
  save_vote sh v st = (true, st') →
  keyed_votes st (view_of v) (vote_key v) !! sh = None ∧
  ∀ view key, keyed_votes st' view key =
    if decide (view = view_of v ∧ key = vote_key v) then <[sh := v]> (keyed_votes st view key)
    else keyed_votes st view key.
Proof.
  unfold save_vote, keyed_votes. case_match eqn:E; [done|]. intros [= <-]. split; [done|].
  intros view key. case_decide as Hd.
  - destruct Hd as [-> ->]. by rewrite lookup_insert_eq; simpl; rewrite lookup_insert_eq.
  - destruct (decide (view = view_of v)) as [->|Hne].
    + rewrite lookup_insert_eq. simpl. rewrite lookup_insert_ne; [done|]. intros <-. by destruct Hd.
    + by rewrite lookup_insert_ne.
Qed.

Lemma save_vote_false sh v st st' :
  save_vote sh v st = (false, st') →
  st' = st ∧ is_Some (keyed_votes st (view_of v) (vote_key v) !! sh).
Proof.
  unfold save_vote, keyed_votes. case_match eqn:E; [|done]. intros [= <-]. split; [done|]. by eexists.
Qed.

Lemma keyed_votes_delete st view view' key :
  keyed_votes (delete view st) view' key = if decide (view' = view) then ∅ else keyed_votes st view' key.
Proof.
  unfold keyed_votes. case_decide as Hd; [subst; by rewrite lookup_delete_eq|].
  by rewrite lookup_delete_ne.
Qed.

(** ** Counting *)
Definition decided (d : QuorumDecision) vs : list V := filter (λ v, vote_decision v = d) vs.
Definition voters vs : list PublicKeyBytes := vote_public_key <$> vs.

Lemma decided_power c d v vs :
  keys_power c (voters (decided d (v :: vs))) =
  (if decide (vote_decision v = d) then power_of c (vote_public_key v) else 0) +
  keys_power c (voters (decided d vs)).
Proof. unfold decided. rewrite filter_cons. by case_decide. Qed.

Lemma count_votes_spec c vs (a r n : Z) :
  powers_ok c → n ≤ U64_MAX → 0 ≤ a → 0 ≤ r →
  a + keys_power c (voters (decided QAccept vs)) ≤ n →
  r + keys_power c (voters (decided QReject vs)) ≤ n →
  count_votes c vs a r =
    Ok (a + keys_power c (voters (decided QAccept vs)), r + keys_power c (voters (decided QReject vs))).
Proof.
  intros Hc Hn. revert a r. induction vs as [|v vs IH]; intros a r Ha Hr Hla Hlr; simpl.
  - by rewrite !Z.add_0_r.
  - pose proof (power_of_nonneg c (vote_public_key v) Hc) as Hp.
    fold (power_of c (vote_public_key v)). rewrite !decided_power in *.
    pose proof (keys_power_nonneg c (voters (decided QAccept vs)) Hc).
    pose proof (keys_power_nonneg c (voters (decided QReject vs)) Hc).
    unfold u64_add, u64_checked_add. destruct (vote_decision v);
      rewrite ?(decide_True _ _ eq_refl), ?(decide_False (P := _ = _)) in * by done;
      rewrite uint_checked_in by lia; simpl; rewrite IH by lia; do 2 f_equal; lia.
Qed.

Lemma decided_split c vs :
  keys_power c (voters (decided QAccept vs)) + keys_power c (voters (decided QReject vs)) =
  keys_power c (voters vs).
Proof.
  induction vs as [|v vs IH]; [done|]. rewrite !decided_power. change (voters (v :: vs)) with
    (vote_public_key v :: voters vs). simpl. destruct (vote_decision v); repeat case_decide; lia || done.
Qed.

Lemma decided_nodup d vs : NoDup (voters vs) → NoDup (voters (decided d vs)).
Proof.
  intros H. eapply sublist_NoDup; [exact H|]. unfold voters, decided.
  induction vs as [|v vs IH]; [done|]. apply list.NoDup_cons in H as [_ H]. rewrite filter_cons.
  case_decide; simpl; constructor; by apply IH.
Qed.

(** ** Collecting a vote *)
Context (sender : V → FixedHash) (valid : V → Prop).
Context (Hsender : ∀ v v', vote_epoch v = vote_epoch v' → vote_public_key v = vote_public_key v' →
  sender v = sender v').

(** Votes are filed under their view, key and sender. *)
Definition votes_ok st : Prop :=
  ∀ view key sh v, keyed_votes st view key !! sh = Some v →
    view = view_of v ∧ key = vote_key v ∧ sh = sender v ∧ valid v.

Definition votes_for st (view : Epoch * NodeHeight) (key : K) : list V :=
  (map_to_list (keyed_votes st view key)).*2.

Lemma votes_for_elem st view key v :
  v ∈ votes_for st view key ↔ ∃ sh, keyed_votes st view key !! sh = Some v.
Proof.
  unfold votes_for. rewrite list_elem_of_fmap. split.
  - intros ([sh v'] & -> & H%elem_of_map_to_list). by exists sh.
  - intros [sh H]. exists (sh, v). split; [done|]. by apply elem_of_map_to_list.
Qed.

Lemma votes_for_nodup st view key : votes_ok st → NoDup (voters (votes_for st view key)).
Proof.
  intros Hok. unfold voters, votes_for. rewrite <- list_fmap_compose.
  apply NoDup_fmap_2_strong; [|apply NoDup_map_to_list].
  intros [s1 v1] [s2 v2] H1%elem_of_map_to_list H2%elem_of_map_to_list Heq. simpl in Heq.
  pose proof (Hok _ _ _ _ H1) as (E1 & _ & -> & _). pose proof (Hok _ _ _ _ H2) as (E2 & _ & -> & _).
  assert (sender v1 = sender v2) as Hs by (apply Hsender; [unfold view_of in *; congruence|done]).
  rewrite Hs in *. congruence.
Qed.

Lemma clear_votes_ok e h st : votes_ok st → votes_ok (clear_votes_before e h st).
Proof.
  intros Hok view key sh v. rewrite keyed_votes_clear. case_decide; [apply Hok|]. by rewrite lookup_empty.
Qed.

Lemma save_vote_ok v st st' :
  votes_ok st → valid v → save_vote (sender v) v st = (true, st') → votes_ok st'.
Proof.
  intros Hok Hval [_ H]%save_vote_true view key sh v'. rewrite H. case_decide as Hd; [|apply Hok].
  destruct Hd as [-> ->]. intros [[<- <-]|[_ Hl]]%lookup_insert_Some; [done|]. by apply Hok.
Qed.

Lemma delete_votes_ok view st : votes_ok st → votes_ok (delete view st).
Proof.
  intros Hok view' key sh v. rewrite keyed_votes_delete. case_decide; [by rewrite lookup_empty|apply Hok].
Qed.

Section committee.
Context c (n t : Z) (Hc : powers_ok c).
Context (Hn : total_power (E := HotStuffError) c = Ok n).
Context (Ht : quorum_threshold (E := HotStuffError) c = Ok t).

(** The outcome of storing a vote, as a function of the votes stored for its
    view and key. *)
Definition quorum_of (vs : list V) : option QuorumDecision :=
  if t <=? keys_power c (voters (decided QAccept vs)) then Some QAccept
  else if t <=? keys_power c (voters (decided QReject vs)) then Some QReject
  else None.

Lemma threshold_decision_spec st v :
  votes_ok st → v ∈ votes_for st (view_of v) (vote_key v) →
  ∃ d, calculate_threshold_decision (vote_epoch v) (vote_height v) (vote_key v) c st = Ok d ∧
    td_decision d = quorum_of (votes_for st (view_of v) (vote_key v)) ∧
    (is_Some (td_decision d) → t ≤ td_total_power d).
Proof.
  intros Hok [sh Hin]%votes_for_elem. pose proof (votes_for_nodup st (view_of v) (vote_key v) Hok) as Hnd.
  assert (st !! (vote_epoch v, vote_height v) ≫= (.!! vote_key v) =
    Some (keyed_votes st (view_of v) (vote_key v))) as Hsome.
  { revert Hin. unfold keyed_votes, view_of. destruct (st !! _) as [m|]; simpl.
    - destruct (m !! vote_key v); simpl; [done|]. by rewrite lookup_empty.
    - rewrite !lookup_empty. simpl. by rewrite lookup_empty. }
  unfold calculate_threshold_decision, quorum_of. rewrite Hsome.
  fold (votes_for st (view_of v) (vote_key v)).
  set (vs := votes_for st (view_of v) (vote_key v)) in *.
  pose proof (total_power_bound _ _ Hn) as Hmax.
  pose proof (keys_power_total _ _ _ Hc Hn Hnd) as Hall. rewrite <- decided_split in Hall.
  pose proof (keys_power_nonneg c (voters (decided QAccept vs)) Hc).
  pose proof (keys_power_nonneg c (voters (decided QReject vs)) Hc).
  rewrite (count_votes_spec _ _ _ _ n) by (done || lia). rewrite !Z.add_0_l. simpl. rewrite Ht. simpl.
  destruct (Z.leb_spec t (keys_power c (voters (decided QAccept vs)))) as [Ha|Ha].
  { eexists. split_and!; [done..|]. intros _. exact Ha. }
  destruct (Z.leb_spec t (keys_power c (voters (decided QReject vs)))) as [Hr|Hr].
  { eexists. split_and!; [done..|]. intros _. exact Hr. }
  unfold u64_add, u64_checked_add. rewrite uint_checked_in by lia. simpl.
  eexists. split_and!; [done..|]. by intros [? ?].
Qed.

Lemma take_votes_spec st v d :
  v ∈ votes_for st (view_of v) (vote_key v) →
  take_votes_with_decision_for_key (vote_epoch v) (vote_height v) (vote_key v) d st =
    (Some (decided d (votes_for st (view_of v) (vote_key v))), delete (view_of v) st).
Proof.
  intros [sh Hin]%votes_for_elem. revert Hin.
  unfold take_votes_with_decision_for_key, votes_for, keyed_votes, view_of.
  destruct (st !! _) as [m|]; simpl; [|by rewrite !lookup_empty].
  destruct (m !! vote_key v); simpl; [done|by rewrite lookup_empty].
Qed.

(** [collect_vote] never fails: a repeated vote is ignored, a vote that completes
    a quorum takes the votes of its decision and forgets the view, any other vote
    is stored. *)
Lemma collect_vote_spec e h v st :
  votes_ok st → valid v →
  let st1 := clear_votes_before e h st in
  collect_vote e h (sender v) v c st =
    match save_vote (sender v) v st1 with
    | (false, _) => (Ok None, st1)
    | (true, st2) =>
        let vs := votes_for st2 (view_of v) (vote_key v) in
        match quorum_of vs with
        | Some d => (Ok (Some (decided d vs, d)), delete (view_of v) st2)
        | None => (Ok None, st2)
        end
    end.
Proof.
  intros Hok Hval st1. apply (clear_votes_ok e h) in Hok. fold st1 in Hok.
  unfold collect_vote, bind, modify, ret. fold st1.
  destruct (save_vote (sender v) v st1) as [[] st2] eqn:Hs; simpl.
  2: { by apply save_vote_false in Hs as [-> _]. }
  pose proof (save_vote_ok _ _ _ Hok Hval Hs) as Hok2.
  assert (v ∈ votes_for st2 (view_of v) (vote_key v)) as Hin.
  { apply votes_for_elem. exists (sender v). apply save_vote_true in Hs as [_ ->].
    rewrite decide_True by done. apply lookup_insert_eq. }
  unfold lift. rewrite Ht. simpl.
  destruct (threshold_decision_spec st2 v Hok2 Hin) as (d & -> & <- & Hd). simpl.
  destruct (td_decision d) as [q|]; [|done].
  destruct (Z.ltb_spec (td_total_power d) t) as [Hlt|_]; [specialize (Hd ltac:(by eexists)); lia|].
  by rewrite take_votes_spec.
Qed.

Lemma collect_vote_ok e h v st r st' :
  votes_ok st → valid v → collect_vote e h (sender v) v c st = (r, st') → votes_ok st'.
Proof.
  intros Hok Hval. rewrite collect_vote_spec by done.
  pose proof (clear_votes_ok e h _ Hok) as Hok1.
  destruct (save_vote _ _ _) as [[] st2] eqn:Hs; [|by intros [= _ <-]].
  pose proof (save_vote_ok _ _ _ Hok1 Hval Hs) as Hok2. simpl.
  destruct (quorum_of _); intros [= _ <-]; [by apply delete_votes_ok|done].
Qed.
End committee.
End store.

(** ** Certificates *)
Section certificates.
Context `{Bh : !BlockHashes} `{Sg : !Signatures}.
Implicit Types (c : Committee N) (pc : ProposalCertificate).

Lemma quorum_threshold_exists c (n : Z) :
  powers_ok c → total_power (E := HotStuffError) c = Ok n → 0 < n →
  ∃ t, quorum_threshold (E := HotStuffError) c = Ok t ∧ n < 2 * t.
Proof.
  intros Hc Hn Hpos. pose proof (total_power_bound _ _ Hn) as Hb.
  assert (max_failures (E := HotStuffError) c = Ok ((n - 1) / 3)) as Hf.
  { unfold max_failures. rewrite Hn. simpl. unfold failures_of, u64_sub, u64_checked_sub.
    destruct (Z.eqb_spec n 0); [lia|]. by rewrite uint_checked_in by lia. }
  pose proof (Z.div_mod (n - 1) 3). pose proof (Z.mod_pos_bound (n - 1) 3).
  exists (n - (n - 1) / 3). split; [|lia].
  unfold quorum_threshold. rewrite Hn. simpl. rewrite Hf. simpl.
  unfold u64_sub, u64_checked_sub. by rewrite uint_checked_in by lia.
Qed.

(** The signature check accepts distinct members' valid signatures. *)
Lemma check_signatures_ok pc c (n : Z) sigs dups (total : Z) :
  powers_ok c → n ≤ U64_MAX → 0 ≤ total →
  total + keys_power c (vs_public_key <$> sigs) ≤ n →
  NoDup (vs_public_key <$> sigs) →
  (∀ sig, sig ∈ sigs → is_Some (get_power_by_public_key c (vs_public_key sig)) ∧
     vs_public_key sig ∉ dups ∧
     verify_vote (vs_public_key sig) (calculate_block_id pc) (pc_decision pc) (vs_signature sig) = true) →
  check_signatures pc c sigs dups total = Ok (total + keys_power c (vs_public_key <$> sigs)).
Proof.
  intros Hc Hn. revert dups total. induction sigs as [|sig sigs IH]; intros dups total Htot Hle Hnd Hall.
  - simpl. by rewrite Z.add_0_r.
  - rewrite fmap_cons in *. simpl in Hle |- *. apply list.NoDup_cons in Hnd as [Hnew Hnd].
    destruct (Hall sig) as ([p Hp] & Hdup & Hver); [by left|].
    pose proof (power_of_nonneg c (vs_public_key sig) Hc) as Hpos.
    assert (power_of c (vs_public_key sig) = p) as Hpp by (unfold power_of; by rewrite Hp).
    pose proof (keys_power_nonneg c (vs_public_key <$> sigs) Hc).
    rewrite Hp. simpl. unfold u64_add, u64_checked_add. rewrite uint_checked_in by lia. simpl.
    rewrite bool_decide_eq_false_2 by done. rewrite Hver. simpl.
    rewrite IH; [f_equal; lia|lia|lia|done|].
    intros sig' Hin. destruct (Hall sig') as (Hs & Hd & Hv); [by right|]. split_and!; [done| |done].
    intros [Heq%elem_of_singleton|?]%elem_of_union; [|done]. apply Hnew. rewrite <- Heq.
    apply list_elem_of_fmap. by exists sig'.
Qed.
End certificates.

(** ** The leader *)
Section leader.
Context `{Bh : !BlockHashes} `{Sg : !Signatures} `{Vr : !ValidatorRegistry}.
Context (config : HotstuffConfig) (es : EpochState).
Notation committee := (es_local_committee es).
Notation events := (list (NodeHeight * ProposalVote)).
Implicit Types (v : ProposalVote) (l : Leader).

(** The certificates a leader creates while votes arrive, each with its current
    height. *)
Fixpoint collect_certificates l (evs : events) : list ProposalCertificate * Leader :=
  match evs with
  | [] => ([], l)
  | (h, v) :: evs =>
      match check_and_collect_vote config es h v l with
      | (Ok (Some (pc, _)), l') =>
          let r := collect_certificates l' evs in (pc :: r.1, r.2)
      | (_, l') => collect_certificates l' evs
      end
  end.

Definition eligible (k : PublicKeyBytes) : Prop := ∃ vn, check_eligibility es (es_epoch es) k = Ok vn.
Definition vote_sender v : FixedHash :=
  match check_eligibility es (pv_epoch v) (vote_public_key v) with
  | Ok vn => get_node_hash config vn
  | _ => 0%N
  end.
Definition vote_valid v : Prop :=
  eligible (vote_public_key v) ∧ validate_proposal_vote es v = Ok tt.

Lemma vote_valid_spec v :
  vote_valid v ↔ eligible (vote_public_key v) ∧ pv_epoch v = es_epoch es ∧
    verify_vote (vote_public_key v) (pv_block_id v) (pv_decision v) (vs_signature (pv_signature v)) = true.
Proof.
  unfold vote_valid, validate_proposal_vote. change (vote_public_key v) with (vs_public_key (pv_signature v)).
  destruct (Z.eqb_spec (es_epoch es) (pv_epoch v)) as [->|]; simpl;
    destruct (verify_vote _ _ _ _); naive_solver.
Qed.

Lemma vote_sender_fun v v' :
  vote_epoch v = vote_epoch v' → vote_public_key v = vote_public_key v' → vote_sender v = vote_sender v'.
Proof. unfold vote_sender. simpl. by intros -> ->. Qed.

Notation votes_ok := (votes_ok vote_sender vote_valid).

Lemma check_and_collect_eq h v l :
  check_and_collect_vote config es h v l =
  match check_eligibility es (pv_epoch v) (vote_public_key v) with
  | Ok _ =>
      match validate_proposal_vote es v with
      | Ok _ =>
          let r := collect_vote (es_epoch es) h (vote_sender v) v committee (ld_votes l) in
          let l' := set_ld_votes r.2 l in
          match r.1 with
          | Ok (Some (vs, d)) =>
              match cs_blocks (ld_store l) !! pv_block_id v with
              | Some b =>
                  let pc := create_proposal_certificate (vote_signature <$> vs) d b in
                  let r := update_highest_pc pc (ld_store l) in
                  match r.1 with
                  | Ok hp => (Ok (Some (pc, hp)), set_ld_store r.2 l')
                  | Err e => (Err e, l')
                  | Panic => (Panic, l')
                  end
              | None => (Ok None, l')
              end
          | Ok None => (Ok None, l')
          | Err e => (Err e, l')
          | Panic => (Panic, l')
          end
      | Err e => (Err e, l)
      | Panic => (Panic, l)
      end
  | Err e => (Err e, l)
  | Panic => (Panic, l)
  end.
Proof.
  unfold check_and_collect_vote, vote_sender, bind, lift, ret, zoom.
  change (vote_public_key v) with (vs_public_key (pv_signature v)).
  destruct (check_eligibility _ _ _) as [vn|e|]; [|done..].
  destruct (validate_proposal_vote es v) as [u|e|]; [|done..].
  destruct (collect_vote _ _ _ _ _ _) as [[[[vs d]|]|e|] st]; simpl; [|done..].
  unfold read_tx, write_tx. simpl. destruct (cs_blocks (ld_store l) !! pv_block_id v) as [b|]; [|done].
  destruct (update_highest_pc _ _) as [[hp|e|] s']; done.
Qed.

(** The epoch manager's validators of the shard group are the committee. *)
Definition registry_matches : Prop :=
  ∀ k, eligible k → is_Some (get_power_by_public_key committee k).

(** Stored blocks carry their own id. *)
Definition blocks_ok (s : ConsensusStore) : Prop :=
  ∀ x b, x ≠ 0%N → cs_blocks s !! x = Some b → block_id b = x ∧ well_identified b.

Definition with_signatures (sigs : list ValidatorSignature) (pc : ProposalCertificate) :
    ProposalCertificate :=
  MkProposalCertificate (pc_height pc) (pc_header_hash pc) (pc_parent_id pc) (pc_epoch pc)
    (pc_shard_group pc) sigs (pc_decision pc).

(** A certificate for block [x] that every validator accepts, in whatever order
    the signatures come. *)
Definition certifies (pc : ProposalCertificate) (x : BlockId) : Prop :=
  calculate_block_id pc = x ∧
  ∀ sigs, sigs ≡ₚ pc_signatures pc →
    check_quorum_certificate_signatures (with_signatures sigs pc) committee = Ok tt.

Context (n : Z) (Hc : powers_ok committee) (Hpos : 0 < n).
Context (Hn : total_power (E := HotStuffError) committee = Ok n).

Lemma update_highest_pc_blocks pc s r s' :
  update_highest_pc pc s = (r, s') → cs_blocks s' = cs_blocks s.
Proof.
  unfold update_highest_pc. destruct (high_pc_get s (pc_epoch pc)); [destruct (_ <=? _)|];
    by intros [= _ <-].
Qed.

Lemma collect_outcome h v l r l' q st :
  vote_valid v → collect_vote (es_epoch es) h (vote_sender v) v committee (ld_votes l) = (q, st) →
  check_and_collect_vote config es h v l = (r, l') →
  ld_votes l' = st ∧ cs_blocks (ld_store l') = cs_blocks (ld_store l) ∧
  ∀ vs d b, q = Ok (Some (vs, d)) → cs_blocks (ld_store l) !! pv_block_id v = Some b →
    ∃ hp, r = Ok (Some (create_proposal_certificate (vote_signature <$> vs) d b, hp)).
Proof.
  intros Hv Hq. rewrite check_and_collect_eq.
  pose proof Hv as [[vn Hel] Hval]. pose proof (proj1 (vote_valid_spec v) Hv) as (_ & -> & _).
  rewrite Hel, Hval, Hq. simpl. destruct q as [[[vs d]|]|e|]; [|by intros [= <- <-]..].
  destruct (cs_blocks (ld_store l) !! pv_block_id v) as [b|]; [|by intros [= <- <-]].
  destruct (update_highest_pc _ _) as [rp s'] eqn:Hu. pose proof (update_highest_pc_blocks _ _ _ _ Hu) as Hbs.
  assert (∃ hp, rp = Ok hp) as [hp ->].
  { revert Hu. unfold update_highest_pc. destruct (high_pc_get _ _); [destruct (_ <=? _)|];
      intros [= <- _]; by eexists. }
  simpl. intros [= <- <-]. split_and!; [done|done|]. intros vs' d' b' [= <- <-] [= <-]. by eexists.
Qed.

Lemma collect_invalid h v l r l' :
  check_and_collect_vote config es h v l = (r, l') → vote_valid v ∨ l' = l ∧ ¬ vote_valid v.
Proof.
  rewrite check_and_collect_eq. unfold vote_valid, eligible.
  destruct (validate_proposal_vote es v) as [[]|e|] eqn:Hval.
  2-3: destruct (check_eligibility _ _ _); intros [= _ <-]; right; (split; [done|by intros [_ ?]]).
  assert (pv_epoch v = es_epoch es) as ->.
  { unfold validate_proposal_vote in Hval. by destruct (Z.eqb_spec (es_epoch es) (pv_epoch v)). }
  destruct (check_eligibility es (es_epoch es) (vote_public_key v)) as [vn|e|].
  - left. split; [by exists vn|done].
  - intros [= _ <-]. right. split; [done|]. by intros [[? ?] _].
  - intros [= _ <-]. right. split; [done|]. by intros [[? ?] _].
Qed.

Lemma certificate_certifies st v b (t : Z) d :
  registry_matches → votes_ok st → quorum_threshold (E := HotStuffError) committee = Ok t →
  block_id b = pv_block_id v → well_identified b →
  quorum_of committee t (votes_for st (view_of v) (vote_key v)) = Some d →
  certifies (create_proposal_certificate
    (vote_signature <$> decided d (votes_for st (view_of v) (vote_key v))) d b) (pv_block_id v).
Proof.
  intros Hm Hok Ht Hid [Hw _] Hq. set (vs := votes_for st (view_of v) (vote_key v)) in *.
  split; [by rewrite <- Hid, Hw|]. intros sigs Hperm. simpl in Hperm.
  assert ((vs_public_key <$> sigs) ≡ₚ voters (decided d vs)) as Hkeys.
  { rewrite Hperm. by rewrite <- list_fmap_compose. }
  assert (NoDup (vs_public_key <$> sigs)) as Hnd.
  { rewrite Hkeys. apply decided_nodup, (votes_for_nodup vote_sender vote_valid vote_sender_fun _ _ _ Hok). }
  assert (t ≤ keys_power committee (vs_public_key <$> sigs)) as Hpow.
  { rewrite Hkeys. unfold quorum_of in Hq.
    destruct (Z.leb_spec t (keys_power committee (voters (decided QAccept vs)))); [by simplify_eq|].
    by destruct (Z.leb_spec t (keys_power committee (voters (decided QReject vs)))); simplify_eq. }
  unfold check_quorum_certificate_signatures. destruct (justifies_zero_block _); [done|].
  cbn [pc_signatures with_signatures]. rewrite (check_signatures_ok _ _ n).
  - rewrite Z.add_0_l. cbn [res_bind]. rewrite Ht. cbn [res_bind]. unfold check.
    by rewrite (proj2 (Z.leb_le t _) Hpow).
  - done.
  - by eapply total_power_bound.
  - done.
  - by apply keys_power_total.
  - done.
  - intros sig Hsig. simpl in Hsig. rewrite Hperm in Hsig.
    apply list_elem_of_fmap in Hsig as (v' & -> & Hv'). apply list_elem_of_filter in Hv' as [Hd Hv'].
    apply votes_for_elem in Hv' as [sh Hl]. apply Hok in Hl as (_ & Hkey & _ & Hval).
    apply vote_valid_spec in Hval as (Hel & _ & Hver). split_and!; [by apply Hm|set_solver|].
    simpl in Hkey, Hd. change (calculate_block_id _) with (calculate_id (b_header b)).
    cbn [pc_decision with_signatures create_proposal_certificate]. rewrite <- Hw, Hid, Hkey, <- Hd. exact Hver.
Qed.

Lemma check_and_collect_ok h v l r l' :
  registry_matches → votes_ok (ld_votes l) → blocks_ok (ld_store l) →
  check_and_collect_vote config es h v l = (r, l') →
  votes_ok (ld_votes l') ∧ blocks_ok (ld_store l') ∧
  ∀ pc hp, r = Ok (Some (pc, hp)) → pv_block_id v ≠ 0%N → certifies pc (pv_block_id v).
Proof.
  intros Hm Hok Hb. rewrite check_and_collect_eq.
  destruct (check_eligibility es (pv_epoch v) (vote_public_key v)) as [vn|e|] eqn:Hel; [|by intros [= <- <-]..].
  destruct (validate_proposal_vote es v) as [[]|e|] eqn:Hval; [|by intros [= <- <-]..].
  assert (vote_valid v) as Hv.
  { split; [|done]. exists vn. unfold validate_proposal_vote in Hval.
    destruct (Z.eqb_spec (es_epoch es) (pv_epoch v)) as [->|]; done. }
  destruct (quorum_threshold_exists committee n) as (t & Ht & _); [done..|].
  pose proof (collect_vote_spec vote_sender vote_valid vote_sender_fun committee n t Hc Hn Ht
    (es_epoch es) h v (ld_votes l) Hok Hv) as Hspec.
  destruct (collect_vote (es_epoch es) h (vote_sender v) v committee (ld_votes l)) as [q st'] eqn:Hq.
  pose proof (collect_vote_ok vote_sender vote_valid vote_sender_fun committee n t Hc Hn Ht
    _ _ _ _ _ _ Hok Hv Hq) as Hok'. simpl. cbv zeta in Hspec.
  destruct q as [[[vs d]|]|e|]; simpl; [|by intros [= <- <-]..].
  destruct (cs_blocks (ld_store l) !! pv_block_id v) as [b|] eqn:Hblk; [|by intros [= <- <-]].
  destruct (update_highest_pc _ _) as [[hp|e|] s'] eqn:Hu; simpl; intros [= <- <-]; [|done..].
  apply update_highest_pc_blocks in Hu. split_and!; [done|by unfold blocks_ok; simpl; rewrite Hu|].
  intros pc hp' [= <- <-] Hnz. destruct (Hb _ _ Hnz Hblk) as [Hid Hw].
  destruct (save_vote _ _ _) as [[] st2] eqn:Hs; [|done]. destruct (quorum_of _ _ _) as [d'|] eqn:Hquo; [|done].
  injection Hspec as -> -> _. apply certificate_certifies with t; [done| |done..].
  eapply save_vote_ok; [|done|exact Hs]. by apply clear_votes_ok.
Qed.

Lemma collect_certificates_ok l evs :
  registry_matches → votes_ok (ld_votes l) → blocks_ok (ld_store l) →
  votes_ok (ld_votes (collect_certificates l evs).2) ∧ blocks_ok (ld_store (collect_certificates l evs).2).
Proof.
  intros Hm. revert l. induction evs as [|[h v] evs IH]; intros l Hok Hb; [done|]. simpl.
  destruct (check_and_collect_vote config es h v l) as [r l'] eqn:Hr.
  apply check_and_collect_ok in Hr as (Hok' & Hb' & _); [|done..].
  destruct r as [[[pc hp]|]|e|]; by apply IH.
Qed.

(** ** Progress *)
Section progress.
Context (Q : PublicKeyBytes → bool) (t : Z) (b : Block).
Context (Ht : quorum_threshold (E := HotStuffError) committee = Ok t) (Htn : n < 2 * t).
Context (HQ : t ≤ members_power committee Q).
Context (Hkeys : NoDup (cm_public_key <$> committee)).
Context (Hhash : ∀ v v', vote_valid v → vote_valid v' → vote_sender v = vote_sender v' →
  vote_public_key v = vote_public_key v').
Notation x := (block_id b).
Notation view := (es_epoch es, block_height b).
Notation stored st := (votes_for st view x).

(** In the view of the block, members of [Q] have accepted the block. *)
Definition supports v : Prop :=
  Q (vote_public_key v) = true → view_of v = view → pv_block_id v = x ∧ pv_decision v = QAccept.

Definition all_support (st : VoteStore ProposalVote BlockId) : Prop :=
  ∀ vw key sh v, keyed_votes st vw key !! sh = Some v → supports v.

Lemma outside_power ks : NoDup ks → (∀ k, k ∈ ks → Q k = false) → keys_power committee ks < t.
Proof.
  intros Hnd Hks.
  pose proof (keys_power_le committee ks Hc Hnd) as Hle.
  pose proof (members_power_mono committee (λ k, bool_decide (k ∈ ks)) (λ k, negb (Q k)) Hc) as Hm.
  specialize (Hm ltac:(intros k Hk; rewrite bool_decide_eq_true in Hk; by rewrite (Hks k Hk))).
  pose proof (members_power_union committee Q (λ k, negb (Q k))) as Hu. cbv beta in Hu.
  rewrite (members_power_none committee (λ k, Q k && negb (Q k))) in Hu by (intros k; by destruct (Q k)).
  pose proof (members_power_mono committee (λ k, Q k || negb (Q k)) (λ _, true) Hc ltac:(done)) as Ha.
  pose proof (total_power_Ok _ _ Hc Hn). lia.
Qed.

(** Only the block itself can reach a quorum in its view, and only to be
    accepted. *)
Lemma quorum_only st key d :
  votes_ok st → all_support st → quorum_of committee t (votes_for st view key) = Some d →
  key = x ∧ d = QAccept.
Proof.
  intros Hok Hsup Hq. destruct (decide (key = x ∧ d = QAccept)) as [|Hne]; [done|]. exfalso.
  assert (t ≤ keys_power committee (voters (decided d (votes_for st view key)))) as Hpow.
  { unfold quorum_of in Hq.
    destruct (Z.leb_spec t (keys_power committee (voters (decided QAccept (votes_for st view key))))); [by simplify_eq|].
    by destruct (Z.leb_spec t (keys_power committee (voters (decided QReject (votes_for st view key))))); simplify_eq. }
  assert (keys_power committee (voters (decided d (votes_for st view key))) < t); [|lia].
  apply outside_power.
  - apply decided_nodup, (votes_for_nodup vote_sender vote_valid vote_sender_fun _ _ _ Hok).
  - intros k (v & -> & Hv)%list_elem_of_fmap. apply list_elem_of_filter in Hv as [Hd Hv].
    apply votes_for_elem in Hv as [sh Hl]. apply not_true_is_false. intros Hqk. apply Hne.
    pose proof (Hok _ _ _ _ Hl) as (Hvw & Hkey & _). destruct (Hsup _ _ _ _ Hl) as [Hx Ha]; [done..|].
    simpl in *. split; congruence.
Qed.

(** A collector that has not certified the block holds the votes of [Q] it has
    received. *)
Record waiting (received : list ProposalVote) l : Prop := {
  wt_votes : votes_ok (ld_votes l);
  wt_support : all_support (ld_votes l);
  wt_block : cs_blocks (ld_store l) !! x = Some b;
  wt_received v : v ∈ received → vote_valid v → Q (vote_public_key v) = true → view_of v = view →
    ∃ v', v' ∈ decided QAccept (stored (ld_votes l)) ∧ vote_public_key v' = vote_public_key v;
  wt_below : keys_power committee (voters (decided QAccept (stored (ld_votes l)))) < t;
}.

Lemma stored_quorum st :
  votes_ok st → all_support st →
  keys_power committee (voters (decided QAccept (stored st))) < t ↔
  quorum_of committee t (stored st) = None.
Proof.
  intros Hok Hsup. split.
  - intros Hlt. destruct (quorum_of committee t (stored st)) as [d|] eqn:Hq; [|done]. exfalso.
    pose proof (quorum_only _ _ _ Hok Hsup Hq) as [_ ->]. unfold quorum_of in Hq.
    destruct (Z.leb_spec t (keys_power committee (voters (decided QAccept (stored st))))); [lia|].
    by destruct (_ <=? _).
  - unfold quorum_of. by destruct (Z.leb_spec t (keys_power committee (voters (decided QAccept (stored st))))).
Qed.

Lemma clear_all_support e h st : all_support st → all_support (clear_votes_before e h st).
Proof.
  intros Hs vw key sh v. rewrite keyed_votes_clear. case_decide; [apply Hs|]. by rewrite lookup_empty.
Qed.

Lemma save_all_support sh v st st' :
  all_support st → supports v → save_vote sh v st = (true, st') → all_support st'.
Proof.
  intros Hs Hv [_ H]%save_vote_true vw key sh' v'. rewrite H. case_decide; [|apply Hs].
  intros [[_ <-]|[_ Hl]]%lookup_insert_Some; [done|]. by eapply Hs.
Qed.

Lemma delete_all_support vw st : all_support st → all_support (delete vw st).
Proof.
  intros Hs vw' key sh v. rewrite keyed_votes_delete. case_decide; [by rewrite lookup_empty|apply Hs].
Qed.

(** A change of the leader's state that keeps the votes for the block. *)
Lemma waiting_keep received v l l' :
  waiting received l → votes_ok (ld_votes l') → all_support (ld_votes l') →
  cs_blocks (ld_store l') = cs_blocks (ld_store l) →
  keyed_votes (ld_votes l') view x = keyed_votes (ld_votes l) view x →
  (vote_valid v → Q (vote_public_key v) = true → view_of v = view →
   ∃ v', v' ∈ decided QAccept (stored (ld_votes l)) ∧ vote_public_key v' = vote_public_key v) →
  waiting (v :: received) l'.
Proof.
  intros [Hok Hsup Hb Hrec Hlt] Hok' Hsup' Hs Hk Hv.
  assert (stored (ld_votes l') = stored (ld_votes l)) as Hst by (unfold votes_for; by rewrite Hk).
  split; [done|done|by rewrite Hs| |by rewrite Hst].
  intros v' [->|Hin]%elem_of_cons; rewrite Hst; [done|by apply Hrec].
Qed.

(** The vote itself, stored. *)
Lemma waiting_store received v l l' st1 :
  waiting received l → votes_ok (ld_votes l') → all_support (ld_votes l') → supports v →
  cs_blocks (ld_store l') = cs_blocks (ld_store l) →
  keyed_votes st1 view x = keyed_votes (ld_votes l) view x →
  save_vote (vote_sender v) v st1 = (true, ld_votes l') →
  view_of v = view → vote_key v = x → quorum_of committee t (stored (ld_votes l')) = None →
  waiting (v :: received) l'.
Proof.
  intros [Hok Hsup Hb Hrec Hlt] Hok' Hsup' Hv Hs Hk1 [Hnew Hsave]%save_vote_true Hvw Hkey Hq.
  rewrite Hvw, Hkey in Hnew. specialize (Hsave view x). rewrite decide_True in Hsave by done.
  split; [done|done|by rewrite Hs| |by apply stored_quorum].
  intros v' Hin Hval Hqv Hvw'.
  assert (v' = v ∨ v' ∈ received) as [->|Hin'] by set_solver.
  - exists v. split; [|done]. apply list_elem_of_filter. split; [by apply Hv|].
    apply votes_for_elem. exists (vote_sender v). rewrite Hsave. apply lookup_insert_eq.
  - destruct (Hrec v' Hin' Hval Hqv Hvw') as (v2 & [Hd Hv2]%list_elem_of_filter & Hpk).
    exists v2. split; [|done]. apply list_elem_of_filter. split; [done|].
    apply votes_for_elem in Hv2 as [sh Hl]. apply votes_for_elem. exists sh. rewrite Hsave, Hk1.
    rewrite lookup_insert_ne; [done|]. intros <-. rewrite Hk1 in Hnew. congruence.
Qed.

Lemma waiting_step received h v l r l' :
  waiting received l → 0 ≤ block_height b → h ≤ block_height b + 1 → (vote_valid v → supports v) →
  check_and_collect_vote config es h v l = (r, l') →
  (∃ hp sigs, r = Ok (Some (create_proposal_certificate sigs QAccept b, hp))) ∨
  waiting (v :: received) l'.
Proof.
  intros Hw Hb0 Hh Hsupv Hr. pose proof Hw as [Hok Hsup Hb Hrec Hlt].
  destruct (collect_invalid _ _ _ _ _ Hr) as [Hval|[-> Hval]].
  2: { right. by eapply waiting_keep. }
  specialize (Hsupv Hval).
  pose proof (collect_vote_spec vote_sender vote_valid vote_sender_fun committee n t Hc Hn Ht
    (es_epoch es) h v (ld_votes l) Hok Hval) as Hspec. cbv zeta in Hspec.
  pose proof (clear_votes_ok vote_sender vote_valid (es_epoch es) h _ Hok) as Hok1.
  pose proof (clear_all_support (es_epoch es) h _ Hsup) as Hsup1.
  assert (keyed_votes (clear_votes_before (es_epoch es) h (ld_votes l)) view x =
    keyed_votes (ld_votes l) view x) as Hk1.
  { rewrite keyed_votes_clear, decide_True; [done|]. right. simpl. lia. }
  set (st1 := clear_votes_before (es_epoch es) h (ld_votes l)) in *.
  destruct (save_vote (vote_sender v) v st1) as [[] st2] eqn:Hs.
  2: { (* repeated *)
    destruct (collect_outcome _ _ _ _ _ _ _ Hval Hspec Hr) as (Hv' & Hbs & _). right.
    eapply waiting_keep; [exact Hw|by rewrite Hv'|by rewrite Hv'|done|by rewrite Hv'|].
    intros _ Hq Hvw. destruct (Hsupv Hq Hvw) as [Hx Ha].
    apply save_vote_false in Hs as [_ [v' Hl]]. rewrite Hvw in Hl. change (vote_key v) with (pv_block_id v) in Hl.
    rewrite Hx, Hk1 in Hl. pose proof (Hok _ _ _ _ Hl) as (Hvw' & _ & Hsd & Hval').
    assert (vote_public_key v' = vote_public_key v) as Hpk by (symmetry; by apply Hhash).
    exists v'. split; [|done]. apply list_elem_of_filter. split; [|apply votes_for_elem; by eexists].
    eapply Hsup; [exact Hl|by rewrite Hpk|done]. }
  pose proof (save_vote_ok _ _ _ _ _ Hok1 Hval Hs) as Hok2.
  pose proof (save_all_support _ _ _ _ Hsup1 Hsupv Hs) as Hsup2.
  destruct (decide (view_of v = view ∧ vote_key v = x)) as [[Hvw Hkey]|Hother].
  - rewrite Hvw, Hkey in Hspec. destruct (quorum_of committee t (stored st2)) as [d|] eqn:Hq.
    + pose proof (quorum_only _ _ _ Hok2 Hsup2 Hq) as [_ ->]. left.
      destruct (collect_outcome _ _ _ _ _ _ _ Hval Hspec Hr) as (_ & _ & Hout).
      destruct (Hout _ _ b eq_refl) as [hp Hhp]; [by change (pv_block_id v) with (vote_key v); rewrite Hkey|].
      by exists hp, (vote_signature <$> decided QAccept (stored st2)).
    + destruct (collect_outcome _ _ _ _ _ _ _ Hval Hspec Hr) as (Hv' & Hbs & _). right.
      rewrite <- Hv' in *. by eapply waiting_store.
  - assert (keyed_votes st2 view x = keyed_votes (ld_votes l) view x) as Hk2.
    { apply save_vote_true in Hs as [_ Hs]. rewrite Hs, decide_False; [done|].
      intros [Hv1 Hv2]. apply Hother. by rewrite Hv1, Hv2. }
    assert (view_of v = view → quorum_of committee t (votes_for st2 (view_of v) (vote_key v)) = None) as Hnone.
    { intros Hvw. rewrite Hvw.
      destruct (quorum_of committee t (votes_for st2 view (vote_key v))) eqn:Hq; [|done].
      apply quorum_only in Hq as [Hx _]; [|done..]. by destruct Hother. }
    destruct (collect_vote (es_epoch es) h (vote_sender v) v committee (ld_votes l)) as [q st'] eqn:Hcol.
    destruct (collect_outcome _ _ _ _ _ _ _ Hval Hcol Hr) as (Hv' & Hbs & _). right.
    assert (st' = st2 ∨ st' = delete (view_of v) st2 ∧ view_of v ≠ view) as Hst.
    { destruct (quorum_of committee t (votes_for st2 (view_of v) (vote_key v))) eqn:Hq;
        injection Hspec as _ ->; [right|by left]. split; [done|]. intros Hvw. by specialize (Hnone Hvw). }
    eapply waiting_keep; [exact Hw| | |done| |]; rewrite ?Hv'.
    + destruct Hst as [->|[-> _]]; [done|by apply delete_votes_ok].
    + destruct Hst as [->|[-> _]]; [done|by apply delete_all_support].
    + destruct Hst as [->|[-> Hne]]; [done|]. by rewrite keyed_votes_delete, decide_False.
    + intros _ Hq Hvw. destruct (Hsupv Hq Hvw) as [Hx _]. by destruct Hother.
Qed.

Lemma waiting_run received l evs :
  waiting received l → 0 ≤ block_height b →
  (∀ h v, (h, v) ∈ evs → h ≤ block_height b + 1 ∧ (vote_valid v → supports v)) →
  (∃ sigs, create_proposal_certificate sigs QAccept b ∈ (collect_certificates l evs).1) ∨
  waiting (reverse evs.*2 ++ received) (collect_certificates l evs).2.
Proof.
  intros Hw Hb0. revert received l Hw. induction evs as [|[h v] evs IH]; intros received l Hw Hev; [by right|].
  simpl. destruct (check_and_collect_vote config es h v l) as [r l'] eqn:Hr.
  destruct (Hev h v) as [Hh Hv]; [by left|].
  assert (∀ h v, (h, v) ∈ evs → h ≤ block_height b + 1 ∧ (vote_valid v → supports v)) as Hev'.
  { intros h' v' ?. apply Hev. by right. }
  rewrite reverse_cons, <- app_assoc. simpl.
  destruct (waiting_step _ _ _ _ _ _ Hw Hb0 Hh Hv Hr) as [(hp & sigs & ->)|Hw'].
  - left. exists sigs. left.
  - destruct (IH _ _ Hw' Hev') as [[sigs Hin]|Hend].
    + left. exists sigs. destruct r as [[[pc hp]|]|e|]; [by right|done..].
    + right. by destruct r as [[[pc hp]|]|e|].
Qed.

(** Once all of [Q] has voted, the block is certified. *)
Lemma quorum_certifies l evs :
  ld_votes l = ∅ → cs_blocks (ld_store l) !! x = Some b → 0 ≤ block_height b →
  (∀ h v, (h, v) ∈ evs → h ≤ block_height b + 1 ∧ (vote_valid v → supports v)) →
  (∀ m, m ∈ committee → Q (cm_public_key m) = true →
     ∃ h v, (h, v) ∈ evs ∧ vote_public_key v = cm_public_key m ∧ vote_valid v ∧ view_of v = view) →
  ∃ sigs, create_proposal_certificate sigs QAccept b ∈ (collect_certificates l evs).1.
Proof.
  intros Hl Hb Hb0 Hev HQv.
  assert (waiting [] l) as Hw.
  { split; rewrite ?Hl.
    - intros vw key sh v. by rewrite keyed_votes_empty, lookup_empty.
    - intros vw key sh v. by rewrite keyed_votes_empty, lookup_empty.
    - done.
    - by intros v ?%elem_of_nil.
    - unfold votes_for. rewrite keyed_votes_empty, map_to_list_empty. simpl. lia. }
  destruct (waiting_run [] l evs Hw Hb0 Hev) as [?|[_ _ _ Hrec Hlt]]; [done|exfalso].
  rewrite app_nil_r in Hrec.
  assert (members_power committee Q ≤
    keys_power committee (voters (decided QAccept (stored (ld_votes (collect_certificates l evs).2)))));
    [|lia].
  apply members_power_keys; [done..|]. intros m Hm Hq.
  destruct (HQv m Hm Hq) as (h & v & Hin & Hpk & Hval & Hvw).
  destruct (Hrec v) as (v' & Hv' & Hpk').
  - apply elem_of_reverse, list_elem_of_fmap. by exists (h, v).
  - done.
  - by rewrite Hpk.
  - done.
  - apply list_elem_of_fmap. exists v'. by rewrite Hpk', Hpk.
Qed.
End progress.
End leader.
