(* ===== verification/VoteCollectorRuns.v ===== *)
(** * Votes into certificates

    The theorems on the vote collector, with runs of a leader of the committee of
    [HotStuffRuns.v]: one that collects a certificate, and one in which replayed
    votes discard the votes of a view. *)
From stdpp Require Import base gmap list numbers.
From S2P Require Import Prelude Ids Sharding Committee Blocks BlockStore HotStuff HotStuffSafety HotStuffRuns VoteCollector VoteCollectorProps.
Open Scope Z_scope.

(** ** A leader *)
#[local] Existing Instance hashes0.
#[local] Existing Instance signatures0.
#[local] Instance registry0 : ValidatorRegistry := {|
  get_validator_node_by_public_key _ k :=
    Ok (if contains_public_key four_members k then Some (MkValidatorNode k 5) else None);
  vn_node_hash _ k _ := k;
  verify_timeout _ _ _ sig := N.eqb sig 1;
|}.

(** A leader that has received the blocks at heights one and two. *)
Definition leader0 : Leader :=
  MkLeader (nd_store (run config0 es0 (initial_node config0 es0 7%N 0)
    (pair env0 <$> [chain 1%N; chain 2%N]))) ∅ ∅.

(** The vote of member [k] for the block at height [i], sent as of height [h]. *)
Definition vote0 (i k : N) (h : Z) : ProposalVote :=
  MkProposalVote 1 (2 * i + 2) h QAccept (MkValidatorSignature k 1).

Definition blocks_okb (s : ConsensusStore) : bool :=
  forallb (λ p, N.eqb p.1 0 ||
    (N.eqb (block_id p.2) p.1 && N.eqb (block_id p.2) (calculate_id (b_header p.2)) &&
     N.eqb (bh_justify_id (b_header p.2)) (pc_calculate_id (b_justify p.2))))
    (map_to_list (cs_blocks s)).

Lemma blocks_okb_spec s : blocks_okb s = true → blocks_ok s.
Proof.
  unfold blocks_okb. rewrite forallb_forall. intros H x b Hx Hb.
  specialize (H (x, b)). rewrite <- list_elem_of_In, elem_of_map_to_list in H. specialize (H Hb).
  simpl in H. rewrite orb_true_iff, !andb_true_iff, !N.eqb_eq in H. unfold well_identified. naive_solver.
Qed.

Lemma eligible0 k : eligible es0 k → contains_public_key four_members k = true.
Proof.
  unfold eligible, check_eligibility. intros [vn H].
  cbn [get_validator_node_by_public_key registry0 res_bind] in H.
  by destruct (contains_public_key four_members k).
Qed.

Lemma registry_matches0 : registry_matches es0.
Proof.
  intros k Hk%eligible0. unfold contains_public_key in Hk. simpl in Hk.
  unfold get_power_by_public_key. simpl.
  rewrite !orb_true_iff, !bool_decide_eq_true in Hk.
  repeat (case_bool_decide; [by eexists|]). naive_solver.
Qed.

Lemma sender0 v : eligible es0 (vote_public_key v) → pv_epoch v = 1 → vote_sender config0 es0 v = vote_public_key v.
Proof.
  intros Hel%eligible0 He. unfold vote_sender, check_eligibility.
  cbn [get_validator_node_by_public_key registry0 res_bind]. by rewrite Hel.
Qed.

Definition no_duplicates0 : NoDup (cm_public_key <$> es_local_committee es0).
Proof. apply (bool_decide_eq_true_1 (NoDup (cm_public_key <$> four_members))). reflexivity. Qed.

(** ** Theorems *)

(** C12: Certificates built from votes pass every validator's check.  Whatever
    votes a leader receives, in whatever order, a certificate that
    [check_and_collect_vote] returns is for the block of the vote that completed
    it, and [check_quorum_certificate_signatures] accepts it, in whatever order
    the hash map yields the signatures; provided the registered validators of
    the shard group are the members of the committee. *)
Theorem collected_certificate_verifies `{Bh : !BlockHashes} `{Sg : !Signatures}
    `{Vr : !ValidatorRegistry} (config : HotstuffConfig) (es : EpochState) (n : Z) (l : Leader)
    (evs : list (NodeHeight * ProposalVote)) (h : NodeHeight) (v : ProposalVote)
    (pc : ProposalCertificate) (hp : HighPc) (l' : Leader) :
  powers_ok (es_local_committee es) →
  total_power (E := HotStuffError) (es_local_committee es) = Ok n → 0 < n →
  registry_matches es → ld_votes l = ∅ → blocks_ok (ld_store l) → pv_block_id v ≠ 0%N →
  check_and_collect_vote config es h v (collect_certificates config es l evs).2 =
    (Ok (Some (pc, hp)), l') →
  calculate_block_id pc = pv_block_id v ∧
  ∀ sigs, sigs ≡ₚ pc_signatures pc →
    check_quorum_certificate_signatures (with_signatures sigs pc) (es_local_committee es) = Ok tt.
Proof.
  intros Hc Hn Hpos Hm Hl Hb Hnz Hr.
  assert (votes_ok (vote_sender config es) (vote_valid es) (ld_votes l)) as Hok.
  { rewrite Hl. intros view key sh v'. by rewrite keyed_votes_empty, lookup_empty. }
  destruct (collect_certificates_ok config es n Hc Hpos Hn l evs Hm Hok Hb) as [Hok' Hb'].
  eapply (check_and_collect_ok config es n Hc Hpos Hn) in Hr as (_ & _ & Hcert); [|done..].
  by apply (Hcert pc hp).
Qed.

Lemma collected_certificate_verifies_witness :
  ∃ pc hp l',
    check_and_collect_vote config0 es0 2 (vote0 1 13 1)
      (collect_certificates config0 es0 leader0 [(2, vote0 1 11 1); (2, vote0 1 12 1)]).2 =
      (Ok (Some (pc, hp)), l') ∧
    calculate_block_id pc = 4%N ∧
    ∀ sigs, sigs ≡ₚ pc_signatures pc →
      check_quorum_certificate_signatures (with_signatures sigs pc) (es_local_committee es0) = Ok tt.
Proof.
  destruct (check_and_collect_vote config0 es0 2 (vote0 1 13 1)
    (collect_certificates config0 es0 leader0 [(2, vote0 1 11 1); (2, vote0 1 12 1)]).2)
    as [r l'] eqn:Hr.
  assert (match r with Ok (Some _) => True | _ => False end) as Hsome.
  { change r with ((r, l').1). rewrite <- Hr. vm_compute. exact I. }
  destruct r as [[[pc hp]|]|e|]; [|destruct Hsome..].
  exists pc, hp, l'. split; [reflexivity|].
  apply (collected_certificate_verifies config0 es0 4 leader0 [(2, vote0 1 11 1); (2, vote0 1 12 1)] 2
    (vote0 1 13 1) pc hp l').
  - repeat constructor; done.
  - reflexivity.
  - lia.
  - exact registry_matches0.
  - reflexivity.
  - apply blocks_okb_spec. vm_compute. reflexivity.
  - done.
  - exact Hr.
Defined.

(** C7: A quorum of votes is enough.  Members that together reach the quorum
    threshold vote to accept a block that the leader has stored, and the leader,
    whose collector starts empty, receives their votes while its current height is
    at most one above the block.  If every valid vote of these members that is
    filed under the block's height is for the block, then the leader obtains an
    accepting certificate for it, whatever the order of arrival and whatever votes
    the other members sign, although the collector forgets a view whenever
    some block reaches a quorum in it.  The condition is not enforced by the code:
    the height of a vote is not signed, so that a faulty member can file old votes
    of these members for another block under this height, and such replayed votes
    can empty the view ([replayed_votes_discard_view]). *)
Theorem quorum_of_votes_certifies `{Bh : !BlockHashes} `{Sg : !Signatures}
    `{Vr : !ValidatorRegistry} (config : HotstuffConfig) (es : EpochState) (n t : Z) (l : Leader)
    (evs : list (NodeHeight * ProposalVote)) (b : Block) (Q : PublicKeyBytes → bool) :
  let committee := es_local_committee es in
  let view := (es_epoch es, block_height b) in
  powers_ok committee → NoDup (cm_public_key <$> committee) →
  total_power (E := HotStuffError) committee = Ok n → 0 < n →
  quorum_threshold (E := HotStuffError) committee = Ok t → t ≤ members_power committee Q →
  (∀ v v', vote_valid es v → vote_valid es v' → vote_sender config es v = vote_sender config es v' →
     vote_public_key v = vote_public_key v') →
  ld_votes l = ∅ → cs_blocks (ld_store l) !! block_id b = Some b → well_identified b →
  0 ≤ block_height b →
  (∀ h v, (h, v) ∈ evs → h ≤ block_height b + 1) →
  (∀ h v, (h, v) ∈ evs → vote_valid es v → Q (vote_public_key v) = true → view_of v = view →
     pv_block_id v = block_id b ∧ pv_decision v = QAccept) →
  (∀ m, m ∈ committee → Q (cm_public_key m) = true →
     ∃ h v, (h, v) ∈ evs ∧ vote_public_key v = cm_public_key m ∧ vote_valid es v ∧ view_of v = view) →
  ∃ pc, pc ∈ (collect_certificates config es l evs).1 ∧ calculate_block_id pc = block_id b ∧
    pc_decision pc = QAccept.
Proof.
  intros committee view Hc Hnd Hn Hpos Ht HQ Hhash Hl Hb Hw Hb0 Hh Hsup Hall.
  destruct (quorum_threshold_exists committee n Hc Hn Hpos) as (t' & Ht' & Htn).
  rewrite Ht in Ht'. injection Ht' as <-.
  destruct (quorum_certifies config es n Hc Hpos Hn Q t b Ht Htn HQ Hnd Hhash l evs)
    as [sigs Hin]; [done..| |done|].
  - intros h v Hin. split; [by eapply Hh|]. intros Hval Hq Hvw. by eapply Hsup.
  - eexists. split_and!; [exact Hin| |done]. by rewrite (proj1 Hw).
Qed.

Definition votes_1 : list (NodeHeight * ProposalVote) :=
  [(2, vote0 1 14 2); (2, vote0 1 12 1); (2, vote0 1 11 1); (2, vote0 1 12 1); (2, vote0 1 13 1)].
Definition honest_three (k : PublicKeyBytes) : bool := negb (N.eqb k 14).
Definition stored_1 : Block :=
  default (chain 1%N) (cs_blocks (ld_store leader0) !! 4%N).

Lemma stored_1_spec : block_id stored_1 = 4%N ∧ block_height stored_1 = 1.
Proof. vm_compute. by split. Qed.

Lemma vote_valid0 k : k ∈ [11; 12; 13; 14]%N → vote_valid es0 (vote0 1 k 1).
Proof.
  intros Hk. apply vote_valid_spec.
  assert (k = 11%N ∨ k = 12%N ∨ k = 13%N ∨ k = 14%N) as Hk' by set_solver.
  destruct Hk' as [-> |[-> |[-> | ->]]]; split_and!; [by eexists| | |by eexists| | |by eexists| | |by eexists| |];
    reflexivity.
Qed.

Lemma quorum_of_votes_certifies_witness :
  ∃ pc, pc ∈ (collect_certificates config0 es0 leader0 votes_1).1 ∧ calculate_block_id pc = block_id stored_1 ∧
    pc_decision pc = QAccept.
Proof.
  apply (quorum_of_votes_certifies config0 es0 4 3 leader0 votes_1 stored_1 honest_three).
  - repeat constructor; done.
  - exact no_duplicates0.
  - reflexivity.
  - lia.
  - reflexivity.
  - vm_compute. done.
  - intros v v' [Hv [He _]]%vote_valid_spec [Hv' [He' _]]%vote_valid_spec Hs.
    rewrite !sender0 in Hs by done. exact Hs.
  - reflexivity.
  - vm_compute. reflexivity.
  - vm_compute. split; reflexivity.
  - vm_compute. done.
  - intros h v Hin. assert (h = 2) as -> by (unfold votes_1 in Hin; set_solver).
    rewrite (proj2 stored_1_spec). lia.
  - intros h v Hin _ Hq _. rewrite (proj1 stored_1_spec). unfold votes_1 in Hin.
    apply elem_of_cons in Hin as [[= -> ->]|Hin]; [discriminate Hq|].
    repeat (apply elem_of_cons in Hin as [[= -> ->]|Hin]; [split; reflexivity|]).
    by apply elem_of_nil in Hin.
  - intros m Hm Hq.
    assert (cm_public_key m = 11%N ∨ cm_public_key m = 12%N ∨ cm_public_key m = 13%N) as Hk.
    { change (es_local_committee es0) with four_members in Hm. unfold four_members in Hm.
      repeat (apply elem_of_cons in Hm as [->|Hm]; [simpl in *; tauto || done|]).
      by apply elem_of_nil in Hm. }
    destruct Hk as [Hk|[Hk|Hk]]; rewrite Hk; exists 2, (vote0 1 (cm_public_key m) 1); rewrite Hk;
      (split; [unfold votes_1; set_solver|]); (split; [reflexivity|]);
      (split; [apply vote_valid0; set_solver|]); rewrite (proj2 stored_1_spec); reflexivity.
Defined.

(** ** Replayed votes

    A vote's height is not covered by its signature, and the sender of a message
    need not be the signer of the vote.  Votes for an earlier block, replayed
    under the current height, complete a quorum of their own: the collector then
    discards all votes of the view. *)
Definition replayed : list (NodeHeight * ProposalVote) :=
  [(2, vote0 2 11 2); (2, vote0 2 12 2);
   (2, vote0 1 11 2); (2, vote0 1 12 2); (2, vote0 1 13 2);
   (2, vote0 2 13 2)].

(** Replayed votes discard the votes of a view.  Three of four members vote
    for the block at height two, which yields a certificate for it; with the
    votes for the block at height one replayed in between under height two, the
    same votes yield none. *)
Theorem replayed_votes_discard_view :
  calculate_block_id <$>
    (collect_certificates config0 es0 leader0 [(2, vote0 2 11 2); (2, vote0 2 12 2); (2, vote0 2 13 2)]).1 =
    [block_id (chain 2%N)] ∧
  calculate_block_id <$> (collect_certificates config0 es0 leader0 replayed).1 = [block_id (chain 1%N)] ∧
  Forall (λ k, (2, vote0 2 k 2) ∈ replayed) [11; 12; 13]%N.
Proof. split_and!; [vm_compute; reflexivity..|]. unfold replayed. repeat constructor; set_solver. Qed.
