(* ===== verification/PendingStore.v ===== *)
(** * The pending substate store

    The view of the state that a validator decides a block on:
    [consensus/src/hotstuff/substate_store/pending_store.rs] over the diffs of
    the pending blocks and the committed substates
    ([storage/src/consensus_models/{substate_change,block_diff,substate_lock}.rs],
    the queries of [state_store_rocksdb/src/reader.rs]).

    A change creates a version of a substate or destroys it; changes of the block
    being decided are kept in memory, those of its pending ancestors in the
    block-diff table.  Locks coordinate the transactions of the pending blocks.
    The latest lock that the store has for each substate is a field of the base
    store. *)
From stdpp Require Import base gmap list numbers sorting.
From S2P Require Import Prelude Ids Substate Sharding Committee Blocks BlockStore.
Open Scope Z_scope.

Notation TransactionId := N (only parsing).

(** ** Versions, changes and locks *)
Record VersionedSubstateId := MkVersionedSubstateId {
  vsi_substate_id : SubstateId;
  vsi_version : Z;
}.
#[export] Instance VersionedSubstateId_eq_dec : EqDecision VersionedSubstateId.
Proof. solve_decision. Defined.

Inductive SubstateChange :=
  | ChangeUp (id : SubstateId) (shard : Z) (substate : Substate)
  | ChangeDown (id : VersionedSubstateId) (shard : Z).

Definition versioned_substate_id (c : SubstateChange) : VersionedSubstateId :=
  match c with
  | ChangeUp id _ substate => MkVersionedSubstateId id (version substate)
  | ChangeDown id _ => id
  end.
Definition change_substate_id (c : SubstateChange) : SubstateId :=
  vsi_substate_id (versioned_substate_id c).
Definition change_version (c : SubstateChange) : Z := vsi_version (versioned_substate_id c).
Definition change_shard (c : SubstateChange) : Z :=
  match c with ChangeUp _ shard _ | ChangeDown _ shard => shard end.
Definition is_up (c : SubstateChange) : bool := match c with ChangeUp _ _ _ => true | _ => false end.
Definition is_down (c : SubstateChange) : bool := negb (is_up c).
Definition up_substate (c : SubstateChange) : option Substate :=
  match c with ChangeUp _ _ substate => Some substate | _ => None end.

Inductive SubstateLockType := LockTypeRead | LockTypeWrite | LockTypeOutput.
#[export] Instance SubstateLockType_eq_dec : EqDecision SubstateLockType.
Proof. solve_decision. Defined.
Definition is_read (t : SubstateLockType) : bool := bool_decide (t = LockTypeRead).
Definition is_write (t : SubstateLockType) : bool := bool_decide (t = LockTypeWrite).
Definition is_output (t : SubstateLockType) : bool := bool_decide (t = LockTypeOutput).
Definition allows (self other : SubstateLockType) : bool :=
  match self with
  | LockTypeRead => is_read other
  | LockTypeWrite => is_read other || is_write other
  | LockTypeOutput => is_output other
  end.

Record SubstateLock := MkSubstateLock {
  sl_transaction_id : TransactionId;
  sl_version : Z;
  sl_lock_type : SubstateLockType;
  sl_is_local_only : bool;
}.

Record LockConflict := MkLockConflict {
  lc_transaction_id : TransactionId;
  lc_existing_lock : SubstateLockType;
  lc_requested_lock : SubstateLockType;
  lc_is_local_only : bool;
}.

(** The [LockIntent] trait. *)
Record LockIntent := MkLockIntent {
  li_substate_id : SubstateId;
  li_lock_type : SubstateLockType;
  li_version_to_lock : Z;
  li_requested_version : option Z;
}.
Definition to_versioned (l : LockIntent) : VersionedSubstateId :=
  MkVersionedSubstateId (li_substate_id l) (li_version_to_lock l).

Inductive LockFailedError :=
  | LfSubstateNotFound (id : VersionedSubstateId)
  | LfSubstateIsDown (id : VersionedSubstateId)
  | LfLockConflict (id : VersionedSubstateId) (conflict : LockConflict)
  | LfSubstateIsUp (id : VersionedSubstateId).

Inductive SubstateStoreError :=
  | LockFailed (e : LockFailedError)
  | SubstateNotFound (id : VersionedSubstateId)
  | SubstateIsDown (id : VersionedSubstateId)
  | ExpectedSubstateDown (id : VersionedSubstateId)
  | StoreError (e : StorageError)
  | InvariantError.

(** ** The base store *)
Record SubstateRecord := MkSubstateRecord {
  sr_version : Z;
  sr_substate_value : option SubstateValue; (* pruned for destroyed substates *)
  sr_shard : Z;
  sr_destroyed : bool;
}.

Record BaseStore := MkBaseStore {
  bs_consensus : ConsensusStore;
  bs_diffs : gmap BlockId (list SubstateChange);
  bs_records : gmap SubstateAddress SubstateRecord;
  bs_heads : gmap SubstateId (Z * bool); (* latest version, and whether it is up *)
  bs_locks : gmap SubstateId SubstateLock; (* the latest lock *)
}.

(** Keys of the index of changes by substate id: ordered by block id, version,
    whether the change is up, and the position of the change in its block. *)
Record BlockDiffKey := MkBlockDiffKey {
  bdk_block_id : BlockId;
  bdk_version : Z;
  bdk_is_up : bool;
  bdk_sequence : nat;
}.
Definition bdk_le (a b : BlockDiffKey * SubstateChange) : Prop :=
  let ka := a.1 in let kb := b.1 in
  (bdk_block_id ka < bdk_block_id kb)%N ∨
  (bdk_block_id ka = bdk_block_id kb ∧
    (bdk_version ka < bdk_version kb ∨
     (bdk_version ka = bdk_version kb ∧
       ((bdk_is_up ka = false ∧ bdk_is_up kb = true) ∨
        (bdk_is_up ka = bdk_is_up kb ∧ (bdk_sequence ka ≤ bdk_sequence kb)%nat))))).
#[export] Instance bdk_le_dec a b : Decision (bdk_le a b).
Proof. unfold bdk_le. simpl. apply _. Defined.

Definition block_diff_entries (block_id : BlockId) (changes : list SubstateChange) :
    list (BlockDiffKey * SubstateChange) :=
  imap (λ seq c, (MkBlockDiffKey block_id (change_version c) (is_up c) seq, c)) changes.

(** [BySubstateIdQuery] in ascending order. *)
Definition changes_by_substate_id (s : BaseStore) (id : SubstateId) :
    list (BlockDiffKey * SubstateChange) :=
  merge_sort bdk_le
    (filter (λ e, change_substate_id e.2 = id)
       (map_to_list (bs_diffs s) ≫= λ p, block_diff_entries p.1 p.2)).

(** [get_pending_chain_until]. *)
Fixpoint pending_chain_loop (fuel : nat) (pending : gmap BlockId BlockId) (block_id : BlockId) :
    list BlockId :=
  match fuel with
  | O => []
  | S fuel =>
      match pending !! block_id with
      | None => []
      | Some parent => parent :: (if N.eqb parent 0 then [] else pending_chain_loop fuel pending parent)
      end
  end.
Definition get_pending_chain_until (s : BaseStore) (end_block : BlockId) : list BlockId :=
  let pending := cs_pending (bs_consensus s) in
  match pending !! end_block with
  | None => []
  | Some _ => end_block :: pending_chain_loop (S (size pending)) pending end_block
  end.

(** [block_diffs_get_last_change_for_substate]: the entry of the highest version,
    the first of those in key order.  The membership test is on the block asked
    for, as in the source, not on the block of the entry. *)
Definition last_change_loop (block_id : BlockId) (applicable_blocks : list BlockId)
    (entries : list (BlockDiffKey * SubstateChange)) : option (BlockDiffKey * SubstateChange) :=
  fold_left (λ max_change e,
    if match max_change with
       | None => true
       | Some c => bdk_version c.1 <? bdk_version e.1
       end && bool_decide (block_id ∈ applicable_blocks)
    then Some e else max_change) entries None.

Definition get_last_change_for_substate (s : BaseStore) (block_id : BlockId) (id : SubstateId) :
    res SubstateStoreError (option SubstateChange) :=
  match cs_blocks (bs_consensus s) !! block_id with
  | None => Err (StoreError QueryError)
  | Some _ =>
      Ok (snd <$> last_change_loop block_id (get_pending_chain_until s block_id)
                    (changes_by_substate_id s id))
  end.

(** [block_diffs_get_change_for_versioned_substate]. *)
Definition get_for_versioned_substate (s : BaseStore) (block_id : BlockId) (id : VersionedSubstateId) :
    res SubstateStoreError (option SubstateChange) :=
  match cs_blocks (bs_consensus s) !! block_id with
  | None => Err (StoreError QueryError)
  | Some _ =>
      Ok (snd <$> List.find (λ e, (bdk_version e.1 =? vsi_version id) &&
                             bool_decide (block_id ∈ get_pending_chain_until s block_id))
                    (changes_by_substate_id s (vsi_substate_id id)))
  end.

(** ** The store *)
Record PendingSubstateStore := MkPendingSubstateStore {
  ps_pending : gmap SubstateAddress nat;
  ps_head : gmap SubstateId nat;
  ps_changes : list SubstateChange;
  ps_new_locks : list (SubstateId * list SubstateLock); (* in order of insertion *)
}.
Definition pending_store_new : PendingSubstateStore := MkPendingSubstateStore ∅ ∅ [] [].

Record LatestSubstateVersion := MkLatestSubstateVersion { lv_version : Z; lv_is_up : bool }.

Notation StoreM A := (M PendingSubstateStore SubstateStoreError A).

Definition get_store : StoreM PendingSubstateStore := λ ps, (Ok ps, ps).

Section pending_store.
Context `{Kh : !ObjectKeyHashes} (base : BaseStore) (parent_block : BlockRef).
Context (num_preshards : NumPreshards).
Implicit Types (id : VersionedSubstateId) (ps : PendingSubstateStore) (c : SubstateChange).

Definition to_substate_address id : SubstateAddress :=
  from_object_key (to_object_key (vsi_substate_id id)) (vsi_version id).
Definition vsi_to_shard id : res SubstateStoreError Z :=
  substate_id_to_shard (vsi_substate_id id) (vsi_version id) num_preshards.

(** A look-up of an index in [changes]; the maps and the list are in step, or the
    code panics. *)
Definition change_at ps (pos : option nat) : res SubstateStoreError (option SubstateChange) :=
  match pos with
  | None => Ok None
  | Some pos => let? c := expect (ps_changes ps !! pos) in Ok (Some c)
  end.
Definition get_pending ps id : res SubstateStoreError (option SubstateChange) :=
  change_at ps (ps_pending ps !! to_substate_address id).
Definition get_head_change ps (id : SubstateId) : res SubstateStoreError (option SubstateChange) :=
  change_at ps (ps_head ps !! id).

Definition insert_change c : StoreM unit :=
  modify (λ ps,
    let index := length (ps_changes ps) in
    MkPendingSubstateStore
      (<[to_substate_address (versioned_substate_id c) := index]> (ps_pending ps))
      (<[change_substate_id c := index]> (ps_head ps))
      (ps_changes ps ++ [c]) (ps_new_locks ps)).

(** The committed record of a version. *)
Definition record_of id : option SubstateRecord := bs_records base !! to_substate_address id.

Definition into_substate (r : SubstateRecord) : option Substate :=
  (λ v, MkSubstate v (sr_version r)) <$> sr_substate_value r.

Definition get_latest_change_from_store (id : SubstateId) : res SubstateStoreError SubstateChange :=
  let? change := get_last_change_for_substate base (br_block_id parent_block) id in
  match change with
  | Some c => Ok c
  | None =>
      match bs_heads base !! id with
      | None => Err (SubstateNotFound (MkVersionedSubstateId id 0))
      | Some (max_version, _) =>
          match record_of (MkVersionedSubstateId id max_version) with
          | None => Err (SubstateNotFound (MkVersionedSubstateId id 0))
          | Some substate =>
              if sr_destroyed substate
              then Ok (ChangeDown (MkVersionedSubstateId id (sr_version substate)) (sr_shard substate))
              else let? s := expect (into_substate substate) in Ok (ChangeUp id (sr_shard substate) s)
          end
      end
  end.

Definition get ps id : res SubstateStoreError Substate :=
  let? pending := get_pending ps id in
  match pending with
  | Some c =>
      match up_substate c with
      | Some s => Ok s
      | None => Err (SubstateIsDown (versioned_substate_id c))
      end
  | None =>
      let? change := get_for_versioned_substate base (br_block_id parent_block) id in
      match change with
      | Some c =>
          match up_substate c with Some s => Ok s | None => Err (SubstateIsDown id) end
      | None =>
          match record_of id with
          | None => Err (SubstateNotFound id)
          | Some r => if sr_destroyed r then Err (SubstateIsDown id) else expect (into_substate r)
          end
      end
  end.

(** What the three layers say about a version: whether it is up, if it exists. *)
Definition version_status ps id : res SubstateStoreError (option bool) :=
  let? pending := get_pending ps id in
  match pending with
  | Some c => Ok (Some (is_up c))
  | None =>
      let? change := get_for_versioned_substate base (br_block_id parent_block) id in
      match change with
      | Some c => Ok (Some (is_up c))
      | None => Ok ((λ r, negb (sr_destroyed r)) <$> record_of id)
      end
  end.

Definition assert_is_up ps id : res SubstateStoreError unit :=
  let? status := version_status ps id in
  match status with
  | Some true => Ok tt
  | Some false => Err (SubstateIsDown id)
  | None => Err (SubstateNotFound id)
  end.
Definition assert_is_down ps id : res SubstateStoreError unit :=
  let? status := version_status ps id in
  match status with
  | Some true => Err (ExpectedSubstateDown id)
  | Some false => Ok tt
  | None => Err (SubstateNotFound id)
  end.
Definition lock_assert_is_up ps id : res SubstateStoreError unit :=
  match assert_is_up ps id with
  | Err (SubstateIsDown id) => Err (LockFailed (LfSubstateIsDown id))
  | Err (SubstateNotFound id) => Err (LockFailed (LfSubstateNotFound id))
  | r => r
  end.
(** A change that destroys the version lets the request pass; a committed record
    fails it, destroyed or not. *)
Definition lock_assert_not_exist ps id : res SubstateStoreError unit :=
  let? pending := get_pending ps id in
  match pending with
  | Some c => if is_up c then Err (LockFailed (LfSubstateIsUp id)) else Ok tt
  | None =>
      let? change := get_for_versioned_substate base (br_block_id parent_block) id in
      match change with
      | Some c => if is_up c then Err (LockFailed (LfSubstateIsUp id)) else Ok tt
      | None =>
          match record_of id with
          | Some _ => Err (LockFailed (LfSubstateIsUp id))
          | None => Ok tt
          end
      end
  end.

Definition get_latest_version ps (id : SubstateId) : res SubstateStoreError LatestSubstateVersion :=
  let? head := get_head_change ps id in
  match head with
  | Some c => Ok (MkLatestSubstateVersion (change_version c) (is_up c))
  | None =>
      let? change := get_last_change_for_substate base (br_block_id parent_block) id in
      match change with
      | Some c => Ok (MkLatestSubstateVersion (change_version c) (is_up c))
      | None =>
          match bs_heads base !! id with
          | Some (v, up) => Ok (MkLatestSubstateVersion v up)
          | None => Err (SubstateNotFound (MkVersionedSubstateId id 0))
          end
      end
  end.

Definition get_latest_change ps (id : SubstateId) : res SubstateStoreError SubstateChange :=
  let? head := get_head_change ps id in
  match head with
  | Some c => Ok c
  | None => get_latest_change_from_store id
  end.

(** ** Changes *)
Definition put c : StoreM unit :=
  do! (λ ps, (match c with
              | ChangeUp id _ substate =>
                  if 0 <? version substate
                  then assert_is_down ps (MkVersionedSubstateId id (version substate - 1))
                  else Ok tt
              | ChangeDown id _ => assert_is_up ps id
              end, ps)) in
  insert_change c.

(** [*get_head_change_mut(id) = c]. *)
Definition set_change (pos : nat) c : StoreM unit :=
  modify (λ ps, MkPendingSubstateStore (ps_pending ps) (ps_head ps) (<[pos := c]> (ps_changes ps))
                  (ps_new_locks ps)).

Definition next_version (v : Z) : res SubstateStoreError Z := u32_add v 1.

Definition update_in_place (substate_id : SubstateId)
    (updater : SubstateValue → res SubstateStoreError SubstateValue)
    (creator : option VersionedSubstateId → res SubstateStoreError SubstateValue) : StoreM unit :=
  let! head := (λ ps, (get_head_change ps substate_id, ps)) in
  match head with
  | Some (ChangeUp id shard substate) =>
      let! pos := (λ ps, (expect (ps_head ps !! substate_id), ps)) in
      let! value := lift (updater (substate_value substate)) in
      set_change pos (ChangeUp id shard (MkSubstate value (version substate)))
  | Some (ChangeDown id _) =>
      let! value := lift (creator (Some id)) in
      let! v := lift (next_version (vsi_version id)) in
      let! shard := lift (vsi_to_shard id) in
      insert_change (ChangeUp (vsi_substate_id id) shard (MkSubstate value v))
  | None =>
      match get_latest_change_from_store substate_id with
      | Err (SubstateNotFound _) =>
          let! value := lift (creator None) in
          let! shard := lift (vsi_to_shard (MkVersionedSubstateId substate_id 0)) in
          insert_change (ChangeUp substate_id shard (MkSubstate value 0))
      | Err e => throw e
      | Panic => panic
      | Ok (ChangeUp id shard substate) =>
          do! insert_change (ChangeDown (MkVersionedSubstateId id (version substate)) shard) in
          let! v := lift (next_version (version substate)) in
          let! value := lift (updater (substate_value substate)) in
          insert_change (ChangeUp id shard (MkSubstate value v))
      | Ok (ChangeDown id _) =>
          let! value := lift (creator (Some id)) in
          let! v := lift (next_version (vsi_version id)) in
          let next_id := MkVersionedSubstateId (vsi_substate_id id) v in
          let! shard := lift (vsi_to_shard next_id) in
          insert_change (ChangeUp (vsi_substate_id id) shard (MkSubstate value v))
      end
  end.

Definition is_validator_fee_pool (id : SubstateId) : bool :=
  match id with SidValidatorFeePool _ => true | _ => false end.

(** The updater and creator for a fee withdrawal. *)
Definition withdraw_fee (amount : Z) (v : SubstateValue) : res SubstateStoreError SubstateValue :=
  match as_validator_fee_pool v with
  | None => Err InvariantError
  | Some pool =>
      match withdraw_direct (E := SubstateStoreError) amount pool with
      | (Ok true, pool) => Ok (SvValidatorFeePool pool)
      | _ => Err InvariantError
      end
  end.
Definition no_fee_pool (id : SubstateId) (maybe_id : option VersionedSubstateId) :
    res SubstateStoreError SubstateValue :=
  match maybe_id with
  | Some id => Err (SubstateIsDown id)
  | None => Err (SubstateNotFound (MkVersionedSubstateId id 0))
  end.

Definition put_diff (diff : SubstateDiff) : StoreM unit :=
  do! for_each (down_substates diff) (λ p,
        if is_validator_fee_pool p.1 then ret tt
        else
          let id := MkVersionedSubstateId p.1 p.2 in
          let! shard := lift (vsi_to_shard id) in
          put (ChangeDown id shard)) in
  do! for_each (up_substates diff) (λ p,
        if is_validator_fee_pool p.1 then ret tt
        else
          let! shard := lift (vsi_to_shard (MkVersionedSubstateId p.1 (version p.2))) in
          put (ChangeUp p.1 shard p.2)) in
  for_each (fee_withdrawals diff) (λ w,
    let id := SidValidatorFeePool (withdrawal_address w) in
    update_in_place id (withdraw_fee (withdrawal_amount w)) (no_fee_pool id)).

(** ** Locks *)

(** [new_locks.entry(id).or_default().push(lock)]. *)
Fixpoint push_lock (id : SubstateId) (lock : SubstateLock) (locks : list (SubstateId * list SubstateLock)) :
    list (SubstateId * list SubstateLock) :=
  match locks with
  | [] => [(id, [lock])]
  | (id', ls) :: locks =>
      if decide (id' = id) then (id', ls ++ [lock]) :: locks else (id', ls) :: push_lock id lock locks
  end.
Fixpoint locks_of (id : SubstateId) (locks : list (SubstateId * list SubstateLock)) : list SubstateLock :=
  match locks with
  | [] => []
  | (id', ls) :: locks => if decide (id' = id) then ls else locks_of id locks
  end.

Definition add_new_lock (id : SubstateId) (lock : SubstateLock) : StoreM unit :=
  modify (λ ps, MkPendingSubstateStore (ps_pending ps) (ps_head ps) (ps_changes ps)
                  (push_lock id lock (ps_new_locks ps))).

Definition get_latest_lock_by_id ps (id : SubstateId) : option SubstateLock :=
  match list.last (locks_of id (ps_new_locks ps)) with
  | Some lock => Some lock
  | None => bs_locks base !! id
  end.

(** The lock that is added over an existing one, or [None] for a conflict. *)
Definition lock_over (existing : SubstateLock) (transaction_id : TransactionId)
    (requested : SubstateLockType) (is_local_only : bool) : option SubstateLockType :=
  let has_local_only_rules := sl_is_local_only existing && is_local_only in
  let same_transaction := N.eqb (sl_transaction_id existing) transaction_id in
  match sl_lock_type existing with
  | LockTypeRead =>
      if has_local_only_rules && is_write requested then None
      else if negb has_local_only_rules && negb same_transaction && negb (is_read requested) then None
      else if negb has_local_only_rules && same_transaction && negb (is_output requested) then None
      else Some requested
  | LockTypeWrite =>
      if negb same_transaction && negb has_local_only_rules then None
      else if negb (is_output requested) then None
      else Some LockTypeOutput
  | LockTypeOutput =>
      if negb has_local_only_rules then None
      else if is_output requested then None
      else Some requested
  end.

(** The [is_local_only] that a conflict reports. *)
Definition conflict_is_local_only (existing : SubstateLock) (transaction_id : TransactionId)
    (is_local_only : bool) : bool :=
  let has_local_only_rules := sl_is_local_only existing && is_local_only in
  match sl_lock_type existing with
  | LockTypeWrite =>
      if negb (N.eqb (sl_transaction_id existing) transaction_id) && negb has_local_only_rules
      then false else has_local_only_rules
  | _ => has_local_only_rules
  end.

Definition try_lock (transaction_id : TransactionId) (requested_lock : LockIntent)
    (is_local_only : bool) : StoreM unit :=
  let requested := li_lock_type requested_lock in
  let id := to_versioned requested_lock in
  let! ps := get_store in
  match get_latest_lock_by_id ps (vsi_substate_id id) with
  | None =>
      do! lift (if is_output requested then lock_assert_not_exist ps id else lock_assert_is_up ps id) in
      add_new_lock (vsi_substate_id id)
        (MkSubstateLock transaction_id (vsi_version id) requested is_local_only)
  | Some existing =>
      if N.eqb (sl_transaction_id existing) transaction_id &&
         bool_decide (sl_lock_type existing = requested)
      then ret tt
      else
        match lock_over existing transaction_id requested is_local_only with
        | Some t =>
            add_new_lock (vsi_substate_id id)
              (MkSubstateLock transaction_id (vsi_version id) t is_local_only)
        | None =>
            throw (LockFailed (LfLockConflict id
              (MkLockConflict (sl_transaction_id existing) (sl_lock_type existing) requested
                 (conflict_is_local_only existing transaction_id is_local_only))))
        end
  end.

(** [LockStatus]: the failures with the index of a hard conflict; the conflicts
    are those among the failures. *)
Record LockStatus := MkLockStatus {
  ls_failures : list LockFailedError;
  ls_hard_conflict_idx : option nat;
}.
Definition lock_status_new : LockStatus := MkLockStatus [] None.
Definition is_any_failed (s : LockStatus) : bool := bool_decide (ls_failures s ≠ []).
Definition is_hard_conflict (s : LockStatus) : bool := bool_decide (ls_hard_conflict_idx s ≠ None).
Definition hard_conflict (s : LockStatus) : res SubstateStoreError (option LockFailedError) :=
  match ls_hard_conflict_idx s with
  | None => Ok None
  | Some idx => let? e := expect (ls_failures s !! idx) in Ok (Some e)
  end.
Definition ls_conflicts (s : LockStatus) : list LockConflict :=
  omap (λ e, match e with LfLockConflict _ c => Some c | _ => None end) (ls_failures s).

(** A failed request that aborts the transaction: the substate is not in the
    state required, or a specific version is locked. *)
Definition is_hard (requested_lock : LockIntent) (e : LockFailedError) : bool :=
  match e with
  | LfLockConflict _ _ => bool_decide (li_requested_version requested_lock ≠ None)
  | _ => true
  end.

Fixpoint try_lock_loop (transaction_id : TransactionId) (id_locks : list LockIntent)
    (is_local_only : bool) (status : LockStatus) : StoreM LockStatus :=
  match id_locks with
  | [] => ret status
  | lock :: id_locks =>
      λ ps, match try_lock transaction_id lock is_local_only ps with
            | (Ok _, ps) => try_lock_loop transaction_id id_locks is_local_only status ps
            | (Err (LockFailed e), ps) =>
                let index := length (ls_failures status) in
                let failures := ls_failures status ++ [e] in
                if is_hard lock e then (Ok (MkLockStatus failures (Some index)), ps)
                else try_lock_loop transaction_id id_locks is_local_only
                       (MkLockStatus failures (ls_hard_conflict_idx status)) ps
            | (Err e, ps) => (Err e, ps)
            | (Panic, ps) => (Panic, ps)
            end
  end.

Definition try_lock_all (transaction_id : TransactionId) (id_locks : list LockIntent)
    (is_local_only : bool) : StoreM LockStatus :=
  try_lock_loop transaction_id id_locks is_local_only lock_status_new.

(** ** The shard bitmap *)
Fixpoint set_shard_bits (shard_group : ShardGroup) (changes : list SubstateChange) (bitmap : list bool) :
    res SubstateStoreError (list bool) :=
  match changes with
  | [] => Ok bitmap
  | c :: changes =>
      let shard := change_shard c in
      if negb (contains_or_global shard_group shard) then set_shard_bits shard_group changes bitmap
      else if shard =? shard_global then set_shard_bits shard_group changes (<[0%nat := true]> bitmap)
      else
        let? d := u32_sub shard (sg_start shard_group) in
        let index := S (Z.to_nat d) in
        if negb (bool_decide (index < length bitmap)%nat) then Panic
        else set_shard_bits shard_group changes (<[index := true]> bitmap)
  end.

Definition generate_shard_state_change_bitmap (shard_group : ShardGroup) ps :
    res SubstateStoreError (list bool) :=
  let? len := shard_group_len shard_group in
  set_shard_bits shard_group (ps_changes ps) (replicate (S (Z.to_nat len)) false).
End pending_store.
