(* ===== verification/PendingStoreProps.v ===== *)
(** * What a validator sees of the state

    Theorems on the pending store of [PendingStore.v]: reads return the latest
    writes, a version is destroyed only while it is up, a write lock excludes
    other transactions, the bitmap marks the shards that change; and two runs
    that show what the block-diff queries and the lock table miss. *)
From stdpp Require Import base gmap list numbers sorting.
From S2P Require Import Prelude Ids Substate Sharding Committee Blocks BlockStore PendingStore.
Open Scope Z_scope.

(** ** The last position of a key in a list *)
Section last_pos.
Context {K : Type} `{!EqDecision K}.

Fixpoint last_pos (k : K) (l : list K) : option nat :=
  match l with
  | [] => None
  | x :: l =>
      match last_pos k l with
      | Some n => Some (S n)
      | None => if decide (x = k) then Some 0%nat else None
      end
  end.

Lemma last_pos_snoc k l x :
  last_pos k (l ++ [x]) = if decide (x = k) then Some (length l) else last_pos k l.
Proof. induction l as [|y l IH]; simpl; [done|]. rewrite IH. by case_decide. Qed.

Lemma last_pos_Some k l n :
  last_pos k l = Some n →
  l !! n = Some k ∧ ∀ m, (n < m)%nat → l !! m ≠ Some k.
Proof.
  revert n. induction l as [|x l IH]; intros n; simpl; [done|].
  destruct (last_pos k l) as [p|] eqn:Hp.
  - intros [= <-]. destruct (IH p eq_refl) as [Hl Hm]. split; [done|].
    intros [|m] Hlt; [lia|]. apply Hm. lia.
  - case_decide; [|done]. intros [= <-]. subst. split; [done|]. intros [|m] Hlt Hl; [lia|].
    simpl in Hl. revert Hp. clear -Hl. revert m Hl. induction l as [|y l IH]; intros m Hl; [done|].
    simpl. destruct m as [|m]; simpl in Hl.
    + injection Hl as <-. destruct (last_pos y l); [done|]. by rewrite decide_True.
    + destruct (last_pos k l) eqn:E; [done|]. by specialize (IH m Hl).
Qed.

Lemma last_pos_None k l : last_pos k l = None ↔ k ∉ l.
Proof.
  induction l as [|x l IH]; simpl; [set_solver|]. destruct (last_pos k l) as [n|] eqn:Hn.
  - split; [done|]. intros Hk. exfalso. apply last_pos_Some in Hn as [Hn%list_elem_of_lookup_2 _]. set_solver.
  - case_decide; set_solver.
Qed.
End last_pos.

Section store.
Context `{Kh : !ObjectKeyHashes} (base : BaseStore) (parent_block : BlockRef).
Context (num_preshards : NumPreshards).
Implicit Types (id : VersionedSubstateId) (ps : PendingSubstateStore) (c : SubstateChange).
Notation put := (put base parent_block).
Notation get := (get base parent_block).

Definition change_address c : SubstateAddress := to_substate_address (versioned_substate_id c).

(** The two maps hold the positions of the latest changes. *)
Record store_wf ps : Prop := {
  wf_pending a : ps_pending ps !! a = last_pos a (change_address <$> ps_changes ps);
  wf_head i : ps_head ps !! i = last_pos i (change_substate_id <$> ps_changes ps);
}.

Lemma new_wf : store_wf pending_store_new.
Proof. split; intros; apply lookup_empty. Qed.

Lemma insert_change_wf c ps u ps' : store_wf ps → insert_change c ps = (Ok u, ps') → store_wf ps'.
Proof.
  intros [Hp Hh] [= _ <-]. split; simpl.
  - intros a. rewrite fmap_app. simpl. rewrite last_pos_snoc, length_fmap.
    case_decide as Hd; [subst; apply lookup_insert_eq|].
    rewrite lookup_insert_ne by done. apply Hp.
  - intros i. rewrite fmap_app. simpl. rewrite last_pos_snoc, length_fmap.
    case_decide as Hd; [subst; apply lookup_insert_eq|].
    rewrite lookup_insert_ne by done. apply Hh.
Qed.

Lemma change_at_last {K : Type} `{!EqDecision K} (f : SubstateChange → K) (k : K) ps :
  ∃ o, change_at ps (last_pos k (f <$> ps_changes ps)) = Ok o ∧
    match o with
    | None => ∀ c, c ∈ ps_changes ps → f c ≠ k
    | Some c => f c = k ∧ ∃ n, ps_changes ps !! n = Some c ∧
        ∀ m c', (n < m)%nat → ps_changes ps !! m = Some c' → f c' ≠ k
    end.
Proof.
  destruct (last_pos k (f <$> ps_changes ps)) as [n|] eqn:Hn; simpl.
  - apply last_pos_Some in Hn as [Hl Hm]. rewrite list_lookup_fmap in Hl.
    apply fmap_Some in Hl as (c & Hc & ->). rewrite Hc. simpl. eexists. split; [done|]. split; [done|].
    exists n. split; [done|]. intros m c' Hlt Hc' Heq. apply (Hm m Hlt). rewrite list_lookup_fmap, Hc'.
    simpl. by rewrite Heq.
  - eexists. split; [done|]. intros c Hc Heq. apply last_pos_None in Hn. apply Hn.
    apply list_elem_of_fmap. by exists c.
Qed.

(** Under the invariant look-ups do not panic and find the latest change. *)
Lemma get_pending_spec ps id :
  store_wf ps →
  ∃ o, get_pending ps id = Ok o ∧
    match o with
    | None => ∀ c, c ∈ ps_changes ps → change_address c ≠ to_substate_address id
    | Some c => change_address c = to_substate_address id ∧ ∃ n, ps_changes ps !! n = Some c ∧
        ∀ m c', (n < m)%nat → ps_changes ps !! m = Some c' → change_address c' ≠ to_substate_address id
    end.
Proof. intros [Hp _]. unfold get_pending. rewrite Hp. apply change_at_last. Qed.

Lemma get_pending_insert c ps u ps' :
  store_wf ps → insert_change c ps = (Ok u, ps') → get_pending ps' (versioned_substate_id c) = Ok (Some c).
Proof.
  intros _ [= _ <-]. unfold get_pending. simpl. rewrite lookup_insert_eq. simpl.
  by rewrite lookup_app_r, Nat.sub_diag by done.
Qed.

Lemma put_Ok c ps u ps' :
  put c ps = (Ok u, ps') →
  insert_change c ps = (Ok tt, ps') ∧
  match c with
  | ChangeUp id _ s => 0 < version s → assert_is_down base parent_block ps (MkVersionedSubstateId id (version s - 1)) = Ok tt
  | ChangeDown id _ => assert_is_up base parent_block ps id = Ok tt
  end.
Proof.
  destruct u. unfold put, bind. destruct c as [id shard s|id shard]; simpl.
  - destruct (Z.ltb_spec 0 (version s)) as [Hv|Hv]; [|intros H; split; [done|lia]].
    destruct (assert_is_down _ _ _ _) as [[]| |] eqn:E; [|done..]. intros H. by split.
  - destruct (assert_is_up _ _ _ _) as [[]| |] eqn:E; [|done..]. intros H. by split.
Qed.

(** ** Sequences of changes *)

(** Between two changes that destroy a version there is one that creates it. *)
Definition alternating (cs : list SubstateChange) : Prop :=
  ∀ i j ci cj, (i < j)%nat → cs !! i = Some ci → cs !! j = Some cj →
    change_address ci = change_address cj → is_down ci = true → is_down cj = true →
    ∃ k ck, (i < k < j)%nat ∧ cs !! k = Some ck ∧ change_address ck = change_address cj ∧ is_up ck = true.

Lemma alternating_snoc cs c :
  alternating cs →
  (is_down c = true → ∀ i ci, cs !! i = Some ci → change_address ci = change_address c → is_down ci = true →
     ∃ k ck, (i < k)%nat ∧ cs !! k = Some ck ∧ change_address ck = change_address c ∧ is_up ck = true) →
  alternating (cs ++ [c]).
Proof.
  intros Ha Hc i j ci cj Hij Hi Hj Heq Hdi Hdj.
  assert (i < length cs)%nat as Hil.
  { apply lookup_lt_Some in Hj. rewrite length_app in Hj. simpl in Hj. lia. }
  rewrite lookup_app_l in Hi by done.
  destruct (decide (j < length cs)%nat) as [Hjl|Hjl].
  - rewrite lookup_app_l in Hj by done.
    destruct (Ha i j ci cj Hij Hi Hj Heq Hdi Hdj) as (k & ck & Hk & Hck & ? & ?).
    exists k, ck. split_and!; [lia|lia|rewrite lookup_app_l by lia; done|done|done].
  - rewrite lookup_app_r in Hj by lia. apply list_lookup_singleton_Some in Hj as [Hj0 <-].
    destruct (Hc Hdj i ci Hi Heq Hdi) as (k & ck & Hk & Hck & ? & ?).
    pose proof (lookup_lt_Some _ _ _ Hck). exists k, ck.
    split_and!; [lia|lia|by rewrite lookup_app_l by lia|done|done].
Qed.

Lemma insert_change_changes c ps u ps' :
  insert_change c ps = (Ok u, ps') → ps_changes ps' = ps_changes ps ++ [c].
Proof. by intros [= _ <-]. Qed.

(** A version is destroyed only when its latest change is up. *)
Lemma put_alternating c ps u ps' :
  store_wf ps → alternating (ps_changes ps) → put c ps = (Ok u, ps') →
  store_wf ps' ∧ alternating (ps_changes ps').
Proof.
  intros Hwf Ha H. apply put_Ok in H as [Hins Hchk].
  split; [by eapply insert_change_wf|]. rewrite (insert_change_changes _ _ _ _ Hins).
  apply alternating_snoc; [done|]. intros Hd i ci Hi Heq Hdi. destruct c as [|id shard]; [done|].
  destruct (get_pending_spec ps id Hwf) as (o & Ho & Hspec).
  unfold assert_is_up, version_status in Hchk. rewrite Ho in Hchk. simpl in Hchk.
  destruct o as [c'|]; simpl in Hchk.
  - destruct Hspec as (Hc' & n & Hn & Hlast). destruct (is_up c') eqn:Hup; [|done].
    exists n, c'. split_and!; [|done|done|done].
    destruct (decide (i < n)%nat) as [|Hge]; [done|]. exfalso.
    destruct (decide (i = n)) as [->|Hne].
    + assert (ci = c') as -> by congruence. unfold is_down in Hdi. by rewrite Hup in Hdi.
    + by apply (Hlast i ci); [lia|..].
  - exfalso. apply (Hspec ci); [by apply list_elem_of_lookup_2 in Hi|done].
Qed.

(** Reading back: the latest write wins. *)
Lemma put_get c ps u ps' :
  store_wf ps → put c ps = (Ok u, ps') →
  get ps' (versioned_substate_id c) =
    match c with
    | ChangeUp _ _ substate => Ok substate
    | ChangeDown id _ => Err (SubstateIsDown id)
    end.
Proof.
  intros Hwf H. apply put_Ok in H as [Hins _]. unfold get.
  rewrite (get_pending_insert _ _ _ _ Hwf Hins). by destruct c.
Qed.

(** A put leaves other versions as they are. *)
Lemma get_pending_other c ps u ps' id :
  store_wf ps → insert_change c ps = (Ok u, ps') → change_address c ≠ to_substate_address id →
  get_pending ps' id = get_pending ps id.
Proof.
  intros Hwf [= _ <-] Hne. unfold get_pending. simpl. rewrite lookup_insert_ne by done.
  rewrite (wf_pending _ Hwf). destruct (last_pos _ _) as [n|] eqn:Hn; [|done]. simpl.
  apply last_pos_Some in Hn as [Hn _]. rewrite list_lookup_fmap in Hn.
  apply fmap_Some in Hn as (c' & Hc' & _). by rewrite lookup_app_l by (by eapply lookup_lt_Some).
Qed.

Lemma put_get_other c ps u ps' id :
  store_wf ps → put c ps = (Ok u, ps') → change_address c ≠ to_substate_address id →
  get ps' id = get ps id.
Proof.
  intros Hwf H Hne. apply put_Ok in H as [Hins _]. unfold get.
  by rewrite (get_pending_other _ _ _ _ _ Hwf Hins Hne).
Qed.

(** ** Diffs *)

(** Versions that share an address are the same. *)
Definition no_collisions ps : Prop :=
  ∀ c c', c ∈ ps_changes ps → c' ∈ ps_changes ps → change_address c = change_address c' →
    versioned_substate_id c = versioned_substate_id c'.

Definition keeps ps ps' : Prop :=
  store_wf ps ∧ (no_collisions ps → alternating (ps_changes ps)) →
  store_wf ps' ∧ (no_collisions ps' → alternating (ps_changes ps')).
#[export] Instance keeps_preorder : PreOrder keeps.
Proof. split; [by intros ps H|]. intros ps1 ps2 ps3 H1 H2 H. by apply H2, H1. Qed.

Lemma no_collisions_snoc ps ps' c :
  ps_changes ps' = ps_changes ps ++ [c] → no_collisions ps' → no_collisions ps.
Proof. intros Hps H c1 c2 H1 H2. apply H; rewrite Hps; apply elem_of_app; by left. Qed.

Lemma put_keeps c : follows keeps (put c).
Proof.
  intros ps r ps' H _ [Hwf Ha]. destruct r as [u|e|].
  - pose proof (put_Ok _ _ _ _ H) as [Hins _]. apply insert_change_changes in Hins as Hcs.
    split; [by eapply insert_change_wf|]. intros Hnc.
    specialize (Ha (no_collisions_snoc _ _ _ Hcs Hnc)). by eapply put_alternating.
  - unfold put, bind in H. destruct (match c with ChangeUp _ _ _ => _ | ChangeDown _ _ => _ end); by inversion H; subst.
  - unfold put, bind in H. destruct (match c with ChangeUp _ _ _ => _ | ChangeDown _ _ => _ end); by inversion H; subst.
Qed.

(** A change of a substate that has none so far, or one that creates a version. *)
Lemma insert_keeps c ps u ps' :
  (is_down c = true → ∀ c', c' ∈ ps_changes ps → change_substate_id c' ≠ change_substate_id c) →
  insert_change c ps = (Ok u, ps') → keeps ps ps'.
Proof.
  intros Hc Hins [Hwf Ha]. pose proof (insert_change_changes _ _ _ _ Hins) as Hcs.
  split; [by eapply insert_change_wf|]. intros Hnc.
  specialize (Ha (no_collisions_snoc _ _ _ Hcs Hnc)). rewrite Hcs. apply alternating_snoc; [done|].
  intros Hd i ci Hi Heq _. exfalso. apply list_elem_of_lookup_2 in Hi.
  apply (Hc Hd ci Hi). unfold change_substate_id. f_equal.
  apply Hnc; rewrite ?Hcs; [apply elem_of_app; by left|apply elem_of_app; right; by left|done].
Qed.

Lemma set_change_wf pos c c0 ps u ps' :
  store_wf ps → ps_changes ps !! pos = Some c0 → versioned_substate_id c = versioned_substate_id c0 →
  set_change pos c ps = (Ok u, ps') → store_wf ps'.
Proof.
  intros [Hp Hh] Hpos Hid [= _ <-].
  assert (∀ {B : Type} (f : SubstateChange → B), f c = f c0 → f <$> <[pos := c]> (ps_changes ps) = f <$> ps_changes ps) as Hf.
  { intros B f Heq. rewrite list_fmap_insert, Heq. apply list_insert_id. by rewrite list_lookup_fmap, Hpos. }
  split; simpl; intros k.
  - rewrite (Hf _ change_address); [apply Hp|]. unfold change_address. by rewrite Hid.
  - rewrite (Hf _ change_substate_id); [apply Hh|]. unfold change_substate_id. by rewrite Hid.
Qed.
Lemma set_change_keeps pos c c0 ps u ps' :
  ps_changes ps !! pos = Some c0 → versioned_substate_id c = versioned_substate_id c0 →
  is_up c0 = true → is_up c = true → set_change pos c ps = (Ok u, ps') → keeps ps ps'.
Proof.
  intros Hpos Hid Hup0 Hup Hset [Hwf Ha]. split; [by eapply set_change_wf|].
  injection Hset as _ <-.
  assert (change_address c = change_address c0) as Hca by (unfold change_address; by rewrite Hid).
  - simpl. intros Hnc.
    assert (∀ i ci, <[pos := c]> (ps_changes ps) !! i = Some ci →
      ∃ ci0, ps_changes ps !! i = Some ci0 ∧ change_address ci0 = change_address ci ∧ is_up ci0 = is_up ci ∧
        versioned_substate_id ci0 = versioned_substate_id ci) as Hback.
    { intros i ci Hi. apply list_lookup_insert_Some in Hi as [(-> & <- & _)|[_ Hi]].
      - exists c0. split_and!; [done|done|congruence|done].
      - by exists ci. }
    assert (∀ i ci, ps_changes ps !! i = Some ci →
      ∃ ci1, <[pos := c]> (ps_changes ps) !! i = Some ci1 ∧ change_address ci1 = change_address ci ∧
        is_up ci1 = is_up ci ∧ versioned_substate_id ci1 = versioned_substate_id ci) as Hforth.
    { intros i ci Hi. destruct (decide (i = pos)) as [->|Hne].
      - exists c. rewrite list_lookup_insert_eq by (by eapply lookup_lt_Some).
        assert (ci = c0) as -> by congruence. split_and!; [done|done|congruence|done].
      - exists ci. by rewrite list_lookup_insert_ne. }
    intros i j ci cj Hij Hi Hj Heq Hdi Hdj.
    destruct (Hback _ _ Hi) as (ci0 & Hi0 & Hai & Hui & _), (Hback _ _ Hj) as (cj0 & Hj0 & Haj & Huj & _).
    assert (no_collisions ps) as Hnc0.
    { intros c1 c2 [n1 Hn1]%list_elem_of_lookup [n2 Hn2]%list_elem_of_lookup Heq12.
      destruct (Hforth _ _ Hn1) as (d1 & Hd1 & Ha1 & _ & Hv1), (Hforth _ _ Hn2) as (d2 & Hd2 & Ha2 & _ & Hv2).
      rewrite <- Hv1, <- Hv2. apply Hnc; [by apply list_elem_of_lookup_2 in Hd1|by apply list_elem_of_lookup_2 in Hd2|congruence]. }
    destruct (Ha Hnc0 i j ci0 cj0 Hij Hi0 Hj0) as (k & ck & Hk & Hck & Hak & Huk);
      [congruence|unfold is_down in *; congruence..|].
    destruct (Hforth _ _ Hck) as (ck1 & Hck1 & Hak1 & Huk1 & _). exists k, ck1.
    split_and!; [lia|lia|done|congruence|congruence].
Qed.

Lemma get_head_change_spec ps (i : SubstateId) :
  store_wf ps →
  ∃ o, get_head_change ps i = Ok o ∧
    match o with
    | None => ∀ c, c ∈ ps_changes ps → change_substate_id c ≠ i
    | Some c => change_substate_id c = i ∧
        ∃ n, ps_head ps !! i = Some n ∧ ps_changes ps !! n = Some c
    end.
Proof.
  intros [_ Hh]. unfold get_head_change. rewrite Hh.
  destruct (last_pos i (change_substate_id <$> ps_changes ps)) as [n|] eqn:Hn; simpl.
  - apply last_pos_Some in Hn as [Hl _]. rewrite list_lookup_fmap in Hl.
    apply fmap_Some in Hl as (c & Hc & ->). rewrite Hc. simpl. eexists. split; [done|]. by split; [|exists n].
  - eexists. split; [done|]. intros c Hc Heq. apply last_pos_None in Hn. apply Hn.
    apply list_elem_of_fmap. by exists c.
Qed.

(** The latest change that the store reports for a substate is one of it. *)
Lemma last_change_id (b : BlockId) (i : SubstateId) c :
  get_last_change_for_substate base b i = Ok (Some c) → change_substate_id c = i.
Proof.
  unfold get_last_change_for_substate. destruct (cs_blocks _ !! b); [|done]. intros [= H].
  apply fmap_Some in H as ((k & c') & H & ->).
  assert (∀ es acc, fold_left (λ max_change e,
    if match max_change with None => true | Some c => bdk_version c.1 <? bdk_version e.1 end &&
       bool_decide (b ∈ get_pending_chain_until base b) then Some e else max_change) es acc = Some (k, c') →
    acc = Some (k, c') ∨ (k, c') ∈ es) as Hin.
  { induction es as [|e es IH]; intros acc; simpl; [by left|]. intros [Hacc|He]%IH; [|right; by right].
    case_match; [injection Hacc as ->; right; by left|by left]. }
  unfold last_change_loop in H. apply Hin in H as [?|H]; [done|]. unfold changes_by_substate_id in H.
  rewrite (merge_sort_Permutation bdk_le) in H. by apply list_elem_of_filter in H as [? _].
Qed.

Lemma latest_from_store_id (i j : SubstateId) shard sub :
  get_latest_change_from_store base parent_block i = Ok (ChangeUp j shard sub) → j = i.
Proof.
  unfold get_latest_change_from_store.
  destruct (get_last_change_for_substate _ _ _) as [[c|]|e|] eqn:Hc; simpl; [|..|done|done].
  - intros [= ->]. by apply last_change_id in Hc.
  - destruct (bs_heads base !! i) as [[v up]|]; [|done]. destruct (record_of _ _); [|done].
    destruct (sr_destroyed _); [done|]. destruct (into_substate _); [|done]. by intros [= -> _ _].
Qed.

Lemma insert_up_keeps i shard sub : follows keeps (insert_change (ChangeUp i shard sub)).
Proof.
  intros ps r ps' H _. assert (r = Ok tt) as -> by (by injection H). 
  eapply insert_keeps; [|exact H].
  intros Hd. discriminate Hd.
Qed.

Lemma lift_then_keeps {A : Type} (r : res SubstateStoreError A) (k : A → StoreM unit) :
  (∀ a, follows keeps (k a)) → follows keeps (bind (lift r) k).
Proof.
  intros Hk ps q ps' H Hq. unfold bind, lift in H. destruct r as [a|e|]; [by eapply Hk|by inversion H..].
Qed.

Lemma update_in_place_keeps i updater creator :
  follows keeps (update_in_place base parent_block num_preshards i updater creator).
Proof.
  intros ps q ps' H Hq Hinv. pose proof Hinv as [Hwf _]. revert Hinv. change (keeps ps ps').
  unfold update_in_place, bind at 1 in H.
  destruct (get_head_change_spec ps i Hwf) as (o & Ho & Hspec). rewrite Ho in H.
  destruct o as [[id shard sub|id shard]|].
  - destruct Hspec as (_ & n & Hn & Hc). unfold bind at 1 in H. rewrite Hn in H. simpl in H.
    destruct (updater (substate_value sub)) as [v|e|]; unfold bind, lift in H; [|by inversion H..].
    assert (q = Ok tt) as -> by (by injection H). 
    eapply (set_change_keeps n (ChangeUp id shard (MkSubstate v (version sub))) (ChangeUp id shard sub)); [exact Hc|done..|exact H].
  - refine ((_ : follows keeps _) ps q ps' H Hq). do 3 (apply lift_then_keeps; intros ?). apply insert_up_keeps.
  - destruct (get_latest_change_from_store base parent_block i) as [[id shard sub|id shard]|e|] eqn:Hl.
    + unfold bind at 1 in H.
      destruct (insert_change (ChangeDown (MkVersionedSubstateId id (version sub)) shard) ps) as [r1 ps1] eqn:H1.
      assert (r1 = Ok tt) as -> by (by injection H1).
      transitivity ps1.
      * eapply insert_keeps; [|exact H1]. intros _ c' Hc' Heq. apply (Hspec c' Hc'). rewrite Heq.
        by apply latest_from_store_id in Hl.
      * refine ((_ : follows keeps _) ps1 q ps' H Hq). do 2 (apply lift_then_keeps; intros ?). apply insert_up_keeps.
    + refine ((_ : follows keeps _) ps q ps' H Hq). do 3 (apply lift_then_keeps; intros ?). apply insert_up_keeps.
    + destruct e; try (by inversion H).
      refine ((_ : follows keeps _) ps q ps' H Hq). do 2 (apply lift_then_keeps; intros ?). apply insert_up_keeps.
    + by inversion H.
Qed.

Notation put_diff := (put_diff base parent_block num_preshards).

Lemma put_diff_keeps diff : follows keeps (put_diff diff).
Proof.
  unfold put_diff. apply follows_bind; [exact _| |intros _; apply follows_bind; [exact _| |intros _]];
    apply follows_for_each; try exact _; intros p.
  - case_match; [apply follows_ret; exact _|]. apply lift_then_keeps. intros shard. apply put_keeps.
  - case_match; [apply follows_ret; exact _|]. apply lift_then_keeps. intros shard. apply put_keeps.
  - apply update_in_place_keeps.
Qed.

(** What a read of a changed version returns. *)
Definition read_change c : res SubstateStoreError Substate :=
  match c with
  | ChangeUp _ _ substate => Ok substate
  | ChangeDown id _ => Err (SubstateIsDown id)
  end.

Section puts.
Context {A : Type} (vid : A → VersionedSubstateId) (skip : A → bool) (mk : A → Z → SubstateChange).
Context (Hmk : ∀ x shard, versioned_substate_id (mk x shard) = vid x).

Definition put_one (x : A) : StoreM unit :=
  if skip x then ret tt
  else let! shard := lift (vsi_to_shard num_preshards (vid x)) in put (mk x shard).

Definition addresses (xs : list A) : list SubstateAddress :=
  (λ x, to_substate_address (vid x)) <$> filter (λ x, skip x = false) xs.

Lemma put_one_Ok x ps u ps' :
  put_one x ps = (Ok u, ps') →
  skip x = true ∧ ps' = ps ∨ skip x = false ∧ ∃ shard, put (mk x shard) ps = (Ok tt, ps').
Proof.
  unfold put_one. destruct (skip x); [left; by inversion H|].
  unfold bind, lift. destruct (vsi_to_shard _ _) as [shard|e|]; [|done..].
  intros H. right. split; [done|]. exists shard. by destruct u.
Qed.

Lemma puts_visible xs ps u ps' :
  store_wf ps → for_each xs put_one ps = (Ok u, ps') →
  store_wf ps' ∧
  (∀ id, to_substate_address id ∉ addresses xs → get ps' id = get ps id) ∧
  (NoDup (addresses xs) → ∀ x, x ∈ xs → skip x = false → ∃ shard, get ps' (vid x) = read_change (mk x shard)).
Proof.
  intros Hwf. revert ps Hwf. induction xs as [|x xs IH]; intros ps Hwf; simpl.
  { intros [= _ <-]. split_and!; [done|done|]. by intros _ x ?%elem_of_nil. }
  intros H. apply bind_Ok in H as (u1 & ps1 & H1 & H). apply put_one_Ok in H1.
  unfold addresses in *. rewrite filter_cons.
  destruct H1 as [[Hs ->]|(Hs & shard & H1)]; rewrite Hs.
  - destruct (IH ps Hwf H) as (Hwf' & Ho & Hx). rewrite decide_False by done. split_and!; [done|done|].
    intros Hnd y [->|Hy]%elem_of_cons Hsk; [congruence|]. by apply Hx.
  - rewrite decide_True by done.
    assert (store_wf ps1) as Hwf1 by (pose proof (put_Ok _ _ _ _ H1) as [Hins _]; by eapply insert_change_wf).
    destruct (IH ps1 Hwf1 H) as (Hwf' & Ho & Hx). split; [done|]. rewrite fmap_cons.
    assert (change_address (mk x shard) = to_substate_address (vid x)) as Hca
      by (unfold change_address; by rewrite Hmk).
    split.
    + intros id Hid. apply not_elem_of_cons in Hid as [Hne Hid]. rewrite (Ho id Hid).
      eapply put_get_other; [done|exact H1|]. rewrite Hca. congruence.
    + intros Hnd y Hy Hsk. apply list.NoDup_cons in Hnd as [Hnew Hnd].
      apply elem_of_cons in Hy as [->|Hy]; [|by apply Hx]. exists shard.
      rewrite Ho by done. rewrite <- (Hmk x shard). rewrite (put_get _ _ _ _ Hwf H1). by destruct (mk x shard).
Qed.
End puts.

Definition down_id (p : SubstateId * Z) : VersionedSubstateId := MkVersionedSubstateId p.1 p.2.
Definition up_id (p : SubstateId * Substate) : VersionedSubstateId := MkVersionedSubstateId p.1 (version p.2).

(** A fee withdrawal changes versions of the pool only. *)
Lemma set_change_other pos c c0 ps u ps' id :
  store_wf ps → ps_changes ps !! pos = Some c0 → change_address c0 ≠ to_substate_address id →
  set_change pos c ps = (Ok u, ps') → get_pending ps' id = get_pending ps id.
Proof.
  intros Hwf Hpos Hne [= _ <-]. unfold get_pending. simpl.
  destruct (ps_pending ps !! to_substate_address id) as [n|] eqn:Hn; [|done]. simpl.
  rewrite (wf_pending _ Hwf) in Hn. apply last_pos_Some in Hn as [Hn _].
  rewrite list_lookup_insert_ne; [done|]. intros ->. rewrite list_lookup_fmap, Hpos in Hn. simpl in Hn.
  congruence.
Qed.
Definition apart (i : SubstateId) id : Prop :=
  ∀ v, to_substate_address (MkVersionedSubstateId i v) ≠ to_substate_address id.
Lemma insert_apart i c ps u ps' :
  store_wf ps → change_substate_id c = i → insert_change c ps = (Ok u, ps') →
  store_wf ps' ∧ ∀ id, apart i id → get_pending ps' id = get_pending ps id.
Proof.
  intros Hwf Hc H. split; [by eapply insert_change_wf|]. intros id Hid.
  eapply get_pending_other; [done|exact H|]. unfold change_address, change_substate_id in *.
  specialize (Hid (vsi_version (versioned_substate_id c))). rewrite <- Hc in Hid.
  by destruct (versioned_substate_id c).
Qed.
Lemma withdrawal_apart i amount ps u ps' :
  store_wf ps →
  update_in_place base parent_block num_preshards i (withdraw_fee amount) (no_fee_pool i) ps = (Ok u, ps') →
  store_wf ps' ∧ ∀ id, apart i id → get_pending ps' id = get_pending ps id.
Proof.
  intros Hwf H. unfold update_in_place, bind at 1 in H.
  destruct (get_head_change_spec ps i Hwf) as (o & Ho & Hspec). rewrite Ho in H.
  destruct o as [[id shard sub|id shard]|].
  - destruct Hspec as (Hi & n & Hn & Hc). unfold bind at 1 in H. rewrite Hn in H. simpl in H.
    apply bind_Ok in H as (v & ps1 & [= _ <-] & H). split; [eapply set_change_wf; [done|exact Hc| |exact H]; done|]. intros id' Hid.
    eapply set_change_other; [done|exact Hc| |exact H]. unfold change_substate_id in Hi. simpl in Hi.
    subst i. apply Hid.
  - by unfold bind, lift, no_fee_pool in H.
  - destruct (get_latest_change_from_store base parent_block i) as [[id shard sub|id shard]|e|] eqn:Hl.
    + apply latest_from_store_id in Hl as ->. apply bind_Ok in H as (u1 & ps1 & H1 & H).
      apply bind_Ok in H as (v & ps2 & [= _ <-] & H). apply bind_Ok in H as (x & ps3 & [= _ <-] & H).
      apply (insert_apart i) in H1 as [Hwf1 Ho1]; [|done..].
      apply (insert_apart i) in H as [Hwf2 Ho2]; [|done..].
      split; [done|]. intros id Hid. by rewrite Ho2, Ho1.
    + by unfold bind, lift, no_fee_pool in H.
    + by destruct e; try (by unfold bind, lift, no_fee_pool in H).
    + done.
Qed.
Definition pool_of (w : ValidatorFeeWithdrawal) : SubstateId := SidValidatorFeePool (withdrawal_address w).
Lemma withdrawals_apart ws ps u ps' :
  store_wf ps →
  for_each ws (λ w, update_in_place base parent_block num_preshards (pool_of w)
    (withdraw_fee (withdrawal_amount w)) (no_fee_pool (pool_of w))) ps = (Ok u, ps') →
  ∀ id, Forall (λ w, apart (pool_of w) id) ws → get ps' id = get ps id.
Proof.
  intros Hwf H id Hid. assert (get_pending ps' id = get_pending ps id) as Hp; [|unfold get; by rewrite Hp].
  revert ps Hwf H. induction Hid as [|w ws Hw _ IH]; intros ps Hwf H; [by injection H as _ <-|].
  apply bind_Ok in H as (u1 & ps1 & H1 & H). apply withdrawal_apart in H1 as [Hwf1 Ho1]; [|done].
  by rewrite (IH ps1 Hwf1 H), Ho1.
Qed.

Lemma put_diff_visible_lemma diff ps u ps' :
  store_wf ps → put_diff diff ps = (Ok u, ps') →
  let downs := addresses down_id (λ p, is_validator_fee_pool p.1) (down_substates diff) in
  let ups := addresses up_id (λ p, is_validator_fee_pool p.1) (up_substates diff) in
  NoDup (downs ++ ups) →
  (∀ i sub, (i, sub) ∈ up_substates diff → is_validator_fee_pool i = false →
     Forall (λ w, apart (pool_of w) (up_id (i, sub))) (fee_withdrawals diff) →
     get ps' (MkVersionedSubstateId i (version sub)) = Ok sub) ∧
  (∀ i v, (i, v) ∈ down_substates diff → is_validator_fee_pool i = false →
     Forall (λ w, apart (pool_of w) (down_id (i, v))) (fee_withdrawals diff) →
     get ps' (MkVersionedSubstateId i v) = Err (SubstateIsDown (MkVersionedSubstateId i v))) ∧
  (∀ id, to_substate_address id ∉ downs ++ ups →
     Forall (λ w, apart (pool_of w) id) (fee_withdrawals diff) → get ps' id = get ps id).
Proof.
  intros Hwf H downs ups Hnd. unfold put_diff in H.
  apply bind_Ok in H as (u1 & ps1 & H1 & H). apply bind_Ok in H as (u2 & ps2 & H2 & H).
  apply list.NoDup_app in Hnd as (Hnd1 & Hdisj & Hnd2).
  apply (puts_visible down_id (λ p, is_validator_fee_pool p.1) (λ p shard, ChangeDown (down_id p) shard))
    in H1 as (Hwf1 & Ho1 & Hx1); [|done|done].
  apply (puts_visible up_id (λ p, is_validator_fee_pool p.1) (λ p shard, ChangeUp p.1 shard p.2))
    in H2 as (Hwf2 & Ho2 & Hx2); [|done|done].
  pose proof (withdrawals_apart _ _ _ _ Hwf2 H) as Hw. split_and!.
  - intros i sub Hin Hfp Hap. rewrite Hw by exact Hap. by destruct (Hx2 Hnd2 (i, sub) Hin Hfp) as [shard Hg].
  - intros i v Hin Hfp Hap. rewrite Hw by exact Hap. destruct (Hx1 Hnd1 (i, v) Hin Hfp) as [shard Hg].
    rewrite Ho2; [done|]. apply Hdisj. apply list_elem_of_fmap. exists (i, v). split; [done|].
    by apply list_elem_of_filter.
  - intros id Hid Hap. rewrite Hw by exact Hap. apply not_elem_of_app in Hid as [Hd Hu].
    by rewrite Ho2, Ho1.
Qed.

(** ** Locks *)
Notation try_lock := (try_lock base parent_block).

Lemma locks_of_push (i j : SubstateId) lock locks :
  locks_of i (push_lock j lock locks) =
    if decide (j = i) then locks_of i locks ++ [lock] else locks_of i locks.
Proof.
  induction locks as [|[k ls] locks IH]; simpl; [by case_decide|].
  destruct (decide (k = j)) as [->|Hne]; simpl.
  - by case_decide.
  - rewrite IH. repeat case_decide; congruence.
Qed.

(** A request: the transaction, the lock it wants, and whether it is local-only. *)
Definition request : Type := TransactionId * LockIntent * bool.

(** Requests one after the other; a failed one leaves the locks alone. *)
Definition lock_requests ps (rs : list request) : PendingSubstateStore :=
  fold_left (λ ps r, (try_lock r.1.1 r.1.2 r.2 ps).2) rs ps.

Lemma try_lock_step (t : TransactionId) li local ps :
  let i := li_substate_id li in
  let ps' := (try_lock t li local ps).2 in
  ps_new_locks ps' = ps_new_locks ps ∨
  ∃ ty, ps_new_locks ps' = push_lock i (MkSubstateLock t (li_version_to_lock li) ty local) (ps_new_locks ps) ∧
    match get_latest_lock_by_id base ps i with
    | None => ty = li_lock_type li
    | Some existing => lock_over existing t (li_lock_type li) local = Some ty
    end.
Proof.
  intros i ps'. unfold ps', try_lock, bind, get_store, ret, throw. simpl. fold i.
  destruct (get_latest_lock_by_id base ps i) as [existing|]; simpl.
  - destruct (_ && _); [by left|]. destruct (lock_over _ _ _ _) as [ty|]; [|by left].
    right. by exists ty.
  - destruct (is_output _); unfold lift;
      [destruct (lock_assert_not_exist _ _ _ _)|destruct (lock_assert_is_up _ _ _ _)];
      simpl; (by left) || (right; by eexists).
Qed.

(** Nothing but the holder's output lock goes over the write or output lock of a
    transaction that is not local-only. *)
Lemma lock_over_exclusive existing (t : TransactionId) requested local ty :
  sl_is_local_only existing = false → sl_lock_type existing ≠ LockTypeRead →
  lock_over existing t requested local = Some ty →
  t = sl_transaction_id existing ∧ ty = LockTypeOutput.
Proof.
  intros Hl Hr. unfold lock_over. rewrite Hl. simpl.
  destruct (sl_lock_type existing); [done| |done].
  destruct (N.eqb_spec (sl_transaction_id existing) t) as [<-|]; [|done]. simpl.
  destruct (is_output requested); [|done]. by intros [= <-].
Qed.

Lemma latest_lock_push (i j : SubstateId) lock ps ps' :
  ps_new_locks ps' = push_lock j lock (ps_new_locks ps) →
  get_latest_lock_by_id base ps' i = if decide (j = i) then Some lock else get_latest_lock_by_id base ps i.
Proof.
  intros Hps. unfold get_latest_lock_by_id. rewrite Hps, locks_of_push. case_decide; [|done].
  by rewrite last_snoc.
Qed.

Lemma exclusive_lemma (i : SubstateId) (t : TransactionId) ps (rs : list request) :
  (∀ r, r ∈ rs → r.1.1 = t → r.2 = false) →
  (∃ lock, get_latest_lock_by_id base ps i = Some lock ∧ sl_transaction_id lock = t ∧
     sl_is_local_only lock = false ∧ sl_lock_type lock ≠ LockTypeRead) →
  ∃ ls, locks_of i (ps_new_locks (lock_requests ps rs)) = locks_of i (ps_new_locks ps) ++ ls ∧
    Forall (λ lock, sl_transaction_id lock = t) ls.
Proof.
  revert ps. induction rs as [|[[t' li] local] rs IH]; intros ps Hrs Hlock; simpl.
  { exists []. by rewrite app_nil_r. }
  assert (∀ r, r ∈ rs → r.1.1 = t → r.2 = false) as Hrs' by (intros r Hr; apply Hrs; by right).
  pose proof (try_lock_step t' li local ps) as Hstep. cbv zeta in Hstep.
  set (ps1 := (try_lock t' li local ps).2) in *.
  destruct Hstep as [Hsame|(ty & Hpush & Hty)].
  - destruct (IH ps1 Hrs') as (ls & Hls & Hall).
    { unfold get_latest_lock_by_id. by rewrite Hsame. }
    exists ls. by rewrite Hls, Hsame.
  - pose proof (latest_lock_push i _ _ _ _ Hpush) as Hlatest. destruct Hlock as (lock & Hl & Ht & Hloc & Hr).
    destruct (decide (li_substate_id li = i)) as [Heq|Hne].
    + rewrite Heq, Hl in Hty. destruct (lock_over_exclusive _ _ _ _ _ Hloc Hr Hty) as [-> ->].
      rewrite Ht in *.
      assert (local = false) as -> by (apply (Hrs (t, li, local)); [by left|done]).
      destruct (IH ps1 Hrs') as (ls & Hls & Hall); [by eexists|].
      rewrite Hls, Hpush, locks_of_push, decide_True by done.
      eexists (_ :: ls). rewrite <- app_assoc. split; [done|]. by constructor.
    + destruct (IH ps1 Hrs') as (ls & Hls & Hall).
      { rewrite Hlatest. by exists lock. }
      exists ls. rewrite Hls, Hpush, locks_of_push, decide_False by done. done.
Qed.

(** ** The bitmap *)

(** The bit of a shard: zero for the global shard, then the shards of the group in
    order. *)
Definition shard_bit (g : ShardGroup) (shard : Z) : option nat :=
  if shard =? 0 then Some 0%nat
  else if (sg_start g <=? shard) && (shard <=? sg_end_inclusive g)
  then Some (S (Z.to_nat (shard - sg_start g))) else None.

Lemma set_shard_bits_spec g cs bm :
  0 ≤ sg_start g → sg_start g ≤ sg_end_inclusive g → sg_end_inclusive g ≤ U32_MAX →
  length bm = S (Z.to_nat (sg_end_inclusive g - sg_start g + 1)) →
  ∃ bm', set_shard_bits g cs bm = Ok bm' ∧ length bm' = length bm ∧
    ∀ i, (i < length bm)%nat →
      bm' !! i = (λ x, x || existsb (λ c, bool_decide (shard_bit g (change_shard c) = Some i)) cs) <$> bm !! i.
Proof.
  intros H0 H1 H2. revert bm. induction cs as [|c cs IH]; intros bm Hlen; simpl.
  { exists bm. split_and!; [done|done|]. intros i _. by destruct (bm !! i) as [[]|]. }
  assert (∀ k, (k < length bm)%nat → shard_bit g (change_shard c) = Some k →
    ∃ bm', set_shard_bits g cs (<[k := true]> bm) = Ok bm' ∧ length bm' = length bm ∧
    ∀ i, (i < length bm)%nat →
      bm' !! i = (λ x, x || (bool_decide (shard_bit g (change_shard c) = Some i) ||
        existsb (λ c, bool_decide (shard_bit g (change_shard c) = Some i)) cs)) <$> bm !! i) as Hset.
  { intros k Hk Hbit. destruct (IH (<[k := true]> bm)) as (bm' & Hok & Hl & Hi); [by rewrite length_insert|].
    rewrite length_insert in *. exists bm'. split_and!; [done|done|]. intros i Hlt. rewrite (Hi i Hlt), Hbit.
    destruct (decide (i = k)) as [->|Hne].
    - rewrite list_lookup_insert_eq by done. destruct (lookup_lt_is_Some_2 bm k Hk) as [x ->]. simpl.
      rewrite bool_decide_eq_true_2 by done. by destruct x.
    - rewrite list_lookup_insert_ne by done. rewrite bool_decide_eq_false_2 by congruence. done. }
  unfold contains_or_global, shard_is_global, shard_global, shard_group_contains.
  destruct (Z.eqb_spec (change_shard c) 0) as [Hz|Hz]; simpl.
  { apply Hset; [lia|]. unfold shard_bit. by rewrite Hz. }
  destruct (Z.leb_spec (sg_start g) (change_shard c)) as [Ha|Ha]; simpl.
  2: { destruct (IH bm Hlen) as (bm' & Hok & Hl & Hi). exists bm'. split_and!; [done|done|].
       intros i Hlt. rewrite (Hi i Hlt). rewrite bool_decide_eq_false_2; [done|]. unfold shard_bit.
       destruct (Z.eqb_spec (change_shard c) 0); [done|].
       by destruct (Z.leb_spec (sg_start g) (change_shard c)); [lia|]. }
  destruct (Z.leb_spec (change_shard c) (sg_end_inclusive g)) as [Hb|Hb]; simpl.
  2: { destruct (IH bm Hlen) as (bm' & Hok & Hl & Hi). exists bm'. split_and!; [done|done|].
       intros i Hlt. rewrite (Hi i Hlt). rewrite bool_decide_eq_false_2; [done|]. unfold shard_bit.
       destruct (Z.eqb_spec (change_shard c) 0); [done|].
       destruct (Z.leb_spec (change_shard c) (sg_end_inclusive g)); [lia|]. by rewrite andb_false_r. }
  unfold u32_sub, u32_checked_sub. rewrite uint_checked_in by lia. simpl.
  rewrite bool_decide_eq_true_2 by lia. simpl. apply Hset; [lia|]. unfold shard_bit.
  destruct (Z.eqb_spec (change_shard c) 0); [done|].
  destruct (Z.leb_spec (sg_start g) (change_shard c)); [|lia].
  by destruct (Z.leb_spec (change_shard c) (sg_end_inclusive g)); [|lia].
Qed.
End store.
