(* ===== verification/PendingStoreRuns.v ===== *)
(** * Theorems on the pending store, with runs

    The properties of [PendingStoreProps.v] for whole runs, each with a concrete
    run, and what the block-diff queries and the lock table do not distinguish. *)
From stdpp Require Import base gmap list numbers sorting.
From S2P Require Import Prelude Ids Substate Sharding Committee Blocks BlockStore HotStuffSafety HotStuffRuns PendingStore PendingStoreProps.
Open Scope Z_scope.

(** ** An example *)
#[local] Instance keys0 : ObjectKeyHashes := {|
  hash_non_fungible_id _ _ := 1%N;
  hash_utxo_address _ _ := 2%N;
|}.

Definition sid (n : N) : SubstateId := SidTemplate n.
Definition value0 (n : N) : SubstateValue := SvTemplate (MkPublishedTemplate n n).
Definition sub0 (n : N) (v : Z) : Substate := MkSubstate (value0 n) v.

(** One committed substate, and a parent block without changes. *)
Definition base0 : BaseStore :=
  MkBaseStore (set_pending {[5%N := 0%N]} (set_blocks {[5%N := chain 1%N]} empty_store))
    ∅ {[to_substate_address (MkVersionedSubstateId (sid 1) 0) := MkSubstateRecord 0 (Some (value0 1)) 1 false]}
    {[sid 1 := (0, true)]} ∅.
Definition parent0 : BlockRef := MkBlockRef 5%N 1 1.

Definition diff1 : SubstateDiff := MkSubstateDiff [(sid 1, sub0 2 1); (sid 2, sub0 3 0)] [(sid 1, 0)] [].
Definition diff2 : SubstateDiff := MkSubstateDiff [(sid 1, sub0 4 2)] [(sid 1, 1); (sid 2, 0)] [].

Definition no_collisionsb (cs : list SubstateChange) : bool :=
  forallb (λ c, forallb (λ c', negb (change_address c =? change_address c') ||
    bool_decide (versioned_substate_id c = versioned_substate_id c')) cs) cs.

Lemma no_collisionsb_spec ps : no_collisionsb (ps_changes ps) = true → no_collisions ps.
Proof.
  unfold no_collisionsb. rewrite forallb_forall. intros H c c' Hc Hc' Heq.
  apply list_elem_of_In in Hc, Hc'. specialize (H c Hc). rewrite forallb_forall in H. specialize (H c' Hc').
  rewrite Heq, Z.eqb_refl in H. simpl in H. by apply bool_decide_eq_true in H.
Qed.

Definition run0 (diffs : list SubstateDiff) : res SubstateStoreError unit * PendingSubstateStore :=
  for_each diffs (put_diff base0 parent0 P256) pending_store_new.

(** ** Changes *)

(** C4: No double spend within a block.  However many transaction diffs a block
    applies with [put_diff], fee withdrawals included, a version of a substate is
    never destroyed twice without being created in between. *)
Theorem no_substate_spent_twice `{Kh : !ObjectKeyHashes} (base : BaseStore) (parent_block : BlockRef)
    (num_preshards : NumPreshards) (diffs : list SubstateDiff) (ps : PendingSubstateStore) :
  for_each diffs (put_diff base parent_block num_preshards) pending_store_new = (Ok tt, ps) →
  no_collisions ps → alternating (ps_changes ps).
Proof.
  intros H. refine (proj2 ((_ : follows keeps _) _ _ _ H _ _)); [|done|].
  - apply follows_for_each; [exact keeps_preorder|]. intros diff. apply put_diff_keeps.
  - split; [apply new_wf|]. intros _ i j ci cj _ Hi. by destruct i.
Qed.

Lemma no_substate_spent_twice_witness :
  ∃ ps, run0 [diff1; diff2] = (Ok tt, ps) ∧ length (ps_changes ps) = 6%nat ∧ alternating (ps_changes ps).
Proof.
  destruct (run0 [diff1; diff2]) as [r ps] eqn:Hr.
  assert (r = Ok tt) as Hok by (change r with ((r, ps).1); rewrite <- Hr; vm_compute; reflexivity).
  assert (no_collisionsb (ps_changes ps) = true ∧ length (ps_changes ps) = 6%nat) as [Hnc Hlen]
    by (change ps with ((r, ps).2); rewrite <- Hr; vm_compute; split; reflexivity).
  rewrite Hok in Hr |- *. exists ps. split; [reflexivity|]. split; [exact Hlen|].
  apply (no_substate_spent_twice base0 parent0 P256 [diff1; diff2] ps); [exact Hr|].
  apply no_collisionsb_spec. exact Hnc.
Defined.

(** C22: A block's changes are visible.  After [put_diff] succeeds, a read of a
    created version returns it, a read of a destroyed version reports that it is
    down, and all other versions read as before.  Fee pools are left out: [put_diff]
    skips the versions of them that the diff lists and applies the fee withdrawals
    instead, which touch versions of the pools only.  It is assumed that the versions
    that the diff lists have distinct addresses; and each of the three holds of a
    version whose address is not one of a pool withdrawn from. *)
Theorem put_diff_visible `{Kh : !ObjectKeyHashes} (base : BaseStore) (parent_block : BlockRef)
    (num_preshards : NumPreshards) (earlier : list SubstateDiff) (diff : SubstateDiff)
    (ps ps' : PendingSubstateStore) :
  let get := get base parent_block in
  let put_diff := put_diff base parent_block num_preshards in
  let downs := addresses down_id (λ p, is_validator_fee_pool p.1) (down_substates diff) in
  let ups := addresses up_id (λ p, is_validator_fee_pool p.1) (up_substates diff) in
  let not_withdrawn := λ id, Forall (λ w, apart (pool_of w) id) (fee_withdrawals diff) in
  for_each earlier put_diff pending_store_new = (Ok tt, ps) → put_diff diff ps = (Ok tt, ps') →
  NoDup (downs ++ ups) →
  (∀ i sub, (i, sub) ∈ up_substates diff → is_validator_fee_pool i = false →
     not_withdrawn (MkVersionedSubstateId i (version sub)) →
     get ps' (MkVersionedSubstateId i (version sub)) = Ok sub) ∧
  (∀ i v, (i, v) ∈ down_substates diff → is_validator_fee_pool i = false →
     not_withdrawn (MkVersionedSubstateId i v) →
     get ps' (MkVersionedSubstateId i v) = Err (SubstateIsDown (MkVersionedSubstateId i v))) ∧
  (∀ id, to_substate_address id ∉ downs ++ ups → not_withdrawn id → get ps' id = get ps id).
Proof.
  intros get put_diff downs ups not_withdrawn He Hd Hnd.
  assert (store_wf ps) as Hwf.
  { refine (proj1 ((_ : follows keeps _) _ _ _ He _ _)); [|done|].
    - apply follows_for_each; [exact keeps_preorder|]. intros d. apply put_diff_keeps.
    - split; [apply new_wf|]. intros _ i j ci cj _ Hi. by destruct i. }
  by apply (put_diff_visible_lemma base parent_block num_preshards diff ps tt ps').
Qed.

Lemma put_diff_visible_witness :
  ∃ ps', (put_diff base0 parent0 P256 diff2 (run0 [diff1]).2).2 = ps' ∧
    PendingStore.get base0 parent0 ps' (MkVersionedSubstateId (sid 1) 2) = Ok (sub0 4 2) ∧
    PendingStore.get base0 parent0 ps' (MkVersionedSubstateId (sid 2) 0) =
      Err (SubstateIsDown (MkVersionedSubstateId (sid 2) 0)).
Proof.
  exists (put_diff base0 parent0 P256 diff2 (run0 [diff1]).2).2. split; [reflexivity|].
  destruct (put_diff_visible base0 parent0 P256 [diff1] diff2 (run0 [diff1]).2
    (put_diff base0 parent0 P256 diff2 (run0 [diff1]).2).2) as (Hup & Hdown & _).
  - vm_compute. reflexivity.
  - vm_compute. reflexivity.
  - apply (bool_decide_eq_true_1 (NoDup _)). vm_compute. reflexivity.
  - split.
    + apply (Hup (sid 1) (sub0 4 2)); [left|reflexivity|constructor].
    + apply (Hdown (sid 2) 0); [right; left|reflexivity|constructor].
Defined.

(** ** Locks *)

(** C23: A write lock excludes other transactions.  When the latest lock on a
    substate is the write lock of a transaction that is not local-only, then
    whatever locks are requested afterwards, by whatever transactions, every
    further lock that is granted on the substate belongs to the holder. *)
Theorem write_lock_exclusive `{Kh : !ObjectKeyHashes} (base : BaseStore) (parent_block : BlockRef)
    (i : SubstateId) (t : TransactionId) (lock : SubstateLock) (ps : PendingSubstateStore)
    (rs : list request) :
  get_latest_lock_by_id base ps i = Some lock → sl_transaction_id lock = t →
  sl_is_local_only lock = false → sl_lock_type lock = LockTypeWrite →
  (∀ r, r ∈ rs → r.1.1 = t → r.2 = false) →
  ∃ ls, locks_of i (ps_new_locks (lock_requests base parent_block ps rs)) =
          locks_of i (ps_new_locks ps) ++ ls ∧
    Forall (λ lock, sl_transaction_id lock = t) ls.
Proof.
  intros Hl Ht Hloc Hty Hrs. apply exclusive_lemma; [done|]. exists lock. split_and!; [done..|]. by rewrite Hty.
Qed.

Definition intent (i : SubstateId) (ty : SubstateLockType) (v : Z) : LockIntent := MkLockIntent i ty v None.
Definition locked0 : PendingSubstateStore :=
  lock_requests base0 parent0 pending_store_new [(1%N, intent (sid 1) LockTypeWrite 0, false)].
Definition requests0 : list request :=
  [(2%N, intent (sid 1) LockTypeRead 0, false); (1%N, intent (sid 1) LockTypeOutput 1, false);
   (3%N, intent (sid 1) LockTypeWrite 1, true); (2%N, intent (sid 2) LockTypeOutput 0, true)].

Lemma write_lock_exclusive_witness :
  ∃ ls, locks_of (sid 1) (ps_new_locks (lock_requests base0 parent0 locked0 requests0)) =
          locks_of (sid 1) (ps_new_locks locked0) ++ ls ∧
    Forall (λ lock, sl_transaction_id lock = 1%N) ls.
Proof.
  apply (write_lock_exclusive base0 parent0 (sid 1) 1%N (MkSubstateLock 1%N 0 LockTypeWrite false) locked0 requests0).
  - vm_compute. reflexivity.
  - reflexivity.
  - reflexivity.
  - reflexivity.
  - intros r Hr. unfold requests0 in Hr.
    repeat (apply elem_of_cons in Hr as [->|Hr]; [simpl; intros H; try discriminate H; reflexivity|]).
    by apply elem_of_nil in Hr.
Defined.

(** A read lock does not keep writers out.  Only the latest lock is consulted:
    transaction 1 reads a substate, transaction 2, local-only, reads it and locks
    it as an output, and transaction 3, local-only, then obtains a write lock
    while the first read lock stands. *)
Lemma read_lock_bypassed :
  let rs := [(1%N, intent (sid 1) LockTypeRead 0, false); (2%N, intent (sid 1) LockTypeRead 0, true);
             (2%N, intent (sid 1) LockTypeOutput 1, true); (3%N, intent (sid 1) LockTypeWrite 1, true)] in
  locks_of (sid 1) (ps_new_locks (lock_requests base0 parent0 pending_store_new rs)) =
    [MkSubstateLock 1%N 0 LockTypeRead false; MkSubstateLock 2%N 0 LockTypeRead true;
     MkSubstateLock 2%N 1 LockTypeOutput true; MkSubstateLock 3%N 1 LockTypeWrite true].
Proof. vm_compute. reflexivity. Qed.

(** ** The bitmap *)

(** The bitmap marks exactly the shards that change.  For a shard group in
    range [generate_shard_state_change_bitmap] does not panic; the bitmap has a
    bit for the global shard and one for each shard of the group, and a bit is
    set if and only if some change is in its shard. *)
Theorem shard_bitmap_marks_changes (g : ShardGroup) (ps : PendingSubstateStore) :
  0 ≤ sg_start g → sg_start g ≤ sg_end_inclusive g → sg_end_inclusive g < U32_MAX →
  ∃ bm, generate_shard_state_change_bitmap g ps = Ok bm ∧
    length bm = S (Z.to_nat (sg_end_inclusive g - sg_start g + 1)) ∧
    ∀ i, (i < length bm)%nat →
      bm !! i = Some (existsb (λ c, bool_decide (shard_bit g (change_shard c) = Some i)) (ps_changes ps)).
Proof.
  intros H0 H1 H2. unfold generate_shard_state_change_bitmap, shard_group_len, u32_add, u32_checked_add.
  rewrite uint_checked_in by lia. simpl. unfold u32_sub, u32_checked_sub. rewrite uint_checked_in by lia. simpl.
  set (len := Z.to_nat (sg_end_inclusive g + 1 - sg_start g)).
  destruct (set_shard_bits_spec g (ps_changes ps) (false :: replicate len false)) as (bm & Hok & Hl & Hi);
    [done|done|lia|simpl; rewrite length_replicate; lia|].
  exists bm. split_and!; [done|rewrite Hl; simpl; rewrite length_replicate; lia|].
  intros i Hlt. rewrite Hl in Hlt. rewrite (Hi i Hlt).
  assert ((false :: replicate len false) !! i = Some false) as ->; [|done].
  change (false :: replicate len false) with (replicate (S len) false). apply lookup_replicate_2.
  simpl in Hlt. rewrite length_replicate in Hlt. done.
Qed.

Lemma shard_bitmap_marks_changes_witness :
  ∃ bm, generate_shard_state_change_bitmap (MkShardGroup 1 4)
          (MkPendingSubstateStore ∅ ∅ [ChangeDown (MkVersionedSubstateId (sid 1) 0) 3] []) = Ok bm ∧
    length bm = S (Z.to_nat (4 - 1 + 1)) ∧
    ∀ i, (i < length bm)%nat →
      bm !! i = Some (existsb (λ c, bool_decide (shard_bit (MkShardGroup 1 4) (change_shard c) = Some i))
                        [ChangeDown (MkVersionedSubstateId (sid 1) 0) 3]).
Proof.
  apply (shard_bitmap_marks_changes (MkShardGroup 1 4)
    (MkPendingSubstateStore ∅ ∅ [ChangeDown (MkVersionedSubstateId (sid 1) 0) 3] [])); vm_compute; done.
Defined.

(** ** Forks *)

(** The block-diff queries do not depend on the block.  The test for the
    pending chain is on the block asked for instead of the block of the entry:
    any two pending blocks, on whatever forks, get the same latest change of a
    substate and the same change of a version. *)
Theorem block_diff_queries_ignore_forks (s : BaseStore) (a b : BlockId) (ba bb : Block) (pa pb : BlockId)
    (i : SubstateId) (id : VersionedSubstateId) :
  cs_blocks (bs_consensus s) !! a = Some ba → cs_blocks (bs_consensus s) !! b = Some bb →
  cs_pending (bs_consensus s) !! a = Some pa → cs_pending (bs_consensus s) !! b = Some pb →
  get_last_change_for_substate s a i = get_last_change_for_substate s b i ∧
  get_for_versioned_substate s a id = get_for_versioned_substate s b id.
Proof.
  intros Ha Hb Hpa Hpb.
  assert (∀ x p, cs_pending (bs_consensus s) !! x = Some p → x ∈ get_pending_chain_until s x) as Hin.
  { intros x p Hx. unfold get_pending_chain_until. rewrite Hx. by left. }
  unfold get_last_change_for_substate, get_for_versioned_substate, last_change_loop. rewrite Ha, Hb.
  by rewrite !(bool_decide_eq_true_2 (_ ∈ get_pending_chain_until s _)) by (by eapply Hin).
Qed.

(** Two blocks on the genesis block; the first creates a substate, and the query
    for the second finds it. *)
Definition forked : BaseStore :=
  MkBaseStore (set_pending {[5%N := 2%N; 6%N := 2%N]} (set_blocks {[5%N := chain 1%N; 6%N := chain 1%N]} empty_store))
    {[5%N := [ChangeUp (sid 3) 1 (sub0 3 0)]]} ∅ ∅ ∅.

Lemma block_diff_queries_ignore_forks_witness :
  (get_last_change_for_substate forked 5%N (sid 3) = get_last_change_for_substate forked 6%N (sid 3) ∧
   get_for_versioned_substate forked 5%N (MkVersionedSubstateId (sid 3) 0) =
     get_for_versioned_substate forked 6%N (MkVersionedSubstateId (sid 3) 0)) ∧
  get_last_change_for_substate forked 6%N (sid 3) = Ok (Some (ChangeUp (sid 3) 1 (sub0 3 0))) ∧
  get_pending_chain_until forked 6%N = [6%N; 2%N].
Proof.
  split; [|split; vm_compute; reflexivity].
  apply (block_diff_queries_ignore_forks forked 5%N 6%N (chain 1%N) (chain 1%N) 2%N 2%N (sid 3)
    (MkVersionedSubstateId (sid 3) 0)); vm_compute; reflexivity.
Defined.
