(* ===== verification/Evidence.v ===== *)
(** * Evidence

    What a shard group knows of the shard groups involved in a transaction: the
    substates each has locked and the certificates for its prepare and accept
    phases ([storage/src/consensus_models/evidence.rs]).

    The [IndexMap]s of the source are kept sorted and compared without regard to
    order; they are finite maps here.  A call chain on
    [add_shard_group(g)] is [on_group g] applied to the changes. *)
From stdpp Require Import base gmap list numbers.
From S2P Require Import Prelude Ids Substate Sharding Committee Blocks PendingStore.
Open Scope Z_scope.

Record EvidenceInputLockData := MkEvidenceInputLockData {
  eil_is_write : bool;
  eil_version : Z;
}.
#[export] Instance EvidenceInputLockData_eq_dec : EqDecision EvidenceInputLockData.
Proof. solve_decision. Defined.

Definition as_lock_type (e : EvidenceInputLockData) : SubstateLockType :=
  if eil_is_write e then LockTypeWrite else LockTypeRead.

Record ShardGroupEvidence := MkShardGroupEvidence {
  se_inputs : gmap SubstateId (option EvidenceInputLockData);
  se_outputs : gmap SubstateId Z;
  se_prepare_qc : option QcId;
  se_accept_qc : option QcId;
}.
#[export] Instance ShardGroupEvidence_eq_dec : EqDecision ShardGroupEvidence.
Proof. solve_decision. Defined.

Definition set_se_inputs i e := MkShardGroupEvidence i (se_outputs e) (se_prepare_qc e) (se_accept_qc e).
Definition set_se_outputs o e := MkShardGroupEvidence (se_inputs e) o (se_prepare_qc e) (se_accept_qc e).

Notation Evidence := (gmap ShardGroup ShardGroupEvidence).

(** ** The evidence of a shard group *)
Section shard_group_evidence.
Implicit Types (e other : ShardGroupEvidence) (id : SubstateId).

Definition shard_group_evidence_default : ShardGroupEvidence := MkShardGroupEvidence ∅ ∅ None None.

Definition is_input (t : SubstateLockType) : bool := is_write t || is_read t.

Definition insert_unpledged_input id e : ShardGroupEvidence :=
  set_se_inputs (<[id := None]> (se_inputs e)) e.
Definition insert_output id (version : Z) e : ShardGroupEvidence :=
  set_se_outputs (<[id := version]> (se_outputs e)) e.
Definition insert_lock id (version_to_lock : Z) (lock_type : SubstateLockType) e : ShardGroupEvidence :=
  if is_input lock_type
  then set_se_inputs (<[id := Some (MkEvidenceInputLockData (is_write lock_type) version_to_lock)]>
                        (se_inputs e)) e
  else insert_output id version_to_lock e.
Definition insert_lock_intent (lock : LockIntent) e : ShardGroupEvidence :=
  insert_lock (li_substate_id lock) (li_version_to_lock lock) (li_lock_type lock) e.

Definition is_prepare_justified e : bool := bool_decide (is_Some (se_prepare_qc e)).
Definition is_accept_justified e : bool := bool_decide (is_Some (se_accept_qc e)).
Definition has_no_inputs e : bool := bool_decide (se_inputs e = ∅).
Definition has_no_outputs e : bool := bool_decide (se_outputs e = ∅).

Definition is_all_inputs_pledged e : bool :=
  bool_decide (map_Forall (λ _ lock, is_Some lock) (se_inputs e)).
Definition all_pledged_inputs e : gmap SubstateId EvidenceInputLockData :=
  omap (M := gmap SubstateId) id (se_inputs e).
Definition input_lock_intents e : list LockIntent :=
  (λ p, MkLockIntent p.1 (as_lock_type p.2) (eil_version p.2) (Some (eil_version p.2))) <$>
    map_to_list (all_pledged_inputs e).

(** [ShardGroupEvidence::abort]: no substate is locked; the certificates stay. *)
Definition abort_group e : ShardGroupEvidence :=
  MkShardGroupEvidence ((λ _, None) <$> se_inputs e) ∅ (se_prepare_qc e) (se_accept_qc e).

Definition contains_pledge id (version : Z) (is_input : bool) e : bool :=
  if is_input
  then match se_inputs e !! id with Some (Some l) => eil_version l =? version | _ => false end
  else match se_outputs e !! id with Some v => v =? version | None => false end.

(** The inputs of [update] and of [merge]: a lock of [other] replaces what is
    known, an input without a lock is added if it is not there. *)
Definition merge_lock (mine theirs : option (option EvidenceInputLockData)) :
    option (option EvidenceInputLockData) :=
  match theirs with
  | None => mine
  | Some (Some l) => Some (Some l)
  | Some None => match mine with Some l => Some l | None => Some None end
  end.

Definition update_group other e : ShardGroupEvidence :=
  MkShardGroupEvidence (merge merge_lock (se_inputs e) (se_inputs other))
    (se_outputs other ∪ se_outputs e) (se_prepare_qc e) (se_accept_qc e).

Definition set_prepare_qc (qc_id : QcId) e : ShardGroupEvidence :=
  MkShardGroupEvidence (se_inputs e) (se_outputs e) (Some qc_id) (se_accept_qc e).
Definition set_accept_qc (qc_id : QcId) e : ShardGroupEvidence :=
  MkShardGroupEvidence (se_inputs e) (se_outputs e) (se_prepare_qc e) (Some qc_id).
End shard_group_evidence.

(** ** Evidence of a transaction *)
Section evidence.
Implicit Types (ev other : Evidence) (g : ShardGroup) (id : SubstateId).

Definition on_group g (f : ShardGroupEvidence → ShardGroupEvidence) ev : Evidence :=
  <[g := f (default shard_group_evidence_default (ev !! g))]> ev.
Definition add_shard_group g ev : Evidence := on_group g id ev.

Definition all_shard_groups_accepted ev : bool :=
  bool_decide (map_Forall (λ _ e, is_accept_justified e = true) ev).
Definition all_shard_groups_prepared ev : bool :=
  bool_decide (map_Forall (λ _ e, is_prepare_justified e || is_accept_justified e = true) ev).
Definition some_shard_groups_prepared ev : bool :=
  existsb (λ p, is_prepare_justified p.2 || is_accept_justified p.2) (map_to_list ev).

Definition has_inputs g ev : bool :=
  match ev !! g with Some e => negb (has_no_inputs e) | None => false end.
Definition has_and_not_empty g ev : bool :=
  match ev !! g with Some e => negb (has_no_inputs e) || negb (has_no_outputs e) | None => false end.
Definition has g ev : bool := bool_decide (is_Some (ev !! g)).

(** Only the groups with inputs prepare; a group without inputs of its own takes
    the acceptance of another group for its preparation. *)
Definition all_input_shard_groups_prepared (local_shard_group : ShardGroup) ev : bool :=
  bool_decide (map_Forall (λ _ e, has_no_inputs e = false →
    (if has_inputs local_shard_group ev then is_prepare_justified e
     else is_prepare_justified e || is_accept_justified e) = true) ev).

Definition is_committee_output_only g ev : bool :=
  match ev !! g with Some e => has_no_inputs e | None => true end.
Definition is_committee_input_only g ev : bool :=
  match ev !! g with Some e => has_no_outputs e | None => true end.

Definition all_inputs ev : list (ShardGroup * SubstateId * option EvidenceInputLockData) :=
  map_to_list ev ≫= λ p, (λ q, (p.1, q.1, q.2)) <$> map_to_list (se_inputs p.2).
Definition all_outputs ev : list (ShardGroup * SubstateId * Z) :=
  map_to_list ev ≫= λ p, (λ q, (p.1, q.1, q.2)) <$> map_to_list (se_outputs p.2).

Definition abort_evidence ev : Evidence := abort_group <$> ev.

(** [Evidence::merge]. *)
Definition merge_evidence other ev : Evidence :=
  merge (λ mine theirs,
    match theirs with
    | None => mine
    | Some t => Some (update_group t (default shard_group_evidence_default mine))
    end) ev other.

Definition eq_pledges other ev : bool :=
  bool_decide (size ev = size other) &&
  bool_decide (map_Forall (λ g e,
    match other !! g with
    | Some o => bool_decide (se_inputs e = se_inputs o) && bool_decide (se_outputs e = se_outputs o)
    | None => false
    end = true) ev).

Context {E : Type} `{Kh : !ObjectKeyHashes} (num_preshards : NumPreshards) (num_committees : Z).

Definition shard_group_of id (version : Z) : res E ShardGroup :=
  to_shard_group (from_object_key (to_object_key id) version) num_preshards num_committees.

(** The groups a lock or an input concerns: all of them for a global substate. *)
Definition groups_of id (version : Z) : res E (list ShardGroup) :=
  if is_global id then all_shard_groups_iter num_preshards num_committees
  else let? g := shard_group_of id version in Ok [g].

Definition insert_from_lock_intent (lock : LockIntent) ev : res E Evidence :=
  let? gs := groups_of (li_substate_id lock) (li_version_to_lock lock) in
  Ok (foldl (λ ev g, on_group g (insert_lock_intent lock) ev) ev gs).

Definition insert_unpledged_from_substate_id id ev : res E Evidence :=
  let? gs := groups_of id 0 in
  Ok (foldl (λ ev g, on_group g (insert_unpledged_input id) ev) ev gs).

Fixpoint insert_lock_intents (locks : list LockIntent) ev : res E Evidence :=
  match locks with
  | [] => Ok ev
  | lock :: locks => let? ev := insert_from_lock_intent lock ev in insert_lock_intents locks ev
  end.
Definition from_lock_intents (locks : list LockIntent) : res E Evidence := insert_lock_intents locks ∅.

Fixpoint insert_unpledged_inputs (inputs : list (SubstateId * option Z)) ev : res E Evidence :=
  match inputs with
  | [] => Ok ev
  | (id, version) :: inputs =>
      let? g := shard_group_of id (default 0 version) in
      insert_unpledged_inputs inputs (on_group g (insert_unpledged_input id) ev)
  end.
Fixpoint insert_known_outputs (outputs : list VersionedSubstateId) ev : res E Evidence :=
  match outputs with
  | [] => Ok ev
  | o :: outputs =>
      let? g := shard_group_of (vsi_substate_id o) (vsi_version o) in
      insert_known_outputs outputs (on_group g (insert_output (vsi_substate_id o) (vsi_version o)) ev)
  end.
Definition from_inputs_and_outputs (inputs : list (SubstateId * option Z))
    (outputs : list VersionedSubstateId) : res E Evidence :=
  let? ev := insert_unpledged_inputs inputs ∅ in insert_known_outputs outputs ev.
End evidence.

(** ** Merging *)
Section merging.
Implicit Types (ev other : Evidence) (e t : ShardGroupEvidence) (g : ShardGroup) (id : SubstateId).

Lemma lookup_merge_evidence other ev g :
  merge_evidence other ev !! g =
    match other !! g with
    | None => ev !! g
    | Some t => Some (update_group t (default shard_group_evidence_default (ev !! g)))
    end.
Proof. unfold merge_evidence. rewrite lookup_merge. by destruct (ev !! g), (other !! g). Qed.

Lemma lookup_update_inputs t e id :
  se_inputs (update_group t e) !! id = merge_lock (se_inputs e !! id) (se_inputs t !! id).
Proof. unfold update_group. simpl. rewrite lookup_merge. by destruct (se_inputs e !! id), (se_inputs t !! id). Qed.

Lemma merge_lock_assoc a b c : merge_lock (merge_lock a b) c = merge_lock a (merge_lock b c).
Proof. by destruct a as [[]|], b as [[]|], c as [[]|]. Qed.

Lemma evidence_eq e t :
  (∀ id, se_inputs e !! id = se_inputs t !! id) → (∀ id, se_outputs e !! id = se_outputs t !! id) →
  se_prepare_qc e = se_prepare_qc t → se_accept_qc e = se_accept_qc t → e = t.
Proof. intros Hi Ho ??. destruct e, t; simpl in *. f_equal; [by apply map_eq..|done|done]. Qed.

Lemma update_group_idemp e : update_group e e = e.
Proof.
  apply evidence_eq; [|intros id; simpl|done..].
  - intros id. rewrite lookup_update_inputs. by destruct (se_inputs e !! id) as [[]|].
  - by rewrite map_union_idemp.
Qed.

Lemma update_group_assoc e t u :
  update_group u (update_group t e) = update_group (update_group u t) e.
Proof.
  apply evidence_eq; [|intros id; simpl|done..].
  - intros id. by rewrite !lookup_update_inputs, merge_lock_assoc.
  - by rewrite (assoc_L (∪)).
Qed.

Lemma update_group_default e : update_group shard_group_evidence_default e = e.
Proof.
  apply evidence_eq; [|intros id; simpl|done..].
  - intros id. by rewrite lookup_update_inputs.
  - by rewrite (left_id_L ∅ (∪)).
Qed.

(** What is known of the locks of a group only grows: an input stays an input, a
    lock is replaced by a lock only. *)
Definition knows_more e t : Prop :=
  (∀ id, is_Some (se_inputs e !! id) → is_Some (se_inputs t !! id)) ∧
  (∀ id l, se_inputs e !! id = Some (Some l) → ∃ l', se_inputs t !! id = Some (Some l')) ∧
  (∀ id, is_Some (se_outputs e !! id) → is_Some (se_outputs t !! id)).

Lemma update_knows_more t e : knows_more e (update_group t e) ∧ knows_more t (update_group t e).
Proof.
  split; split_and!; intros id; rewrite ?lookup_update_inputs; simpl; rewrite ?lookup_union_is_Some.
  - by destruct (se_inputs e !! id) as [[]|], (se_inputs t !! id) as [[]|]; intros [? H]; simpl; eauto.
  - intros l ->. destruct (se_inputs t !! id) as [[]|]; simpl; eauto.
  - by right.
  - by destruct (se_inputs e !! id) as [[]|], (se_inputs t !! id) as [[]|]; intros [? H]; simpl; eauto.
  - intros l ->. simpl. eauto.
  - by left.
Qed.

(** C26: Merging evidence.  Merging is idempotent and associative, keeps the
    certificates of the evidence it extends and takes none from the other side,
    and what is known about the locks of each group only grows. *)
Theorem merge_evidence_laws ev other third :
  merge_evidence ev ev = ev ∧
  merge_evidence third (merge_evidence other ev) = merge_evidence (merge_evidence third other) ev ∧
  (∀ g e, ev !! g = Some e → ∃ e', merge_evidence other ev !! g = Some e' ∧ knows_more e e' ∧
     se_prepare_qc e' = se_prepare_qc e ∧ se_accept_qc e' = se_accept_qc e) ∧
  (∀ g t, other !! g = Some t → ∃ e', merge_evidence other ev !! g = Some e' ∧ knows_more t e' ∧
     (ev !! g = None → se_prepare_qc e' = None ∧ se_accept_qc e' = None)).
Proof.
  split_and!.
  - apply map_eq. intros g. rewrite lookup_merge_evidence. destruct (ev !! g) eqn:Hg; [|done]. simpl.
    by rewrite update_group_idemp.
  - apply map_eq. intros g. rewrite !lookup_merge_evidence.
    destruct (third !! g), (other !! g), (ev !! g); simpl; rewrite <- ?update_group_assoc; try done;
      by rewrite update_group_default.
  - intros g e Hg. rewrite lookup_merge_evidence, Hg. destruct (other !! g) as [t|]; simpl.
    + eexists. split; [done|]. split; [apply update_knows_more|done].
    + exists e. split; [done|]. by unfold knows_more; naive_solver.
  - intros g t Hg. rewrite lookup_merge_evidence, Hg. eexists. split; [done|].
    split; [apply update_knows_more|]. by intros ->.
Qed.
End merging.

(** ** Which group an input or output is recorded under *)
Definition input_known (ev : Evidence) (g : ShardGroup) (id : SubstateId) : Prop :=
  is_Some (ev !! g ≫= λ e, se_inputs e !! id).
Definition output_known (ev : Evidence) (g : ShardGroup) (id : SubstateId) : Prop :=
  is_Some (ev !! g ≫= λ e, se_outputs e !! id).

(** The locks that name [id], as inputs or as outputs. *)
Definition locks_input (locks : list LockIntent) (id : SubstateId) : Prop :=
  ∃ l, l ∈ locks ∧ li_substate_id l = id ∧ is_input (li_lock_type l) = true.
Definition locks_output (locks : list LockIntent) (id : SubstateId) : Prop :=
  ∃ l, l ∈ locks ∧ li_substate_id l = id ∧ is_input (li_lock_type l) = false.

Section placement.
Context {E : Type} `{Kh : !ObjectKeyHashes}.
Implicit Types (ev : Evidence) (g : ShardGroup) (id : SubstateId) (l : LockIntent).

Lemma input_known_on_group g g' l id ev :
  input_known (on_group g (insert_lock_intent l) ev) g' id ↔
    input_known ev g' id ∨ (g' = g ∧ is_input (li_lock_type l) = true ∧ id = li_substate_id l).
Proof.
  unfold input_known, on_group, insert_lock_intent, insert_lock. destruct (decide (g' = g)) as [->|Hg].
  - rewrite lookup_insert_eq. simpl. destruct (is_input _); simpl.
    + destruct (decide (id = li_substate_id l)) as [->|Hi].
      * rewrite lookup_insert_eq. naive_solver.
      * rewrite lookup_insert_ne by done. destruct (ev !! g); naive_solver.
    + destruct (ev !! g); naive_solver.
  - rewrite lookup_insert_ne by done. naive_solver.
Qed.

Lemma output_known_on_group g g' l id ev :
  output_known (on_group g (insert_lock_intent l) ev) g' id ↔
    output_known ev g' id ∨ (g' = g ∧ is_input (li_lock_type l) = false ∧ id = li_substate_id l).
Proof.
  unfold output_known, on_group, insert_lock_intent, insert_lock. destruct (decide (g' = g)) as [->|Hg].
  - rewrite lookup_insert_eq. simpl. destruct (is_input _); simpl.
    + destruct (ev !! g); naive_solver.
    + destruct (decide (id = li_substate_id l)) as [->|Hi].
      * rewrite lookup_insert_eq. naive_solver.
      * rewrite lookup_insert_ne by done. destruct (ev !! g); naive_solver.
  - rewrite lookup_insert_ne by done. naive_solver.
Qed.

(** A relation of evidence to group and substate that each step extends by the
    same pairs is extended by the loop over the groups. *)
Lemma known_foldl (known : Evidence → ShardGroup → SubstateId → Prop) l (P : SubstateId → Prop)
    (gs : list ShardGroup) ev g id :
  (∀ g g' id ev, known (on_group g (insert_lock_intent l) ev) g' id ↔ known ev g' id ∨ (g' = g ∧ P id)) →
  known (foldl (λ ev g, on_group g (insert_lock_intent l) ev) ev gs) g id ↔
    known ev g id ∨ (g ∈ gs ∧ P id).
Proof.
  intros Hk. revert ev. induction gs as [|g0 gs IH]; intros ev; simpl; [set_solver|].
  rewrite IH, Hk. set_solver.
Qed.

Context (ci : CommitteeInfo) (gs : list ShardGroup).
Context (Hc : 1 ≤ ci_num_committees ci ≤ as_u32 (ci_num_shards ci)).
Context (Hgs : all_shard_groups_iter (E := E) (ci_num_shards ci) (ci_num_committees ci) = Ok gs).

(** Ids and versions within their widths. *)
Definition lock_in_range l : Prop :=
  Z.of_N (to_object_key (li_substate_id l)) ≤ U256_MAX ∧ 0 ≤ li_version_to_lock l ≤ U32_MAX.

Lemma groups_of_spec l :
  lock_in_range l →
  ∃ gl, groups_of (E := E) (ci_num_shards ci) (ci_num_committees ci) (li_substate_id l)
          (li_version_to_lock l) = Ok gl ∧
    ∀ g, g ∈ gl ↔ g ∈ gs ∧ includes_substate_id (E := E) (with_group ci g) (li_substate_id l) = Ok true.
Proof.
  intros [Hk Hv]. unfold groups_of. destruct (is_global (li_substate_id l)) eqn:Hglob.
  - exists gs. split; [done|]. intros g. unfold includes_substate_id. rewrite Hglob. naive_solver.
  - destruct (substate_group (E := E) _ _ ci gs Hk Hv Hc Hgs) as (g & Hin & Hg & Hu).
    exists [g]. unfold shard_group_of. rewrite Hg. split; [done|]. intros g'. rewrite list_elem_of_singleton.
    split; [intros ->; split; [done|]|intros [Hin' Hok]].
    + rewrite (proj2 (Hu _ Hin)), Hglob. by rewrite bool_decide_eq_true_2.
    + rewrite (proj2 (Hu _ Hin')), Hglob in Hok. injection Hok as Hok. by apply bool_decide_eq_true_1 in Hok.
Qed.

(** The evidence a loop over locks leads to. *)
Lemma insert_lock_intents_spec (locks : list LockIntent) ev :
  Forall lock_in_range locks →
  ∃ ev', insert_lock_intents (E := E) (ci_num_shards ci) (ci_num_committees ci) locks ev = Ok ev' ∧
    (∀ g id, input_known ev' g id ↔ input_known ev g id ∨
       (g ∈ gs ∧ includes_substate_id (E := E) (with_group ci g) id = Ok true ∧ locks_input locks id)) ∧
    (∀ g id, output_known ev' g id ↔ output_known ev g id ∨
       (g ∈ gs ∧ includes_substate_id (E := E) (with_group ci g) id = Ok true ∧ locks_output locks id)).
Proof.
  revert ev. induction locks as [|l locks IH]; intros ev Hr; simpl.
  { exists ev. split; [done|]. unfold locks_input, locks_output. set_solver. }
  inversion Hr as [|?? Hl Hls]; subst. destruct (groups_of_spec l Hl) as (gl & Hgl & Hin).
  unfold insert_from_lock_intent. rewrite Hgl. simpl.
  edestruct IH as (ev' & Hok & Hi & Ho); [done|]. exists ev'. split; [done|]. split; intros g id.
  - rewrite Hi, (known_foldl input_known l
      (λ id, is_input (li_lock_type l) = true ∧ id = li_substate_id l)) by (intros; apply input_known_on_group).
    rewrite Hin. unfold locks_input. setoid_rewrite elem_of_cons. naive_solver.
  - rewrite Ho, (known_foldl output_known l
      (λ id, is_input (li_lock_type l) = false ∧ id = li_substate_id l)) by (intros; apply output_known_on_group).
    rewrite Hin. unfold locks_output. setoid_rewrite elem_of_cons. naive_solver.
Qed.

(** C27: Evidence is recorded under the right shard groups.  For locks within the
    widths of ids and versions [Evidence::from_lock_intents] succeeds, and a
    group has a substate among its inputs or outputs exactly when one of the
    locks names it as such and the committee of the group includes it; a global
    substate is with every group. *)
Theorem evidence_placement (locks : list LockIntent) :
  Forall lock_in_range locks →
  ∃ ev, from_lock_intents (E := E) (ci_num_shards ci) (ci_num_committees ci) locks = Ok ev ∧
    (∀ g id, input_known ev g id ↔ g ∈ gs ∧
       includes_substate_id (E := E) (with_group ci g) id = Ok true ∧ locks_input locks id) ∧
    (∀ g id, output_known ev g id ↔ g ∈ gs ∧
       includes_substate_id (E := E) (with_group ci g) id = Ok true ∧ locks_output locks id).
Proof.
  intros Hr. destruct (insert_lock_intents_spec locks ∅ Hr) as (ev & Hok & Hi & Ho).
  exists ev. split; [done|]. split; intros g id; [rewrite Hi|rewrite Ho];
    unfold input_known, output_known; rewrite lookup_empty; simpl; split; [|tauto| |tauto];
    (intros [[? H]|]; [done|done]).
Qed.
End placement.

#[local] Instance plain_hashes : ObjectKeyHashes := {|
  hash_non_fungible_id := λ r _, r;
  hash_utxo_address := λ r i, (r + i)%N;
|}.
Definition two_groups : CommitteeInfo := MkCommitteeInfo P256 4 2 (MkShardGroup 1 128) 0 4.
Definition sample_locks : list LockIntent :=
  [MkLockIntent (SidVault 5) LockTypeWrite 3 None; MkLockIntent (SidVault (2 ^ 255 + 7)) LockTypeRead 0 None;
   MkLockIntent (SidComponent 9) LockTypeOutput 0 (Some 0)].

Lemma evidence_placement_witness :
  ∃ ev, from_lock_intents (E := unit) P256 2 sample_locks = Ok ev ∧
    (∀ g id, input_known ev g id ↔ g ∈ [MkShardGroup 1 128; MkShardGroup 129 256] ∧
       includes_substate_id (E := unit) (with_group two_groups g) id = Ok true ∧ locks_input sample_locks id) ∧
    (∀ g id, output_known ev g id ↔ g ∈ [MkShardGroup 1 128; MkShardGroup 129 256] ∧
       includes_substate_id (E := unit) (with_group two_groups g) id = Ok true ∧ locks_output sample_locks id).
Proof.
  apply (evidence_placement (E := unit) two_groups [MkShardGroup 1 128; MkShardGroup 129 256]).
  - vm_compute. split; congruence.
  - vm_compute. reflexivity.
  - repeat constructor; vm_compute; congruence.
Defined.
