(* ===== verification/TransactionPool.v ===== *)
(** * Transactions in consensus

    Decisions ([consensus_types/src/decision.rs]), the fee of a leader
    ([storage/src/consensus_models/leader_fee.rs]), executions
    ([transaction_execution.rs]) and the record a shard group keeps of a
    transaction while it moves through the phases of the cross-shard protocol
    ([transaction_pool.rs], [transaction_pool_status_update.rs]).

    Of the result of an execution the model keeps the diff or the reason of the
    rejection, and the fees paid. *)
From stdpp Require Import base gmap list numbers.
From S2P Require Import Prelude Ids Substate Sharding Committee Blocks PendingStore Evidence.
Open Scope Z_scope.

(** ** Decisions *)
Inductive AbortReason :=
  | ForeignPledgeInputConflict | LockInputsFailed | LockOutputsFailed | LockInputsOutputsFailed
  | ExecutionFailure | OneOrMoreInputsNotFound | InsufficientFeesPaid.
#[export] Instance AbortReason_eq_dec : EqDecision AbortReason.
Proof. solve_decision. Defined.

Inductive Decision := Commit | Abort (reason : AbortReason).
#[export] Instance Decision_eq_dec : EqDecision Decision.
Proof. solve_decision. Defined.

Definition is_commit (d : Decision) : bool := match d with Commit => true | Abort _ => false end.
Definition is_abort (d : Decision) : bool := match d with Commit => false | Abort _ => true end.
Definition is_same_outcome (d other : Decision) : bool :=
  match d, other with Commit, Commit | Abort _, Abort _ => true | _, _ => false end.
Definition decision_and (d other : Decision) : Decision :=
  match d with Commit => other | Abort reason => Abort reason end.
Definition abort_reason (d : Decision) : option AbortReason :=
  match d with Commit => None | Abort reason => Some reason end.

(** ** The fee of a leader *)
Record LeaderFee := MkLeaderFee { lf_fee : Z; lf_global_exhaust_burn : Z }.
#[export] Instance LeaderFee_eq_dec : EqDecision LeaderFee.
Proof. solve_decision. Defined.

Definition u64_mul {E : Type} (a b : Z) : res E Z := expect (uint_checked U64_MAX (a * b)).

(** [num_involved_shards] is not zero; [checked_div] by zero gives [None]. *)
Definition calculate_leader_fee {E : Type} (transaction_fee num_involved_shards exhaust_divisor : Z) :
    res E LeaderFee :=
  let target_burn := if exhaust_divisor =? 0 then 0 else transaction_fee / exhaust_divisor in
  let? block_fee_after_burn := u64_sub transaction_fee target_burn in
  let leader_fee := block_fee_after_burn / num_involved_shards in
  let excess_remainder_burn := block_fee_after_burn mod num_involved_shards in
  let? pay_more :=
    if (0 <? excess_remainder_burn) && (num_involved_shards / 2 <=? excess_remainder_burn) then
      let? plus_one := u64_add leader_fee 1 in
      let? total := u64_mul plus_one num_involved_shards in
      Ok (total <=? transaction_fee)
    else Ok false in
  if pay_more : bool then
    let? leader_fee := u64_add leader_fee 1 in
    let? less := u64_sub num_involved_shards excess_remainder_burn in
    Ok (MkLeaderFee leader_fee (u64_saturating_sub target_burn less))
  else
    let? burn := u64_add target_burn excess_remainder_burn in
    Ok (MkLeaderFee leader_fee burn).

(** ** Executions *)
Inductive ExecutionResult :=
  | ExAccept (diff : SubstateDiff)
  | ExAcceptFeeRejectRest (diff : SubstateDiff)
  | ExReject (reason : AbortReason).

Record TransactionExecution := MkTransactionExecution {
  te_result : ExecutionResult;
  te_total_fees_paid : Z;
  te_resolved_inputs : list LockIntent;
  te_resulting_outputs : list LockIntent;
}.

Definition ex_any_accept (r : ExecutionResult) : option SubstateDiff :=
  match r with ExAccept diff | ExAcceptFeeRejectRest diff => Some diff | ExReject _ => None end.
Definition execution_abort (reason : AbortReason) : TransactionExecution :=
  MkTransactionExecution (ExReject reason) 0 [] [].
Definition execution_decision (x : TransactionExecution) : Decision :=
  match te_result x with
  | ExAccept _ | ExAcceptFeeRejectRest _ => Commit
  | ExReject reason => Abort reason
  end.
Definition execution_fee (x : TransactionExecution) : Z :=
  if is_abort (execution_decision x) then 0 else te_total_fees_paid x.
Definition involved_locks (x : TransactionExecution) : list LockIntent :=
  te_resolved_inputs x ++ te_resulting_outputs x.
Definition to_evidence {E : Type} `{Kh : !ObjectKeyHashes} (num_preshards : NumPreshards)
    (num_committees : Z) (x : TransactionExecution) : res E Evidence :=
  let? ev := from_lock_intents num_preshards num_committees (involved_locks x) in
  Ok (if is_abort (execution_decision x) then abort_evidence ev else ev).

(** ** Stages *)
Inductive TransactionPoolStage :=
  | New | LocalPrepared | LocalAccepted | AllAccepted | SomeAccepted | LocalOnlyStage.
#[export] Instance TransactionPoolStage_eq_dec : EqDecision TransactionPoolStage.
Proof. solve_decision. Defined.

(** The derived order. *)
Definition stage_rank (s : TransactionPoolStage) : nat :=
  match s with
  | New => 0 | LocalPrepared => 1 | LocalAccepted => 2 | AllAccepted => 3 | SomeAccepted => 4
  | LocalOnlyStage => 5
  end.
Definition is_finalising (s : TransactionPoolStage) : bool :=
  match s with LocalOnlyStage | AllAccepted | SomeAccepted => true | _ => false end.

Inductive TransactionPoolError :=
  | PoolStorageError (e : BlockStore.StorageError)
  | InvalidTransactionTransition (from to : TransactionPoolStage) (is_ready : bool)
  | TransactionAlreadyExecuted (transaction_id : TransactionId).

(** ** The record of a transaction *)
Record TransactionPoolRecord := MkTransactionPoolRecord {
  tp_transaction_id : TransactionId;
  tp_evidence : Evidence;
  tp_is_global : bool;
  tp_transaction_fee : Z;
  tp_leader_fee : option LeaderFee;
  tp_stage : TransactionPoolStage;
  tp_pending_stage : option TransactionPoolStage;
  tp_original_decision : Decision;
  tp_local_decision : option Decision;
  tp_remote_decision : option Decision;
  tp_is_ready : bool;
}.

Record TransactionAtom := MkTransactionAtom {
  ta_id : TransactionId;
  ta_decision : Decision;
  ta_evidence : Evidence;
  ta_transaction_fee : Z;
  ta_leader_fee : option LeaderFee;
}.

Section record.
Implicit Types (t : TransactionPoolRecord) (d : Decision).

Definition new_from_transaction (id : TransactionId) (is_global : bool) (initial_evidence : Evidence) :
    TransactionPoolRecord :=
  MkTransactionPoolRecord id initial_evidence is_global 0 None New None Commit None None false.

Definition current_local_decision t : Decision := default (tp_original_decision t) (tp_local_decision t).
(** A remote abort takes precedence. *)
Definition current_decision t : Decision :=
  match tp_remote_decision t with
  | Some (Abort reason) => Abort reason
  | _ => current_local_decision t
  end.
Definition current_stage t : TransactionPoolStage := default (tp_stage t) (tp_pending_stage t).
Definition leader_fee_of t : option LeaderFee :=
  if is_abort (current_decision t) then None else tp_leader_fee t.

Definition get_current_transaction_atom t : TransactionAtom :=
  MkTransactionAtom (tp_transaction_id t) (current_decision t) (tp_evidence t) (tp_transaction_fee t)
    (leader_fee_of t).

Definition can_continue_to t (stage : TransactionPoolStage) (local_shard_group : ShardGroup) : bool :=
  match stage with
  | New => tp_is_ready t
  | LocalPrepared =>
      if is_commit (current_decision t)
      then all_input_shard_groups_prepared local_shard_group (tp_evidence t)
      else some_shard_groups_prepared (tp_evidence t)
  | LocalAccepted =>
      if is_commit (current_decision t) then all_shard_groups_accepted (tp_evidence t)
      else some_shard_groups_prepared (tp_evidence t)
  | AllAccepted | SomeAccepted | LocalOnlyStage => false
  end.
Definition is_ready_for_pending_stage t (local_shard_group : ShardGroup) : bool :=
  can_continue_to t (current_stage t) local_shard_group.

(** Setters; those that decide to abort also withdraw the locks of the evidence. *)
Definition set_evidence (ev : Evidence) t : TransactionPoolRecord :=
  MkTransactionPoolRecord (tp_transaction_id t) ev (tp_is_global t) (tp_transaction_fee t)
    (tp_leader_fee t) (tp_stage t) (tp_pending_stage t) (tp_original_decision t) (tp_local_decision t)
    (tp_remote_decision t) (tp_is_ready t).
Definition set_fees (fee : Z) (leader_fee : option LeaderFee) t : TransactionPoolRecord :=
  MkTransactionPoolRecord (tp_transaction_id t) (tp_evidence t) (tp_is_global t) fee leader_fee
    (tp_stage t) (tp_pending_stage t) (tp_original_decision t) (tp_local_decision t)
    (tp_remote_decision t) (tp_is_ready t).
Definition set_transaction_fee (fee : Z) t : TransactionPoolRecord := set_fees fee (tp_leader_fee t) t.
Definition set_leader_fee (fee : LeaderFee) t : TransactionPoolRecord :=
  set_fees (tp_transaction_fee t) (Some fee) t.
Definition no_leader_fee t : TransactionPoolRecord := set_fees (tp_transaction_fee t) None t.
Definition set_decisions (local remote : option Decision) t : TransactionPoolRecord :=
  MkTransactionPoolRecord (tp_transaction_id t) (tp_evidence t) (tp_is_global t) (tp_transaction_fee t)
    (tp_leader_fee t) (tp_stage t) (tp_pending_stage t) (tp_original_decision t) local remote
    (tp_is_ready t).
Definition set_progress (pending_stage : option TransactionPoolStage) (is_ready : bool) t :
    TransactionPoolRecord :=
  MkTransactionPoolRecord (tp_transaction_id t) (tp_evidence t) (tp_is_global t) (tp_transaction_fee t)
    (tp_leader_fee t) (tp_stage t) pending_stage (tp_original_decision t) (tp_local_decision t)
    (tp_remote_decision t) is_ready.
Definition set_ready (is_ready : bool) t : TransactionPoolRecord := set_progress (tp_pending_stage t) is_ready t.

Definition on_evidence (f : Evidence → Evidence) t : TransactionPoolRecord := set_evidence (f (tp_evidence t)) t.
Definition merge_record_evidence (ev : Evidence) t : TransactionPoolRecord := on_evidence (merge_evidence ev) t.

Definition abort_if d t : TransactionPoolRecord := if is_abort d then on_evidence abort_evidence t else t.
Definition set_local_decision d t : TransactionPoolRecord :=
  abort_if d (set_decisions (Some d) (tp_remote_decision t) t).
Definition set_remote_decision d t : TransactionPoolRecord :=
  let d := match tp_remote_decision t with Some d' => decision_and d' d | None => d end in
  abort_if d (set_decisions (tp_local_decision t) (Some d) t).

Definition update_from_execution {E : Type} `{Kh : !ObjectKeyHashes} (num_preshards : NumPreshards)
    (num_committees : Z) (x : TransactionExecution) t : res E TransactionPoolRecord :=
  let t :=
    match tp_local_decision t with
    | None | Some Commit => set_local_decision (execution_decision x) t
    | Some (Abort _) => t
    end in
  let? t :=
    if is_commit (current_decision t) then
      let? ev := insert_lock_intents num_preshards num_committees (involved_locks x) (tp_evidence t) in
      Ok (set_evidence ev t)
    else Ok (on_evidence abort_evidence t) in
  Ok (set_transaction_fee (execution_fee x) t).

Definition check_pending_status_update t (pending_stage : TransactionPoolStage) (is_ready : bool) :
    res TransactionPoolError unit :=
  match current_stage t, pending_stage, is_ready with
  | New, New, true
  | New, LocalPrepared, _
  | New, LocalOnlyStage, false
  | New, LocalAccepted, _
  | LocalPrepared, LocalPrepared, _
  | LocalPrepared, LocalAccepted, _
  | LocalAccepted, LocalAccepted, _
  | LocalAccepted, AllAccepted, false
  | LocalAccepted, SomeAccepted, false
  | AllAccepted, AllAccepted, false => Ok tt
  | from, to, _ => Err (InvalidTransactionTransition from to is_ready)
  end.

Definition set_next_stage_and_readiness (next_stage : TransactionPoolStage) (local_shard_group : ShardGroup)
    t : res TransactionPoolError TransactionPoolRecord :=
  let is_ready := can_continue_to t next_stage local_shard_group in
  let? _ := check_pending_status_update t next_stage is_ready in
  Ok (set_progress (Some next_stage) is_ready t).

Definition involves_committee (ci : CommitteeInfo) t : bool := has (ci_shard_group ci) (tp_evidence t).
Definition committee_involves_inputs (ci : CommitteeInfo) t : bool :=
  has_inputs (ci_shard_group ci) (tp_evidence t).
End record.

(** [TransactionPoolStatusUpdate]. *)
Record TransactionPoolStatusUpdate := MkTransactionPoolStatusUpdate {
  su_transaction : TransactionPoolRecord;
  su_ready_now : bool;
}.
Definition apply_update (u : TransactionPoolStatusUpdate) (t : TransactionPoolRecord) : TransactionPoolRecord :=
  let t := set_evidence (tp_evidence (su_transaction u)) t in
  let t := set_ready (su_ready_now u) t in
  let t := set_local_decision (current_decision (su_transaction u)) t in
  match tp_remote_decision (su_transaction u) with
  | Some d => set_remote_decision d t
  | None => t
  end.

(** ** Fees *)

(** C25: No fee is created or lost.  The fee for every involved shard group
    together with the amount burnt is exactly the fee the transaction paid, and
    the amount burnt misses the target by less than the number of groups.  The
    computation does not overflow for fees that leave room for one unit per
    group. *)
Theorem leader_fee_conserved {E : Type} (fee n divisor : Z) :
  0 ≤ fee → 1 ≤ n → fee + n ≤ U64_MAX → 0 ≤ divisor →
  ∃ lf, calculate_leader_fee (E := E) fee n divisor = Ok lf ∧
    0 ≤ lf_fee lf ∧ 0 ≤ lf_global_exhaust_burn lf ∧
    lf_fee lf * n + lf_global_exhaust_burn lf = fee ∧
    Z.abs (lf_global_exhaust_burn lf - (if divisor =? 0 then 0 else fee / divisor)) < n.
Proof.
  intros Hf Hn Hmax Hd. unfold calculate_leader_fee.
  set (target := if divisor =? 0 then 0 else fee / divisor).
  assert (0 ≤ target ≤ fee) as Ht.
  { subst target. destruct (Z.eqb_spec divisor 0); [lia|]. split; [apply Z.div_pos; lia|].
    apply Z.div_le_upper_bound; nia. }
  unfold u64_sub, u64_checked_sub at 1. rewrite uint_checked_in by lia. simpl.
  pose proof (Z.div_mod (fee - target) n ltac:(lia)) as Hdm.
  pose proof (Z.mod_pos_bound (fee - target) n ltac:(lia)) as Hr.
  assert (0 ≤ (fee - target) / n) as Hq by (apply Z.div_pos; lia).
  set (q := (fee - target) / n) in *. set (r := (fee - target) mod n) in *.
  destruct ((0 <? r) && (n / 2 <=? r)) eqn:Hc; simpl.
  - unfold u64_add, u64_checked_add, u64_mul. rewrite (uint_checked_in _ (q + 1)) by nia. simpl.
    rewrite uint_checked_in by nia. simpl.
    destruct (Z.leb_spec ((q + 1) * n) fee); simpl.
    + unfold u64_checked_sub. rewrite uint_checked_in by lia. simpl.
      eexists. split; [done|]. simpl. unfold u64_saturating_sub. rewrite Z.max_r by nia. nia.
    + rewrite uint_checked_in by nia. simpl. eexists. split; [done|]. simpl. nia.
  - unfold u64_add, u64_checked_add. rewrite uint_checked_in by nia. simpl.
    eexists. split; [done|]. simpl. nia.
Qed.

Lemma leader_fee_conserved_witness :
  ∃ lf, calculate_leader_fee (E := unit) 98 3 21 = Ok lf ∧
    0 ≤ lf_fee lf ∧ 0 ≤ lf_global_exhaust_burn lf ∧
    lf_fee lf * 3 + lf_global_exhaust_burn lf = 98 ∧
    Z.abs (lf_global_exhaust_burn lf - (if 21 =? 0 then 0 else 98 / 21)) < 3.
Proof. apply (leader_fee_conserved (E := unit) 98 3 21); [lia|lia|vm_compute; congruence|lia]. Defined.
