(* ===== verification/PoolStore.v ===== *)
(** * The transaction pool on disk

    The tables of the RocksDB store that hold the progress of the transactions:
    the pool records, the updates that the pending blocks make to them, the
    executions of the pending blocks and the lock conflicts
    ([state_store_rocksdb/src/{reader,writer}.rs], the column family
    [transaction_pool_state_update.rs]), with the queries of
    [storage/src/consensus_models/transaction_pool.rs] over them.

    The view of a transaction at a block is its pool record with the latest
    update that a pending ancestor of the block makes to it. *)
From stdpp Require Import base gmap list numbers sorting.
From S2P Require Import Prelude Ids Substate Sharding Committee Blocks BlockStore PendingStore Evidence TransactionPool.
Open Scope Z_scope.

(** [TransactionPoolStateUpdateData], keyed by block and transaction. *)
Record StateUpdateData := MkStateUpdateData {
  ud_evidence : Evidence;
  ud_transaction_fee : Z;
  ud_leader_fee : option LeaderFee;
  ud_stage : TransactionPoolStage;
  ud_local_decision : Decision;
  ud_remote_decision : option Decision;
  ud_is_ready : bool;
}.

Record PoolStore := MkPoolStore {
  pl_consensus : ConsensusStore;
  pl_commit_block : option BlockId;
  pl_pool : gmap TransactionId TransactionPoolRecord;
  pl_updates : gmap (BlockId * TransactionId) StateUpdateData;
  pl_executions : gmap (TransactionId * BlockId * NodeHeight) TransactionExecution;
  pl_block_index : gset (BlockId * TransactionId * NodeHeight);
  pl_conflicts : gmap (TransactionId * BlockId * TransactionId) bool; (* whether local only *)
  pl_finalized : gset TransactionId;
}.

Section setters.
Implicit Types s : PoolStore.
Definition set_pl_pool m s : PoolStore :=
  MkPoolStore (pl_consensus s) (pl_commit_block s) m (pl_updates s) (pl_executions s) (pl_block_index s)
    (pl_conflicts s) (pl_finalized s).
Definition set_pl_updates m s : PoolStore :=
  MkPoolStore (pl_consensus s) (pl_commit_block s) (pl_pool s) m (pl_executions s) (pl_block_index s)
    (pl_conflicts s) (pl_finalized s).
Definition set_pl_executions m i s : PoolStore :=
  MkPoolStore (pl_consensus s) (pl_commit_block s) (pl_pool s) (pl_updates s) m i (pl_conflicts s)
    (pl_finalized s).
Definition set_pl_conflicts m s : PoolStore :=
  MkPoolStore (pl_consensus s) (pl_commit_block s) (pl_pool s) (pl_updates s) (pl_executions s)
    (pl_block_index s) m (pl_finalized s).
Definition set_pl_chain c b s : PoolStore :=
  MkPoolStore c b (pl_pool s) (pl_updates s) (pl_executions s) (pl_block_index s) (pl_conflicts s)
    (pl_finalized s).
End setters.

Notation PoolM := (M PoolStore BlockStore.StorageError).
Definition get_pool_store : PoolM PoolStore := λ s, (Ok s, s).

(** ** The chain of pending blocks, from the block back to the last committed one *)
Fixpoint pending_chain_ordered_loop (fuel : nat) (pending : gmap BlockId BlockId) (commit_block : BlockId)
    (block_id : BlockId) : list BlockId :=
  match fuel with
  | O => []
  | S fuel =>
      match pending !! block_id with
      | None => []
      | Some parent_id =>
          if N.eqb parent_id 0 || N.eqb parent_id commit_block then []
          else parent_id :: pending_chain_ordered_loop fuel pending commit_block parent_id
      end
  end.
Definition get_pending_chain_ordered (s : PoolStore) (end_block : BlockId) :
    res BlockStore.StorageError (list BlockId) :=
  let pending := cs_pending (pl_consensus s) in
  match pending !! end_block with
  | None => Ok []
  | Some _ =>
      match pl_commit_block s with
      | None => Err NotFound
      | Some commit_block =>
          Ok (end_block :: pending_chain_ordered_loop (S (size pending)) pending commit_block end_block)
      end
  end.

(** ** Pool records *)
Section pool.
Implicit Types (s : PoolStore) (t : TransactionPoolRecord) (u : StateUpdateData).

(** [set_stage]. *)
Definition set_stage (stage : TransactionPoolStage) t : TransactionPoolRecord :=
  MkTransactionPoolRecord (tp_transaction_id t) (tp_evidence t) (tp_is_global t) (tp_transaction_fee t)
    (tp_leader_fee t) stage (tp_pending_stage t) (tp_original_decision t) (tp_local_decision t)
    (tp_remote_decision t) (tp_is_ready t).
Definition set_pending_stage (stage : option TransactionPoolStage) t : TransactionPoolRecord :=
  set_progress stage (tp_is_ready t) t.
Definition opt_leader_fee (fee : option LeaderFee) t : TransactionPoolRecord :=
  match fee with Some fee => set_leader_fee fee t | None => t end.
Definition opt_remote_decision (d : option Decision) t : TransactionPoolRecord :=
  match d with Some d => set_remote_decision d t | None => t end.

Definition merge_into u t : TransactionPoolRecord :=
  let t := set_evidence (ud_evidence u) t in
  let t := set_transaction_fee (ud_transaction_fee u) t in
  let t := opt_leader_fee (ud_leader_fee u) t in
  let t := set_pending_stage (Some (ud_stage u)) t in
  let t := set_local_decision (ud_local_decision u) t in
  let t := opt_remote_decision (ud_remote_decision u) t in
  set_ready (ud_is_ready u) t.

Definition transaction_pool_insert_new (tx_id : TransactionId) (decision : Decision)
    (initial_evidence : Evidence) (is_ready is_global : bool) : PoolM unit :=
  let value :=
    MkTransactionPoolRecord tx_id initial_evidence is_global 0 None New None decision None None is_ready in
  modify (λ s, set_pl_pool (<[tx_id := value]> (pl_pool s)) s).

Definition transaction_pool_get (s : PoolStore) (id : TransactionId) :
    res BlockStore.StorageError TransactionPoolRecord :=
  match pl_pool s !! id with Some t => Ok t | None => Err NotFound end.

(** The first block of the chain that updates the transaction. *)
Fixpoint first_update (updates : gmap (BlockId * TransactionId) StateUpdateData) (id : TransactionId)
    (chain : list BlockId) : option StateUpdateData :=
  match chain with
  | [] => None
  | b :: chain =>
      match updates !! (b, id) with Some u => Some u | None => first_update updates id chain end
  end.
Definition with_update (u : option StateUpdateData) t : TransactionPoolRecord :=
  match u with Some u => merge_into u t | None => t end.

Definition transaction_pool_get_for_blocks s (to_block_id : BlockId) (id : TransactionId) :
    res BlockStore.StorageError TransactionPoolRecord :=
  match cs_blocks (pl_consensus s) !! to_block_id with
  | None => Err QueryError
  | Some _ =>
      let? t := transaction_pool_get s id in
      let? chain := get_pending_chain_ordered s to_block_id in
      Ok (with_update (first_update (pl_updates s) id chain) t)
  end.

(** [transaction_pool_add_pending_update]; the table that only records history
    for debugging is left out. *)
Definition update_data (u : TransactionPoolStatusUpdate) : StateUpdateData :=
  let t := su_transaction u in
  MkStateUpdateData (tp_evidence t) (tp_transaction_fee t) (leader_fee_of t) (current_stage t)
    (current_decision t) (tp_remote_decision t) (tp_is_ready t).
Definition transaction_pool_add_pending_update (block_id : BlockId) (u : TransactionPoolStatusUpdate) :
    PoolM unit :=
  let id := tp_transaction_id (su_transaction u) in
  do! modify (λ s, set_pl_updates (<[(block_id, id) := update_data u]> (pl_updates s)) s) in
  let! s := get_pool_store in
  let! t := lift (transaction_pool_get s id) in
  let t := set_ready (su_ready_now u) t in
  let t := set_pending_stage (Some (current_stage (su_transaction u))) t in
  modify (λ s, set_pl_pool (<[id := t]> (pl_pool s)) s).

(** [multi_get] leaves out the ids that have no record. *)
Definition transaction_pool_remove_all (ids : list TransactionId) : PoolM (list TransactionPoolRecord) :=
  λ s, (Ok (omap (λ id, pl_pool s !! id) ids),
        set_pl_pool (foldr (λ id m, delete id m) (pl_pool s) ids) s).

(** [transaction_pool_confirm_all_transitions]. *)
Definition confirm_transition u t : TransactionPoolRecord :=
  let t := set_stage (ud_stage u) t in
  let t := set_pending_stage None t in
  let t := set_local_decision (ud_local_decision u) t in
  let t := set_transaction_fee (ud_transaction_fee u) t in
  let t := opt_leader_fee (ud_leader_fee u) t in
  let t := set_evidence (ud_evidence u) t in
  let t := set_ready (ud_is_ready u) t in
  opt_remote_decision (ud_remote_decision u) t.
Definition updates_of_block s (block_id : BlockId) : list (TransactionId * StateUpdateData) :=
  (λ p, (p.1.2, p.2)) <$> filter (λ p, p.1.1 = block_id) (map_to_list (pl_updates s)).
Definition confirm_one (block_id : BlockId) (p : TransactionId * StateUpdateData) : PoolM unit :=
  do! modify (λ s, set_pl_updates (delete (block_id, p.1) (pl_updates s)) s) in
  let! s := get_pool_store in
  let! t := lift (transaction_pool_get s p.1) in
  modify (λ s, set_pl_pool (<[p.1 := confirm_transition p.2 t]> (pl_pool s)) s).
Definition transaction_pool_confirm_all_transitions (block_id : BlockId) : PoolM unit :=
  let! s := get_pool_store in
  for_each (updates_of_block s block_id) (confirm_one block_id).

Definition transaction_pool_state_updates_remove_any_by_block_id (block_id : BlockId) : PoolM unit :=
  modify (λ s, set_pl_updates (filter (λ p, p.1.1 ≠ block_id) (pl_updates s)) s).
End pool.

(** ** Executions of the pending blocks *)
Section executions.
Implicit Types (s : PoolStore) (id : TransactionId).

(** [BlockTransactionExecution]. *)
Definition block_transaction_executions_insert_or_ignore id (block_id : BlockId) (height : NodeHeight)
    (x : TransactionExecution) : PoolM bool :=
  λ s,
    match pl_executions s !! (id, block_id, height) with
    | Some _ => (Ok false, s)
    | None =>
        (Ok true,
         set_pl_executions (<[(id, block_id, height) := x]> (pl_executions s))
           ({[ (block_id, id, height) ]} ∪ pl_block_index s) s)
    end.

(** [ByTransactionIdQuery]: the keys of a transaction in ascending order. *)
Definition exec_key_le (a b : BlockId * NodeHeight) : Prop :=
  (a.1 < b.1)%N ∨ (a.1 = b.1 ∧ a.2 ≤ b.2).
#[export] Instance exec_key_le_dec a b : base.Decision (exec_key_le a b).
Proof. unfold exec_key_le. apply _. Defined.
Definition execution_keys s id : list (BlockId * NodeHeight) :=
  merge_sort exec_key_le
    (omap (λ p, if N.eqb p.1.1.1 id then Some (p.1.1.2, p.1.2) else None) (map_to_list (pl_executions s))).

(** The key kept is replaced by a higher one when the block of the kept key is in
    the pending chain; the closure of the source shadows the block of the
    candidate. *)
Definition max_height_key (block_ids : list BlockId) (keys : list (BlockId * NodeHeight)) :
    option (BlockId * NodeHeight) :=
  fold_left (λ kept k,
    match kept with
    | None => Some k
    | Some (block_id, current_height) =>
        if (current_height <? k.2) && bool_decide (block_id ∈ block_ids) then Some k else kept
    end) keys None.

Definition pending_chain_until s (end_block : BlockId) : list BlockId :=
  get_pending_chain_until (MkBaseStore (pl_consensus s) ∅ ∅ ∅ ∅) end_block.

Definition block_transaction_executions_get_pending_for_block s id (from_block : BlockId)
    (from_height : NodeHeight) : res BlockStore.StorageError TransactionExecution :=
  match cs_blocks (pl_consensus s) !! from_block with
  | None => Err QueryError
  | Some _ =>
      match pl_executions s !! (id, from_block, from_height) with
      | Some x => Ok x
      | None =>
          match max_height_key (pending_chain_until s from_block) (execution_keys s id) with
          | None => Err NotFound
          | Some (block_id, height) =>
              match pl_executions s !! (id, block_id, height) with Some x => Ok x | None => Err NotFound end
          end
      end
  end.

Definition indexed_in s (block_id : BlockId) (k : BlockId * TransactionId * NodeHeight) : Prop :=
  k ∈ pl_block_index s ∧ k.1.1 = block_id.
Definition block_transaction_executions_remove_any_by_block_id (block_id : BlockId) : PoolM unit :=
  modify (λ s,
    set_pl_executions
      (filter (λ p, ¬ indexed_in s block_id (p.1.1.2, p.1.1.1, p.1.2)) (pl_executions s))
      (filter (λ k, k.1.1 ≠ block_id) (pl_block_index s)) s).

(** The executions of the same transaction in blocks that are not higher. *)
Definition lock_removes (lock_block : BlockId) (locked : BlockId * TransactionId * NodeHeight)
    (k : BlockId * TransactionId * NodeHeight) : bool :=
  N.eqb k.1.2 locked.1.2 && (k.2 <=? locked.2) && negb (N.eqb k.1.1 lock_block).
Definition block_transaction_executions_lock_any_for_block (lock_block : BlockId) : PoolM unit :=
  modify (λ s,
    let locked := filter (λ k, k.1.1 = lock_block) (elements (pl_block_index s)) in
    let removed := λ k, existsb (λ l, lock_removes lock_block l k) locked in
    set_pl_executions
      (filter (λ p, removed (p.1.1.2, p.1.1.1, p.1.2) = false) (pl_executions s))
      (filter (λ k, removed k = true → (k.1.2, k.1.1, k.2) ∉ dom (pl_executions s)) (pl_block_index s)) s).

Definition transactions_finalize_all (ts : list TransactionPoolRecord) : PoolM unit :=
  modify (λ s,
    let ids := tp_transaction_id <$> ts in
    let final := λ k, bool_decide (k.1.2 ∈ ids) && bool_decide ((k.1.2, k.1.1, k.2) ∈ dom (pl_executions s)) in
    MkPoolStore (pl_consensus s) (pl_commit_block s) (pl_pool s) (pl_updates s) (pl_executions s)
      (filter (λ k, final k = false) (pl_block_index s)) (pl_conflicts s)
      (list_to_set ids ∪ pl_finalized s)).
End executions.

(** ** Lock conflicts and the transactions that are ready *)
Section ready.
Implicit Types (s : PoolStore) (id : TransactionId) (t : TransactionPoolRecord).

Definition lock_conflicts_insert_all (block_id : BlockId)
    (conflicts : list (TransactionId * list LockConflict)) : PoolM unit :=
  for_each conflicts (λ p,
    for_each p.2 (λ c,
      modify (λ s, set_pl_conflicts (<[(p.1, block_id, lc_transaction_id c) := lc_is_local_only c]> (pl_conflicts s)) s))).
(** The conflicts of a transaction and the same conflicts seen from the other
    side. *)
Definition lock_conflicts_remove_by_transaction_ids (ids : list TransactionId) : PoolM unit :=
  for_each ids (λ id,
    modify (λ s,
      set_pl_conflicts
        (filter (λ p, p.1.1.1 ≠ id ∧ ¬ (p.1.2 = id ∧ (id, p.1.1.2, p.1.1.1) ∈ dom (pl_conflicts s)))
           (pl_conflicts s)) s)).
Definition lock_conflicts_remove_by_block_id (block_id : BlockId) : PoolM unit :=
  modify (λ s, set_pl_conflicts (filter (λ p, p.1.1.2 ≠ block_id) (pl_conflicts s)) s).

Definition lock_conflicted s id : bool :=
  existsb (λ p, N.eqb p.1.1.1 id) (map_to_list (pl_conflicts s)).

(** The pool in key order. *)
Definition tx_le (a b : TransactionId * TransactionPoolRecord) : Prop := (a.1 <= b.1)%N.
#[export] Instance tx_le_dec a b : base.Decision (tx_le a b).
Proof. unfold tx_le. apply _. Defined.
Definition pool_iter s : list TransactionPoolRecord :=
  snd <$> merge_sort tx_le (map_to_list (pl_pool s)).

Fixpoint take_ready s (chain : list BlockId) (max_txs : nat) (ts : list TransactionPoolRecord) :
    list TransactionPoolRecord :=
  match ts with
  | [] => []
  | t :: ts =>
      if lock_conflicted s (tp_transaction_id t) then take_ready s chain max_txs ts
      else
        let t := with_update (first_update (pl_updates s) (tp_transaction_id t) chain) t in
        if tp_is_ready t then
          t :: (match max_txs with
                | O | S O => []
                | S max_txs => take_ready s chain max_txs ts
                end)
        else take_ready s chain max_txs ts
  end.
(** [transaction_pool_get_many_ready]: the map of updates is filled from the
    oldest block on, so that the entry of the newest block remains. *)
Definition transaction_pool_get_many_ready s (max_txs : nat) (block_id : BlockId) :
    res BlockStore.StorageError (list TransactionPoolRecord) :=
  match cs_blocks (pl_consensus s) !! block_id with
  | None => Err QueryError
  | Some _ =>
      let? chain := get_pending_chain_ordered s block_id in
      Ok (take_ready s chain max_txs (pool_iter s))
  end.
Definition get_batch_for_next_block s (max : nat) (block_id : BlockId) :
    res BlockStore.StorageError (list TransactionPoolRecord) :=
  match max with O => Ok [] | _ => transaction_pool_get_many_ready s max block_id end.

Definition transaction_pool_has_pending_state_updates s (block_id : BlockId) :
    res BlockStore.StorageError bool :=
  let? chain := get_pending_chain_ordered s block_id in
  Ok (existsb (λ b, existsb (λ p, N.eqb p.1.1 b) (map_to_list (pl_updates s))) chain).

(** [transaction_pool_count]: the [continue] under [skip_lock_conflicted] belongs
    to the loop over the conflicts of the transaction. *)
Fixpoint scan_conflicts (conflicts : list bool) : unit :=
  match conflicts with
  | [] => tt
  | is_local_only :: conflicts =>
      if negb is_local_only then scan_conflicts conflicts else scan_conflicts conflicts
  end.
Definition conflicts_of s id : list bool :=
  omap (λ p, if N.eqb p.1.1.1 id then Some p.2 else None) (map_to_list (pl_conflicts s)).
Fixpoint count_loop s (stage : option TransactionPoolStage) (is_ready : option bool)
    (skip_lock_conflicted : bool) (ts : list TransactionPoolRecord) (count : nat) : nat :=
  match ts with
  | [] => count
  | t :: ts =>
      let continue := count_loop s stage is_ready skip_lock_conflicted ts count in
      let counted :=
        match if skip_lock_conflicted then scan_conflicts (conflicts_of s (tp_transaction_id t)) else tt with
        | tt => count_loop s stage is_ready skip_lock_conflicted ts (S count)
        end in
      if match stage with Some st => bool_decide (tp_pending_stage t ≠ Some st) | None => false end
      then continue
      else if match is_ready with Some r => negb (Bool.eqb (tp_is_ready t) r) | None => false end
      then continue
      else counted
  end.
Definition transaction_pool_count s (stage : option TransactionPoolStage) (is_ready : option bool)
    (skip_lock_conflicted : bool) : nat :=
  count_loop s stage is_ready skip_lock_conflicted (pool_iter s) 0.

Definition has_ready_or_pending_transaction_updates s (block_id : BlockId) :
    res BlockStore.StorageError bool :=
  let? pending := transaction_pool_has_pending_state_updates s block_id in
  Ok (pending
      || (0 <? transaction_pool_count s None (Some true) true)%nat
      || (0 <? transaction_pool_count s (Some LocalOnlyStage) None true)%nat
      || (0 <? transaction_pool_count s (Some AllAccepted) None true)%nat
      || (0 <? transaction_pool_count s (Some SomeAccepted) None true)%nat).
End ready.

(** ** The chain when its oldest block is committed *)
Section chain.
Implicit Types (pending : gmap BlockId BlockId) (c x : BlockId).

(** [l] are the ancestors of [x] that are not committed. *)
Fixpoint ancestors pending c x (l : list BlockId) : Prop :=
  match l with
  | [] => pending !! x = None ∨ ∃ p, pending !! x = Some p ∧ (p = 0%N ∨ p = c)
  | p :: l => pending !! x = Some p ∧ p ≠ 0%N ∧ p ≠ c ∧ ancestors pending c p l
  end.

Lemma ancestors_loop pending c l : ∀ x fuel,
  ancestors pending c x l → (length l < fuel)%nat → pending_chain_ordered_loop fuel pending c x = l.
Proof.
  induction l as [|p l IH]; intros x [|fuel] H Hf; simpl in *; [lia| |lia|].
  - destruct H as [-> | (p & -> & Hp)]; [done|].
    destruct Hp as [-> | ->]; [done|]. by rewrite N.eqb_refl, orb_true_r.
  - destruct H as (-> & H0 & Hc & H). apply N.eqb_neq in H0, Hc. rewrite H0, Hc. simpl.
    rewrite (IH p fuel); [done|done|lia].
Qed.
Lemma loop_ancestors pending c fuel : ∀ x,
  (length (pending_chain_ordered_loop fuel pending c x) < fuel)%nat →
  ancestors pending c x (pending_chain_ordered_loop fuel pending c x).
Proof.
  induction fuel as [|fuel IH]; intros x Hf; [simpl in Hf; lia|]. simpl in *.
  destruct (pending !! x) as [p|] eqn:Hp; simpl; [|by left].
  destruct (N.eqb_spec p 0); simpl in *; [right; eauto|].
  destruct (N.eqb_spec p c); simpl in *; [right; eauto|].
  repeat split; try done. apply IH. lia.
Qed.

(** A walk without repetition stays within the index, up to its last block. *)
Lemma loop_dom pending c fuel : ∀ x y l,
  pending_chain_ordered_loop fuel pending c x = l ++ [y] → Forall (λ z, z ∈ dom pending) l.
Proof.
  induction fuel as [|fuel IH]; intros x y l H; simpl in H; [by destruct l|].
  destruct (pending !! x) as [p|] eqn:Hp; [|by destruct l].
  destruct (N.eqb p 0 || N.eqb p c); [by destruct l|].
  destruct l as [|p' l]; [done|]. injection H as -> H. constructor; [|by eapply IH].
  destruct fuel as [|fuel]; simpl in H; [by destruct l|].
  apply elem_of_dom. destruct (pending !! p') as [q|] eqn:E; [by eexists|by destruct l].
Qed.

Lemma NoDup_dom_length pending (l : list BlockId) :
  NoDup l → Forall (λ z, z ∈ dom pending) l → (length l ≤ size pending)%nat.
Proof.
  intros Hnd Hl. rewrite <- size_dom, <- (size_list_to_set (C := gset BlockId) l Hnd).
  apply subseteq_size. intros z Hz. apply elem_of_list_to_set in Hz.
  rewrite list.Forall_forall in Hl. by apply Hl.
Qed.

Lemma ancestors_commit pending c b : ∀ l x,
  ancestors pending c x (l ++ [b]) → b ∉ x :: l → ancestors (delete b pending) b x l.
Proof.
  induction l as [|p l IH]; intros x H Hb; simpl in *.
  - destruct H as (Hp & H). right. exists b. split; [|by right]. rewrite lookup_delete_ne; [done|].
    set_solver.
  - destruct H as (Hp & H0 & Hc & H). split; [rewrite lookup_delete_ne; [done|set_solver]|].
    split; [done|]. split; [set_solver|]. apply IH; [done|set_solver].
Qed.
End chain.

(** The effect of committing a block on the chain tables ([blocks_set_qcs]). *)
Definition commit_chain (b : BlockId) (s : PoolStore) : PoolStore :=
  set_pl_chain (set_pending (delete b (cs_pending (pl_consensus s))) (pl_consensus s)) (Some b) s.

Lemma chain_after_commit s to pre b :
  get_pending_chain_ordered s to = Ok (to :: pre ++ [b]) → NoDup (to :: pre ++ [b]) →
  get_pending_chain_ordered (commit_chain b s) to = Ok (to :: pre).
Proof.
  unfold get_pending_chain_ordered, commit_chain. cbn -[pending_chain_ordered_loop].
  set (pending := cs_pending _). intros H Hnd.
  assert (∃ p c, pending !! to = Some p ∧ pl_commit_block s = Some c ∧
    pending_chain_ordered_loop (S (size pending)) pending c to = pre ++ [b]) as (p & c & Hp & _ & Hl).
  { destruct (pending !! to) as [p|]; [|done].
    destruct (pl_commit_block s) as [c|]; [|done]. injection H as H. eauto. }
  assert (b ∉ to :: pre) as Hb.
  { rewrite app_comm_cons in Hnd. apply list.NoDup_app in Hnd as (_ & Hd & _). set_solver. }
  assert (NoDup (to :: pre)) as Hpre.
  { rewrite app_comm_cons in Hnd. by apply list.NoDup_app in Hnd as (Hd & _). }
  assert (Forall (λ z, z ∈ dom pending) (to :: pre)) as Hdom.
  { constructor; [apply elem_of_dom; eauto|]. exact (loop_dom pending c (S (size pending)) to b pre Hl). }
  assert (Forall (λ z, z ∈ dom (delete b pending)) (to :: pre)) as Hdom'.
  { rewrite list.Forall_forall in Hdom |- *. intros z Hz. rewrite dom_delete_L.
    apply elem_of_difference. split; [by apply Hdom|]. apply not_elem_of_singleton. congruence. }
  pose proof (NoDup_dom_length _ _ Hpre Hdom) as Hn.
  pose proof (NoDup_dom_length _ _ Hpre Hdom') as Hn'. simpl in Hn, Hn'.
  assert (b ≠ to) as Hne by set_solver. rewrite (lookup_delete_ne pending b to Hne), Hp.
  f_equal. f_equal.
  assert (length (pre ++ [b]) = S (length pre)) as Hlen by (rewrite length_app; simpl; lia).
  apply ancestors_loop; [|lia]. apply (ancestors_commit _ c); [|done].
  rewrite <- Hl. apply loop_ancestors. rewrite Hl. lia.
Qed.

(** ** Updates are read back *)
Section updates.
Implicit Types (s : PoolStore) (id : TransactionId) (t : TransactionPoolRecord) (u : StateUpdateData).

Lemma first_update_app updates id l1 l2 :
  first_update updates id (l1 ++ l2) =
    match first_update updates id l1 with Some u => Some u | None => first_update updates id l2 end.
Proof. induction l1 as [|b l1 IH]; simpl; [done|]. by destruct (updates !! (b, id)). Qed.
Lemma first_update_ext updates updates' id l :
  (∀ b, b ∈ l → updates !! (b, id) = updates' !! (b, id)) →
  first_update updates id l = first_update updates' id l.
Proof.
  induction l as [|b l IH]; intros H; simpl; [done|]. rewrite (H b) by set_solver.
  rewrite IH; [done|]. intros b' Hb'. apply H. set_solver.
Qed.

(** What the store keeps of a record: its stage and readiness, and the atom that
    a block would carry for it. *)
Definition view t : TransactionPoolStage * bool * TransactionAtom :=
  (current_stage t, tp_is_ready t, get_current_transaction_atom t).

Lemma abort_evidence_idemp (ev : Evidence) : abort_evidence (abort_evidence ev) = abort_evidence ev.
Proof.
  unfold abort_evidence. rewrite <- map_fmap_compose. apply map_fmap_ext. intros g e _.
  unfold compose, abort_group. destruct e; simpl. f_equal.
  - by rewrite <- ?map_fmap_compose.
Qed.

(** The evidence of an update that aborts is the evidence an abort leaves. *)
Definition settled u : Prop :=
  is_abort (ud_local_decision u) = true → abort_evidence (ud_evidence u) = ud_evidence u.

(** The two readings of an update agree on everything but the evidence: reading
    it as a pending one reduces the evidence of an aborted transaction, while
    committing stores the evidence after the decision and leaves it. *)
Lemma confirm_merge u t :
  let c := confirm_transition u t in let m := merge_into u t in
  current_stage c = current_stage m ∧ tp_is_ready c = tp_is_ready m ∧
  current_decision c = current_decision m ∧ tp_transaction_fee c = tp_transaction_fee m ∧
  leader_fee_of c = leader_fee_of m ∧
  (tp_evidence m = tp_evidence c ∨
   is_abort (current_decision m) = true ∧ tp_evidence m = abort_evidence (tp_evidence c)).
Proof.
  destruct u as [ev fee lf stage ld rd ready].
  destruct t as [id ev0 g fee0 lf0 st0 ps0 od0 ld0 rd0 r0].
  unfold confirm_transition, merge_into, opt_remote_decision, set_remote_decision, set_local_decision,
    abort_if. generalize abort_evidence as f. intros f.
  destruct ld as [|reason], lf, rd as [[|]|], rd0 as [[|]|]; simpl; split_and!; auto.
Qed.
Lemma confirm_view u t : settled u → view (confirm_transition u t) = view (merge_into u t).
Proof.
  unfold settled. intros Hs. destruct u as [ev fee lf stage ld rd ready]; simpl in Hs.
  destruct t as [id ev0 g fee0 lf0 st0 ps0 od0 ld0 rd0 r0].
  destruct ld as [|reason].
  - destruct lf, rd as [[|]|], rd0 as [[|]|]; reflexivity.
  - specialize (Hs eq_refl).
    destruct lf, rd as [[|]|], rd0 as [[|]|]; unfold view, confirm_transition, merge_into; simpl;
      unfold get_current_transaction_atom; simpl; by rewrite ?Hs.
Qed.

(** Reading an update over a record: an abort that is recorded for another group
    takes precedence, and the evidence of an update that aborts is reduced. *)
Lemma merge_into_spec u t :
  (∀ reason, ud_remote_decision u = Some (Abort reason) → ud_local_decision u = Abort reason) →
  let m := merge_into u t in
  current_stage m = ud_stage u ∧ tp_is_ready m = ud_is_ready u ∧
  tp_transaction_fee m = ud_transaction_fee u ∧
  current_decision m =
    match tp_remote_decision t with Some (Abort reason) => Abort reason | _ => ud_local_decision u end ∧
  (is_abort (ud_local_decision u) = true → tp_evidence m = abort_evidence (ud_evidence u)) ∧
  (is_commit (current_decision m) = true → tp_evidence m = ud_evidence u) ∧
  abort_evidence (tp_evidence m) = abort_evidence (ud_evidence u).
Proof.
  intros Hu. destruct u as [ev fee lf stage ld rd ready]; simpl in *.
  destruct t as [id ev0 g fee0 lf0 st0 ps0 od0 ld0 rd0 r0]; simpl in *.
  destruct rd as [[|x]|], rd0 as [[|y]|]; try (specialize (Hu _ eq_refl); subst ld);
    try destruct ld; destruct lf; unfold merge_into; simpl; rewrite ?abort_evidence_idemp;
    split_and!; try done; intros; by rewrite ?abort_evidence_idemp.
Qed.

Lemma confirm_loop_spec b l s s' :
  for_each l (confirm_one b) s = (Ok tt, s') → NoDup l.*1 →
  pl_consensus s' = pl_consensus s ∧
  (∀ b' id, b' ≠ b → pl_updates s' !! (b', id) = pl_updates s !! (b', id)) ∧
  ∀ id, pl_pool s' !! id =
    match list_to_map (M := gmap TransactionId StateUpdateData) l !! id with
    | Some u => confirm_transition u <$> (pl_pool s !! id)
    | None => pl_pool s !! id
    end.
Proof.
  revert s. induction l as [|[i u] l IH]; intros s H Hnd; simpl in H.
  { injection H as <-. done. }
  unfold confirm_one at 1 in H. apply list.NoDup_cons in Hnd as [Hi Hnd].
  apply bind_Ok in H as ([] & s1 & H1 & H).
  apply bind_Ok in H1 as ([] & s2 & [= <-] & H1).
  apply bind_Ok in H1 as (s3 & s4 & [= <- <-] & H1). simpl in H1.
  apply bind_Ok in H1 as (t & s5 & H2 & [= <-]).
  unfold lift, transaction_pool_get in H2. simpl in H2.
  destruct (pl_pool s !! i) as [t0|] eqn:Ht; [|done]. injection H2 as <- <-.
  apply IH in H as (H1 & H2 & H3); [|done]. simpl in *. split; [done|]. split.
  - intros b' id Hb. rewrite H2 by done. rewrite lookup_delete_ne; [done|congruence].
  - intros id. rewrite H3. destruct (decide (id = i)) as [->|Hne].
    + rewrite (not_elem_of_list_to_map_1 l i Hi), !lookup_insert_eq, Ht. done.
    + by rewrite !lookup_insert_ne by done.
Qed.

Lemma elem_of_updates_of_block s b id u :
  (id, u) ∈ updates_of_block s b ↔ pl_updates s !! (b, id) = Some u.
Proof.
  unfold updates_of_block. rewrite list_elem_of_fmap. split.
  - intros ([[b' id'] u'] & [= -> ->] & H). apply list_elem_of_filter in H as [Hb H].
    simpl in Hb. subst b'. by apply elem_of_map_to_list in H.
  - intros H. exists ((b, id), u). split; [done|]. apply list_elem_of_filter. split; [done|].
    by apply elem_of_map_to_list.
Qed.
Lemma updates_of_block_NoDup s b : NoDup (updates_of_block s b).*1.
Proof.
  unfold updates_of_block. rewrite <- list_fmap_compose. apply NoDup_fmap_2_strong.
  - intros [[b1 i1] u1] [[b2 i2] u2] H1 H2 Heq. simpl in Heq. subst i2.
    apply list_elem_of_filter in H1 as [E1 H1], H2 as [E2 H2]. simpl in E1, E2. subst b1 b2.
    apply elem_of_map_to_list in H1, H2. congruence.
  - apply NoDup_filter, NoDup_map_to_list.
Qed.
Lemma updates_of_block_lookup s b id :
  list_to_map (M := gmap TransactionId StateUpdateData) (updates_of_block s b) !! id =
    pl_updates s !! (b, id).
Proof.
  apply option_eq. intros u. rewrite <- elem_of_updates_of_block. symmetry.
  apply elem_of_list_to_map, updates_of_block_NoDup.
Qed.
End updates.
