(* ===== verification/PoolStoreRuns.v ===== *)
(** * The transaction pool on disk, with runs

    What a validator reads back of the progress of a transaction along the
    pending chain: updates of a block are seen by its descendants, committing a
    block keeps the view of the blocks that remain, and what leaks between forks. *)
From stdpp Require Import base gmap list numbers sorting.
From S2P Require Import Prelude Ids Substate Sharding Committee Blocks BlockStore HotStuffSafety HotStuffRuns PendingStore Evidence TransactionPool PoolStore.
Open Scope Z_scope.

(** ** A chain of two blocks on the committed block 9, and a fork *)
Definition group1 : ShardGroup := MkShardGroup 1 128.
Definition fork_consensus : ConsensusStore :=
  set_pending {[5%N := 9%N; 6%N := 5%N; 7%N := 9%N]}
    (set_blocks {[5%N := chain 1%N; 6%N := chain 1%N; 7%N := chain 1%N]} empty_store).
Definition new_record (id : TransactionId) : TransactionPoolRecord :=
  new_from_transaction id false {[group1 := shard_group_evidence_default]}.
Definition pool0 : PoolStore :=
  MkPoolStore fork_consensus (Some 9%N) {[1%N := new_record 1; 2%N := new_record 2]} ∅ ∅ ∅ ∅ ∅.
(** Block 5 moves transaction 1 to [LocalPrepared]. *)
Definition prepared_update : TransactionPoolStatusUpdate :=
  MkTransactionPoolStatusUpdate (set_progress (Some LocalPrepared) false (new_record 1)) false.
Definition pool1 : PoolStore := (transaction_pool_add_pending_update 5%N prepared_update pool0).2.
Definition pool2 : PoolStore := (transaction_pool_confirm_all_transitions 5%N pool1).2.

(** ** Theorems *)
(** C13: Committing a block hardly changes what its descendants see.  The oldest
    pending block is committed: its updates are moved into the pool records and
    the block leaves the pending chain.  The stage, the readiness, the decision
    and the fees of every transaction, read at a block that stays pending, are
    those read before, if no later block of the chain updates the transaction.
    The evidence is the same too, unless the transaction is aborted: a pending
    reading reduces the evidence of an aborted transaction, as [abort_evidence]
    does, and the committed record may hold it unreduced.  It holds it reduced,
    and the atom is unchanged, if the block's update held it reduced
    ([settled]). *)
Theorem commit_keeps_pool_view s s' b to pre id t :
  get_pending_chain_ordered s to = Ok (to :: pre ++ [b]) → NoDup (to :: pre ++ [b]) →
  (∀ b', b' ∈ to :: pre → pl_updates s !! (b', id) = None) →
  transaction_pool_confirm_all_transitions b s = (Ok tt, s') →
  transaction_pool_get_for_blocks s to id = Ok t →
  ∃ t', transaction_pool_get_for_blocks (commit_chain b s') to id = Ok t' ∧
    current_stage t' = current_stage t ∧ tp_is_ready t' = tp_is_ready t ∧
    current_decision t' = current_decision t ∧ tp_transaction_fee t' = tp_transaction_fee t ∧
    leader_fee_of t' = leader_fee_of t ∧
    (tp_evidence t = tp_evidence t' ∨
     is_abort (current_decision t) = true ∧ tp_evidence t = abort_evidence (tp_evidence t')) ∧
    ((∀ u, pl_updates s !! (b, id) = Some u → settled u) → view t' = view t).
Proof.
  intros Hch Hnd Hpre Hc Hget.
  unfold transaction_pool_confirm_all_transitions in Hc.
  apply bind_Ok in Hc as (s0 & s1 & [= <- <-] & Hc).
  apply confirm_loop_spec in Hc as (H1 & H2 & H3); [|apply updates_of_block_NoDup].
  pose proof (chain_after_commit s to pre b Hch Hnd) as Hch'.
  assert (get_pending_chain_ordered (commit_chain b s') to = Ok (to :: pre)) as Hch''.
  { rewrite <- Hch'. unfold get_pending_chain_ordered, commit_chain. simpl. by rewrite H1. }
  assert (b ∉ to :: pre) as Hb.
  { rewrite app_comm_cons in Hnd. apply list.NoDup_app in Hnd as (_ & Hd & _). set_solver. }
  assert (∀ m, (∀ b', b' ∈ to :: pre → m !! (b', id) = None) → first_update m id (to :: pre) = None) as Hf.
  { intros m Hm. rewrite (first_update_ext m ∅); [|intros; by rewrite Hm, lookup_empty].
    clear. induction (to :: pre) as [|x l IH]; simpl; [done|]. by rewrite lookup_empty. }
  unfold transaction_pool_get_for_blocks in *. simpl. rewrite H1.
  destruct (cs_blocks (pl_consensus s) !! to) as [bl|]; [|done].
  unfold transaction_pool_get in *. simpl. rewrite H3, updates_of_block_lookup.
  destruct (pl_pool s !! id) as [t0|]; [|done]. cbn -[first_update] in Hget. rewrite Hch in Hget. cbn -[first_update] in Hget.
  rewrite app_comm_cons, first_update_app in Hget. rewrite (Hf (pl_updates s) Hpre) in Hget. simpl in Hget.
  assert (first_update (pl_updates s') id (to :: pre) = None) as Hn.
  { apply Hf. intros b' Hb'. rewrite H2; [by apply Hpre|]. congruence. }
  destruct (pl_updates s !! (b, id)) as [u|] eqn:Hu; cbn -[first_update commit_chain]; rewrite Hch''; cbn -[first_update] in *; rewrite Hn.
  - injection Hget as <-. eexists. split; [done|]. cbn [with_update].
    destruct (confirm_merge u t0) as (? & ? & ? & ? & ? & ?). split_and!; try done.
    intros Hset. by apply confirm_view, Hset.
  - injection Hget as <-. eexists. split; [done|]. split_and!; try done. by left.
Qed.

Lemma commit_keeps_pool_view_witness :
  ∃ t t', transaction_pool_get_for_blocks pool1 6%N 1%N = Ok t ∧ current_stage t = LocalPrepared ∧
    transaction_pool_get_for_blocks (commit_chain 5%N pool2) 6%N 1%N = Ok t' ∧ view t' = view t ∧
    pl_updates pool2 = ∅.
Proof.
  eexists. destruct (commit_keeps_pool_view pool1 pool2 5%N 6%N [] 1%N
    (merge_into (update_data prepared_update) (set_progress (Some LocalPrepared) false (new_record 1))))
    as (t' & Ht & _ & _ & _ & _ & _ & _ & Hv).
  - vm_compute. reflexivity.
  - repeat constructor; set_solver.
  - intros b' Hb. apply list_elem_of_singleton in Hb as ->. vm_compute. reflexivity.
  - vm_compute. reflexivity.
  - vm_compute. reflexivity.
  - exists t'. split; [vm_compute; reflexivity|]. split; [reflexivity|]. split; [exact Ht|]. split.
    + apply Hv. intros u Hu. vm_compute in Hu. injection Hu as <-. unfold settled. simpl. discriminate.
    + vm_compute. reflexivity.
Defined.

Section update.
Implicit Types (s : PoolStore) (id : TransactionId) (t : TransactionPoolRecord).

Lemma add_pending_update_spec s s' b u :
  let id := tp_transaction_id (su_transaction u) in
  transaction_pool_add_pending_update b u s = (Ok tt, s') →
  ∃ t, pl_pool s !! id = Some t ∧
    s' = set_pl_pool (<[id := set_pending_stage (Some (current_stage (su_transaction u)))
                               (set_ready (su_ready_now u) t)]> (pl_pool s))
           (set_pl_updates (<[(b, id) := update_data u]> (pl_updates s)) s).
Proof.
  intros id H. unfold transaction_pool_add_pending_update in H.
  apply bind_Ok in H as ([] & s1 & [= <-] & H).
  apply bind_Ok in H as (s2 & s3 & [= <- <-] & H).
  apply bind_Ok in H as (t & s4 & H1 & [= <-]).
  unfold lift, transaction_pool_get in H1. simpl in H1. fold id in H1.
  destruct (pl_pool s !! id) as [t0|] eqn:Ht; [|done]. injection H1 as <- <-.
  exists t0. by split.
Qed.

Lemma get_for_blocks_eq s to id blk chain t :
  cs_blocks (pl_consensus s) !! to = Some blk → get_pending_chain_ordered s to = Ok chain →
  pl_pool s !! id = Some t →
  transaction_pool_get_for_blocks s to id = Ok (with_update (first_update (pl_updates s) id chain) t).
Proof.
  intros Hb Hc Ht. unfold transaction_pool_get_for_blocks, transaction_pool_get.
  by rewrite Hb, Ht, Hc.
Qed.

(** C28: What a block records for a transaction is what its descendants read.
    After an update is added for a pending block, the block and every descendant
    without a later update of the transaction read the stage, readiness and fee
    of the update.  They read its decision, unless the pool record holds an abort
    of another group, which takes precedence.  They read its evidence if the
    decision they read is to commit; if the update aborts, they read the evidence
    reduced as [abort_evidence] does.  Other transactions are not affected. *)
Theorem pool_update_read_back s s' b u to blk pre post :
  let r := su_transaction u in let id := tp_transaction_id r in
  transaction_pool_add_pending_update b u s = (Ok tt, s') →
  cs_blocks (pl_consensus s) !! to = Some blk →
  get_pending_chain_ordered s to = Ok (pre ++ b :: post) →
  b ∉ pre → first_update (pl_updates s) id pre = None →
  (∃ t0 t, pl_pool s !! id = Some t0 ∧ transaction_pool_get_for_blocks s' to id = Ok t ∧
     current_stage t = current_stage r ∧ tp_is_ready t = tp_is_ready r ∧
     tp_transaction_fee t = tp_transaction_fee r ∧
     current_decision t =
       match tp_remote_decision t0 with Some (Abort reason) => Abort reason | _ => current_decision r end ∧
     (is_abort (current_decision r) = true → tp_evidence t = abort_evidence (tp_evidence r)) ∧
     (is_commit (current_decision t) = true → tp_evidence t = tp_evidence r) ∧
     abort_evidence (tp_evidence t) = abort_evidence (tp_evidence r)) ∧
  ∀ id' to', id' ≠ id → transaction_pool_get_for_blocks s' to' id' = transaction_pool_get_for_blocks s to' id'.
Proof.
  intros r id Hadd Hblk Hch Hb Hpre.
  apply add_pending_update_spec in Hadd as (t0 & Ht0 & ->). fold r id in Ht0 |- *. split.
  - eexists t0, _. split; [done|]. split.
    { eapply get_for_blocks_eq; [exact Hblk|exact Hch|]. simpl. apply lookup_insert_eq. }
    simpl. rewrite first_update_app.
    rewrite (first_update_ext _ (pl_updates s) id pre), Hpre.
    2:{ intros b' Hb'. rewrite lookup_insert_ne; [done|]. congruence. }
    simpl. rewrite lookup_insert_eq. simpl.
    refine (merge_into_spec (update_data u) _ _).
    intros reason Hr. unfold update_data, current_decision in *. simpl in *. by rewrite Hr.
  - intros id' to' Hne. unfold transaction_pool_get_for_blocks, transaction_pool_get. simpl.
    rewrite lookup_insert_ne by done. destruct (cs_blocks _ !! to'); [|done].
    destruct (pl_pool s !! id') as [t|]; [|done]. simpl.
    change (get_pending_chain_ordered _ to') with (get_pending_chain_ordered s to').
    destruct (get_pending_chain_ordered s to') as [chain| |]; [|done..]. simpl. do 2 f_equal.
    apply first_update_ext. intros b' _. rewrite lookup_insert_ne; [done|congruence].
Qed.
End update.

Lemma pool_update_read_back_witness :
  (∃ t, transaction_pool_get_for_blocks pool1 6%N 1%N = Ok t ∧
     current_stage t = LocalPrepared ∧ tp_is_ready t = false ∧ tp_transaction_fee t = 0 ∧
     current_decision t = Commit ∧ tp_evidence t = {[group1 := shard_group_evidence_default]}) ∧
  ∀ id' to', id' ≠ 1%N → transaction_pool_get_for_blocks pool1 to' id' = transaction_pool_get_for_blocks pool0 to' id'.
Proof.
  destruct (pool_update_read_back pool0 pool1 5%N prepared_update 6%N (chain 1%N) [6%N] [])
    as [(t0 & t & Ht0 & Ht & Hst & Hr & Hf & Hd & _ & He & _) Hother].
  - vm_compute. reflexivity.
  - vm_compute. reflexivity.
  - vm_compute. reflexivity.
  - set_solver.
  - vm_compute. reflexivity.
  - split; [|exact Hother]. exists t. vm_compute in Ht0. injection Ht0 as <-.
    split_and!; [exact Ht|exact Hst|exact Hr|exact Hf|exact Hd|].
    apply He. rewrite Hd. reflexivity.
Defined.

(** ** Forks *)
Section forks.
Implicit Types (s : PoolStore) (id : TransactionId) (t : TransactionPoolRecord).

(** C39: Stages leak between forks.  Adding an update for a block also writes its
    stage and readiness into the pool record itself.  A block that does not
    descend from the updated one, on a chain without an update of the
    transaction, reads the stage of the other fork; deleting the updates of the
    abandoned block does not undo it. *)
Theorem fork_stage_leaks s s1 s2 b u to blk chain :
  let r := su_transaction u in let id := tp_transaction_id r in
  transaction_pool_add_pending_update b u s = (Ok tt, s1) →
  transaction_pool_state_updates_remove_any_by_block_id b s1 = (Ok tt, s2) →
  cs_blocks (pl_consensus s) !! to = Some blk →
  get_pending_chain_ordered s to = Ok chain → b ∉ chain → first_update (pl_updates s) id chain = None →
  ∃ t, transaction_pool_get_for_blocks s2 to id = Ok t ∧
    current_stage t = current_stage r ∧ tp_is_ready t = su_ready_now u.
Proof.
  intros r id Hadd Hrm Hblk Hch Hb Hnone.
  apply add_pending_update_spec in Hadd as (t0 & Ht0 & ->). injection Hrm as <-. fold r id in Ht0 |- *.
  eexists. split.
  { eapply get_for_blocks_eq; [exact Hblk|exact Hch|]. simpl. apply lookup_insert_eq. }
  simpl. rewrite (first_update_ext _ (pl_updates s) id chain), Hnone; [done|].
  intros b' Hb'. assert (b' ≠ b) as Hne by congruence. apply option_eq. intros u'.
  rewrite map_lookup_filter_Some, lookup_insert_ne by congruence. simpl. naive_solver.
Qed.
End forks.

(** Block 7 is a sibling of block 5; nothing on its chain touches transaction 1. *)
Lemma fork_stage_leaks_witness :
  (∃ t, transaction_pool_get_for_blocks
          (transaction_pool_state_updates_remove_any_by_block_id 5%N pool1).2 7%N 1%N = Ok t ∧
     current_stage t = LocalPrepared ∧ tp_is_ready t = false) ∧
  (∃ t, transaction_pool_get_for_blocks pool0 7%N 1%N = Ok t ∧ current_stage t = New).
Proof.
  split; [|eexists; split; vm_compute; reflexivity].
  apply (fork_stage_leaks pool0 pool1
    (transaction_pool_state_updates_remove_any_by_block_id 5%N pool1).2 5%N prepared_update 7%N
    (chain 1%N) [7%N]); try (vm_compute; reflexivity). set_solver.
Defined.

(** ** The flag of [transaction_pool_count] *)
Lemma scan_conflicts_tt (l : list bool) : scan_conflicts l = tt.
Proof. by destruct (scan_conflicts l). Qed.
(** Transactions with lock conflicts are counted whether or not they are to be
    skipped. *)
Lemma count_ignores_conflicts s stage is_ready :
  transaction_pool_count s stage is_ready true = transaction_pool_count s stage is_ready false.
Proof.
  unfold transaction_pool_count. generalize 0%nat as n.
  induction (pool_iter s) as [|t ts IH]; intros n; simpl; [done|].
  rewrite scan_conflicts_tt, !IH. done.
Qed.

(** ** Executions *)
Section executions.
Implicit Types (chain : list BlockId) (keys : list (BlockId * NodeHeight)).

(** The query keeps a key of maximal height when the executions of the
    transaction are all in the pending chain. *)
Lemma max_height_key_max chain keys :
  Forall (λ k, k.1 ∈ chain) keys →
  match max_height_key chain keys with
  | None => keys = []
  | Some k => k ∈ keys ∧ Forall (λ k', k'.2 ≤ k.2) keys
  end.
Proof.
  unfold max_height_key. induction keys as [|x keys IH] using rev_ind; [done|]. intros Hall.
  rewrite fold_left_app. simpl. apply Forall_app in Hall as [Hall Hx].
  specialize (IH Hall). destruct (fold_left _ keys None) as [[b h]|]; simpl in *.
  - destruct IH as [Hin Hmax]. rewrite list.Forall_forall in Hall. specialize (Hall _ Hin). simpl in Hall.
    rewrite bool_decide_eq_true_2, andb_true_r by done.
    destruct (Z.ltb_spec h x.2) as [Hlt|Hge].
    + split; [set_solver|]. apply Forall_app. split; [|by repeat constructor].
      eapply list.Forall_impl; [exact Hmax|]. simpl. intros; lia.
    + split; [set_solver|]. apply Forall_app. split; [done|by repeat constructor].
  - subst keys. simpl. split; [set_solver|]. by repeat constructor.
Qed.
End executions.

(** The execution found for a block can be one of another fork: transaction 1 was
    executed in block 4 of an abandoned fork and in block 5, the parent of block
    6; the query at block 6 returns the execution of block 4, whose key is the
    first and is not in the pending chain. *)
Definition execution4 : TransactionExecution := execution_abort ExecutionFailure.
Definition execution5 : TransactionExecution := MkTransactionExecution (ExAccept (MkSubstateDiff [] [] [])) 1 [] [].
Definition pool_executed : PoolStore :=
  ((let! _ := block_transaction_executions_insert_or_ignore 1%N 4%N 1 execution4 in
    block_transaction_executions_insert_or_ignore 1%N 5%N 2 execution5) pool0).2.
Lemma execution_of_other_fork :
  block_transaction_executions_get_pending_for_block pool_executed 1%N 6%N 3 = Ok execution4 ∧
  pending_chain_until pool_executed 6%N = [6%N; 5%N; 9%N] ∧
  block_transaction_executions_get_pending_for_block pool_executed 1%N 5%N 2 = Ok execution5.
Proof. repeat split; vm_compute; reflexivity. Qed.
