(* ===== verification/Pledges.v ===== *)
(** * Pledges

    The substates that the shard groups pledge to a transaction
    ([storage/src/consensus_models/block_pledges.rs], [LockedSubstateValue] of
    [substate_lock.rs], the pledge queries of [transaction.rs] and
    [transaction_pool.rs], the tables of [state_store_rocksdb]), with the read
    side of the store that votes and proposals are decided on. *)
From stdpp Require Import base gmap list numbers.
From S2P Require Import Prelude Ids Substate Sharding Committee Blocks BlockStore PendingStore Evidence TransactionPool PoolStore.
Open Scope Z_scope.

(** ** Transactions

    What consensus reads of a transaction; its id is the hash of its contents. *)
Notation SubstateRequirement := (SubstateId * option Z)%type (only parsing).
Record Transaction := MkTransaction {
  tr_id : TransactionId;
  tr_inputs : list SubstateRequirement; (* [all_inputs_iter] *)
  tr_claim_burn_outputs : list N; (* [claim_burn_outputs_iter] *)
  tr_has_publish_template : bool;
}.
Definition transaction_is_global (t : Transaction) : bool := tr_has_publish_template t.

(** ** Pledges *)
Inductive SubstatePledge :=
  | PledgeInput (id : VersionedSubstateId) (is_write : bool) (substate : SubstateValue)
  | PledgeOutput (id : VersionedSubstateId).

(** [BlockPledge]: the substates that come with a foreign proposal. *)
Notation BlockPledge := (gmap SubstateId Substate) (only parsing).

Section pledges.
Implicit Types (p : SubstatePledge) (e : ShardGroupEvidence) (pledges : gmap SubstateId Substate).

Definition pledge_versioned_substate_id p : VersionedSubstateId :=
  match p with PledgeInput id _ _ | PledgeOutput id => id end.
Definition pledge_substate_id p : SubstateId := vsi_substate_id (pledge_versioned_substate_id p).
Definition pledge_is_write p : bool := match p with PledgeInput _ w _ => w | PledgeOutput _ => false end.
Definition into_input p : option (VersionedSubstateId * SubstateValue) :=
  match p with PledgeInput id _ v => Some (id, v) | PledgeOutput _ => None end.
Definition as_substate_lock_type p : SubstateLockType :=
  match p with
  | PledgeInput _ true _ => LockTypeWrite
  | PledgeInput _ false _ => LockTypeRead
  | PledgeOutput _ => LockTypeOutput
  end.

Definition try_create (l : LockIntent) (substate : option SubstateValue) : option SubstatePledge :=
  match li_lock_type l with
  | LockTypeWrite | LockTypeRead =>
      (λ v, PledgeInput (to_versioned l) (is_write (li_lock_type l)) v) <$> substate
  | LockTypeOutput => Some (PledgeOutput (to_versioned l))
  end.

Definition satisfies_requirement p (req : SubstateRequirement) : bool :=
  match req.2 with Some v => v =? vsi_version (pledge_versioned_substate_id p) | None => true end &&
  bool_decide (pledge_substate_id p = req.1).
Definition satisfies_substate_and_version p (id : SubstateId) (version : Z) : bool :=
  (vsi_version (pledge_versioned_substate_id p) =? version) && bool_decide (pledge_substate_id p = id).

(** [get_all_pledges_for_evidence]: the version pledged is that of the substate
    received. *)
Fixpoint pledges_for_inputs pledges (inputs : list (SubstateId * EvidenceInputLockData)) :
    option (list SubstatePledge) :=
  match inputs with
  | [] => Some []
  | (id, l) :: inputs =>
      match pledges !! id with
      | None => None
      | Some s =>
          (λ ps, PledgeInput (MkVersionedSubstateId id (version s)) (eil_is_write l) (substate_value s) :: ps) <$>
            pledges_for_inputs pledges inputs
      end
  end.
Definition get_all_pledges_for_evidence pledges e : option (list SubstatePledge) :=
  pledges_for_inputs pledges (map_to_list (all_pledged_inputs e)).
Definition has_all_input_substate_values_for pledges e : bool :=
  forallb (λ q, match pledges !! q.1 with Some s => version s =? eil_version q.2 | None => false end)
    (map_to_list (all_pledged_inputs e)).
Definition has_some_input_substate_values_for pledges e : bool :=
  existsb (λ q, match pledges !! q.1 with Some s => version s =? eil_version q.2 | None => false end)
    (map_to_list (all_pledged_inputs e)).
Definition add_substate_pledge (id : SubstateId) (version : Z) (v : SubstateValue) pledges :
    gmap SubstateId Substate := <[id := MkSubstate v version]> pledges.

(** [output_pledge_iter]. *)
Definition output_pledges e : list SubstatePledge :=
  (λ q, PledgeOutput (MkVersionedSubstateId q.1 q.2)) <$> map_to_list (se_outputs e).
End pledges.

(** ** The read side of the store *)
Inductive ForeignProposalStatus := FpNew | FpProposed | FpConfirmed | FpInvalid.

Record ConsensusDb := MkConsensusDb {
  db_base : BaseStore;
  db_pool : PoolStore;
  db_transactions : gmap TransactionId Transaction;
  db_locks : list (SubstateId * SubstateLock); (* the lock table, in key order *)
  db_foreign_pledges : gmap (TransactionId * SubstateAddress) SubstatePledge;
}.

(** [LockedSubstateValue]. *)
Record LockedSubstateValue := MkLockedSubstateValue {
  lsv_substate_id : SubstateId;
  lsv_lock : SubstateLock;
  lsv_value : option SubstateValue;
}.

Section queries.
Context `{Kh : !ObjectKeyHashes} (db : ConsensusDb).
Implicit Types (id : TransactionId) (ci : CommitteeInfo) (t : Transaction) (r : TransactionPoolRecord).

Definition transactions_get id : res BlockStore.StorageError Transaction :=
  match db_transactions db !! id with Some t => Ok t | None => Err NotFound end.
Definition is_record_finalized id : bool := bool_decide (id ∈ pl_finalized (db_pool db)).

(** [known_outputs_iter]: the receipt of the transaction and the tombstones of the
    burns it claims. *)
Definition known_outputs t : list VersionedSubstateId :=
  MkVersionedSubstateId (SidTransactionReceipt (tr_id t)) 0 ::
    ((λ a, MkVersionedSubstateId (SidClaimedOutputTombstone a) 0) <$> tr_claim_burn_outputs t).

Definition get_locked_substates_for_transaction id : list LockedSubstateValue :=
  (λ p, MkLockedSubstateValue p.1 p.2
          (match bs_records (db_base db) !! to_substate_address (MkVersionedSubstateId p.1 (sl_version p.2)) with
           | Some rec => sr_substate_value rec
           | None => None
           end)) <$>
    filter (λ p, sl_transaction_id p.2 = id) (db_locks db).
(** [substate_locks_has_any_write_locks_for_substates]. *)
Definition has_any_write_locks_for_substates (exclude : TransactionId) (ids : list SubstateId) :
    option TransactionId :=
  head (omap (λ q, if decide (is_write (sl_lock_type q.2) = true ∧ sl_transaction_id q.2 ≠ exclude)
                   then Some (sl_transaction_id q.2) else None)
          (ids ≫= λ i, filter (λ q, q.1 = i) (db_locks db))).

Definition foreign_pledges_of id : list SubstatePledge :=
  omap (λ q, if N.eqb q.1.1 id then Some q.2 else None) (map_to_list (db_foreign_pledges db)).
Definition foreign_pledge_exists id (s : SubstateId) (version : Z) : bool :=
  bool_decide (is_Some (db_foreign_pledges db !! (id, to_substate_address (MkVersionedSubstateId s version)))).

(** [get_local_pledges]. *)
Definition pledge_of_lock (l : LockedSubstateValue) : res BlockStore.StorageError SubstatePledge :=
  match try_create (MkLockIntent (lsv_substate_id l) (sl_lock_type (lsv_lock l)) (sl_version (lsv_lock l))
                      (Some (sl_version (lsv_lock l)))) (lsv_value l) with
  | Some p => Ok p
  | None => Err DataInconsistency
  end.
Fixpoint pledges_of_locks (ls : list LockedSubstateValue) : res BlockStore.StorageError (list SubstatePledge) :=
  match ls with
  | [] => Ok []
  | l :: ls => let? p := pledge_of_lock l in let? ps := pledges_of_locks ls in Ok (p :: ps)
  end.
Definition get_local_pledges t : res BlockStore.StorageError (list SubstatePledge) :=
  pledges_of_locks
    (filter (λ l, is_output (sl_lock_type (lsv_lock l)) = false)
       (get_locked_substates_for_transaction (tr_id t))).

Definition lock_satisfies_requirements (l : LockedSubstateValue) (req : SubstateRequirement) : bool :=
  match req.2 with Some v => v =? sl_version (lsv_lock l) | None => true end &&
  bool_decide (req.1 = lsv_substate_id l).

(** [TransactionRecord::has_all_required_input_pledges]. *)
Fixpoint inputs_pledged {E : Type} ci (locks : list LockedSubstateValue) (pledges : list SubstatePledge)
    (inputs : list SubstateRequirement) : res E bool :=
  match inputs with
  | [] => Ok true
  | input :: inputs =>
      let? is_local := includes_substate_id ci input.1 in
      if if is_local : bool then existsb (λ l, lock_satisfies_requirements l input) locks
         else existsb (λ p, satisfies_requirement p input) pledges
      then inputs_pledged ci locks pledges inputs
      else Ok false
  end.
Definition has_all_required_input_pledges {E : Type} ci t : res E bool :=
  inputs_pledged ci (get_locked_substates_for_transaction (tr_id t)) (foreign_pledges_of (tr_id t)) (tr_inputs t).

(** [TransactionRecord::has_all_foreign_input_pledges]. *)
Fixpoint foreign_inputs_pledged {E : Type} ci (pledges : list SubstatePledge)
    (inputs : list SubstateRequirement) : res E bool :=
  match inputs with
  | [] => Ok true
  | input :: inputs =>
      let? is_local := includes_substate_id ci input.1 in
      if (is_local : bool) || existsb (λ p, satisfies_requirement p input) pledges
      then foreign_inputs_pledged ci pledges inputs
      else Ok false
  end.
Definition transaction_has_all_foreign_input_pledges {E : Type} ci t : res E bool :=
  foreign_inputs_pledged ci (foreign_pledges_of (tr_id t)) (tr_inputs t).

(** [TransactionPoolRecord::has_foreign_pledges_for_objects]. *)
Fixpoint has_foreign_pledges_for_objects {E : Type} ci id
    (objects : list (SubstateId * option (Z * SubstateLockType))) : res E bool :=
  match objects with
  | [] => Ok true
  | (s, data) :: objects =>
      let? is_local := includes_substate_id ci s in
      if is_local : bool then has_foreign_pledges_for_objects ci id objects
      else
        match data with
        | None => Ok false
        | Some (version, _) =>
            if foreign_pledge_exists id s version then has_foreign_pledges_for_objects ci id objects
            else Ok false
        end
  end.
Definition input_objects (ev : Evidence) : list (SubstateId * option (Z * SubstateLockType)) :=
  map (λ q, (q.1.2, option_map (λ l, (eil_version l, as_lock_type l)) q.2)) (all_inputs ev).
Definition output_objects (ev : Evidence) : list (SubstateId * option (Z * SubstateLockType)) :=
  map (λ q, (q.1.2, Some (q.2, LockTypeOutput))) (all_outputs ev).
Definition has_all_required_foreign_pledges {E : Type} ci r : res E bool :=
  has_foreign_pledges_for_objects ci (tp_transaction_id r)
    (input_objects (tp_evidence r) ++ output_objects (tp_evidence r)).
Definition has_all_required_foreign_input_pledges {E : Type} ci r : res E bool :=
  has_foreign_pledges_for_objects ci (tp_transaction_id r) (input_objects (tp_evidence r)).
End queries.
