(* ===== verification/TransactionManager.v ===== *)
(** * Preparing and executing transactions in consensus

    [consensus/src/hotstuff/transaction_manager/{manager,prepared,pledged}.rs]:
    the inputs of a transaction are resolved against the pending store, it is
    executed when its inputs are known, and its substates are locked.

    The execution itself is behind the trait [BlockTransactionExecutor], which
    the consensus crate does not implement: a class here. *)
From stdpp Require Import base gmap list numbers.
From S2P Require Import Prelude Ids Substate Sharding Committee Blocks BlockStore PendingStore Evidence TransactionPool PoolStore Pledges.
Open Scope Z_scope.

Inductive BlockTransactionExecutorError :=
  | ExecutionThreadFailure
  | ExStorageError (e : BlockStore.StorageError)
  | ExSubstateStoreError (e : SubstateStoreError)
  | TransactionValidationError
  | ExTransactionPoolError (e : TransactionPoolError)
  | ExInvariantError.

Class BlockTransactionExecutor := {
  executor_execute : Transaction → Epoch → gmap (SubstateId * option Z) Substate →
    res BlockTransactionExecutorError TransactionExecution;
}.

(** ** What preparing a transaction gives *)
Inductive LocalPreparedTransaction :=
  | LocalAcceptPrepared (execution : TransactionExecution) (lock_status : LockStatus)
  | LocalEarlyAbort (execution : TransactionExecution).
Inductive EvidenceOrExecution :=
  | PreparedEvidence (evidence : Evidence)
  | PreparedExecution (execution : TransactionExecution).
Inductive PreparedTransaction :=
  | LocalOnlyPrepared (local : LocalPreparedTransaction)
  | MultiShardPrepared (execution_or_evidence : EvidenceOrExecution) (lock_status : LockStatus).

Definition prepared_lock_status (p : PreparedTransaction) : LockStatus :=
  match p with
  | LocalOnlyPrepared (LocalAcceptPrepared _ s) => s
  | LocalOnlyPrepared (LocalEarlyAbort _) => lock_status_new
  | MultiShardPrepared _ s => s
  end.
Definition multishard_decision (e : EvidenceOrExecution) : Decision :=
  match e with PreparedEvidence _ => Commit | PreparedExecution x => execution_decision x end.

Definition is_not_found_error (e : BlockTransactionExecutorError) : bool :=
  match e with
  | ExStorageError NotFound => true
  | ExSubstateStoreError (LockFailed (LfSubstateNotFound _)) => true
  | ExSubstateStoreError (SubstateNotFound _) => true
  | ExSubstateStoreError (StoreError NotFound) => true
  | _ => false
  end.
Definition is_substate_down_error (e : BlockTransactionExecutorError) : bool :=
  match e with
  | ExSubstateStoreError (SubstateIsDown _) => true
  | ExSubstateStoreError (LockFailed (LfSubstateIsDown _)) => true
  | _ => false
  end.

Record ResolvedInputs := MkResolvedInputs {
  ri_local_inputs : list (SubstateId * option Z * Z);
  ri_foreign_inputs : list (SubstateId * option Z);
  ri_local_tombstones : list N;
}.
Inductive ResolvedTransactionInputs :=
  | OnlyLocalInputs (local_versions : list (SubstateId * option Z * Z))
  | LocalAndForeignInputs (local_versions : list (SubstateId * option Z * Z))
      (non_local_inputs : list (SubstateId * option Z))
  | OnlyTombstones
  | OnlyForeignInputs (non_local_inputs : list (SubstateId * option Z))
  | OneOrMoreLocalInputsNotFound (is_local_only : bool) (err : BlockTransactionExecutorError).

(** [IndexMap::insert] and [IndexSet::insert]. *)
Fixpoint index_insert {K V : Type} `{!EqDecision K} (k : K) (v : V) (l : list (K * V)) : list (K * V) :=
  match l with
  | [] => [(k, v)]
  | (k', v') :: l => if decide (k' = k) then (k', v) :: l else (k', v') :: index_insert k v l
  end.
Definition index_set_insert {K : Type} `{!EqDecision K} (k : K) (l : list K) : list K :=
  if decide (k ∈ l) then l else l ++ [k].

(** [collect] into a [HashMap]. *)
Definition resolved_of_pledges (pledges : list SubstatePledge) : gmap (SubstateId * option Z) Substate :=
  foldl (λ m p, match into_input p with
                | Some (id, v) =>
                    <[(vsi_substate_id id, Some (vsi_version id)) := MkSubstate v (vsi_version id)]> m
                | None => m
                end) ∅ pledges.

Notation PrepareM A := (M PendingSubstateStore BlockTransactionExecutorError A).
Definition on_pending {A : Type} (m : StoreM A) : PrepareM A := map_err ExSubstateStoreError m.
Definition res_err {E F A : Type} (f : E → F) (r : res E A) : res F A :=
  match r with Ok a => Ok a | Err e => Err (f e) | Panic => Panic end.

Section manager.
Context `{Kh : !ObjectKeyHashes, Ex : !BlockTransactionExecutor} (db : ConsensusDb) (num_preshards : NumPreshards).
Context (block : BlockRef) (ci : CommitteeInfo).
Implicit Types (t : Transaction) (id : TransactionId) (ps : PendingSubstateStore) (x : TransactionExecution).

Definition includes (s : SubstateId) : res BlockTransactionExecutorError bool := includes_substate_id ci s.

(** ** Inputs *)
Fixpoint resolve_loop ps (inputs : list (SubstateId * option Z)) (local : list (SubstateId * option Z * Z))
    (foreign : list (SubstateId * option Z)) :
    res BlockTransactionExecutorError (list (SubstateId * option Z * Z) * list (SubstateId * option Z)) :=
  match inputs with
  | [] => Ok (local, foreign)
  | input :: inputs =>
      let? here := includes input.1 in
      if negb here then resolve_loop ps inputs local (index_set_insert input foreign)
      else
        match input.2 with
        | Some version =>
            let? _ := res_err ExSubstateStoreError
              (lock_assert_is_up (db_base db) block ps (MkVersionedSubstateId input.1 version)) in
            resolve_loop ps inputs (index_insert input version local) foreign
        | None =>
            let? latest := res_err ExSubstateStoreError (get_latest_version (db_base db) block ps input.1) in
            if negb (lv_is_up latest)
            then Err (ExSubstateStoreError (SubstateIsDown (MkVersionedSubstateId input.1 (lv_version latest))))
            else resolve_loop ps inputs (index_insert input (lv_version latest) local) foreign
        end
  end.
Fixpoint filter_tombstones (ts : list N) : res BlockTransactionExecutorError (list N) :=
  match ts with
  | [] => Ok []
  | a :: ts =>
      let? here := includes (SidClaimedOutputTombstone a) in
      let? rest := filter_tombstones ts in
      Ok (if here : bool then a :: rest else rest)
  end.
Definition resolve_local_versions ps t : res BlockTransactionExecutorError ResolvedInputs :=
  let? p := resolve_loop ps (tr_inputs t) [] [] in
  let? tombstones := filter_tombstones (tr_claim_burn_outputs t) in
  if bool_decide (p.1 = []) && bool_decide (p.2 = []) && bool_decide (tombstones = [])
  then Err ExInvariantError
  else Ok (MkResolvedInputs p.1 p.2 tombstones).

Definition resolve_inputs ps t : res BlockTransactionExecutorError ResolvedTransactionInputs :=
  match resolve_local_versions ps t with
  | Ok r =>
      let no_local := bool_decide (ri_local_inputs r = []) in
      let no_foreign := bool_decide (ri_foreign_inputs r = []) in
      if no_local && no_foreign && bool_decide (ri_local_tombstones r ≠ []) then Ok OnlyTombstones
      else if negb no_local && no_foreign then
        if transaction_is_global t && (1 <? ci_num_committees ci)
        then Ok (LocalAndForeignInputs (ri_local_inputs r) (ri_foreign_inputs r))
        else Ok (OnlyLocalInputs (ri_local_inputs r))
      else if no_local && negb no_foreign then Ok (OnlyForeignInputs (ri_foreign_inputs r))
      else Ok (LocalAndForeignInputs (ri_local_inputs r) (ri_foreign_inputs r))
  | Err err =>
      if negb (is_not_found_error err) && negb (is_substate_down_error err) then Err err
      else
        let? inputs_local := is_all_local ci (fst <$> tr_inputs t) in
        let? outputs_local :=
          if inputs_local : bool then is_all_local ci (vsi_substate_id <$> known_outputs t) else Ok false in
        Ok (OneOrMoreLocalInputsNotFound outputs_local err)
  | Panic => Panic
  end.

(** [get_many]. *)
Fixpoint get_many ps (ids : list (SubstateId * option Z * Z)) (acc : gmap (SubstateId * option Z) Substate) :
    res BlockTransactionExecutorError (gmap (SubstateId * option Z) Substate) :=
  match ids with
  | [] => Ok acc
  | (req, v) :: ids =>
      let? s := res_err ExSubstateStoreError
        (get (db_base db) block ps (MkVersionedSubstateId req.1 v)) in
      get_many ps ids (<[req := s]> acc)
  end.

(** ** Executions *)
Definition fetch_execution id : res BlockTransactionExecutorError (option TransactionExecution) :=
  match block_transaction_executions_get_pending_for_block (db_pool db) id (br_block_id block) (br_height block) with
  | Ok x => Ok (Some x)
  | Err NotFound => Ok None
  | Err e => Err (ExStorageError e)
  | Panic => Panic
  end.
Definition execute_or_fetch t (resolved_inputs : gmap (SubstateId * option Z) Substate) :
    res BlockTransactionExecutorError TransactionExecution :=
  let? found := fetch_execution (tr_id t) in
  match found with
  | Some x => Ok x
  | None => executor_execute t (br_epoch block) resolved_inputs
  end.
(** [PledgedTransaction::load_pledges] and [execute]. *)
Definition execute_pledged (epoch : Epoch) t : res BlockTransactionExecutorError TransactionExecution :=
  let? local_pledges := res_err ExStorageError (get_local_pledges db t) in
  executor_execute t epoch (resolved_of_pledges (local_pledges ++ foreign_pledges_of db (tr_id t))).

(** ** Preparing *)
Definition lock_all id (locks : list LockIntent) (is_local_only : bool) : PrepareM LockStatus :=
  on_pending (try_lock_all (db_base db) block id locks is_local_only).
Definition has_hard_conflict (s : LockStatus) : PrepareM bool :=
  let! e := lift (res_err ExSubstateStoreError (hard_conflict s)) in
  ret (match e with Some _ => true | None => false end).

Definition prepare_local_input_transaction t (local_versions : list (SubstateId * option Z * Z)) :
    PrepareM PreparedTransaction :=
  let! ps := (λ ps, (Ok ps, ps)) in
  let! local_inputs := lift (get_many ps local_versions ∅) in
  let! execution := lift (execute_or_fetch t local_inputs) in
  let! is_outputs_local_only := lift (is_all_local ci (li_substate_id <$> te_resulting_outputs execution)) in
  if is_outputs_local_only : bool then
    if is_abort (execution_decision execution) then ret (LocalOnlyPrepared (LocalEarlyAbort execution))
    else
      let! lock_status := lock_all (tr_id t) (te_resolved_inputs execution ++ te_resulting_outputs execution) true in
      let! hard := has_hard_conflict lock_status in
      let execution := if hard : bool then execution_abort LockInputsFailed else execution in
      ret (LocalOnlyPrepared (LocalAcceptPrepared execution lock_status))
  else
    match execution_decision execution with
    | Commit =>
        let! lock_status := lock_all (tr_id t) (te_resolved_inputs execution) false in
        let! hard := has_hard_conflict lock_status in
        let execution := if hard : bool then execution_abort LockInputsFailed else execution in
        ret (MultiShardPrepared (PreparedExecution execution) lock_status)
    | Abort _ => ret (LocalOnlyPrepared (LocalEarlyAbort execution))
    end.

Fixpoint filter_local_locks (locks : list LockIntent) : res BlockTransactionExecutorError (list LockIntent) :=
  match locks with
  | [] => Ok []
  | l :: locks =>
      let? here := if is_transaction_receipt (li_substate_id l) then Ok true else includes (li_substate_id l) in
      let? rest := filter_local_locks locks in
      Ok (if here : bool then l :: rest else rest)
  end.
Definition prepare_multishard_from_execution id x : PrepareM PreparedTransaction :=
  if is_abort (execution_decision x) then ret (MultiShardPrepared (PreparedExecution x) lock_status_new)
  else
    let! requested_locks := lift (filter_local_locks (te_resolved_inputs x ++ te_resulting_outputs x)) in
    let! lock_status := lock_all id requested_locks false in
    let! hard := has_hard_conflict lock_status in
    let x := if hard : bool then execution_abort LockInputsFailed else x in
    ret (MultiShardPrepared (PreparedExecution x) lock_status).

(** The lock requested for an input whose use is not known yet. *)
Definition assumed_lock (p : SubstateId * option Z * Z) : LockIntent :=
  MkLockIntent p.1.1 (if is_read_only p.1.1 || is_resource p.1.1 then LockTypeRead else LockTypeWrite) p.2 p.1.2.
Fixpoint insert_unpledged_foreign (inputs : list (SubstateId * option Z)) (ev : Evidence) :
    res BlockTransactionExecutorError Evidence :=
  match inputs with
  | [] => Ok ev
  | input :: inputs =>
      let? ev := insert_unpledged_from_substate_id (ci_num_shards ci) (ci_num_committees ci) input.1 ev in
      insert_unpledged_foreign inputs ev
  end.
Definition prepare_multishard_no_execution id (local_versions : list (SubstateId * option Z * Z))
    (non_local_inputs : list (SubstateId * option Z)) : PrepareM PreparedTransaction :=
  let requested_locks := assumed_lock <$> local_versions in
  let! evidence := lift (from_lock_intents (ci_num_shards ci) (ci_num_committees ci) requested_locks) in
  let! evidence := lift (insert_unpledged_foreign non_local_inputs evidence) in
  let! lock_status := lock_all id requested_locks false in
  ret (MultiShardPrepared (PreparedEvidence evidence) lock_status).

Definition prepare_multishard_involved_transaction t (local_versions : list (SubstateId * option Z * Z))
    (non_local_inputs : list (SubstateId * option Z)) : PrepareM PreparedTransaction :=
  let! found := lift (fetch_execution (tr_id t)) in
  match found with
  | Some exec => prepare_multishard_from_execution (tr_id t) exec
  | None => prepare_multishard_no_execution (tr_id t) local_versions non_local_inputs
  end.

Definition prepare_multishard_output_only_transaction t : PrepareM PreparedTransaction :=
  let! execution := lift (execute_or_fetch t (resolved_of_pledges (foreign_pledges_of db (tr_id t)))) in
  prepare_multishard_from_execution (tr_id t) execution.

Definition prepare (pool_tx : TransactionPoolRecord) : PrepareM PreparedTransaction :=
  let! t := lift (res_err (λ e, ExTransactionPoolError (PoolStorageError e))
                    (transactions_get db (tp_transaction_id pool_tx))) in
  match abort_reason (current_decision pool_tx) with
  | Some reason =>
      let! found := lift (fetch_execution (tr_id t)) in
      ret (MultiShardPrepared (PreparedExecution (default (execution_abort reason) found)) lock_status_new)
  | None =>
      let! ps := (λ ps, (Ok ps, ps)) in
      let! resolved := lift (resolve_inputs ps t) in
      match resolved with
      | OnlyLocalInputs local_versions => prepare_local_input_transaction t local_versions
      | LocalAndForeignInputs local_versions non_local_inputs =>
          prepare_multishard_involved_transaction t local_versions non_local_inputs
      | OnlyForeignInputs _ => prepare_multishard_output_only_transaction t
      | OnlyTombstones => prepare_local_input_transaction t []
      | OneOrMoreLocalInputsNotFound is_local_only _ =>
          let execution := execution_abort OneOrMoreInputsNotFound in
          if is_local_only : bool then ret (LocalOnlyPrepared (LocalEarlyAbort execution))
          else ret (MultiShardPrepared (PreparedExecution execution) lock_status_new)
      end
  end.
End manager.
