(* ===== verification/ChangeSet.v ===== *)
(** * The changes that a proposed block makes

    [consensus/src/hotstuff/block_change_set.rs]: what voting for a block
    collects for each transaction, and how it is saved; the commands of a block
    ([storage/src/consensus_models/command.rs]) and the reasons not to vote
    ([no_vote.rs]). *)
From stdpp Require Import base gmap list numbers.
From S2P Require Import Prelude Ids Substate Sharding Committee Blocks BlockStore PendingStore Evidence TransactionPool PoolStore Pledges TransactionManager.
Open Scope Z_scope.

(** ** Commands *)
Inductive Command :=
  | LocalOnly (atom : TransactionAtom)
  | LocalPrepare (atom : TransactionAtom)
  | LocalAccept (atom : TransactionAtom)
  | AllAccept (atom : TransactionAtom)
  | SomeAccept (atom : TransactionAtom)
  | ForeignProposalCmd (block_id : BlockId) (shard_group : ShardGroup)
  | EvictNode (public_key : PublicKeyBytes)
  | EndEpoch.
#[export] Instance TransactionAtom_eq_dec : EqDecision TransactionAtom.
Proof. solve_decision. Defined.
#[export] Instance Command_eq_dec : EqDecision Command.
Proof. solve_decision. Defined.

Section commands.
Implicit Types c : Command.

Definition command_transaction c : option TransactionAtom :=
  match c with
  | LocalOnly a | LocalPrepare a | LocalAccept a | AllAccept a | SomeAccept a => Some a
  | ForeignProposalCmd _ _ | EvictNode _ | EndEpoch => None
  end.
Definition filter_atom (P : Decision → bool) (a : option TransactionAtom) : option TransactionAtom :=
  match a with Some a => if P (ta_decision a) then Some a else None | None => None end.
Definition finalising c : option TransactionAtom :=
  match c with AllAccept a | SomeAccept a | LocalOnly a => Some a | _ => None end.
Definition committing c : option TransactionAtom :=
  filter_atom is_commit (match c with AllAccept a | LocalOnly a => Some a | _ => None end).
Definition aborting c : option TransactionAtom :=
  filter_atom is_abort
    (match c with SomeAccept a | LocalPrepare a | LocalAccept a | LocalOnly a => Some a | _ => None end).
(** The fee that a leader adds to the block for a command. *)
Definition leader_fee_of_command c : Z :=
  match committing c with
  | Some a => match ta_leader_fee a with Some f => lf_fee f | None => 0 end
  | None => 0
  end.
Definition is_epoch_end_cmd c : bool := match c with EndEpoch => true | _ => false end.
Definition is_local_prepare c : bool := match c with LocalPrepare _ => true | _ => false end.
Definition is_local_accept c : bool := match c with LocalAccept _ => true | _ => false end.

(** [CommandOrdering]: the rank of the variant, then its fields. *)
Definition as_ordering c : Z * (Z * Z) * N :=
  match c with
  | EvictNode _ => (0, (0, 0), 0%N)
  | ForeignProposalCmd b g => (1, (sg_start g, sg_end_inclusive g), b)
  | LocalOnly a | LocalPrepare a | LocalAccept a | AllAccept a | SomeAccept a => (2, (0, 0), ta_id a)
  | EndEpoch => (3, (0, 0), 0%N)
  end.
Definition compare_ordering (a b : Z * (Z * Z) * N) : comparison :=
  match (a.1.1 ?= b.1.1), (a.1.2.1 ?= b.1.2.1), (a.1.2.2 ?= b.1.2.2) with
  | Eq, Eq, Eq => (a.2 ?= b.2)%N
  | Eq, Eq, r => r
  | Eq, r, _ => r
  | r, _, _ => r
  end.
Definition command_compare c1 c2 : comparison := compare_ordering (as_ordering c1) (as_ordering c2).

(** [BTreeSet::insert]: an equal element stays. *)
Fixpoint btree_insert c (cs : list Command) : list Command :=
  match cs with
  | [] => [c]
  | c' :: cs =>
      match command_compare c c' with
      | Lt => c :: c' :: cs
      | Eq => c' :: cs
      | Gt => c' :: btree_insert c cs
      end
  end.
(** [BTreeSet::from_iter]: a stable sort, after which of neighbours that are equal
    ([==], which the order does not refine) the last stays. *)
Fixpoint sort_insert c (cs : list Command) : list Command :=
  match cs with
  | [] => [c]
  | c' :: cs => match command_compare c c' with Lt => c :: c' :: cs | _ => c' :: sort_insert c cs end
  end.
Fixpoint dedup_sorted (cs : list Command) : list Command :=
  match cs with
  | [] => []
  | c :: cs =>
      match cs with
      | c' :: _ => if decide (c = c') then dedup_sorted cs else c :: dedup_sorted cs
      | [] => [c]
      end
  end.
Definition btree_from_iter (cs : list Command) : list Command :=
  dedup_sorted (foldl (λ acc c, sort_insert c acc) [] cs).

(** The order calls evictions of different nodes equal: a set that is built from an
    iterator holds both, and one that they are inserted into holds the first. *)
Lemma evictions_compare_equal pk pk' :
  pk ≠ pk' →
  command_compare (EvictNode pk) (EvictNode pk') = Eq ∧
  btree_from_iter [EvictNode pk; EvictNode pk'] = [EvictNode pk; EvictNode pk'] ∧
  btree_insert (EvictNode pk') (btree_insert (EvictNode pk) []) = [EvictNode pk].
Proof.
  intros H. split_and!; [done| |done]. unfold btree_from_iter. simpl.
  destruct (decide _) as [Heq|]; [by simplify_eq|done].
Qed.
End commands.

(** ** Reasons not to vote *)
Inductive InvalidEvidenceReason :=
  | MissingInvolvedShardGroup (shard_group : ShardGroup)
  | MismatchedEvidence
  | NotAllShardGroupsPreparedEvidence.
Inductive NoVoteReason :=
  | AlreadyVotedAtHeight
  | StageDisagreement (expected stage : TransactionPoolStage)
  | StageTransitionNotApplicable (current next : TransactionPoolStage) (is_output_only : bool) (decision : Decision)
  | OutputOnlyDisagreement (transaction_id : TransactionId) (shard_group : ShardGroup) (stage : TransactionPoolStage)
  | TransactionNotInPool
  | DecisionDisagreement (local remote : Decision)
  | SomeAcceptAtomMustBeAbort (transaction_id : TransactionId) (block_id : BlockId)
  | AllAcceptMustBeCommit (transaction_id : TransactionId) (block_id : BlockId)
  | FeeDisagreement
  | LeaderFeeDisagreement
  | TotalLeaderFeeDisagreement
  | NoLeaderFee
  | LocalOnlyProposedForMultiShard
  | MultiShardProposedForLocalOnly
  | NotAllShardGroupsPrepared
  | ForeignProposalCommandInBlockMissing
  | ForeignProposalAlreadyProposed
  | ForeignProposalNotReceived
  | ForeignProposalAlreadyConfirmed
  | ForeignProposalProcessingFailed
  | NotEndOfEpoch
  | EndOfEpochWithOtherCommands
  | StateMerkleRootMismatch
  | CommandMerkleRootMismatch
  | NotAllForeignInputPledges
  | ShouldNotEvictNode
  | NodeAlreadyEvicted
  | CannotEvictNodeBelowQuorumThreshold
  | NotAllInputsOutputsAccepted
  | InvalidEvidence (reason : InvalidEvidenceReason).

(** ** The change set *)
Record TransactionChangeSet := MkTransactionChangeSet {
  tcs_execution : option TransactionExecution;
  tcs_next_update : option TransactionPoolStatusUpdate;
  tcs_foreign_pledges : gmap ShardGroup (list SubstatePledge);
}.
Definition transaction_change_default : TransactionChangeSet := MkTransactionChangeSet None None ∅.

Record ProposedBlockChangeSet := MkProposedBlockChangeSet {
  cb_block : BlockRef;
  cb_shard_group : ShardGroup; (* of the block *)
  cb_quorum_accept : bool; (* [quorum_decision] is [Some(Accept)] *)
  cb_local_substate_changes : list SubstateChange;
  cb_substate_locks : list (SubstateId * list SubstateLock);
  cb_transaction_changes : gmap TransactionId TransactionChangeSet;
  cb_new_transactions : list TransactionPoolRecord;
  cb_proposed_foreign_proposals : list BlockId;
  cb_no_vote_reason : option NoVoteReason;
  cb_evict_nodes : list PublicKeyBytes;
}.

Section change_set.
Implicit Types (cb : ProposedBlockChangeSet) (id : TransactionId) (t : TransactionPoolRecord).

Definition change_set_new (block : BlockRef) (g : ShardGroup) : ProposedBlockChangeSet :=
  MkProposedBlockChangeSet block g false [] [] ∅ [] [] None [].
Definition set_transaction_changes m cb : ProposedBlockChangeSet :=
  MkProposedBlockChangeSet (cb_block cb) (cb_shard_group cb) (cb_quorum_accept cb)
    (cb_local_substate_changes cb) (cb_substate_locks cb) m (cb_new_transactions cb)
    (cb_proposed_foreign_proposals cb) (cb_no_vote_reason cb) (cb_evict_nodes cb).
Definition set_no_vote reason cb : ProposedBlockChangeSet :=
  MkProposedBlockChangeSet (cb_block cb) (cb_shard_group cb) (cb_quorum_accept cb)
    (cb_local_substate_changes cb) (cb_substate_locks cb) (cb_transaction_changes cb) (cb_new_transactions cb)
    (cb_proposed_foreign_proposals cb) (Some reason) (cb_evict_nodes cb).
Definition push_foreign_proposal (b : BlockId) cb : ProposedBlockChangeSet :=
  MkProposedBlockChangeSet (cb_block cb) (cb_shard_group cb) (cb_quorum_accept cb)
    (cb_local_substate_changes cb) (cb_substate_locks cb) (cb_transaction_changes cb) (cb_new_transactions cb)
    (cb_proposed_foreign_proposals cb ++ [b]) (cb_no_vote_reason cb) (cb_evict_nodes cb).
Definition add_evict_node (pk : PublicKeyBytes) cb : ProposedBlockChangeSet :=
  MkProposedBlockChangeSet (cb_block cb) (cb_shard_group cb) (cb_quorum_accept cb)
    (cb_local_substate_changes cb) (cb_substate_locks cb) (cb_transaction_changes cb) (cb_new_transactions cb)
    (cb_proposed_foreign_proposals cb) (cb_no_vote_reason cb) (cb_evict_nodes cb ++ [pk]).
(** [set_block_diff_to_commit], [set_substate_locks], [set_quorum_decision(Accept)]. *)
Definition set_accepted (changes : list SubstateChange) (locks : list (SubstateId * list SubstateLock)) cb :
    ProposedBlockChangeSet :=
  MkProposedBlockChangeSet (cb_block cb) (cb_shard_group cb) true changes locks
    (cb_transaction_changes cb) (cb_new_transactions cb) (cb_proposed_foreign_proposals cb)
    (cb_no_vote_reason cb) (cb_evict_nodes cb).

(** [transaction_changes.entry(id).or_default()]. *)
Definition change_of cb id : TransactionChangeSet :=
  default transaction_change_default (cb_transaction_changes cb !! id).
Definition on_change id (f : TransactionChangeSet → TransactionChangeSet) cb : ProposedBlockChangeSet :=
  set_transaction_changes (<[id := f (change_of cb id)]> (cb_transaction_changes cb)) cb.

Definition add_foreign_pledges id (g : ShardGroup) (pledges : list SubstatePledge) cb : ProposedBlockChangeSet :=
  on_change id (λ c,
    MkTransactionChangeSet (tcs_execution c) (tcs_next_update c)
      (<[g := default [] (tcs_foreign_pledges c !! g) ++ pledges]> (tcs_foreign_pledges c))) cb.
Definition get_foreign_pledges cb id : list SubstatePledge :=
  match cb_transaction_changes cb !! id with
  | Some c => map_to_list (tcs_foreign_pledges c) ≫= snd
  | None => []
  end.

Definition take_transaction_execution id cb : option TransactionExecution * ProposedBlockChangeSet :=
  match cb_transaction_changes cb !! id with
  | Some c =>
      (tcs_execution c,
       on_change id (λ c, MkTransactionChangeSet None (tcs_next_update c) (tcs_foreign_pledges c)) cb)
  | None => (None, cb)
  end.
(** [take_all_transaction_executions] drains the changes. *)
Definition take_all_transaction_executions cb :
    gmap TransactionId TransactionExecution * ProposedBlockChangeSet :=
  (omap (M := gmap TransactionId) tcs_execution (cb_transaction_changes cb), set_transaction_changes ∅ cb).

Definition add_transaction_execution id (x : TransactionExecution) cb :
    res TransactionPoolError ProposedBlockChangeSet :=
  match tcs_execution (change_of cb id) with
  | Some _ => Err (TransactionAlreadyExecuted id)
  | None =>
      Ok (on_change id (λ c, MkTransactionChangeSet (Some x) (tcs_next_update c) (tcs_foreign_pledges c)) cb)
  end.

Definition cached_record cb id : option TransactionPoolRecord :=
  match cb_transaction_changes cb !! id with
  | Some c => su_transaction <$> tcs_next_update c
  | None => None
  end.
(** [get_transaction_pool_record(..).optional()]: the update collected so far, or
    the record in the pool at the leaf block. *)
Definition get_transaction_pool_record (db : ConsensusDb) (leaf_block : BlockId) id cb :
    res BlockStore.StorageError (option TransactionPoolRecord) :=
  match cached_record cb id with
  | Some t => Ok (Some t)
  | None =>
      match transaction_pool_get_for_blocks (db_pool db) leaf_block id with
      | Ok t => Ok (Some t)
      | Err NotFound => Ok None
      | Err e => Err e
      | Panic => Panic
      end
  end.

Definition sequence_new_transaction (tr : Transaction) (initial_evidence : Evidence) cb :
    TransactionPoolRecord * ProposedBlockChangeSet :=
  let rec := new_from_transaction (tr_id tr) (transaction_is_global tr) initial_evidence in
  (rec,
   MkProposedBlockChangeSet (cb_block cb) (cb_shard_group cb) (cb_quorum_accept cb)
     (cb_local_substate_changes cb) (cb_substate_locks cb) (cb_transaction_changes cb)
     (cb_new_transactions cb ++ [rec]) (cb_proposed_foreign_proposals cb) (cb_no_vote_reason cb)
     (cb_evict_nodes cb)).

Definition set_next_transaction_update t cb : ProposedBlockChangeSet :=
  let ready_now := is_ready_for_pending_stage t (cb_shard_group cb) in
  on_change (tp_transaction_id t) (λ c,
    MkTransactionChangeSet (tcs_execution c) (Some (MkTransactionPoolStatusUpdate t ready_now))
      (tcs_foreign_pledges c)) cb.

Definition apply_transaction_update cb t : TransactionPoolRecord :=
  match cb_transaction_changes cb !! tp_transaction_id t with
  | Some c => match tcs_next_update c with Some u => apply_update u t | None => t end
  | None => t
  end.
End change_set.

(** ** Saving *)
Section save.
Context `{Kh : !ObjectKeyHashes}.
Implicit Types (cb : ProposedBlockChangeSet) (db : ConsensusDb).

Notation SaveM := (M ConsensusDb BlockStore.StorageError).
Definition on_pool {A : Type} (m : PoolM A) : SaveM A :=
  zoom db_pool (λ p db, MkConsensusDb (db_base db) p (db_transactions db) (db_locks db) (db_foreign_pledges db)) m.

(** [foreign_substate_pledges_save]. *)
Definition foreign_substate_pledges_save (id : TransactionId) (pledges : list SubstatePledge) : SaveM unit :=
  modify (λ db, MkConsensusDb (db_base db) (db_pool db) (db_transactions db) (db_locks db)
    (foldl (λ m p, <[(id, to_substate_address (pledge_versioned_substate_id p)) := p]> m)
       (db_foreign_pledges db) pledges)).
Definition foreign_substate_pledges_remove_many (ids : list TransactionId) : SaveM unit :=
  modify (λ db, MkConsensusDb (db_base db) (db_pool db) (db_transactions db) (db_locks db)
    (filter (λ p, p.1.1 ∉ ids) (db_foreign_pledges db))).

(** The block diff and the locks of the block; the latest lock of a substate is
    the last one added. *)
Definition save_diff_and_locks cb : SaveM unit :=
  modify (λ db,
    let b := db_base db in
    MkConsensusDb
      (MkBaseStore (bs_consensus b)
         (<[br_block_id (cb_block cb) := cb_local_substate_changes cb]> (bs_diffs b))
         (bs_records b) (bs_heads b)
         (foldl (λ m p, match list.last p.2 with Some l => <[p.1 := l]> m | None => m end) (bs_locks b)
            (cb_substate_locks cb)))
      (db_pool db) (db_transactions db)
      (db_locks db ++ (cb_substate_locks cb ≫= λ p, (λ l, (p.1, l)) <$> p.2))
      (db_foreign_pledges db)).

Definition save_transaction_change cb (p : TransactionId * TransactionChangeSet) : SaveM unit :=
  let block_id := br_block_id (cb_block cb) in
  do! match tcs_execution p.2 with
      | Some x =>
          let! _ := on_pool (block_transaction_executions_insert_or_ignore p.1 block_id (br_height (cb_block cb)) x) in
          ret tt
      | None => ret tt
      end in
  do! match tcs_next_update p.2 with
      | Some u =>
          do! (if is_abort (current_decision (su_transaction u))
               then on_pool (lock_conflicts_remove_by_transaction_ids [tp_transaction_id (su_transaction u)])
               else ret tt) in
          on_pool (transaction_pool_add_pending_update block_id u)
      | None => ret tt
      end in
  for_each (map_to_list (tcs_foreign_pledges p.2)) (λ q, foreign_substate_pledges_save p.1 q.2).

(** [ProposedBlockChangeSet::save]; the state tree diffs, the status of the foreign
    proposals and the eviction records are not part of [ConsensusDb]. *)
Definition save cb : SaveM unit :=
  match cb_no_vote_reason cb with
  | Some _ => ret tt
  | None =>
      do! save_diff_and_locks cb in
      do! for_each (cb_new_transactions cb) (λ t,
            on_pool (transaction_pool_insert_new (tp_transaction_id t) (current_local_decision t) (tp_evidence t)
                       (tp_is_ready t) (tp_is_global t))) in
      for_each (map_to_list (cb_transaction_changes cb)) (save_transaction_change cb)
  end.
End save.
