(* ===== verification/ForeignProposals.v ===== *)
(** * Foreign proposals

    What a shard group does with a block of another one
    ([consensus/src/hotstuff/foreign_proposal_processor.rs]): the evidence,
    decision and pledges of its LocalPrepare and LocalAccept commands are added
    to the records of the transactions they share. *)
From stdpp Require Import base gmap list numbers.
From S2P Require Import Prelude Ids Substate Sharding Committee Blocks BlockStore PendingStore Evidence TransactionPool PoolStore Pledges TransactionManager ChangeSet.
Open Scope Z_scope.

(** The errors of [HotStuffError] that deciding on a block gives. *)
Inductive ConsensusError :=
  | CeStorageError (e : BlockStore.StorageError)
  | CeTransactionPoolError (e : TransactionPoolError)
  | CeSubstateStoreError (e : SubstateStoreError)
  | CeTransactionExecutorError (e : BlockTransactionExecutorError)
  | CeInvariantError
  | CeForeignInvalidPledge (transaction_id : TransactionId) (shard_group : ShardGroup)
  | CeForeignNodeOmittedTransactionPledges (transaction_id : TransactionId) (is_prepare_phase : bool).

(** What is read of a foreign proposal: the commands that its commit proof
    covers, the id of the certificate that justifies it, the substates that come
    with it. *)
Record ForeignProposal := MkForeignProposal {
  fp_block_id : BlockId;
  fp_shard_group : ShardGroup;
  fp_commands : list Command;
  fp_justify_qc : option QcId;
  fp_block_pledge : gmap SubstateId Substate;
}.

Notation ChangeM A := (M ProposedBlockChangeSet ConsensusError A).

Section foreign.
Context `{Kh : !ObjectKeyHashes} (db : ConsensusDb) (local_leaf : BlockId) (ci : CommitteeInfo).
Implicit Types (t : TransactionPoolRecord) (id : TransactionId) (atom : TransactionAtom) (fp : ForeignProposal).

Definition get_change_set : ChangeM ProposedBlockChangeSet := λ cb, (Ok cb, cb).
Definition put_change_set cb : ChangeM unit := λ _, (Ok tt, cb).
Definition record_in_block id : ChangeM (option TransactionPoolRecord) :=
  let! cb := get_change_set in lift (res_err CeStorageError (get_transaction_pool_record db local_leaf id cb)).
Definition add_execution id (x : TransactionExecution) : ChangeM unit :=
  let! cb := get_change_set in
  let! cb := lift (res_err CeTransactionPoolError (add_transaction_execution id x cb)) in
  put_change_set cb.
Definition next_update t : ChangeM unit := modify (set_next_transaction_update t).
Definition advance (stage : TransactionPoolStage) t : ChangeM TransactionPoolRecord :=
  lift (res_err CeTransactionPoolError (set_next_stage_and_readiness stage (ci_shard_group ci) t)).

Definition get_or_sequence_transaction id : ChangeM (option TransactionPoolRecord) :=
  let! found := record_in_block id in
  match found with
  | Some t => ret (Some t)
  | None =>
      match db_transactions db !! id with
      | None => ret None
      | Some tr =>
          if is_record_finalized db (tr_id tr) then ret None
          else
            let! initial_evidence :=
              lift (from_inputs_and_outputs (ci_num_shards ci) (ci_num_committees ci) (tr_inputs tr)
                      (known_outputs tr)) in
            let! cb := get_change_set in
            let p := sequence_new_transaction tr initial_evidence cb in
            do! put_change_set p.2 in ret (Some p.1)
      end
  end.

Definition add_pledges t atom (block_pledge : gmap SubstateId Substate) (foreign_shard_group : ShardGroup)
    (is_prepare_phase : bool) : ChangeM unit :=
  match ta_decision atom with
  | Commit =>
      match tp_evidence t !! foreign_shard_group with
      | None => throw (CeForeignInvalidPledge (ta_id atom) foreign_shard_group)
      | Some e =>
          do! modify (add_foreign_pledges (tp_transaction_id t) foreign_shard_group (output_pledges e)) in
          match get_all_pledges_for_evidence block_pledge e with
          | Some pledges => modify (add_foreign_pledges (tp_transaction_id t) foreign_shard_group pledges)
          | None =>
              if is_committee_output_only foreign_shard_group (tp_evidence t) then ret tt
              else if negb is_prepare_phase && negb (is_committee_output_only (ci_shard_group ci) (tp_evidence t))
              then ret tt
              else throw (CeForeignNodeOmittedTransactionPledges (ta_id atom) is_prepare_phase)
          end
      end
  | Abort _ => ret tt
  end.

(** [has_all_foreign_input_pledges]. *)
Definition has_all_foreign_input_pledges t cb : bool :=
  let current_pledges := get_foreign_pledges cb (tp_transaction_id t) in
  forallb (λ q,
    match q.2 with
    | None => false
    | Some l =>
        existsb (λ p, satisfies_substate_and_version p q.1.2 (eil_version l)) current_pledges ||
        foreign_pledge_exists db (tp_transaction_id t) q.1.2 (eil_version l)
    end)
    (filter (λ q, q.1.1 ≠ ci_shard_group ci) (all_inputs (tp_evidence t))).

(** A foreign group that aborts: an abort execution is added if the transaction
    was to be committed. *)
Definition foreign_abort atom t : ChangeM TransactionPoolRecord :=
  match ta_decision atom with
  | Abort reason =>
      if is_commit (current_decision t) then
        let exec := execution_abort reason in
        do! add_execution (tp_transaction_id t) exec in
        ret (set_local_decision (execution_decision exec) t)
      else ret t
  | Commit => ret t
  end.

(** Whether a transaction that holds a write lock on one of our inputs competes
    with this one for an input of a foreign group. *)
Definition inputs_conflict (e conflicting : ShardGroupEvidence) : bool :=
  existsb (λ q,
    match se_inputs conflicting !! q.1 with
    | Some (Some l) =>
        match q.2 with None => true | Some l' => eil_is_write l' end || eil_is_write l
    | Some None => true
    | None => false
    end) (map_to_list (se_inputs e)).
Definition has_conflicts t (conflicting_tx : TransactionPoolRecord) : bool :=
  existsb (λ q,
    bool_decide (q.1 ≠ ci_shard_group ci) &&
    match tp_evidence t !! q.1 with Some e => inputs_conflict e q.2 | None => false end)
    (map_to_list (tp_evidence conflicting_tx)).
Definition local_inputs t : list SubstateId :=
  match tp_evidence t !! ci_shard_group ci with
  | Some e => fst <$> map_to_list (se_inputs e)
  | None => []
  end.
Definition resolve_conflict t : ChangeM TransactionPoolRecord :=
  if is_commit (current_decision t) then
    match has_any_write_locks_for_substates db (tp_transaction_id t) (local_inputs t) with
    | None => ret t
    | Some conflicting_id =>
        let! found := record_in_block conflicting_id in
        match found with
        | None => throw (CeStorageError NotFound)
        | Some conflicting_tx =>
            if has_conflicts t conflicting_tx then
              let exec := execution_abort ForeignPledgeInputConflict in
              do! add_execution (tp_transaction_id t) exec in
              ret (set_local_decision (execution_decision exec) t)
            else ret t
        end
    end
  else ret t.

(** The evidence that the block gives for its own group, with the certificate
    that justifies it. *)
Definition foreign_evidence atom (g : ShardGroup) : ChangeM ShardGroupEvidence :=
  match ta_evidence atom !! g with
  | Some e => ret e
  | None => throw (CeForeignInvalidPledge (ta_id atom) g)
  end.
Definition justify_qc_id fp : ChangeM QcId :=
  match fp_justify_qc fp with Some qc => ret qc | None => throw CeInvariantError end.

Definition process_local_prepare fp atom : ChangeM unit :=
  let g := fp_shard_group fp in
  if negb (has (ci_shard_group ci) (ta_evidence atom)) || is_committee_output_only g (ta_evidence atom)
  then ret tt
  else
    let! found := get_or_sequence_transaction (ta_id atom) in
    match found with
    | None => ret tt
    | Some t =>
        if (stage_rank LocalPrepared <? stage_rank (current_stage t))%nat then ret tt
        else
          let! t := foreign_abort atom t in
          let! e := foreign_evidence atom g in
          let! qc := justify_qc_id fp in
          let t := on_evidence (on_group g (λ e', set_prepare_qc qc (update_group e e'))) t in
          let t := set_remote_decision (ta_decision atom) t in
          let! t := resolve_conflict t in
          do! add_pledges t atom (fp_block_pledge fp) g true in
          let! cb := get_change_set in
          let! t :=
            match current_stage t with
            | New =>
                if is_abort (current_decision t) || committee_involves_inputs ci t ||
                   has_all_foreign_input_pledges t cb
                then advance New (set_ready true t)
                else ret (if is_abort (current_decision t) then set_ready true t else t)
            | LocalPrepared =>
                if is_ready_for_pending_stage t (ci_shard_group ci) then advance LocalPrepared t else ret t
            | _ => ret t
            end in
          next_update t
    end.

Definition process_local_accept fp atom : ChangeM unit :=
  let g := fp_shard_group fp in
  if negb (has (ci_shard_group ci) (ta_evidence atom)) then ret tt
  else
    let! found := get_or_sequence_transaction (ta_id atom) in
    match found with
    | None => ret tt
    | Some t =>
        if (stage_rank LocalAccepted <? stage_rank (current_stage t))%nat then ret tt
        else
          let! t := foreign_abort atom t in
          let! e := foreign_evidence atom g in
          let! qc := justify_qc_id fp in
          let t := on_evidence (on_group g (λ e', set_accept_qc qc (update_group e e'))) t in
          let t := set_remote_decision (ta_decision atom) t in
          do! add_pledges t atom (fp_block_pledge fp) g false in
          let! cb := get_change_set in
          let! t :=
            match current_stage t with
            | New =>
                if committee_involves_inputs ci t || has_all_foreign_input_pledges t cb
                then advance New (set_ready true t)
                else ret (if is_abort (current_decision t) then set_ready true t else t)
            | LocalPrepared =>
                if is_ready_for_pending_stage t (ci_shard_group ci) then advance LocalPrepared t else ret t
            | LocalAccepted =>
                if is_ready_for_pending_stage t (ci_shard_group ci) then advance LocalAccepted t else ret t
            | _ => ret t
            end in
          next_update t
    end.

Definition process_foreign_command fp (cmd : Command) : ChangeM unit :=
  match cmd with
  | LocalPrepare atom => process_local_prepare fp atom
  | LocalAccept atom => process_local_accept fp atom
  | EndEpoch | AllAccept _ | SomeAccept _ | LocalOnly _ | ForeignProposalCmd _ _ | EvictNode _ => ret tt
  end.
Definition process_foreign_block fp : ChangeM unit := for_each (fp_commands fp) (process_foreign_command fp).

(** ** Certificates of the own group

    [process_newly_justified_block_inner] of [common.rs]: the certificate of a
    block of the own group is recorded with the transactions it prepares or
    accepts. *)
(** [Block::is_epoch_end]. *)
Definition block_is_epoch_end (commands : list Command) : bool :=
  match commands with c :: _ => is_epoch_end_cmd c | [] => false end.
Definition justify_command (justify_id : QcId) (cmd : Command) : ChangeM unit :=
  if negb (is_local_prepare cmd) && negb (is_local_accept cmd) then ret tt
  else
    match command_transaction cmd with
    | None => panic
    | Some atom =>
        let! found := record_in_block (ta_id atom) in
        match found with
        | None => throw CeInvariantError
        | Some t =>
            let g := ci_shard_group ci in
            let t := on_evidence
              (on_group g (if is_local_prepare cmd then set_prepare_qc justify_id else set_accept_qc justify_id)) t in
            let t := if negb (tp_is_ready t) && is_ready_for_pending_stage t g then set_ready true t else t in
            next_update t
        end
    end.
Definition process_newly_justified_block_inner (commands : list Command) (justify_id : QcId) : ChangeM unit :=
  if block_is_epoch_end commands then ret tt
  else for_each commands (justify_command justify_id).
(** The commands of the chain of newly justified blocks, oldest first; the blocks
    are those that [HotStuff.process_newly_justified_block] collects. *)
Definition process_justified_chain (chain : list (list Command)) (justify_id : QcId) : ChangeM unit :=
  for_each chain (λ commands, process_newly_justified_block_inner commands justify_id).
End foreign.
