(* ===== verification/CommandVoting.v ===== *)
(** * Deciding what to vote

    [consensus/src/hotstuff/on_ready_to_vote_on_local_block.rs]: each command of
    a proposed block is evaluated against the pool and the pending store; the
    block is voted for when all of them agree with what the node would do.

    An evaluation that ends with [Ok(Some(reason))] is the error
    [NoVote reason] here. *)
From stdpp Require Import base gmap list numbers.
From S2P Require Import Prelude Ids Substate Sharding Committee Blocks BlockStore PendingStore Evidence TransactionPool PoolStore Pledges TransactionManager ChangeSet ForeignProposals.
Open Scope Z_scope.

Inductive VoteError :=
  | NoVote (reason : NoVoteReason)
  | VoteFailed (e : ConsensusError).

Record VoteState := MkVoteState {
  vs_changes : ProposedBlockChangeSet;
  vs_store : PendingSubstateStore;
  vs_total_leader_fee : Z;
}.
Notation VoteM A := (M VoteState VoteError A).
Definition vote_change_set {A : Type} (m : ChangeM A) : VoteM A :=
  zoom vs_changes (λ cb s, MkVoteState cb (vs_store s) (vs_total_leader_fee s)) (map_err VoteFailed m).
Definition vote_store {A : Type} (m : StoreM A) : VoteM A :=
  zoom vs_store (λ ps s, MkVoteState (vs_changes s) ps (vs_total_leader_fee s))
    (map_err (λ e, VoteFailed (CeSubstateStoreError e)) m).
Definition vote_prepare {A : Type} (m : PrepareM A) : VoteM A :=
  zoom vs_store (λ ps s, MkVoteState (vs_changes s) ps (vs_total_leader_fee s))
    (map_err (λ e, VoteFailed (CeTransactionExecutorError e)) m).
Definition lift_res {E A : Type} (f : E → ConsensusError) (r : res E A) : VoteM A :=
  lift (res_err (λ e, VoteFailed (f e)) r).
Definition no_vote {A : Type} (reason : NoVoteReason) : VoteM A := throw (NoVote reason).
Definition no_vote_if (b : bool) (reason : NoVoteReason) : VoteM unit := if b then no_vote reason else ret tt.
Definition add_leader_fee (fee : Z) : VoteM unit :=
  λ s, match u64_add (vs_total_leader_fee s) fee with
       | Ok total => (Ok tt, MkVoteState (vs_changes s) (vs_store s) total)
       | Err e => (Err e, s)
       | Panic => (Panic, s)
       end.

(** [ConsensusConstants], the fields used. *)
Record ConsensusConstants := MkConsensusConstants {
  cc_num_preshards : NumPreshards;
  cc_fee_exhaust_divisor : Z;
  cc_missed_proposal_evict_threshold : Z;
  cc_max_number_commands_in_block : nat;
}.

(** The rest of what is read while voting: the foreign proposals received and the
    statistics of the validators. *)
Record VoteEnv := MkVoteEnv {
  ve_foreign_proposals : gmap BlockId (ForeignProposal * ForeignProposalStatus);
  ve_evicted : gset PublicKeyBytes; (* [is_node_evicted] at the block *)
  ve_num_evicted : Z; (* [count_number_evicted_nodes] in the epoch *)
  ve_missed_proposals : gmap PublicKeyBytes Z;
}.

(** What is read of the block that is decided on. *)
Record ProposedBlock := MkProposedBlock {
  pb_ref : BlockRef;
  pb_shard_group : ShardGroup;
  pb_commands : list Command;
  pb_total_leader_fee : Z;
  pb_state_merkle_root : N;
}.

(** [filter_diff_for_committee]. *)
Section filter_diff.
Context {E : Type} `{Kh : !ObjectKeyHashes}.
Fixpoint filter_by_substate {A : Type} (ci : CommitteeInfo) (f : A → SubstateId) (xs : list A) : res E (list A) :=
  match xs with
  | [] => Ok []
  | x :: xs =>
      let? here := includes_substate_id ci (f x) in
      let? rest := filter_by_substate ci f xs in
      Ok (if here : bool then x :: rest else rest)
  end.
Definition filter_diff_for_committee (ci : CommitteeInfo) (diff : SubstateDiff) : res E SubstateDiff :=
  let? up := filter_by_substate ci fst (up_substates diff) in
  let? down := filter_by_substate ci fst (down_substates diff) in
  let? fees := filter_by_substate ci (λ w, SidValidatorFeePool (withdrawal_address w)) (fee_withdrawals diff) in
  Ok (MkSubstateDiff up down fees).
End filter_diff.

(** ** The fee of the proposer *)
Section leader_fee.
Context `{Kh : !ObjectKeyHashes} (base : BaseStore) (parent_block : BlockRef) (num_preshards : NumPreshards).

(** [derive_fee_pool_address] of [common_types/src/fee_pool.rs]: the first half of
    the claim key as an offset from the start of the shard. *)
Definition derive_fee_pool_address {E : Type} (claim_public_key : PublicKeyBytes) (n : NumPreshards) (shard : Shard) :
    res E N :=
  let masked := Z.of_N (N.div claim_public_key (2 ^ 128)) in
  let range := shard_to_substate_address_range shard n in
  let? offset_addr := expect (uint_checked U256_MAX (to_u256 range.1 + masked)) in
  Ok (Z.to_N offset_addr).

Definition deposit_fee (fee : Z) (v : SubstateValue) : res SubstateStoreError SubstateValue :=
  match as_validator_fee_pool v with
  | None => Err InvariantError
  | Some pool =>
      match deposit_direct (E := SubstateStoreError) fee pool with
      | (Ok true, pool) => Ok (SvValidatorFeePool pool)
      | _ => Err InvariantError
      end
  end.
Definition apply_leader_fee_to_substate_store (claim_public_key : PublicKeyBytes) (shard : Shard)
    (n : NumPreshards) (total_leader_fee : Z) : StoreM unit :=
  if total_leader_fee =? 0 then ret tt
  else
    let! address := lift (derive_fee_pool_address claim_public_key n shard) in
    update_in_place base parent_block num_preshards (SidValidatorFeePool address) (deposit_fee total_leader_fee)
      (λ _, Ok (SvValidatorFeePool (MkValidatorFeePool claim_public_key total_leader_fee))).
End leader_fee.

(** ** The commands *)
Section voting.
Context `{Kh : !ObjectKeyHashes, Ex : !BlockTransactionExecutor}.
Context (db : ConsensusDb) (env : VoteEnv) (cc : ConsensusConstants) (ci : CommitteeInfo) (block : ProposedBlock).
Implicit Types (t : TransactionPoolRecord) (atom : TransactionAtom) (x : TransactionExecution).

Definition vote_record id : VoteM (option TransactionPoolRecord) :=
  vote_change_set (record_in_block db (br_block_id (pb_ref block)) id).
(** The record of the transaction, or no vote. *)
Definition pool_record id : VoteM TransactionPoolRecord :=
  let! found := vote_record id in
  match found with Some t => ret t | None => no_vote TransactionNotInPool end.
Definition vote_add_execution id x : VoteM unit := vote_change_set (add_execution id x).
(** [set_next_stage_and_readiness] and [set_next_transaction_update]. *)
Definition vote_next_stage (stage : TransactionPoolStage) t : VoteM unit :=
  let! t := lift_res CeTransactionPoolError
    (set_next_stage_and_readiness stage (pb_shard_group block) t) in
  vote_change_set (next_update t).
Definition vote_put_diff (diff : SubstateDiff) : VoteM unit :=
  vote_store (put_diff (db_base db) (pb_ref block) (cc_num_preshards cc) diff).
Definition prepare_in_block t : VoteM PreparedTransaction :=
  vote_prepare (prepare db (pb_ref block) ci t).
Definition evidence_of x : VoteM Evidence :=
  lift_res (λ e, e) (to_evidence (ci_num_shards ci) (ci_num_committees ci) x).
Definition calculate_fee t (involved : Z) : VoteM LeaderFee :=
  lift_res (λ e, e) (calculate_leader_fee (tp_transaction_fee t) involved (cc_fee_exhaust_divisor cc)).
(** [NonZeroU64::new(num_shard_groups)]. *)
Definition num_involved t : VoteM Z :=
  if bool_decide (tp_evidence t = ∅) then throw (VoteFailed CeInvariantError)
  else ret (Z.of_nat (size (tp_evidence t))).

(** The record after a local execution. *)
Definition record_execution x t : VoteM TransactionPoolRecord :=
  let! ev := evidence_of x in
  ret (set_evidence ev (set_transaction_fee (execution_fee x) (set_local_decision (execution_decision x) t))).

Definition evaluate_local_only_command atom : VoteM unit :=
  let! t := pool_record (ta_id atom) in
  do! no_vote_if (bool_decide (current_stage t ≠ New)) (StageDisagreement New (current_stage t)) in
  let! prepared := prepare_in_block t in
  let! t :=
    match prepared with
    | LocalOnlyPrepared (LocalAcceptPrepared x _) =>
        let! t := record_execution x t in
        do! no_vote_if (bool_decide (current_decision t ≠ ta_decision atom))
              (DecisionDisagreement (current_decision t) (ta_decision atom)) in
        do! no_vote_if (negb (tp_transaction_fee t =? ta_transaction_fee atom)) FeeDisagreement in
        do! (if is_commit (current_decision t) then
               do! match ex_any_accept (te_result x) with
                   | Some diff => vote_put_diff diff
                   | None => ret tt
                   end in
               match ta_leader_fee atom with
               | None => no_vote NoLeaderFee
               | Some fee =>
                   let! calculated := calculate_fee t 1 in
                   do! no_vote_if (bool_decide (calculated ≠ fee)) LeaderFeeDisagreement in
                   add_leader_fee (lf_fee calculated)
               end
             else ret tt) in
        do! vote_add_execution (tp_transaction_id t) x in
        ret t
    | LocalOnlyPrepared (LocalEarlyAbort x) =>
        do! no_vote_if (is_commit (ta_decision atom))
              (DecisionDisagreement (Abort LockInputsOutputsFailed) Commit) in
        let! t := record_execution x t in
        do! vote_add_execution (tp_transaction_id t) x in
        ret t
    | MultiShardPrepared _ _ => no_vote LocalOnlyProposedForMultiShard
    end in
  vote_next_stage LocalOnlyStage t.

(** The execution that a foreign block already caused in this block. *)
Definition take_execution id : VoteM (option TransactionExecution) :=
  λ s, let p := take_transaction_execution id (vs_changes s) in
       (Ok p.1, MkVoteState p.2 (vs_store s) (vs_total_leader_fee s)).

Definition initial_prepare_multishard t atom : VoteM TransactionPoolRecord :=
  do! no_vote_if (bool_decide (current_stage t ≠ New)) (StageDisagreement New (current_stage t)) in
  let! maybe_execution := take_execution (tp_transaction_id t) in
  let! prepared :=
    match maybe_execution with
    | Some x =>
        if is_abort (execution_decision x) then ret (MultiShardPrepared (PreparedExecution x) lock_status_new)
        else prepare_in_block t
    | None => prepare_in_block t
    end in
  match prepared with
  | LocalOnlyPrepared _ => no_vote MultiShardProposedForLocalOnly
  | MultiShardPrepared multishard _ =>
      do! no_vote_if (negb (is_same_outcome (multishard_decision multishard) (ta_decision atom)))
            (DecisionDisagreement (multishard_decision multishard) (ta_decision atom)) in
      let t := on_evidence (add_shard_group (ci_shard_group ci)) t in
      match multishard with
      | PreparedExecution x =>
          let! t := lift_res (λ e, e) (update_from_execution (ci_num_shards ci) (ci_num_committees ci) x t) in
          let! t :=
            if is_commit (execution_decision x) && negb (has_inputs (ci_shard_group ci) (tp_evidence t)) then
              let! involved := num_involved t in
              let! fee := calculate_fee t involved in
              ret (set_leader_fee fee t)
            else ret t in
          do! vote_add_execution (tp_transaction_id t) x in
          ret t
      | PreparedEvidence evidence =>
          ret (merge_record_evidence evidence (set_local_decision Commit t))
      end
  end.

Definition evaluate_local_prepare_command atom : VoteM unit :=
  let! t := pool_record (ta_id atom) in
  do! no_vote_if (bool_decide (current_stage t ≠ New)) (StageDisagreement New (current_stage t)) in
  let! t := initial_prepare_multishard t atom in
  do! no_vote_if (negb (tp_transaction_fee t =? ta_transaction_fee atom)) FeeDisagreement in
  do! no_vote_if (bool_decide (ta_evidence atom !! ci_shard_group ci ≠ tp_evidence t !! ci_shard_group ci))
        (InvalidEvidence MismatchedEvidence) in
  vote_next_stage LocalPrepared t.

(** [execute_transaction]. *)
Definition execute_transaction (tr : Transaction) : VoteM TransactionExecution :=
  let! found := lift_res CeTransactionExecutorError (fetch_execution db (pb_ref block) (tr_id tr)) in
  match found with
  | Some x => ret x
  | None => lift_res CeTransactionExecutorError (execute_pledged db (br_epoch (pb_ref block)) tr)
  end.

Fixpoint filter_locks (locks : list LockIntent) : res ConsensusError (list LockIntent) :=
  match locks with
  | [] => Ok []
  | l :: locks =>
      let? here := includes_substate_id ci (li_substate_id l) in
      let? rest := filter_locks locks in
      Ok (if here : bool then l :: rest else rest)
  end.

(** The transaction is executed and its local outputs are locked; [None] when an
    output cannot be locked, and the abort has been recorded. *)
Definition accept_prepared t atom : VoteM (option TransactionPoolRecord) :=
  do! no_vote_if (bool_decide (current_stage t ≠ LocalPrepared)) (StageDisagreement LocalPrepared (current_stage t)) in
  let! tr := lift_res CeStorageError (transactions_get db (tp_transaction_id t)) in
  let! pledged := lift_res (λ e, e) (has_all_required_input_pledges db ci tr) in
  do! no_vote_if (negb pledged) NotAllForeignInputPledges in
  let! x := execute_transaction tr in
  let! t := lift_res (λ e, e) (update_from_execution (ci_num_shards ci) (ci_num_committees ci) x t) in
  let! failed :=
    if is_commit (execution_decision x) then
      let! local_outputs := lift_res (λ e, e) (filter_locks (te_resulting_outputs x)) in
      let! lock_status := vote_store (try_lock_all (db_base db) (pb_ref block) (tp_transaction_id t) local_outputs false) in
      ret (is_any_failed lock_status)
    else ret false in
  if failed : bool then
    do! no_vote_if (is_commit (ta_decision atom)) (DecisionDisagreement (Abort LockOutputsFailed) Commit) in
    let x := execution_abort LockOutputsFailed in
    let t := no_leader_fee (set_transaction_fee 0 (set_local_decision (execution_decision x) t)) in
    let! t := lift_res CeTransactionPoolError
      (set_next_stage_and_readiness LocalAccepted (pb_shard_group block) t) in
    do! vote_add_execution (tp_transaction_id t) x in
    do! vote_change_set (next_update t) in
    ret None
  else
    do! vote_add_execution (tp_transaction_id t) x in
    ret (Some t).

Definition evaluate_local_accept_command atom : VoteM unit :=
  let! t := pool_record (ta_id atom) in
  let! continue_with :=
    if bool_decide (current_stage t = New) then
      let! t := initial_prepare_multishard t atom in
      do! no_vote_if (negb (is_abort (current_decision t)) &&
                      negb (is_committee_output_only (ci_shard_group ci) (tp_evidence t)))
            (OutputOnlyDisagreement (tp_transaction_id t) (ci_shard_group ci) (current_stage t)) in
      ret (Some t)
    else if is_commit (current_decision t) then accept_prepared t atom
    else ret (Some t) in
  match continue_with with
  | None => ret tt
  | Some t =>
      do! no_vote_if (negb (tp_transaction_fee t =? ta_transaction_fee atom)) FeeDisagreement in
      let! t :=
        if is_commit (current_decision t) then
          match ta_leader_fee atom with
          | None => no_vote NoLeaderFee
          | Some leader_fee =>
              let! involved := num_involved t in
              let! calculated := calculate_fee t involved in
              do! no_vote_if (bool_decide (calculated ≠ leader_fee)) LeaderFeeDisagreement in
              ret (set_leader_fee calculated t)
          end
        else
          do! no_vote_if (bool_decide (is_Some (ta_leader_fee atom))) LeaderFeeDisagreement in
          ret t in
      do! no_vote_if (negb (eq_pledges (ta_evidence atom) (tp_evidence t))) (InvalidEvidence MismatchedEvidence) in
      vote_next_stage LocalAccepted t
  end.

Definition evaluate_all_accept_command atom : VoteM unit :=
  do! no_vote_if (is_abort (ta_decision atom)) (AllAcceptMustBeCommit (ta_id atom) (br_block_id (pb_ref block))) in
  let! t := pool_record (ta_id atom) in
  do! no_vote_if (bool_decide (current_stage t ≠ LocalAccepted)) (StageDisagreement LocalAccepted (current_stage t)) in
  do! no_vote_if (is_abort (current_decision t)) (DecisionDisagreement (ta_decision atom) Commit) in
  do! no_vote_if (negb (tp_transaction_fee t =? ta_transaction_fee atom)) FeeDisagreement in
  match ta_leader_fee atom with
  | None => no_vote NoLeaderFee
  | Some leader_fee =>
      match leader_fee_of t with
      | None => throw (VoteFailed CeInvariantError)
      | Some local_leader_fee =>
          do! no_vote_if (bool_decide (local_leader_fee ≠ leader_fee)) LeaderFeeDisagreement in
          let! pledged := lift_res (λ e, e) (has_all_required_foreign_pledges db ci t) in
          do! no_vote_if (negb pledged) NotAllForeignInputPledges in
          do! no_vote_if (bool_decide (tp_evidence t ≠ ta_evidence atom)) (InvalidEvidence MismatchedEvidence) in
          let! found := lift_res CeTransactionExecutorError (fetch_execution db (pb_ref block) (tp_transaction_id t)) in
          match found with
          | None => throw (VoteFailed CeInvariantError)
          | Some x =>
              match ex_any_accept (te_result x) with
              | None => throw (VoteFailed CeInvariantError)
              | Some diff =>
                  do! add_leader_fee (lf_fee leader_fee) in
                  let! filtered := lift_res (λ e, e) (filter_diff_for_committee ci diff) in
                  do! vote_put_diff filtered in
                  vote_next_stage AllAccepted t
              end
          end
      end
  end.

Definition evaluate_some_accept_command atom : VoteM unit :=
  do! no_vote_if (is_commit (ta_decision atom)) (SomeAcceptAtomMustBeAbort (ta_id atom) (br_block_id (pb_ref block))) in
  let! t := pool_record (ta_id atom) in
  do! no_vote_if (bool_decide (current_stage t ≠ LocalAccepted)) (StageDisagreement LocalAccepted (current_stage t)) in
  do! no_vote_if (is_commit (current_decision t)) (DecisionDisagreement Commit (ta_decision atom)) in
  do! no_vote_if (negb (tp_transaction_fee t =? ta_transaction_fee atom)) FeeDisagreement in
  vote_next_stage SomeAccepted t.

Definition evaluate_foreign_proposal_command (block_id : BlockId) : VoteM unit :=
  let! s := (λ s, (Ok s, s)) in
  do! no_vote_if (bool_decide (block_id ∈ cb_proposed_foreign_proposals (vs_changes s))) ForeignProposalAlreadyProposed in
  match ve_foreign_proposals env !! block_id with
  | None => no_vote ForeignProposalNotReceived
  | Some (fp, status) =>
      do! no_vote_if (match status with FpConfirmed => true | _ => false end) ForeignProposalAlreadyConfirmed in
      do! (λ s, match vote_change_set (process_foreign_block db (br_block_id (pb_ref block)) ci fp) s with
                | (Err _, s') => (Err (NoVote ForeignProposalProcessingFailed), s')
                | r => r
                end) in
      vote_change_set (modify (push_foreign_proposal block_id))
  end.

Definition evaluate_evict_node_command (pk : PublicKeyBytes) : VoteM unit :=
  do! no_vote_if (bool_decide (pk ∈ ve_evicted env)) NodeAlreadyEvicted in
  let! max_failures := lift_res (λ e, e) (max_failure_shard_group_members ci) in
  let! s := (λ s, (Ok s, s)) in
  let max_allowed_to_evict :=
    u64_saturating_sub (u64_saturating_sub max_failures (ve_num_evicted env))
      (Z.of_nat (length (cb_evict_nodes (vs_changes s)))) in
  do! no_vote_if (max_allowed_to_evict =? 0) CannotEvictNodeBelowQuorumThreshold in
  match ve_missed_proposals env !! pk with
  | None => throw (VoteFailed (CeStorageError NotFound))
  | Some missed =>
      do! no_vote_if (missed <? cc_missed_proposal_evict_threshold cc) ShouldNotEvictNode in
      vote_change_set (modify (add_evict_node pk))
  end.

Definition evaluate_end_epoch_command (can_propose_epoch_end : bool) : VoteM unit :=
  do! no_vote_if (negb can_propose_epoch_end) NotEndOfEpoch in
  no_vote_if (1 <? length (pb_commands block))%nat EndOfEpochWithOtherCommands.

Definition evaluate_command (can_propose_epoch_end : bool) (cmd : Command) : VoteM unit :=
  match cmd with
  | LocalOnly atom => evaluate_local_only_command atom
  | LocalPrepare atom => evaluate_local_prepare_command atom
  | LocalAccept atom => evaluate_local_accept_command atom
  | AllAccept atom => evaluate_all_accept_command atom
  | SomeAccept atom => evaluate_some_accept_command atom
  | ForeignProposalCmd block_id _ => evaluate_foreign_proposal_command block_id
  | EvictNode pk => evaluate_evict_node_command pk
  | EndEpoch => evaluate_end_epoch_command can_propose_epoch_end
  end.

(** The root of the state tree after the changes of the block, over the diffs of
    its pending ancestors ([calculate_state_merkle_root]). *)
Context (calculate_state_merkle_root : ShardGroup → list SubstateChange → res ConsensusError N).

Definition decide_what_to_vote (proposer_claim_public_key : PublicKeyBytes) (can_propose_epoch_end : bool) :
    VoteM unit :=
  do! for_each (pb_commands block) (evaluate_command can_propose_epoch_end) in
  let! s := (λ s, (Ok s, s)) in
  let total_leader_fee := vs_total_leader_fee s in
  do! no_vote_if (negb (total_leader_fee =? pb_total_leader_fee block)) TotalLeaderFeeDisagreement in
  do! (if 0 <? total_leader_fee
       then vote_store (apply_leader_fee_to_substate_store (db_base db) (pb_ref block) (cc_num_preshards cc)
                          proposer_claim_public_key (sg_start (ci_shard_group ci)) (ci_num_shards ci)
                          total_leader_fee)
       else ret tt) in
  let! s := (λ s, (Ok s, s)) in
  let! root := lift_res (λ e, e)
    (calculate_state_merkle_root (pb_shard_group block)
       (filter (λ c, contains_or_global (pb_shard_group block) (change_shard c) = true) (ps_changes (vs_store s)))) in
  do! no_vote_if (negb (N.eqb root (pb_state_merkle_root block))) StateMerkleRootMismatch in
  vote_change_set (modify (set_accepted (ps_changes (vs_store s)) (ps_new_locks (vs_store s)))).

(** The change set that the decision leaves: no vote is recorded with its
    reason. *)
Definition decided (proposer_claim_public_key : PublicKeyBytes) (can_propose_epoch_end : bool)
    (cb : ProposedBlockChangeSet) : res ConsensusError ProposedBlockChangeSet :=
  match decide_what_to_vote proposer_claim_public_key can_propose_epoch_end
          (MkVoteState cb pending_store_new 0) with
  | (Ok _, s) => Ok (vs_changes s)
  | (Err (NoVote reason), s) => Ok (set_no_vote reason (vs_changes s))
  | (Err (VoteFailed e), _) => Err e
  | (Panic, _) => Panic
  end.
End voting.
