(* ===== verification/Proposing.v ===== *)
(** * Proposing commands

    [consensus/src/hotstuff/on_propose.rs]: the commands that a leader puts into
    the next block for the transactions that are ready, with the locks and
    executions that come of preparing them, and the block that is made of
    them. *)
From stdpp Require Import base gmap list numbers.
From S2P Require Import Prelude Ids Substate Sharding Committee Blocks BlockStore PendingStore Evidence TransactionPool PoolStore Pledges TransactionManager ChangeSet ForeignProposals CommandVoting.
Open Scope Z_scope.

(** What proposing accumulates over the batch. *)
Record ProposeState := MkProposeState {
  pr_store : PendingSubstateStore;
  pr_executed : gmap TransactionId TransactionExecution;
  pr_lock_conflicts : list (TransactionId * list LockConflict);
}.
Notation ProposeM A := (M ProposeState ConsensusError A).
Definition propose_store {A : Type} (m : StoreM A) : ProposeM A :=
  zoom pr_store (λ ps s, MkProposeState ps (pr_executed s) (pr_lock_conflicts s)) (map_err CeSubstateStoreError m).
Definition propose_prepare {A : Type} (m : PrepareM A) : ProposeM A :=
  zoom pr_store (λ ps s, MkProposeState ps (pr_executed s) (pr_lock_conflicts s))
    (map_err CeTransactionExecutorError m).
Definition lift_err {E A : Type} (f : E → ConsensusError) (r : res E A) : ProposeM A := lift (res_err f r).
Definition record_executed (id : TransactionId) (x : TransactionExecution) : ProposeM unit :=
  modify (λ s, MkProposeState (pr_store s) (<[id := x]> (pr_executed s)) (pr_lock_conflicts s)).
Definition add_lock_conflicts (id : TransactionId) (conflicts : list LockConflict) : ProposeM unit :=
  modify (λ s, MkProposeState (pr_store s) (pr_executed s) (index_insert id conflicts (pr_lock_conflicts s))).

Section proposing.
Context `{Kh : !ObjectKeyHashes, Ex : !BlockTransactionExecutor}.
Context (db : ConsensusDb) (cc : ConsensusConstants) (ci : CommitteeInfo) (parent_block : BlockRef).
Implicit Types (t : TransactionPoolRecord) (x : TransactionExecution) (id : TransactionId).

Definition propose_fee t (involved : Z) : ProposeM LeaderFee :=
  lift_err (λ e, e) (calculate_leader_fee (tp_transaction_fee t) involved (cc_fee_exhaust_divisor cc)).
Definition involved_groups t : ProposeM Z :=
  if bool_decide (tp_evidence t = ∅) then throw CeInvariantError
  else ret (Z.of_nat (size (tp_evidence t))).
Definition propose_update_from_execution x t : ProposeM TransactionPoolRecord :=
  lift_err (λ e, e) (update_from_execution (ci_num_shards ci) (ci_num_committees ci) x t).
Definition propose_evidence x : ProposeM Evidence :=
  lift_err (λ e, e) (to_evidence (ci_num_shards ci) (ci_num_committees ci) x).

(** [put_diff], where an error other than a lock that failed is returned and a
    failed lock skips the transaction. *)
Definition put_diff_or_skip (diff : SubstateDiff) : ProposeM bool :=
  λ s, match put_diff (db_base db) parent_block (cc_num_preshards cc) diff (pr_store s) with
       | (Ok _, ps) => (Ok true, MkProposeState ps (pr_executed s) (pr_lock_conflicts s))
       | (Err (LockFailed _), ps) => (Ok false, MkProposeState ps (pr_executed s) (pr_lock_conflicts s))
       | (Err e, ps) => (Err (CeSubstateStoreError e), MkProposeState ps (pr_executed s) (pr_lock_conflicts s))
       | (Panic, ps) => (Panic, MkProposeState ps (pr_executed s) (pr_lock_conflicts s))
       end.

Definition prepare_transaction t : ProposeM (option Command) :=
  let! prepared := propose_prepare (prepare db parent_block ci t) in
  let status := prepared_lock_status prepared in
  if is_any_failed status && negb (is_hard_conflict status) then
    do! add_lock_conflicts (tp_transaction_id t) (ls_conflicts status) in
    ret None
  else
    match prepared with
    | LocalOnlyPrepared (LocalAcceptPrepared x _) =>
        let! ev := propose_evidence x in
        let t := set_evidence ev (set_transaction_fee (execution_fee x) (set_local_decision (execution_decision x) t)) in
        if is_commit (current_decision t) then
          let! fee := propose_fee t 1 in
          let t := set_leader_fee fee t in
          match ex_any_accept (te_result x) with
          | None => throw CeInvariantError
          | Some diff =>
              let! written := put_diff_or_skip diff in
              if written : bool then
                do! record_executed (tp_transaction_id t) x in
                ret (Some (LocalOnly (get_current_transaction_atom t)))
              else ret None
          end
        else
          do! record_executed (tp_transaction_id t) x in
          ret (Some (LocalOnly (get_current_transaction_atom t)))
    | LocalOnlyPrepared (LocalEarlyAbort x) =>
        let! ev := propose_evidence x in
        let t := merge_record_evidence ev
          (no_leader_fee (set_transaction_fee (execution_fee x) (set_local_decision (execution_decision x) t))) in
        do! record_executed (tp_transaction_id t) x in
        ret (Some (LocalOnly (get_current_transaction_atom t)))
    | MultiShardPrepared multishard _ =>
        let! t :=
          match multishard with
          | PreparedExecution x =>
              let! t := propose_update_from_execution x t in
              let t := on_evidence (add_shard_group (ci_shard_group ci)) t in
              let! t :=
                if is_commit (execution_decision x) && negb (has_inputs (ci_shard_group ci) (tp_evidence t)) then
                  let! involved := involved_groups t in
                  let! fee := propose_fee t involved in
                  ret (set_leader_fee fee t)
                else ret t in
              do! record_executed (tp_transaction_id t) x in
              ret t
          | PreparedEvidence evidence =>
              ret (merge_record_evidence evidence (set_local_decision Commit t))
          end in
        if is_abort (current_decision t) then ret (Some (LocalAccept (get_current_transaction_atom t)))
        else if is_committee_output_only (ci_shard_group ci) (tp_evidence t)
        then ret (Some (LocalAccept (get_current_transaction_atom t)))
        else ret (Some (LocalPrepare (get_current_transaction_atom t)))
    end.

Definition get_transaction_atom_with_leader_fee t : ProposeM TransactionAtom :=
  let atom := get_current_transaction_atom t in
  if is_commit (current_decision t) then
    let! involved := involved_groups t in
    let! fee := propose_fee t involved in
    ret (MkTransactionAtom (ta_id atom) (ta_decision atom) (ta_evidence atom) (ta_transaction_fee atom) (Some fee))
  else ret atom.

Definition propose_execute_transaction (tr : Transaction) : ProposeM TransactionExecution :=
  let! found := lift_err CeTransactionExecutorError (fetch_execution db parent_block (tr_id tr)) in
  match found with
  | Some x => ret x
  | None => lift_err CeTransactionExecutorError (execute_pledged db (br_epoch parent_block) tr)
  end.

Definition local_accept_transaction t : ProposeM (option Command) :=
  if is_abort (current_decision t) then ret (Some (LocalAccept (get_current_transaction_atom t)))
  else
    let! tr := lift_err CeStorageError (transactions_get db (tp_transaction_id t)) in
    let! x := propose_execute_transaction tr in
    let! local_outputs := lift_err (λ e, e) (filter_locks ci (te_resulting_outputs x)) in
    let! lock_status := propose_store (try_lock_all (db_base db) parent_block (tp_transaction_id t) local_outputs false) in
    if is_any_failed lock_status then
      let x := execution_abort LockOutputsFailed in
      let! t := propose_update_from_execution x t in
      do! record_executed (tp_transaction_id t) x in
      ret (Some (LocalAccept (get_current_transaction_atom t)))
    else
      let! t := propose_update_from_execution x t in
      do! record_executed (tp_transaction_id t) x in
      let! atom := get_transaction_atom_with_leader_fee t in
      ret (Some (LocalAccept atom)).

Definition accept_transaction t : ProposeM (option Command) :=
  if is_abort (current_decision t) then ret (Some (SomeAccept (get_current_transaction_atom t)))
  else
    let! found := lift_err CeTransactionExecutorError (fetch_execution db parent_block (tp_transaction_id t)) in
    match found with
    | None => throw CeInvariantError
    | Some x =>
        match ex_any_accept (te_result x) with
        | None => throw CeInvariantError
        | Some diff =>
            let! filtered := lift_err (λ e, e) (filter_diff_for_committee ci diff) in
            let! written := put_diff_or_skip filtered in
            if written : bool then
              let! atom := get_transaction_atom_with_leader_fee t in
              ret (Some (AllAccept atom))
            else ret None
        end
    end.

(** The stages that are never ready are [unreachable!]. *)
Definition transaction_pool_record_to_command t : ProposeM (option Command) :=
  match current_stage t with
  | New => prepare_transaction t
  | LocalPrepared => local_accept_transaction t
  | LocalAccepted => accept_transaction t
  | AllAccepted | SomeAccepted | LocalOnlyStage => panic
  end.
End proposing.

(** ** The batch of a block *)
Section batch.
Definition subtract_block_size_checked (remaining_block_size : option nat) (by_ : nat) : option nat :=
  match remaining_block_size with
  | None => None
  | Some sz =>
      if (by_ <=? sz)%nat then (if (0 <? sz - by_)%nat then Some (sz - by_)%nat else None) else None
  end.
Definition FP_WEIGHT_MULTIPLIER : nat := 10.

Record ProposalBatch := MkProposalBatch {
  bt_foreign_proposals : list ForeignProposal;
  bt_transactions : list TransactionPoolRecord;
  bt_evict_nodes : list PublicKeyBytes;
}.
Definition batch_default : ProposalBatch := MkProposalBatch [] [] [].

(** [fetch_next_proposal_batch]; [get_all_new] and [get_nodes_to_evict] are the
    queries for new foreign proposals and for nodes that missed too many
    proposals, up to a limit. *)
Definition fetch_next_proposal_batch (db : ConsensusDb) (cc : ConsensusConstants) (ci : CommitteeInfo)
    (num_evicted : Z) (get_all_new : nat → list ForeignProposal) (get_nodes_to_evict : Z → list PublicKeyBytes)
    (start_of_chain : BlockId) : res ConsensusError ProposalBatch :=
  let max_commands := cc_max_number_commands_in_block cc in
  let foreign_proposals := get_all_new (max_commands / FP_WEIGHT_MULTIPLIER)%nat in
  let remaining :=
    subtract_block_size_checked (Some max_commands) (length foreign_proposals * FP_WEIGHT_MULTIPLIER) in
  let? evict_nodes :=
    match remaining with
    | None => Ok []
    | Some max =>
        let? f := max_failure_shard_group_members ci in
        Ok (get_nodes_to_evict (Z.min (u64_saturating_sub f num_evicted) (Z.of_nat max)))
    end in
  let remaining := subtract_block_size_checked remaining (length evict_nodes) in
  let? transactions :=
    match remaining with
    | None => Ok []
    | Some size => res_err CeStorageError (get_batch_for_next_block (db_pool db) size start_of_chain)
    end in
  Ok (MkProposalBatch foreign_proposals transactions evict_nodes).
End batch.

(** ** The commands of the next block *)
Section next_block.
Context `{Kh : !ObjectKeyHashes, Ex : !BlockTransactionExecutor}.
Context (db : ConsensusDb) (cc : ConsensusConstants) (ci : CommitteeInfo) (start_of_chain : BlockRef).
Context (high_pc_block : BlockId). (* the block that the high certificate justifies *)

(** Foreign proposals that cannot be processed are skipped, with what they have
    already changed. *)
Definition propose_foreign (fps : list ForeignProposal) (cb : ProposedBlockChangeSet) :
    res ConsensusError ProposedBlockChangeSet :=
  foldl (λ acc fp,
    let? cb := acc in
    match process_foreign_block db high_pc_block ci fp cb with
    | (Panic, _) => Panic
    | (_, cb) => Ok cb
    end) (Ok cb) fps.

(** The executions and the updates that the foreign proposals and the newly
    justified blocks cause; [justify] gives the certificate and the commands of the
    blocks it newly justifies, oldest first, if the justified block has none yet. *)
Definition propose_change_set (batch : ProposalBatch) (justify : option (list (list Command) * QcId)) :
    res ConsensusError (gmap TransactionId TransactionExecution * ProposedBlockChangeSet) :=
  let cb := change_set_new start_of_chain (ci_shard_group ci) in
  if bool_decide (length (bt_transactions batch) = 0%nat) then Ok (∅, cb)
  else
    let? cb := propose_foreign (bt_foreign_proposals batch) cb in
    let p := take_all_transaction_executions cb in
    match justify with
    | None => Ok p
    | Some (chain, qc) =>
        match process_justified_chain db high_pc_block ci chain qc p.2 with
        | (Ok _, cb) => Ok (p.1, cb)
        | (Err e, _) => Err e
        | (Panic, _) => Panic
        end
    end.

Fixpoint propose_commands (cb : ProposedBlockChangeSet) (ts : list TransactionPoolRecord)
    (commands : list Command) (total_leader_fee : Z) : ProposeM (list Command * Z) :=
  match ts with
  | [] => ret (commands, total_leader_fee)
  | t :: ts =>
      let! c := transaction_pool_record_to_command db cc ci start_of_chain (apply_transaction_update cb t) in
      match c with
      | None => propose_commands cb ts commands total_leader_fee
      | Some c =>
          let! total := lift (u64_add total_leader_fee (leader_fee_of_command c)) in
          propose_commands cb ts (btree_insert c commands) total
      end
  end.

(** [build_next_block] up to the state root: the commands and the total fee. *)
Definition build_commands (can_propose_epoch_end should_not_propose_commands : bool) (batch : ProposalBatch)
    (justify : option (list (list Command) * QcId)) :
    res ConsensusError (list Command * Z) * ProposeState :=
  let batch := if should_not_propose_commands then batch_default else batch in
  let commands :=
    if can_propose_epoch_end then [EndEpoch]
    else btree_from_iter
      (((λ fp, ForeignProposalCmd (fp_block_id fp) (fp_shard_group fp)) <$> bt_foreign_proposals batch) ++
       (EvictNode <$> bt_evict_nodes batch)) in
  match propose_change_set batch justify with
  | Ok (executed, cb) =>
      propose_commands cb (bt_transactions batch) commands 0 (MkProposeState pending_store_new executed [])
  | Err e => (Err e, MkProposeState pending_store_new ∅ [])
  | Panic => (Panic, MkProposeState pending_store_new ∅ [])
  end.
End next_block.
