(* ===== verification/VotingProps.v ===== *)
(** * Lemmas on voting

    How the records of the transactions evolve while the commands of a block are
    evaluated: stages only advance, an abort is never taken back, and a record
    that has reached a final stage stays as it is. *)
From stdpp Require Import base gmap list numbers.
From S2P Require Import Prelude Ids Substate Sharding Committee Blocks BlockStore PendingStore Evidence TransactionPool PoolStore Pledges TransactionManager ChangeSet ForeignProposals CommandVoting.
Open Scope Z_scope.

(** ** Calls that return *)
Definition wlp {S E A : Type} (m : M S E A) (Q : A → S → Prop) (s : S) : Prop :=
  ∀ a s', m s = (Ok a, s') → Q a s'.

Section wlp.
Context {S E : Type}.
Implicit Types s : S.

Lemma wlp_bind {A B : Type} (m : M S E A) (k : A → M S E B) Q s :
  wlp m (λ a s1, wlp (k a) Q s1) s → wlp (bind m k) Q s.
Proof. intros H b s' (a & s1 & Hm & Hk)%bind_Ok. by eapply H. Qed.
Lemma wlp_mono {A : Type} (m : M S E A) (P Q : A → S → Prop) s :
  wlp m P s → (∀ a s', P a s' → Q a s') → wlp m Q s.
Proof. intros HP HPQ a s' Hm. by apply HPQ, HP. Qed.
Lemma wlp_ret {A : Type} (a : A) (Q : A → S → Prop) s : Q a s → wlp (E := E) (ret a) Q s.
Proof. by intros HQ a' s' [= <- <-]. Qed.
Lemma wlp_throw {A : Type} (e : E) (Q : A → S → Prop) s : wlp (throw e) Q s.
Proof. by intros a s' [=]. Qed.
Lemma wlp_panic {A : Type} (Q : A → S → Prop) s : wlp (E := E) panic Q s.
Proof. by intros a s' [=]. Qed.
Lemma wlp_read (Q : S → S → Prop) s : Q s s → wlp (E := E) (λ s, (Ok s, s)) Q s.
Proof. by intros HQ a s' [= <- <-]. Qed.
Lemma wlp_lift {A : Type} (r : res E A) (Q : A → S → Prop) s : (∀ a, r = Ok a → Q a s) → wlp (lift r) Q s.
Proof. intros HQ a s' [= -> <-]. by apply HQ. Qed.
Lemma wlp_modify (f : S → S) (Q : unit → S → Prop) s : Q tt (f s) → wlp (E := E) (modify f) Q s.
Proof. by intros HQ [] s' [= <-]. Qed.
Lemma wlp_for_each {A : Type} (xs : list A) (body : A → M S E unit) (I : S → Prop) s :
  (∀ x s, x ∈ xs → I s → wlp (body x) (λ _, I) s) → I s → wlp (for_each xs body) (λ _, I) s.
Proof.
  revert s. induction xs as [|x xs IH]; intros s Hb HI; simpl; [by apply wlp_ret|].
  apply wlp_bind. eapply wlp_mono; [apply (Hb x); [by left|done]|]. intros [] s' HI'.
  apply IH; [|done]. intros y s'' Hy. apply Hb. by right.
Qed.
End wlp.

Lemma res_err_Ok {E F A : Type} (f : E → F) (r : res E A) a : res_err f r = Ok a ↔ r = Ok a.
Proof. destruct r; simpl; naive_solver. Qed.

(** ** Records *)
Section records.
Implicit Types (t : TransactionPoolRecord) (d : Decision).

(** An abort of the own group or of a foreign one is recorded. *)
Definition aborted t : Prop :=
  (∃ reason, tp_remote_decision t = Some (Abort reason)) ∨ (∃ reason, tp_local_decision t = Some (Abort reason)).

Lemma aborted_current t : aborted t → is_abort (current_decision t) = true.
Proof.
  unfold aborted, current_decision, current_local_decision.
  intros [[reason ->]|[reason ->]]; simpl; [done|]. by destruct (tp_remote_decision t) as [[]|].
Qed.
Lemma commit_not_aborted t : is_commit (current_decision t) = true → ¬ aborted t.
Proof. intros Hc Ha%aborted_current. by destruct (current_decision t). Qed.

(** The order in which a record evolves. *)
Definition rec_le t t' : Prop :=
  tp_transaction_id t' = tp_transaction_id t ∧
  (stage_rank (current_stage t) ≤ stage_rank (current_stage t'))%nat ∧
  (aborted t → aborted t') ∧
  (is_finalising (current_stage t) = true → t' = t).
#[export] Instance rec_le_preorder : PreOrder rec_le.
Proof.
  split; [done|]. intros t1 t2 t3 (H1 & H2 & H3 & H4) (H5 & H6 & H7 & H8). split_and!.
  - congruence.
  - lia.
  - auto.
  - intros Hf. specialize (H4 Hf). subst t2. by apply H8.
Qed.

(** A change that keeps the id and the stage and does not take an abort back. *)
Definition same_stage t t' : Prop :=
  tp_transaction_id t' = tp_transaction_id t ∧ current_stage t' = current_stage t ∧ (aborted t → aborted t').
#[export] Instance same_stage_preorder : PreOrder same_stage.
Proof.
  split; [done|]. intros t1 t2 t3 (H1 & H2 & H3) (H4 & H5 & H6). split_and!; [congruence..|auto].
Qed.

Lemma same_stage_evidence f t : same_stage t (on_evidence f t).
Proof. done. Qed.
Lemma same_stage_fees f l t : same_stage t (set_fees f l t).
Proof. done. Qed.
Lemma same_stage_ready b t : same_stage t (set_ready b t).
Proof. done. Qed.
Lemma same_stage_abort reason t : same_stage t (set_local_decision (Abort reason) t).
Proof. unfold set_local_decision. simpl. split_and!; [done..|]. intros _. right. by eexists. Qed.
Lemma same_stage_local d t : ¬ aborted t → same_stage t (set_local_decision d t).
Proof. intros Hn. unfold set_local_decision, abort_if. destruct (is_abort d); split_and!; done. Qed.
Lemma same_stage_remote d t : same_stage t (set_remote_decision d t).
Proof.
  unfold set_remote_decision, abort_if. split_and!.
  - by destruct (is_abort _).
  - by destruct (is_abort _).
  - unfold aborted. intros [[reason H]|[reason H]].
    + rewrite H. simpl. left. by eexists.
    + right. exists reason. by destruct (is_abort _).
Qed.
Lemma same_stage_execution {E : Type} `{Kh : !ObjectKeyHashes} n c x t t' :
  update_from_execution (E := E) n c x t = Ok t' → same_stage t t'.
Proof.
  unfold update_from_execution. intros H. apply res_bind_Ok in H as (t1 & H1 & [= <-]).
  etransitivity; [|apply same_stage_fees].
  set (t0 := match tp_local_decision t with None | Some Commit => _ | Some (Abort _) => t end) in *.
  assert (same_stage t t0) as H0.
  { subst t0. destruct (tp_local_decision t) as [[|reason]|] eqn:Hl; [|done|];
      unfold set_local_decision, abort_if, aborted; destruct (is_abort _); split_and!; try done; simpl;
      (intros [?|[? ?]]; [by left|congruence]). }
  etransitivity; [exact H0|].
  destruct (is_commit (current_decision t0)); inv_ok; [done|]. apply same_stage_evidence.
Qed.

Lemma advance_rank t stage g t' :
  set_next_stage_and_readiness stage g t = Ok t' →
  current_stage t' = stage ∧ tp_transaction_id t' = tp_transaction_id t ∧
  (stage_rank (current_stage t) ≤ stage_rank stage)%nat ∧ (aborted t → aborted t') ∧
  tp_evidence t' = tp_evidence t ∧ current_decision t' = current_decision t.
Proof.
  unfold set_next_stage_and_readiness. intros H. apply res_bind_Ok in H as ([] & Hc & [= <-]).
  split_and!; try done. unfold check_pending_status_update in Hc.
  revert Hc. generalize (can_continue_to t stage g).
  destruct (current_stage t), stage; intros []; simpl; try discriminate; lia.
Qed.

Lemma same_then_advance t t1 stage g t' :
  same_stage t t1 → set_next_stage_and_readiness stage g t1 = Ok t' →
  is_finalising (current_stage t) = false → rec_le t t'.
Proof.
  intros (H1 & H2 & H3) (H4 & H5 & H6 & H7 & _)%advance_rank Hf. split_and!.
  - congruence.
  - rewrite H4, <- H2. done.
  - auto.
  - by rewrite Hf.
Qed.
Lemma same_stage_le t t' : same_stage t t' → is_finalising (current_stage t) = false → rec_le t t'.
Proof. intros (H1 & H2 & H3) Hf. split_and!; [done|by rewrite H2|done|by rewrite Hf]. Qed.
End records.

(** ** What a block sees of a transaction *)
Section seen.
Context (db : ConsensusDb) (leaf : BlockId).
Implicit Types (cb : ProposedBlockChangeSet) (t : TransactionPoolRecord) (id : TransactionId).

Definition seen cb id : option TransactionPoolRecord :=
  match get_transaction_pool_record db leaf id cb with Ok (Some t) => Some t | _ => None end.
Definition keyed cb : Prop := ∀ id t, seen cb id = Some t → tp_transaction_id t = id.
Definition same_cached cb cb' : Prop := ∀ id, cached_record cb' id = cached_record cb id.
#[export] Instance same_cached_preorder : PreOrder same_cached.
Proof. split; [done|]. intros a b c H1 H2 id. by rewrite H2, H1. Qed.

(** Every record goes forward. *)
Definition progress cb cb' : Prop :=
  keyed cb → keyed cb' ∧ ∀ id t, seen cb id = Some t → ∃ t', seen cb' id = Some t' ∧ rec_le t t'.
#[export] Instance progress_preorder : PreOrder progress.
Proof.
  split; [intros cb Hk; split; [done|]; intros id t Ht; by exists t|].
  intros a b c H1 H2 Hk. destruct (H1 Hk) as [Hk1 H1']. destruct (H2 Hk1) as [Hk2 H2']. split; [done|].
  intros id t Ht. destruct (H1' id t Ht) as (t1 & Ht1 & Hle1). destruct (H2' id t1 Ht1) as (t2 & Ht2 & Hle2).
  exists t2. split; [done|]. by etransitivity.
Qed.

Lemma seen_same cb cb' id : same_cached cb cb' → seen cb' id = seen cb id.
Proof. intros H. unfold seen, get_transaction_pool_record. by rewrite H. Qed.
Lemma progress_same cb cb' : same_cached cb cb' → progress cb cb'.
Proof.
  intros H Hk. split.
  - intros id t. rewrite (seen_same _ _ id H). apply Hk.
  - intros id t Ht. exists t. by rewrite (seen_same _ _ id H).
Qed.

Lemma cached_update t cb id :
  cached_record (set_next_transaction_update t cb) id =
    if decide (id = tp_transaction_id t) then Some t else cached_record cb id.
Proof.
  unfold cached_record, set_next_transaction_update, on_change. simpl.
  destruct (decide (id = tp_transaction_id t)) as [->|Hne].
  - by rewrite lookup_insert_eq.
  - by rewrite lookup_insert_ne by done.
Qed.
Lemma seen_update t cb id :
  seen (set_next_transaction_update t cb) id = if decide (id = tp_transaction_id t) then Some t else seen cb id.
Proof.
  unfold seen, get_transaction_pool_record. rewrite cached_update.
  by destruct (decide (id = tp_transaction_id t)).
Qed.

(** [t] is the record of its transaction, or the transaction is new to the pool. *)
Definition origin cb t : Prop :=
  let id := tp_transaction_id t in
  seen cb id = Some t ∨ (seen cb id = None ∧ current_stage t = New ∧ ¬ aborted t).

Lemma progress_update cb cb1 t t' :
  origin cb t → same_cached cb cb1 → rec_le t t' → progress cb (set_next_transaction_update t' cb1).
Proof.
  intros Ho Hs Hle Hk. pose proof Hle as (Hid & _). split.
  - intros id t1. rewrite seen_update, (seen_same _ _ _ Hs).
    destruct (decide (id = tp_transaction_id t')) as [->|]; [by intros [= <-]|apply Hk].
  - intros id t1 Ht1. rewrite seen_update, (seen_same _ _ _ Hs), Hid.
    destruct (decide (id = tp_transaction_id t)) as [->|Hne]; [|by exists t1].
    exists t'. split; [done|]. destruct Ho as [Ho|[Ho _]]; [|congruence].
    rewrite Ho in Ht1. by injection Ht1 as <-.
Qed.

Lemma same_on_change id f cb :
  (∀ c, tcs_next_update (f c) = tcs_next_update c) → same_cached cb (on_change id f cb).
Proof.
  intros Hf id'. unfold cached_record, on_change, change_of. simpl.
  destruct (decide (id' = id)) as [->|Hne].
  - rewrite lookup_insert_eq, Hf. by destruct (cb_transaction_changes cb !! id).
  - by rewrite lookup_insert_ne by done.
Qed.
Lemma same_pledges id g ps cb : same_cached cb (add_foreign_pledges id g ps cb).
Proof. by apply same_on_change. Qed.
Lemma same_execution id x cb cb' : add_transaction_execution id x cb = Ok cb' → same_cached cb cb'.
Proof.
  unfold add_transaction_execution. destruct (tcs_execution _); [done|]. intros [= <-]. by apply same_on_change.
Qed.
Lemma same_take id cb : same_cached cb (take_transaction_execution id cb).2.
Proof.
  unfold take_transaction_execution. destruct (cb_transaction_changes cb !! id); [|done].
  by apply same_on_change.
Qed.
End seen.

(** ** Foreign blocks *)
Section foreign_progress.
Context `{Kh : !ObjectKeyHashes} (db : ConsensusDb) (leaf : BlockId) (ci : CommitteeInfo).
Hypothesis transactions_keyed : ∀ id tr, db_transactions db !! id = Some tr → tr_id tr = id.
Implicit Types (cb : ProposedBlockChangeSet) (t : TransactionPoolRecord) (id : TransactionId).

Lemma wlp_record_in_block id cb :
  wlp (record_in_block db leaf id) (λ o cb1, cb1 = cb ∧ seen db leaf cb id = o) cb.
Proof.
  unfold record_in_block. apply wlp_bind, wlp_read, wlp_lift. intros o Ho%res_err_Ok.
  split; [done|]. unfold seen. rewrite Ho. by destruct o.
Qed.
Lemma wlp_add_execution id x cb :
  wlp (add_execution id x) (λ _ cb1, same_cached cb cb1 ∧ cb_evict_nodes cb1 = cb_evict_nodes cb) cb.
Proof.
  unfold add_execution. apply wlp_bind, wlp_read, wlp_bind, wlp_lift. intros cb1 H%res_err_Ok.
  intros [] s' [= <-]. split; [by eapply same_execution|].
  unfold add_transaction_execution in H. destruct (tcs_execution _); [done|]. by injection H as <-.
Qed.

Lemma wlp_get_or_sequence id cb :
  keyed db leaf cb →
  wlp (get_or_sequence_transaction db leaf ci id)
    (λ o cb1, same_cached cb cb1 ∧
       match o with None => True | Some t => tp_transaction_id t = id ∧ origin db leaf cb t end) cb.
Proof.
  intros Hk. unfold get_or_sequence_transaction. apply wlp_bind.
  eapply wlp_mono; [apply wlp_record_in_block|]. intros o cb1 [-> Ho].
  destruct o as [t|].
  - apply wlp_ret. split; [done|]. pose proof (Hk _ _ Ho) as Hid. split; [done|]. left. by rewrite Hid.
  - destruct (db_transactions db !! id) as [tr|] eqn:Htr; [|by apply wlp_ret].
    destruct (is_record_finalized db (tr_id tr)); [by apply wlp_ret|].
    apply wlp_bind, wlp_lift. intros ev _. apply wlp_bind, wlp_read, wlp_bind.
    intros [] s' [= <-]. apply wlp_ret. split; [done|]. simpl. rewrite (transactions_keyed _ _ Htr). split; [done|].
    right. split_and!; [done..|]. by intros [[? [=]]|[? [=]]].
Qed.

Lemma wlp_foreign_abort atom t cb :
  wlp (foreign_abort atom t) (λ t' cb1, same_cached cb cb1 ∧ same_stage t t') cb.
Proof.
  unfold foreign_abort. destruct (ta_decision atom); [by apply wlp_ret|].
  destruct (is_commit _); [|by apply wlp_ret]. apply wlp_bind.
  eapply wlp_mono; [apply wlp_add_execution|]. intros [] cb1 [H _]. apply wlp_ret. split; [done|].
  apply same_stage_abort.
Qed.
Lemma wlp_resolve_conflict t cb :
  wlp (resolve_conflict db leaf ci t) (λ t' cb1, same_cached cb cb1 ∧ same_stage t t') cb.
Proof.
  unfold resolve_conflict. destruct (is_commit _); [|by apply wlp_ret].
  destruct (has_any_write_locks_for_substates _ _ _) as [c|]; [|by apply wlp_ret].
  apply wlp_bind. eapply wlp_mono; [apply wlp_record_in_block|]. intros o cb1 [-> _].
  destruct o as [ct|]; [|apply wlp_throw]. destruct (has_conflicts _ _ _); [|by apply wlp_ret].
  apply wlp_bind. eapply wlp_mono; [apply wlp_add_execution|]. intros [] cb1 [H _]. apply wlp_ret.
  split; [done|]. apply same_stage_abort.
Qed.
Lemma wlp_add_pledges t atom pledge g b cb :
  wlp (add_pledges ci t atom pledge g b) (λ _ cb1, same_cached cb cb1) cb.
Proof.
  unfold add_pledges. destruct (ta_decision atom); [|by apply wlp_ret].
  destruct (tp_evidence t !! g) as [e|]; [|apply wlp_throw]. apply wlp_bind, wlp_modify.
  destruct (get_all_pledges_for_evidence pledge e).
  - apply wlp_modify. etransitivity; apply same_pledges.
  - destruct (is_committee_output_only g _); [apply wlp_ret, same_pledges|].
    destruct (negb b && _); [apply wlp_ret, same_pledges|apply wlp_throw].
Qed.
Lemma wlp_advance stage t cb :
  wlp (advance ci stage t)
    (λ t' cb1, cb1 = cb ∧ set_next_stage_and_readiness stage (ci_shard_group ci) t = Ok t') cb.
Proof. apply wlp_lift. by intros t' H%res_err_Ok. Qed.

(** What both handlers choose in the end: the record stays in its stage, or is
    confirmed in it. *)
Lemma wlp_ready_or_not (b : bool) stage t t1 t2 cb :
  same_stage t t1 → same_stage t t2 → is_finalising (current_stage t) = false →
  wlp (if b then advance ci stage t1 else ret t2) (λ t' cb1, cb1 = cb ∧ rec_le t t') cb.
Proof.
  intros H1 H2 Hf. destruct b.
  - eapply wlp_mono; [apply wlp_advance|]. intros t' cb1 [-> H]. split; [done|].
    exact (same_then_advance _ _ _ _ _ H1 H Hf).
  - apply wlp_ret. split; [done|]. by apply same_stage_le.
Qed.

Lemma not_final (stage limit : TransactionPoolStage) :
  (stage_rank limit <? stage_rank stage)%nat = false → (stage_rank limit <= 2)%nat → is_finalising stage = false.
Proof. destruct (Nat.ltb_spec (stage_rank limit) (stage_rank stage)); [done|]. destruct stage; simpl in *; lia || done. Qed.

Lemma wlp_process_local_prepare fp atom cb :
  keyed db leaf cb → wlp (process_local_prepare db leaf ci fp atom) (λ _ cb1, progress db leaf cb cb1) cb.
Proof.
  intros Hk. unfold process_local_prepare. destruct (_ || _); [by apply wlp_ret|]. apply wlp_bind.
  eapply wlp_mono; [by apply wlp_get_or_sequence|]. intros [t|] cb1 [Hs Ho]; [|by apply wlp_ret, progress_same].
  destruct Ho as [_ Ho]. destruct (_ <? _)%nat eqn:Hr; [by apply wlp_ret, progress_same|].
  apply not_final in Hr; [|simpl; lia].
  apply wlp_bind. eapply wlp_mono; [apply wlp_foreign_abort|]. intros t1 cb2 [Hs2 H1].
  apply wlp_bind. unfold foreign_evidence. destruct (ta_evidence atom !! fp_shard_group fp) as [e|]; [|apply wlp_throw].
  apply wlp_ret, wlp_bind. unfold justify_qc_id. destruct (fp_justify_qc fp) as [qc|]; [|apply wlp_throw].
  apply wlp_ret. cbv zeta. set (t2 := set_remote_decision _ _).
  assert (same_stage t t2) as H2 by (etransitivity; [exact H1|]; etransitivity; [apply same_stage_evidence|apply same_stage_remote]).
  clearbody t2. apply wlp_bind. eapply wlp_mono; [apply wlp_resolve_conflict|]. intros t3 cb3 [Hs3 H3].
  assert (same_stage t t3) as H4 by (etransitivity; [exact H2|exact H3]).
  apply wlp_bind. eapply wlp_mono; [apply wlp_add_pledges|]. intros [] cb4 Hs4. apply wlp_bind, wlp_read, wlp_bind.
  assert (same_cached cb cb4) as Hs5 by (do 3 (etransitivity; [|eassumption]); done).
  eapply wlp_mono with (P := λ t' cb1, cb1 = cb4 ∧ rec_le t t').
  - destruct (current_stage t3); try (apply wlp_ret; split; [done|]; by apply same_stage_le).
    + apply wlp_ready_or_not; [by etransitivity; [exact H4|apply same_stage_ready]| |done].
      by destruct (is_abort _); [etransitivity; [exact H4|apply same_stage_ready]|].
    + by apply wlp_ready_or_not.
  - intros t4 cb5 [-> H5]. apply wlp_modify. by eapply progress_update.
Qed.

Lemma wlp_process_local_accept fp atom cb :
  keyed db leaf cb → wlp (process_local_accept db leaf ci fp atom) (λ _ cb1, progress db leaf cb cb1) cb.
Proof.
  intros Hk. unfold process_local_accept. destruct (negb _); [by apply wlp_ret|]. apply wlp_bind.
  eapply wlp_mono; [by apply wlp_get_or_sequence|]. intros [t|] cb1 [Hs Ho]; [|by apply wlp_ret, progress_same].
  destruct Ho as [_ Ho]. destruct (_ <? _)%nat eqn:Hr; [by apply wlp_ret, progress_same|].
  apply not_final in Hr; [|simpl; lia].
  apply wlp_bind. eapply wlp_mono; [apply wlp_foreign_abort|]. intros t1 cb2 [Hs2 H1].
  apply wlp_bind. unfold foreign_evidence. destruct (ta_evidence atom !! fp_shard_group fp) as [e|]; [|apply wlp_throw].
  apply wlp_ret, wlp_bind. unfold justify_qc_id. destruct (fp_justify_qc fp) as [qc|]; [|apply wlp_throw].
  apply wlp_ret. cbv zeta. set (t2 := set_remote_decision _ _).
  assert (same_stage t t2) as H2 by (etransitivity; [exact H1|]; etransitivity; [apply same_stage_evidence|apply same_stage_remote]).
  clearbody t2.
  apply wlp_bind. eapply wlp_mono; [apply wlp_add_pledges|]. intros [] cb4 Hs4. apply wlp_bind, wlp_read, wlp_bind.
  assert (same_cached cb cb4) as Hs5 by (do 2 (etransitivity; [|eassumption]); done).
  eapply wlp_mono with (P := λ t' cb1, cb1 = cb4 ∧ rec_le t t').
  - destruct (current_stage t2); try (apply wlp_ret; split; [done|]; by apply same_stage_le).
    + apply wlp_ready_or_not; [by etransitivity; [exact H2|apply same_stage_ready]| |done].
      by destruct (is_abort _); [etransitivity; [exact H2|apply same_stage_ready]|].
    + by apply wlp_ready_or_not.
    + by apply wlp_ready_or_not.
  - intros t4 cb5 [-> H5]. apply wlp_modify. by eapply progress_update.
Qed.

Lemma wlp_process_foreign_block fp cb :
  keyed db leaf cb → wlp (process_foreign_block db leaf ci fp) (λ _ cb1, progress db leaf cb cb1) cb.
Proof.
  intros Hk. eapply wlp_mono with (P := λ _ cb1, progress db leaf cb cb1); [|done].
  apply wlp_for_each; [|done]. intros cmd cb1 _ H1. destruct (H1 Hk) as [Hk1 _].
  destruct cmd; simpl; try (by apply wlp_ret).
  - eapply wlp_mono; [by apply wlp_process_local_prepare|]. intros [] cb2 H2. by etransitivity.
  - eapply wlp_mono; [by apply wlp_process_local_accept|]. intros [] cb2 H2. by etransitivity.
Qed.
End foreign_progress.

(** ** Locks and preparations leave the changes of the block alone *)
Section prepare_changes.
Context `{Kh : !ObjectKeyHashes, Ex : !BlockTransactionExecutor} (db : ConsensusDb) (block : BlockRef) (ci : CommitteeInfo).

Lemma preserves_map_err {S E F A B : Type} (f : S → B) (g : E → F) (m : M S E A) :
  preserves f m → preserves f (map_err g m).
Proof. intros H s. unfold map_err. simpl. apply H. Qed.
Lemma preserves_try_lock base id lock b : preserves ps_changes (try_lock base block id lock b).
Proof.
  unfold try_lock. apply preserves_bind; [by intros ?|]. intros ps.
  destruct (get_latest_lock_by_id _ _ _).
  - destruct (_ && _); [apply preserves_ret|]. destruct (lock_over _ _ _ _); [by intros ?|by intros ?].
  - apply preserves_bind; [apply preserves_lift|]. intros []. by intros ?.
Qed.
Lemma preserves_try_lock_all base id locks b : preserves ps_changes (try_lock_all base block id locks b).
Proof.
  unfold try_lock_all. generalize lock_status_new. induction locks as [|l locks IH]; intros st s; simpl; [done|].
  pose proof (preserves_try_lock base id l b s) as H.
  destruct (try_lock base block id l b s) as [[[]|[]|] s']; simpl in *; try done.
  - by rewrite IH.
  - destruct (is_hard l e); simpl; [done|]. by rewrite IH.
Qed.
Lemma preserves_lock_all id locks b : preserves ps_changes (lock_all db block id locks b).
Proof. apply preserves_map_err, preserves_try_lock_all. Qed.
Lemma preserves_hard_conflict st : preserves ps_changes (has_hard_conflict st).
Proof. unfold has_hard_conflict. by apply preserves_bind. Qed.
Hint Resolve preserves_lock_all preserves_hard_conflict : ootle.

Lemma preserves_prepare t : preserves ps_changes (prepare db block ci t).
Proof.
  unfold prepare, prepare_local_input_transaction, prepare_multishard_involved_transaction,
    prepare_multishard_output_only_transaction, prepare_multishard_from_execution, prepare_multishard_no_execution.
  repeat first
    [ apply preserves_bind; [eauto with ootle; by intros ?|intros ?]
    | match goal with |- preserves _ (match ?x with _ => _ end) => destruct x end
    | by intros ? ].
Qed.

(** An aborted transaction is not prepared again. *)
Lemma prepare_aborted t ps p ps' :
  aborted t → prepare db block ci t ps = (Ok p, ps') →
  ∃ x, p = MultiShardPrepared (PreparedExecution x) lock_status_new.
Proof.
  intros Ha%aborted_current. unfold prepare. intros H. inv_ok.
  destruct (current_decision t); [done|]. simpl in *. inv_ok. by eexists.
Qed.
End prepare_changes.

(** ** Evaluating a command *)
Section voting_steps.
Context `{Kh : !ObjectKeyHashes, Ex : !BlockTransactionExecutor}.
Context (db : ConsensusDb) (env : VoteEnv) (cc : ConsensusConstants) (ci : CommitteeInfo) (block : ProposedBlock).
Hypothesis transactions_keyed : ∀ id tr, db_transactions db !! id = Some tr → tr_id tr = id.
Implicit Types (s : VoteState) (t : TransactionPoolRecord) (id : TransactionId) (x : TransactionExecution).

Notation seen_in s := (seen db (br_block_id (pb_ref block)) (vs_changes s)).
Notation progress_in := (progress db (br_block_id (pb_ref block))).

Lemma wlp_no_vote_if b reason (Q : unit → VoteState → Prop) s :
  (b = false → Q tt s) → wlp (no_vote_if b reason) Q s.
Proof. destruct b; intros H; [apply wlp_throw|]. by apply wlp_ret, H. Qed.
Lemma wlp_lift_res {E A : Type} (f : E → ConsensusError) (r : res E A) (Q : A → VoteState → Prop) s :
  (∀ a, r = Ok a → Q a s) → wlp (lift_res f r) Q s.
Proof. intros H. apply wlp_lift. intros a Ha%res_err_Ok. by apply H. Qed.
Lemma wlp_vote_change_set {A : Type} (m : ChangeM A) (Q : A → VoteState → Prop) s :
  wlp m (λ a cb, Q a (MkVoteState cb (vs_store s) (vs_total_leader_fee s))) (vs_changes s) →
  wlp (vote_change_set m) Q s.
Proof. intros H a s' Hm. apply zoom_Ok in Hm as (cb & Hm & ->). apply map_err_Ok in Hm. by apply H. Qed.
Lemma wlp_pool_record id (Q : TransactionPoolRecord → VoteState → Prop) s :
  (∀ t, seen_in s id = Some t → Q t s) → wlp (pool_record db block id) Q s.
Proof.
  intros H. unfold pool_record, vote_record. apply wlp_bind, wlp_vote_change_set.
  eapply wlp_mono; [apply wlp_record_in_block|]. intros o cb [-> Ho]. destruct s as [cb ps fee]; simpl in *.
  destruct o as [t|]; [by apply wlp_ret, H|apply wlp_throw].
Qed.
Lemma wlp_prepare_in_block t (Q : PreparedTransaction → VoteState → Prop) s :
  (∀ p ps, prepare db (pb_ref block) ci t (vs_store s) = (Ok p, ps) →
     ps_changes ps = ps_changes (vs_store s) → Q p (MkVoteState (vs_changes s) ps (vs_total_leader_fee s))) →
  wlp (prepare_in_block db ci block t) Q s.
Proof.
  intros H a s' Hm. apply zoom_Ok in Hm as (ps & Hm & ->). apply map_err_Ok in Hm. apply H; [done|].
  eapply preserves_Ok; [apply preserves_prepare|exact Hm].
Qed.
Lemma wlp_vote_store {A : Type} (m : StoreM A) (Q : A → VoteState → Prop) s :
  (∀ a ps, m (vs_store s) = (Ok a, ps) → Q a (MkVoteState (vs_changes s) ps (vs_total_leader_fee s))) →
  wlp (vote_store m) Q s.
Proof. intros H a s' Hm. apply zoom_Ok in Hm as (ps & Hm & ->). apply map_err_Ok in Hm. by apply H. Qed.

(** The state is the same but for executions, locks and, if [b], changes. *)
Definition quiet (b : bool) s s' : Prop :=
  same_cached (vs_changes s) (vs_changes s') ∧
  cb_evict_nodes (vs_changes s') = cb_evict_nodes (vs_changes s) ∧
  (b = false → ps_changes (vs_store s') = ps_changes (vs_store s)).
#[export] Instance quiet_preorder b : PreOrder (quiet b).
Proof.
  split; [done|]. intros s1 s2 s3 (H1 & H2 & H3) (H4 & H5 & H6).
  split_and!; [by etransitivity|congruence|]. intros Hb. rewrite H6, H3 by done. done.
Qed.

Lemma wlp_vote_add_execution id x (Q : unit → VoteState → Prop) s :
  (∀ s', quiet false s s' → vs_total_leader_fee s' = vs_total_leader_fee s → vs_store s' = vs_store s → Q tt s') →
  wlp (vote_add_execution id x) Q s.
Proof.
  intros H. apply wlp_vote_change_set. eapply wlp_mono; [apply wlp_add_execution|].
  intros [] cb [Hs He]. by apply H.
Qed.
Lemma wlp_take_execution id (Q : option TransactionExecution → VoteState → Prop) s :
  (∀ o s', quiet false s s' → vs_total_leader_fee s' = vs_total_leader_fee s → vs_store s' = vs_store s → Q o s') →
  wlp (take_execution id) Q s.
Proof.
  intros H o s' [= <- <-]. apply H; [|done..]. split_and!; [apply same_take| |done]. simpl.
  unfold take_transaction_execution. by destruct (cb_transaction_changes _ !! id).
Qed.
Lemma wlp_add_leader_fee fee (Q : unit → VoteState → Prop) s :
  Q tt (MkVoteState (vs_changes s) (vs_store s) (vs_total_leader_fee s + fee)) → wlp (add_leader_fee fee) Q s.
Proof.
  intros H [] s'. unfold add_leader_fee, u64_add, u64_checked_add.
  destruct (uint_checked _ _) as [z|] eqn:Hz; simpl; [|done]. apply uint_checked_Some in Hz as [-> _].
  by intros [= <-].
Qed.
Lemma wlp_vote_next_stage stage t (Q : unit → VoteState → Prop) s :
  (∀ t', set_next_stage_and_readiness stage (pb_shard_group block) t = Ok t' →
     Q tt (MkVoteState (set_next_transaction_update t' (vs_changes s)) (vs_store s) (vs_total_leader_fee s))) →
  wlp (vote_next_stage block stage t) Q s.
Proof.
  intros H. unfold vote_next_stage. apply wlp_bind, wlp_lift_res. intros t' Ht'.
  apply wlp_vote_change_set, wlp_modify. by apply H.
Qed.
Lemma wlp_num_involved t (Q : Z → VoteState → Prop) s : (∀ n, Q n s) → wlp (num_involved t) Q s.
Proof. intros H. unfold num_involved. case_bool_decide; [apply wlp_throw|]. apply wlp_ret, H. Qed.
Lemma wlp_calculate_fee t n (Q : LeaderFee → VoteState → Prop) s : (∀ f, Q f s) → wlp (calculate_fee cc t n) Q s.
Proof. intros H. apply wlp_lift_res. intros f _. apply H. Qed.
Lemma wlp_record_execution x t (Q : TransactionPoolRecord → VoteState → Prop) s :
  (∀ ev, Q (set_evidence ev (set_transaction_fee (execution_fee x) (set_local_decision (execution_decision x) t))) s) →
  wlp (record_execution ci x t) Q s.
Proof. intros H. unfold record_execution. apply wlp_bind, wlp_lift_res. intros ev _. by apply wlp_ret, H. Qed.

(** What evaluating a command does. *)
Definition committed_record c s s' : Prop :=
  ∀ a, committing c = Some a →
    ∃ t t', seen_in s (ta_id a) = Some t ∧ ¬ aborted t ∧ seen_in s' (ta_id a) = Some t' ∧
      is_finalising (current_stage t') = true ∧ current_decision t' = Commit.
Definition evictions_of (c : Command) : list PublicKeyBytes :=
  match c with EvictNode pk => [pk] | _ => [] end.
Record cmd_step (c : Command) (s s' : VoteState) : Prop := MkCmdStep {
  step_progress : progress_in (vs_changes s) (vs_changes s');
  step_fee : vs_total_leader_fee s' = vs_total_leader_fee s + leader_fee_of_command c;
  step_changes : committing c = None → ps_changes (vs_store s') = ps_changes (vs_store s);
  step_evict : cb_evict_nodes (vs_changes s') = cb_evict_nodes (vs_changes s) ++ evictions_of c;
  step_committed : committed_record c s s';
}.

(** A command for a transaction ends with an update of its record. *)
Lemma tx_step c s s1 t t' stage b fee :
  keyed db (br_block_id (pb_ref block)) (vs_changes s) →
  seen_in s (tp_transaction_id t) = Some t → quiet b s s1 → rec_le t t' →
  fee = vs_total_leader_fee s + leader_fee_of_command c →
  (committing c = None → b = false) → evictions_of c = [] → current_stage t' = stage →
  (∀ a, committing c = Some a → ta_id a = tp_transaction_id t ∧ ¬ aborted t ∧ is_finalising stage = true ∧
      current_decision t' = Commit) →
  cmd_step c s (MkVoteState (set_next_transaction_update t' (vs_changes s1)) (vs_store s1) fee).
Proof.
  intros Hk Hseen (Hs & He & Hch) Hle Hfee Hb Hev Hst Hcom. split; simpl.
  - eapply progress_update; [left; exact Hseen|done|done].
  - done.
  - intros Hn. by apply Hch, Hb.
  - by rewrite He, Hev, app_nil_r.
  - intros a Ha. destruct (Hcom a Ha) as (Hid & Hna & Hf & Hd). exists t, t'. rewrite Hid.
    split_and!; try done; [|by rewrite Hst]. simpl. rewrite seen_update. destruct Hle as (Hid' & _).
    rewrite Hid'. by rewrite decide_True by done.
Qed.

Hint Resolve wlp_ret wlp_throw : ootle.
Ltac wlp_go :=
  repeat match goal with
  | |- wlp (bind _ _) _ _ => apply wlp_bind
  | |- wlp (no_vote_if _ _) _ _ => apply wlp_no_vote_if; intros ?
  | |- wlp (no_vote _) _ _ => apply wlp_throw
  | |- wlp (throw _) _ _ => apply wlp_throw
  | |- wlp (ret _) _ _ => apply wlp_ret
  | |- wlp (lift_res _ _) _ _ => apply wlp_lift_res; intros ? ?
  | |- wlp (calculate_fee _ _ _) _ _ => apply wlp_calculate_fee; intros ?
  | |- wlp (num_involved _) _ _ => apply wlp_num_involved; intros ?
  | |- wlp (record_execution _ _ _) _ _ => apply wlp_record_execution; intros ?
  | |- wlp (add_leader_fee _) _ _ => apply wlp_add_leader_fee
  end.

Lemma stage_new_not_final t : bool_decide (current_stage t ≠ New) = false → is_finalising (current_stage t) = false.
Proof. case_bool_decide as H; [done|]. intros _. by rewrite H. Qed.

(** The end of every command for a transaction: its record is moved to [stage]. *)
Lemma finish_step c s s1 t t1 stage b :
  keyed db (br_block_id (pb_ref block)) (vs_changes s) →
  seen_in s (tp_transaction_id t) = Some t → is_finalising (current_stage t) = false →
  quiet b s s1 → same_stage t t1 →
  vs_total_leader_fee s1 = vs_total_leader_fee s + leader_fee_of_command c →
  (committing c = None → b = false) → evictions_of c = [] →
  (∀ a, committing c = Some a → ta_id a = tp_transaction_id t ∧ ¬ aborted t ∧ is_finalising stage = true ∧
      current_decision t1 = Commit) →
  wlp (vote_next_stage block stage t1) (λ _ s', cmd_step c s s') s1.
Proof.
  intros Hk Hseen Hf Hq Hss Hfee Hb Hev Hcom. apply wlp_vote_next_stage. intros t' Ht'.
  pose proof (advance_rank _ _ _ _ Ht') as (Hst & _ & _ & _ & _ & Hd).
  eapply tx_step; try eassumption; [by eapply same_then_advance|].
  intros a Ha. destruct (Hcom a Ha) as (? & ? & ? & ?). split_and!; congruence.
Qed.

Lemma local_only_step atom s :
  keyed db (br_block_id (pb_ref block)) (vs_changes s) →
  wlp (evaluate_local_only_command db cc ci block atom) (λ _ s', cmd_step (LocalOnly atom) s s') s.
Proof.
  intros Hk. unfold evaluate_local_only_command. apply wlp_bind, wlp_pool_record. intros t Ht.
  pose proof (Hk _ _ Ht) as Hid. rewrite <- Hid in Ht. wlp_go. apply stage_new_not_final in H as Hnf.
  apply wlp_prepare_in_block. intros p ps Hp Hch.
  apply wlp_bind. destruct p as [[x st|x]|? ?]; [| |apply wlp_throw].
  - assert (¬ aborted t) as Hna by (intros Ha; by destruct (prepare_aborted _ _ _ _ _ _ _ Ha Hp)).
    wlp_go. set (t1 := set_evidence _ _) in *.
    assert (same_stage t t1) as Hss by (subst t1; by apply (same_stage_local (execution_decision x) t Hna)).
    clearbody t1. apply bool_decide_eq_false, dec_stable in H0.
    eapply wlp_mono with (P := λ _ s2, quiet (is_commit (ta_decision atom)) s s2 ∧
      vs_total_leader_fee s2 = vs_total_leader_fee s + leader_fee_of_command (LocalOnly atom)).
    + rewrite H0. unfold leader_fee_of_command. simpl. destruct (is_commit (ta_decision atom)) eqn:Hd; simpl.
      * apply wlp_bind. eapply wlp_mono with (P := λ _ s2, quiet true s s2 ∧
          vs_total_leader_fee s2 = vs_total_leader_fee s).
        { destruct (ex_any_accept _); [|by apply wlp_ret]. by apply wlp_vote_store. }
        intros [] s2 [Hq Hfee]. destruct (ta_leader_fee atom) as [fee|] eqn:Hlf; [|apply wlp_throw].
        wlp_go. apply bool_decide_eq_false, dec_stable in H2. split; [done|]. unfold committing, filter_atom.
        rewrite Hd, Hlf, <- H2. simpl. by rewrite Hfee.
      * apply wlp_ret. split; [done|]. unfold committing, filter_atom. rewrite Hd. simpl. lia.
    + intros [] s2 [Hq Hfee]. apply wlp_bind, wlp_vote_add_execution. intros s3 Hq3 Hfee3 Hst3.
      apply wlp_ret. eapply (finish_step _ s s3 t t1 _ (is_commit (ta_decision atom))); try done.
      * etransitivity; [exact Hq|]. destruct Hq3 as (? & ? & Hq3). split_and!; [done..|]. intros _. by apply Hq3.
      * congruence.
      * unfold committing, filter_atom. by destruct (ta_decision atom).
      * unfold committing, filter_atom. intros a. rewrite H0. destruct (ta_decision atom) eqn:Hd; [|done]. by intros [= <-].
  - assert (¬ aborted t) as Hna by (intros Ha; by destruct (prepare_aborted _ _ _ _ _ _ _ Ha Hp)).
    wlp_go. set (t1 := set_evidence _ _) in *.
    assert (same_stage t t1) as Hss by (subst t1; by apply (same_stage_local (execution_decision x) t Hna)).
    clearbody t1. apply wlp_vote_add_execution. intros s3 Hq3 Hfee3 Hst3. apply wlp_ret.
    assert (committing (LocalOnly atom) = None) as Hc by (unfold committing, filter_atom; by destruct (ta_decision atom)).
    eapply (finish_step _ s s3 t t1 _ false); try done.
    + destruct Hq3 as (? & ? & Hq3). split_and!; [done..|]. intros _. rewrite Hst3. done.
    + rewrite Hfee3. unfold leader_fee_of_command. rewrite Hc. simpl. lia.
    + rewrite Hc. done.
Qed.

Lemma wlp_initial_prepare t atom s :
  wlp (initial_prepare_multishard db cc ci block t atom)
    (λ t1 s1, quiet false s s1 ∧ vs_total_leader_fee s1 = vs_total_leader_fee s ∧ same_stage t t1 ∧
       is_finalising (current_stage t) = false) s.
Proof.
  unfold initial_prepare_multishard. apply wlp_bind, wlp_no_vote_if. intros Hn%stage_new_not_final.
  apply wlp_bind, wlp_take_execution. intros o s1 Hq1 Hfee1 Hst1. apply wlp_bind.
  eapply wlp_mono with (P := λ p s2, quiet false s s2 ∧ vs_total_leader_fee s2 = vs_total_leader_fee s ∧
    (aborted t → ∃ x st, p = MultiShardPrepared (PreparedExecution x) st)).
  { assert (wlp (prepare_in_block db ci block t) (λ p s2, quiet false s s2 ∧
      vs_total_leader_fee s2 = vs_total_leader_fee s ∧
      (aborted t → ∃ x st, p = MultiShardPrepared (PreparedExecution x) st)) s1) as Hprep.
    { apply wlp_prepare_in_block. intros p ps Hp Hch. split_and!.
      - destruct Hq1 as (? & ? & Hq1). split_and!; [done..|]. intros _. simpl. by rewrite Hch, Hst1.
      - done.
      - intros Ha. destruct (prepare_aborted _ _ _ _ _ _ _ Ha Hp) as [x ->]. by eexists _, _. }
    destruct o as [x|]; [|done]. destruct (is_abort _); [|done].
    apply wlp_ret. split_and!; [done..|]. intros _. by eexists _, _. }
  intros p s2 (Hq2 & Hfee2 & Hab). destruct p as [|m st]; [apply wlp_throw|]. wlp_go.
  destruct m as [ev|x].
  - apply wlp_ret. split_and!; [done..| |done]. unfold merge_record_evidence.
    etransitivity; [|apply same_stage_evidence].
    etransitivity; [apply (same_stage_evidence (add_shard_group (ci_shard_group ci)))|].
    apply same_stage_local. intros Ha. change (aborted t) in Ha. destruct (Hab Ha) as (? & ? & [=]).
  - apply wlp_bind, wlp_lift_res. intros t1 Ht1%same_stage_execution. apply wlp_bind.
    eapply wlp_mono with (P := λ t2 s3, s3 = s2 ∧ same_stage t1 t2).
    { destruct (_ && _); wlp_go; (split; [done|]); [apply same_stage_fees|done]. }
    intros t2 s3 [-> H2]. apply wlp_bind, wlp_vote_add_execution. intros s3 Hq3 Hfee3 Hst3. apply wlp_ret.
    split_and!; [by etransitivity|congruence| |done].
    etransitivity; [|exact H2]. etransitivity; [|exact Ht1]. apply same_stage_evidence.
Qed.

Lemma local_prepare_step atom s :
  keyed db (br_block_id (pb_ref block)) (vs_changes s) →
  wlp (evaluate_local_prepare_command db cc ci block atom) (λ _ s', cmd_step (LocalPrepare atom) s s') s.
Proof.
  intros Hk. unfold evaluate_local_prepare_command. apply wlp_bind, wlp_pool_record. intros t Ht.
  pose proof (Hk _ _ Ht) as Hid. rewrite <- Hid in Ht. apply wlp_bind, wlp_no_vote_if. intros _.
  apply wlp_bind. eapply wlp_mono; [apply wlp_initial_prepare|]. intros t1 s1 (Hq & Hfee & Hss & Hf). wlp_go.
  eapply (finish_step _ s s1 t t1 _ false); try done. rewrite Hfee. unfold leader_fee_of_command. simpl. lia.
Qed.

(** The record after the execution of a prepared transaction; when its outputs
    cannot be locked, the command is done. *)
Lemma wlp_accept_prepared t atom s :
  keyed db (br_block_id (pb_ref block)) (vs_changes s) → seen_in s (tp_transaction_id t) = Some t →
  wlp (accept_prepared db ci block t atom)
    (λ o s1, match o with
             | Some t1 => quiet false s s1 ∧ vs_total_leader_fee s1 = vs_total_leader_fee s ∧ same_stage t t1 ∧
                 is_finalising (current_stage t) = false
             | None => cmd_step (LocalAccept atom) s s1
             end) s.
Proof.
  intros Hk Ht. unfold accept_prepared. apply wlp_bind, wlp_no_vote_if. intros Hst%bool_decide_eq_false%dec_stable.
  assert (is_finalising (current_stage t) = false) as Hf by (by rewrite Hst).
  wlp_go. eapply wlp_mono with (P := λ x s1, s1 = s).
  { unfold execute_transaction. wlp_go. destruct a1; wlp_go; done. }
  intros x s1 ->. wlp_go. rename a1 into t1. apply same_stage_execution in H2 as Hss.
  eapply wlp_mono with (P := λ _ s1, quiet false s s1 ∧ vs_total_leader_fee s1 = vs_total_leader_fee s).
  { destruct (is_commit _); wlp_go; [|done]. apply wlp_vote_store. intros st ps Hps. apply wlp_ret.
    split; [|done]. split_and!; [done..|]. intros _. simpl.
    eapply preserves_Ok; [apply preserves_try_lock_all|exact Hps]. }
  intros failed s1 [Hq Hfee]. destruct failed; wlp_go.
  - rename a1 into t2. apply wlp_vote_add_execution. intros s2 Hq2 Hfee2 Hst2. wlp_go.
    apply wlp_vote_change_set, wlp_modify. apply wlp_ret.
    eapply (tx_step _ s s2 t t2 _ false); try done.
    + by etransitivity.
    + eapply same_then_advance; [|exact H4|done]. etransitivity; [exact Hss|].
      unfold no_leader_fee, set_transaction_fee.
      do 2 (etransitivity; [|apply same_stage_fees]). apply same_stage_abort.
    + rewrite Hfee2, Hfee. unfold leader_fee_of_command. simpl. lia.
  - apply wlp_vote_add_execution. intros s2 Hq2 Hfee2 Hst2. apply wlp_ret.
    split_and!; [by etransitivity|congruence|done|done].
Qed.

Lemma local_accept_step atom s :
  keyed db (br_block_id (pb_ref block)) (vs_changes s) →
  wlp (evaluate_local_accept_command db cc ci block atom) (λ _ s', cmd_step (LocalAccept atom) s s') s.
Proof.
  intros Hk. unfold evaluate_local_accept_command. apply wlp_bind, wlp_pool_record. intros t Ht.
  pose proof (Hk _ _ Ht) as Hid. rewrite <- Hid in Ht. apply wlp_bind.
  eapply wlp_mono with (P := λ o s1, match o with
    | Some t1 => quiet false s s1 ∧ vs_total_leader_fee s1 = vs_total_leader_fee s ∧ same_stage t t1
    | None => cmd_step (LocalAccept atom) s s1
    end).
  { case_bool_decide.
    - apply wlp_bind. eapply wlp_mono; [apply wlp_initial_prepare|]. intros t1 s1 (? & ? & ? & ?). wlp_go. done.
    - destruct (is_commit _); [|by apply wlp_ret].
      eapply wlp_mono; [by apply wlp_accept_prepared|]. by intros [t1|] s1; [intros (? & ? & ? & ?)|]. }
  intros [t1|] s1; [|intros H; by apply wlp_ret]. intros (Hq & Hfee & Hss). wlp_go.
  eapply wlp_mono with (P := λ t2 s2, s2 = s1 ∧ same_stage t t2).
  { destruct (is_commit _).
    - destruct (ta_leader_fee atom); [|apply wlp_throw]. wlp_go. split; [done|].
      etransitivity; [exact Hss|apply same_stage_fees].
    - wlp_go. done. }
  intros t2 s2 [-> Hss2]. wlp_go. apply wlp_vote_next_stage. intros t' Ht'.
  pose proof (advance_rank _ _ _ _ Ht') as (Hst & _ & Hr & _).
  assert (is_finalising (current_stage t) = false) as Hf.
  { destruct Hss2 as (_ & <- & _). by destruct (current_stage t2); simpl in *; try lia. }
  eapply (tx_step _ s s1 t t' _ false); try done; [by eapply same_then_advance|].
  rewrite Hfee. unfold leader_fee_of_command. simpl. lia.
Qed.

Lemma all_accept_step atom s :
  keyed db (br_block_id (pb_ref block)) (vs_changes s) →
  wlp (evaluate_all_accept_command db cc ci block atom) (λ _ s', cmd_step (AllAccept atom) s s') s.
Proof.
  intros Hk. unfold evaluate_all_accept_command. apply wlp_bind, wlp_no_vote_if. intros Hcommit.
  apply wlp_bind, wlp_pool_record. intros t Ht. pose proof (Hk _ _ Ht) as Hid. rewrite <- Hid in Ht.
  apply wlp_bind, wlp_no_vote_if. intros Hst%bool_decide_eq_false%dec_stable.
  apply wlp_bind, wlp_no_vote_if. intros Hd.
  assert (current_decision t = Commit) as Hd' by (by destruct (current_decision t)).
  assert (¬ aborted t) as Hna by (apply commit_not_aborted; by rewrite Hd').
  apply wlp_bind, wlp_no_vote_if. intros _.
  destruct (ta_leader_fee atom) as [fee|] eqn:Hlf; [|apply wlp_throw].
  destruct (leader_fee_of t) as [lfee|]; [|apply wlp_throw]. wlp_go.
  destruct a0 as [x|]; [|apply wlp_throw]. destruct (ex_any_accept _) as [diff|]; [|apply wlp_throw]. wlp_go.
  apply wlp_vote_store. intros [] ps Hps.
  assert (committing (AllAccept atom) = Some atom) as Hc
    by (unfold committing, filter_atom; by destruct (ta_decision atom)).
  eapply (finish_step _ s _ t t _ true); try done.
  - by rewrite Hst.
  - simpl. unfold leader_fee_of_command. by rewrite Hc, Hlf.
  - by rewrite Hc.
  - rewrite Hc. by intros ? [= <-].
Qed.

Lemma some_accept_step atom s :
  keyed db (br_block_id (pb_ref block)) (vs_changes s) →
  wlp (evaluate_some_accept_command db block atom) (λ _ s', cmd_step (SomeAccept atom) s s') s.
Proof.
  intros Hk. unfold evaluate_some_accept_command. apply wlp_bind, wlp_no_vote_if. intros _.
  apply wlp_bind, wlp_pool_record. intros t Ht. pose proof (Hk _ _ Ht) as Hid. rewrite <- Hid in Ht.
  apply wlp_bind, wlp_no_vote_if. intros Hst%bool_decide_eq_false%dec_stable. wlp_go.
  eapply (finish_step _ s s t t _ false); try done; [by rewrite Hst|].
  unfold leader_fee_of_command. simpl. lia.
Qed.

(** Foreign proposals do not evict nodes. *)
Lemma preserves_add_execution id x : preserves cb_evict_nodes (add_execution id x).
Proof.
  intros cb. unfold add_execution, bind, get_change_set, lift, put_change_set, add_transaction_execution. simpl.
  by destruct (tcs_execution _).
Qed.
Lemma preserves_get_or_sequence id :
  preserves cb_evict_nodes (get_or_sequence_transaction db (br_block_id (pb_ref block)) ci id).
Proof.
  intros cb. unfold get_or_sequence_transaction, record_in_block, bind, get_change_set, lift. simpl.
  destruct (res_err _ _) as [[t|]| |]; [done| |done..]. destruct (db_transactions db !! id); [|done].
  destruct (is_record_finalized _ _); [done|]. by destruct (from_inputs_and_outputs _ _ _ _).
Qed.
Lemma foreign_keeps_evictions fp :
  preserves cb_evict_nodes (process_foreign_block db (br_block_id (pb_ref block)) ci fp).
Proof.
  apply preserves_for_each. intros cmd.
  destruct cmd; simpl; try apply preserves_ret;
  unfold process_local_prepare, process_local_accept, record_in_block, foreign_abort,
    resolve_conflict, add_pledges, foreign_evidence, justify_qc_id, advance, next_update;
  repeat first
    [ apply preserves_bind; [first [apply preserves_add_execution | apply preserves_get_or_sequence | by intros ? | idtac]|intros ?]
    | match goal with |- preserves _ (match ?x with _ => _ end) => destruct x end
    | apply preserves_add_execution
    | by intros ? ].
Qed.

Lemma foreign_step block_id g s :
  keyed db (br_block_id (pb_ref block)) (vs_changes s) →
  wlp (evaluate_foreign_proposal_command db env ci block block_id)
    (λ _ s', cmd_step (ForeignProposalCmd block_id g) s s') s.
Proof.
  intros Hk. unfold evaluate_foreign_proposal_command. apply wlp_bind, wlp_read. wlp_go.
  destruct (ve_foreign_proposals env !! block_id) as [[fp status]|]; [|apply wlp_throw]. wlp_go.
  intros [] s1 Hs1.
  destruct (vote_change_set (process_foreign_block db (br_block_id (pb_ref block)) ci fp) s) as [r s2] eqn:Hr.
  destruct r as [[]|e|]; simplify_eq. apply wlp_vote_change_set, wlp_modify.
  apply zoom_Ok in Hr as (cb & Hr & ->). apply map_err_Ok in Hr.
  pose proof (wlp_process_foreign_block db (br_block_id (pb_ref block)) ci transactions_keyed fp _ Hk _ _ Hr) as Hp.
  pose proof (preserves_Ok _ _ _ _ _ (foreign_keeps_evictions fp) Hr) as He.
  split; simpl; try done.
  - unfold leader_fee_of_command. simpl. lia.
  - by rewrite app_nil_r.
Qed.

Lemma evict_step pk s :
  wlp (evaluate_evict_node_command env cc ci pk) (λ _ s', cmd_step (EvictNode pk) s s') s.
Proof.
  unfold evaluate_evict_node_command. wlp_go. apply wlp_read. wlp_go.
  destruct (ve_missed_proposals env !! pk) as [missed|]; [|apply wlp_throw]. wlp_go.
  apply wlp_vote_change_set, wlp_modify. split; simpl; try done; [by apply progress_same|].
  unfold leader_fee_of_command. simpl. lia.
Qed.

Lemma command_step b c s :
  keyed db (br_block_id (pb_ref block)) (vs_changes s) →
  wlp (evaluate_command db env cc ci block b c) (λ _ s', cmd_step c s s') s.
Proof.
  intros Hk. destruct c; simpl.
  - by apply local_only_step.
  - by apply local_prepare_step.
  - by apply local_accept_step.
  - by apply all_accept_step.
  - by apply some_accept_step.
  - by apply foreign_step.
  - apply evict_step.
  - unfold evaluate_end_epoch_command. wlp_go. split; simpl; try done.
    + unfold leader_fee_of_command. simpl. lia.
    + by rewrite app_nil_r.
Qed.

(** ** All commands of a block *)
Definition total_fee (cs : list Command) : Z := foldr (λ c z, leader_fee_of_command c + z) 0 cs.
Record cmds_step (cs : list Command) (s s' : VoteState) : Prop := MkCmdsStep {
  steps_progress : progress_in (vs_changes s) (vs_changes s');
  steps_fee : vs_total_leader_fee s' = vs_total_leader_fee s + total_fee cs;
  steps_changes : Forall (λ c, committing c = None) cs → ps_changes (vs_store s') = ps_changes (vs_store s);
  steps_evict : cb_evict_nodes (vs_changes s') = cb_evict_nodes (vs_changes s) ++ (cs ≫= evictions_of);
  steps_committed : ∀ c a, c ∈ cs → committing c = Some a →
    ∃ t', seen_in s' (ta_id a) = Some t' ∧ is_finalising (current_stage t') = true ∧
      current_decision t' = Commit ∧ (∀ t, seen_in s (ta_id a) = Some t → ¬ aborted t);
}.

Lemma commands_step b cs s :
  keyed db (br_block_id (pb_ref block)) (vs_changes s) →
  wlp (for_each cs (evaluate_command db env cc ci block b)) (λ _ s', cmds_step cs s s') s.
Proof.
  revert s. induction cs as [|c cs IH]; intros s Hk; simpl.
  { apply wlp_ret. split; try done; [unfold total_fee; simpl; lia|by rewrite app_nil_r|]. by intros ? ? ?%not_elem_of_nil. }
  apply wlp_bind. eapply wlp_mono; [by apply command_step|]. intros [] s1 [Hp Hf Hc He Hm].
  destruct (Hp Hk) as [Hk1 Hp1]. eapply wlp_mono; [by apply IH|]. intros [] s2 [Hp2 Hf2 Hc2 He2 Hm2].
  destruct (Hp2 Hk1) as [_ Hp3]. split.
  - by etransitivity.
  - unfold total_fee in *. simpl. lia.
  - intros H. apply list.Forall_cons in H as [H1 H2]. by rewrite Hc2, Hc.
  - by rewrite He2, He, <- app_assoc.
  - intros c' a Hin Ha. apply elem_of_cons in Hin as [-> | Hin].
    + destruct (Hm a Ha) as (t & t1 & Ht & Hna & Ht1 & Hfin & Hd).
      destruct (Hp3 _ _ Ht1) as (t2 & Ht2 & Hle). destruct Hle as (_ & _ & _ & Hfz).
      specialize (Hfz Hfin). subst t2. exists t1. split_and!; [done..|]. intros t0 Ht0. congruence.
    + destruct (Hm2 c' a Hin Ha) as (t' & Ht' & Hfin & Hd & Hna). exists t'. split_and!; [done..|].
      intros t Ht. destruct (Hp1 _ _ Ht) as (t1 & Ht1 & _ & _ & Hab & _). intros H. by apply (Hna t1 Ht1), Hab.
Qed.
End voting_steps.
