(* ===== verification/CrossShard.v ===== *)
(** * Voting: theorems

    What a vote for a block guarantees about the transactions in it
    ([decide_what_to_vote]), and what the evaluation of the commands does not
    check. *)
From stdpp Require Import base gmap list numbers.
From S2P Require Import Prelude Ids Substate Sharding Committee Blocks BlockStore HotStuffSafety HotStuffRuns PendingStore Evidence TransactionPool PoolStore Pledges TransactionManager ChangeSet ForeignProposals CommandVoting VotingProps.
Open Scope Z_scope.

Section voted.
Context `{Kh : !ObjectKeyHashes, Ex : !BlockTransactionExecutor}.
Context (db : ConsensusDb) (env : VoteEnv) (cc : ConsensusConstants) (ci : CommitteeInfo) (block : ProposedBlock).
Context (root : ShardGroup → list SubstateChange → res ConsensusError N) (claim : PublicKeyBytes) (epoch_end : bool).

Notation decide_block := (decide_what_to_vote db env cc ci block root claim epoch_end).
Notation seen_at cb := (seen db (br_block_id (pb_ref block)) cb).
Notation start cb := (MkVoteState cb pending_store_new 0).
Notation keyed_at cb := (keyed db (br_block_id (pb_ref block)) cb).

(** The tables are keyed by the ids of what they hold. *)
Definition tables_keyed cb : Prop :=
  keyed_at cb ∧ ∀ id tr, db_transactions db !! id = Some tr → tr_id tr = id.

(** A vote: all commands have been evaluated, the total fee is that of the block,
    and the changes are those of the commands and of the fee. *)
Lemma decide_inv s s' :
  decide_block s = (Ok tt, s') →
  ∃ s1, for_each (pb_commands block) (evaluate_command db env cc ci block epoch_end) s = (Ok tt, s1) ∧
    vs_total_leader_fee s1 = pb_total_leader_fee block ∧
    same_cached (vs_changes s1) (vs_changes s') ∧
    cb_evict_nodes (vs_changes s') = cb_evict_nodes (vs_changes s1) ∧
    (vs_total_leader_fee s1 ≤ 0 → cb_local_substate_changes (vs_changes s') = ps_changes (vs_store s1)) ∧
    cb_quorum_accept (vs_changes s') = true.
Proof.
  unfold decide_what_to_vote. intros H. apply bind_Ok in H as ([] & s1 & H1 & H).
  apply bind_Ok in H as (? & ? & [= <- <-] & H). apply bind_Ok in H as ([] & s2 & H2 & H).
  unfold no_vote_if in H2. destruct (negb _) eqn:Hfee; [done|]. injection H2 as <-.
  apply negb_false_iff, Z.eqb_eq in Hfee.
  apply bind_Ok in H as ([] & s3 & H3 & H). apply bind_Ok in H as (? & ? & [= <- <-] & H).
  apply bind_Ok in H as (r & s4 & H4 & H). unfold lift_res, lift in H4. injection H4 as _ <-.
  apply bind_Ok in H as ([] & s5 & H5 & H). unfold no_vote_if in H5. destruct (negb _); [done|]. injection H5 as <-.
  apply zoom_Ok in H as (cb & H & ->). apply map_err_Ok in H. injection H as <-.
  assert (vs_changes s3 = vs_changes s1 ∧ (vs_total_leader_fee s1 ≤ 0 → s3 = s1)) as [Hc Hle].
  { destruct (Z.ltb_spec 0 (vs_total_leader_fee s1)).
    - apply zoom_Ok in H3 as (ps & _ & ->). split; [done|]. intros; lia.
    - by injection H3 as <-. }
  exists s1. simpl. rewrite Hc. split_and!; try done. intros H0. by rewrite (Hle H0).
Qed.

Lemma voted_commands cb s' :
  tables_keyed cb → decide_block (start cb) = (Ok tt, s') →
  ∃ s1, cmds_step db block (pb_commands block) (start cb) s1 ∧
    vs_total_leader_fee s1 = pb_total_leader_fee block ∧
    (∀ id, seen_at (vs_changes s') id = seen_at (vs_changes s1) id) ∧
    cb_evict_nodes (vs_changes s') = cb_evict_nodes (vs_changes s1) ∧
    (vs_total_leader_fee s1 ≤ 0 → cb_local_substate_changes (vs_changes s') = ps_changes (vs_store s1)) ∧
    cb_quorum_accept (vs_changes s') = true.
Proof.
  intros [Hk Htr] H. apply decide_inv in H as (s1 & H1 & H2 & H3 & H4 & H5 & H6).
  exists s1. split_and!; try done.
  - eapply commands_step; [exact Htr|exact Hk|exact H1].
  - intros id. by apply seen_same.
Qed.

(** C6: Transactions only move forward.  When a node votes for a block, every
    transaction it knew is still in the pool, in the same stage or a later one;
    an abort, of the own group or of a foreign one, is not taken back; and a
    record that had reached a final stage is unchanged. *)
Theorem voted_records_progress cb s' :
  tables_keyed cb → decide_block (start cb) = (Ok tt, s') →
  ∀ id t, seen_at cb id = Some t →
    ∃ t', seen_at (vs_changes s') id = Some t' ∧
      (stage_rank (current_stage t) ≤ stage_rank (current_stage t'))%nat ∧
      (aborted t → aborted t') ∧ (is_finalising (current_stage t) = true → t' = t).
Proof.
  intros Hk H. destruct (voted_commands _ _ Hk H) as (s1 & [Hp _ _ _ _] & _ & Hseen & _).
  intros id t Ht. destruct Hk as [Hk _]. destruct (Hp Hk) as [_ Hp']. destruct (Hp' id t Ht) as (t' & Ht' & _ & H1 & H2 & H3).
  exists t'. by rewrite Hseen.
Qed.

(** C5: A node does not commit what its own record aborts.  If a node votes for a
    block, each transaction that the block commits (an AllAccept, or a LocalOnly
    with the decision to commit) ends in the node's pool in a final stage with the
    decision to commit; and the record that the node had of it when it received
    the block, if it had one, held no abort, neither of the own group nor of a
    foreign group from which the node had received one.  Decisions of foreign
    groups that the node had not received are not excluded. *)
Theorem committed_not_aborted cb s' :
  tables_keyed cb → decide_block (start cb) = (Ok tt, s') →
  ∀ c a, c ∈ pb_commands block → committing c = Some a →
    ∃ t', seen_at (vs_changes s') (ta_id a) = Some t' ∧ is_finalising (current_stage t') = true ∧
      current_decision t' = Commit ∧ (∀ t, seen_at cb (ta_id a) = Some t → ¬ aborted t).
Proof.
  intros Hk H c a Hc Ha. destruct (voted_commands _ _ Hk H) as (s1 & [_ _ _ _ Hm] & _ & Hseen & _).
  destruct (Hm c a Hc Ha) as (t' & Ht' & H1 & H2 & H3). exists t'. by rewrite Hseen.
Qed.

(** C15: The fee of a block is accounted for.  A node votes for a block only if the
    total leader fee in its header is the sum of the leader fees of the
    transactions that it commits. *)
Theorem leader_fees_accounted cb s' :
  tables_keyed cb → decide_block (start cb) = (Ok tt, s') →
  pb_total_leader_fee block = total_fee (pb_commands block).
Proof.
  intros Hk H. destruct (voted_commands _ _ Hk H) as (s1 & [_ Hf _ _ _] & <- & _). simpl in Hf. lia.
Qed.

(** C14: Aborted transactions leave no trace in the state.  A block that commits no
    transaction, whatever it prepares, accepts or aborts, changes no substate
    when it is voted for. *)
Theorem no_commit_no_changes cb s' :
  tables_keyed cb → decide_block (start cb) = (Ok tt, s') →
  Forall (λ c, committing c = None) (pb_commands block) →
  cb_local_substate_changes (vs_changes s') = [] ∧ cb_quorum_accept (vs_changes s') = true.
Proof.
  intros Hk H Hn. destruct (voted_commands _ _ Hk H) as (s1 & [_ Hf Hc _ _] & _ & _ & _ & Hch & Hq). split; [|done].
  assert (total_fee (pb_commands block) = 0) as H0.
  { clear -Hn. unfold total_fee. induction Hn as [|c cs Hc Hn IH]; simpl; [done|].
    unfold leader_fee_of_command in *. by rewrite Hc. }
  simpl in Hf. rewrite Hch by lia. by rewrite Hc.
Qed.

(** ** Evictions *)
Definition may_evict (pk : PublicKeyBytes) : Prop :=
  pk ∉ ve_evicted env ∧ ∃ missed, ve_missed_proposals env !! pk = Some missed ∧
    cc_missed_proposal_evict_threshold cc ≤ missed.
Definition evictions_ok (s : VoteState) : Prop :=
  let evicted := cb_evict_nodes (vs_changes s) in
  Forall may_evict evicted ∧
  (evicted = [] ∨ ∃ f, max_failure_shard_group_members (E := ConsensusError) ci = Ok f ∧
     ve_num_evicted env + Z.of_nat (length evicted) ≤ f).

Lemma evict_command_ok pk s :
  evictions_ok s → wlp (evaluate_evict_node_command env cc ci pk) (λ _, evictions_ok) s.
Proof.
  intros [Hall Hb]. unfold evaluate_evict_node_command.
  apply wlp_bind, wlp_no_vote_if. intros Hne%bool_decide_eq_false.
  apply wlp_bind, wlp_lift_res. intros f Hf. apply wlp_bind, wlp_read. apply wlp_bind, wlp_no_vote_if.
  unfold u64_saturating_sub. intros Hmax%Z.eqb_neq.
  destruct (ve_missed_proposals env !! pk) as [missed|] eqn:Hm; [|apply wlp_throw].
  apply wlp_bind, wlp_no_vote_if. intros Hth%Z.ltb_ge. apply wlp_vote_change_set, wlp_modify.
  unfold evictions_ok. simpl. split.
  - apply Forall_app. split; [done|]. constructor; [|done]. split; [done|]. by eexists.
  - right. exists f. split; [by destruct (max_failure_shard_group_members ci); simplify_eq|].
    rewrite length_app. simpl. lia.
Qed.

(** C16: Evictions are limited.  The nodes that a voted block evicts are those of
    its commands; each has missed at least the threshold of proposals and was not
    evicted before, and together with the nodes evicted earlier in the epoch they
    are no more than the failures that the committee tolerates. *)
Theorem evictions_bounded cb s' :
  tables_keyed cb → cb_evict_nodes cb = [] → decide_block (start cb) = (Ok tt, s') →
  let evicted := cb_evict_nodes (vs_changes s') in
  evicted = pb_commands block ≫= evictions_of ∧ Forall may_evict evicted ∧
  (evicted = [] ∨ ∃ f, max_failure_shard_group_members (E := ConsensusError) ci = Ok f ∧
     ve_num_evicted env + Z.of_nat (length evicted) ≤ f).
Proof.
  intros Hk H0 H. destruct (voted_commands _ _ Hk H) as (s1 & [_ _ _ He _] & _ & _ & He' & _).
  simpl in He. rewrite H0 in He. split; [by rewrite He', He|]. rewrite He'.
  apply decide_inv in H as (s2 & H2 & _ & _ & He2 & _). destruct Hk as [Hk Htr].
  assert (wlp (for_each (pb_commands block) (evaluate_command db env cc ci block epoch_end))
    (λ _ s, keyed_at (vs_changes s) ∧ evictions_ok s) (start cb)) as Hw.
  { apply wlp_for_each; [|split; [exact Hk|]; unfold evictions_ok; simpl; rewrite H0; split; [done|by left]].
    intros c s _ [Hks Hok]. intros [] s3 Hs3.
    pose proof (command_step db env cc ci block Htr epoch_end c s Hks _ _ Hs3) as [Hp _ _ Hev _].
    destruct (Hp Hks) as [Hk3 _]. split; [done|]. destruct c as [| | | | | |pk|];
      try (unfold evictions_ok; rewrite Hev; simpl; rewrite app_nil_r; exact Hok).
    by eapply (evict_command_ok pk s). }
  destruct (Hw _ _ H2) as [_ Hok]. unfold evictions_ok in Hok. rewrite <- He2, He' in Hok. exact Hok.
Qed.
End voted.

(** Records of a store without a change set are keyed if the pool is. *)
Lemma merge_into_id u t : tp_transaction_id (merge_into u t) = tp_transaction_id t.
Proof.
  destruct u as [ev fee lf st ld rd r], t. unfold merge_into, set_local_decision, abort_if. simpl.
  destruct lf, ld, rd as [[|]|]; try done; unfold opt_remote_decision, set_remote_decision, abort_if; simpl;
    by repeat match goal with |- context [match ?x with _ => _ end] => destruct x end.
Qed.
Lemma keyed_new db leaf block g :
  map_Forall (λ id t, tp_transaction_id t = id) (pl_pool (db_pool db)) → keyed db leaf (change_set_new block g).
Proof.
  intros H id t. unfold seen, get_transaction_pool_record, cached_record. simpl. rewrite lookup_empty.
  unfold transaction_pool_get_for_blocks, transaction_pool_get.
  destruct (cs_blocks _ !! leaf); [|done]. destruct (pl_pool (db_pool db) !! id) as [t0|] eqn:Ht; [|done]. simpl.
  destruct (get_pending_chain_ordered _ _) as [ch|[]|]; simpl; [|done..]. intros [= <-].
  apply H in Ht. unfold with_update. destruct (first_update _ _ _); [by rewrite merge_into_id|done].
Qed.

(** ** A block

    One committee holds all shards.  Transaction 1 replaces version 0 of
    component 9 by version 1; transaction 2 has been accepted and then aborted by
    a foreign group.  Block 6 commits the one, drops the other and evicts a node. *)
#[local] Instance keys1 : ObjectKeyHashes := {| hash_non_fungible_id _ _ := 1%N; hash_utxo_address _ _ := 2%N |}.

Definition tpl (n : N) : SubstateValue := SvTemplate (MkPublishedTemplate n n).
Definition spend_diff (id : SubstateId) : SubstateDiff :=
  MkSubstateDiff [(id, MkSubstate (tpl 2) 1)] [(id, 0)] [].
Definition spend_of (id : SubstateId) : TransactionExecution :=
  MkTransactionExecution (ExAccept (spend_diff id)) 100
    [MkLockIntent id LockTypeWrite 0 None] [MkLockIntent id LockTypeOutput 1 (Some 1)].
#[local] Instance executor1 : BlockTransactionExecutor :=
  {| executor_execute _ _ _ := Ok (spend_of (SidComponent 9)) |}.

Definition one_committee : CommitteeInfo := MkCommitteeInfo P256 4 1 (MkShardGroup 1 256) 0 4.
Definition block6 : BlockRef := MkBlockRef 6%N 2 1.
Definition consensus6 : ConsensusStore :=
  set_pending {[6%N := 9%N]} (set_blocks {[6%N := chain 1%N]} empty_store).
Definition base6 (locks : gmap SubstateId SubstateLock) : BaseStore :=
  MkBaseStore consensus6 ∅
    {[to_substate_address (MkVersionedSubstateId (SidComponent 9) 0) := MkSubstateRecord 0 (Some (tpl 1)) 1 false]}
    {[SidComponent 9 := (0, true)]} locks.
Definition rec1 : TransactionPoolRecord :=
  MkTransactionPoolRecord 1 {[MkShardGroup 1 256 := shard_group_evidence_default]} false 0 None New None Commit
    None None true.
Definition rec2 : TransactionPoolRecord :=
  MkTransactionPoolRecord 2 {[MkShardGroup 1 256 := shard_group_evidence_default]} false 0 None LocalAccepted None
    Commit (Some Commit) (Some (Abort ExecutionFailure)) true.
Definition pool6 : PoolStore :=
  MkPoolStore consensus6 (Some 9%N) {[1%N := rec1; 2%N := rec2]} ∅ ∅ ∅ ∅ ∅.
Definition db6 (locks : gmap SubstateId SubstateLock) : ConsensusDb :=
  MkConsensusDb (base6 locks) pool6 {[1%N := MkTransaction 1 [(SidComponent 9, None)] [] false]} [] ∅.
Definition env6 : VoteEnv := MkVoteEnv ∅ ∅ 0 {[77%N := 5]}.
Definition constants6 : ConsensusConstants := MkConsensusConstants P256 20 3 10.
Definition atom1 : TransactionAtom := MkTransactionAtom 1 Commit ∅ 100 (Some (MkLeaderFee 95 5)).
Definition atom2 : TransactionAtom := MkTransactionAtom 2 (Abort ExecutionFailure) ∅ 0 None.
Definition proposed6 (fee : Z) (commands : list Command) : ProposedBlock :=
  MkProposedBlock block6 (MkShardGroup 1 256) commands fee 0.
Definition no_root (_ : ShardGroup) (_ : list SubstateChange) : res ConsensusError N := Ok 0%N.
Definition start6 : ProposedBlockChangeSet := change_set_new block6 (MkShardGroup 1 256).
Definition commands6 : list Command := [EvictNode 77; LocalOnly atom1; SomeAccept atom2].
Definition vote6 : res VoteError unit * VoteState :=
  decide_what_to_vote (db6 ∅) env6 constants6 one_committee (proposed6 95 commands6) no_root 3%N false
    (MkVoteState start6 pending_store_new 0).

Lemma vote6_ok : vote6.1 = Ok tt.
Proof. vm_compute. reflexivity. Qed.
Lemma vote6_run : decide_what_to_vote (db6 ∅) env6 constants6 one_committee (proposed6 95 commands6) no_root 3%N false
    (MkVoteState start6 pending_store_new 0) = (Ok tt, vote6.2).
Proof. pose proof vote6_ok as H. unfold vote6 in *. destruct (decide_what_to_vote _ _ _ _ _ _ _ _ _). simpl in *. by rewrite H. Qed.
Lemma keyed6 locks fee commands : tables_keyed (db6 locks) (proposed6 fee commands) start6.
Proof.
  split.
  - apply keyed_new. apply map_Forall_insert_2; [done|]. apply map_Forall_singleton. done.
  - intros id tr. simpl. intros H. apply lookup_singleton_Some in H as [<- <-]. done.
Qed.

Lemma voted_records_progress_witness :
  ∃ t', seen (db6 ∅) 6%N (vs_changes vote6.2) 2%N = Some t' ∧
    (stage_rank LocalAccepted ≤ stage_rank (current_stage t'))%nat ∧
    (aborted rec2 → aborted t') ∧ (is_finalising LocalAccepted = true → t' = rec2).
Proof.
  apply (voted_records_progress (db6 ∅) env6 constants6 one_committee (proposed6 95 commands6) no_root 3%N false
    start6 vote6.2 (keyed6 _ _ _) vote6_run 2%N rec2). vm_compute. reflexivity.
Defined.
Lemma committed_not_aborted_witness :
  ∃ t', seen (db6 ∅) 6%N (vs_changes vote6.2) 1%N = Some t' ∧ is_finalising (current_stage t') = true ∧
    current_decision t' = Commit ∧ (∀ t, seen (db6 ∅) 6%N start6 1%N = Some t → ¬ aborted t).
Proof.
  apply (committed_not_aborted (db6 ∅) env6 constants6 one_committee (proposed6 95 commands6) no_root 3%N false
    start6 vote6.2 (keyed6 _ _ _) vote6_run (LocalOnly atom1) atom1); [|reflexivity].
  right. left.
Defined.
Lemma leader_fees_accounted_witness : 95 = total_fee commands6.
Proof.
  apply (leader_fees_accounted (db6 ∅) env6 constants6 one_committee (proposed6 95 commands6) no_root 3%N false
    start6 vote6.2 (keyed6 _ _ _) vote6_run).
Defined.
Lemma evictions_bounded_witness :
  cb_evict_nodes (vs_changes vote6.2) = [77%N] ∧
  Forall (may_evict env6 constants6) (cb_evict_nodes (vs_changes vote6.2)) ∧
  (cb_evict_nodes (vs_changes vote6.2) = [] ∨
   ∃ f, max_failure_shard_group_members (E := ConsensusError) one_committee = Ok f ∧
     0 + Z.of_nat (length (cb_evict_nodes (vs_changes vote6.2))) ≤ f).
Proof.
  apply (evictions_bounded (db6 ∅) env6 constants6 one_committee (proposed6 95 commands6) no_root 3%N false
    start6 vote6.2 (keyed6 _ _ _) eq_refl vote6_run).
Defined.

(** A block that only drops transaction 2. *)
Definition drop6 : res VoteError unit * VoteState :=
  decide_what_to_vote (db6 ∅) env6 constants6 one_committee (proposed6 0 [SomeAccept atom2]) no_root 3%N false
    (MkVoteState start6 pending_store_new 0).
Lemma no_commit_no_changes_witness :
  cb_local_substate_changes (vs_changes drop6.2) = [] ∧ cb_quorum_accept (vs_changes drop6.2) = true.
Proof.
  apply (no_commit_no_changes (db6 ∅) env6 constants6 one_committee (proposed6 0 [SomeAccept atom2]) no_root 3%N false
    start6 drop6.2 (keyed6 _ _ _)).
  - vm_compute. reflexivity.
  - repeat constructor.
Defined.

(** ** What the evaluation does not check *)
Lemma bind_ext_run {S E A B : Type} (m : M S E A) (k k' : A → M S E B) s :
  (∀ a s', m s = (Ok a, s') → k a s' = k' a s') → bind m k s = bind m k' s.
Proof. unfold bind. intros H. destruct (m s) as [[a|e|] s'] eqn:Hm; [by apply H|done..]. Qed.

Section unchecked.
Context `{Kh : !ObjectKeyHashes, Ex : !BlockTransactionExecutor}.
Context (db : ConsensusDb) (cc : ConsensusConstants) (ci : CommitteeInfo) (block : ProposedBlock).

Definition with_decision (d : Decision) (a : TransactionAtom) : TransactionAtom :=
  MkTransactionAtom (ta_id a) d (ta_evidence a) (ta_transaction_fee a) (ta_leader_fee a).

(** C38: The decision of a LocalAccept is not compared with an abort.  For a
    transaction past its first stage that the node has seen aborted, the
    evaluation of a LocalAccept command does not depend on the decision in it: a
    command that claims the group to commit is voted for like one that aborts. *)
Theorem local_accept_ignores_decision d atom s t :
  seen db (br_block_id (pb_ref block)) (vs_changes s) (ta_id atom) = Some t →
  aborted t → current_stage t ≠ New →
  evaluate_local_accept_command db cc ci block (with_decision d atom) s =
  evaluate_local_accept_command db cc ci block atom s.
Proof.
  intros Ht Ha%aborted_current Hs. unfold evaluate_local_accept_command. simpl.
  apply bind_ext_run. intros t' s' Hr.
  pose proof (wlp_pool_record db block (ta_id atom)
    (λ t' _, seen db (br_block_id (pb_ref block)) (vs_changes s) (ta_id atom) = Some t') s (λ _ H, H) _ _ Hr) as Hw.
  rewrite Ht in Hw. injection Hw as <-.
  rewrite bool_decide_eq_false_2 by done.
  assert (is_commit (current_decision t) = false) as Hc by (by destruct (current_decision t)).
  by rewrite Hc.
Qed.
End unchecked.

Definition rec_prepared : TransactionPoolRecord :=
  MkTransactionPoolRecord 2 {[MkShardGroup 1 256 := shard_group_evidence_default]} false 0 None LocalPrepared None
    Commit (Some Commit) (Some (Abort ExecutionFailure)) true.
Definition db_of (r : TransactionPoolRecord) executions locks : ConsensusDb :=
  MkConsensusDb (base6 locks) (MkPoolStore consensus6 (Some 9%N) {[1%N := rec1; 2%N := r]} ∅ executions ∅ ∅ ∅)
    {[1%N := MkTransaction 1 [(SidComponent 9, None)] [] false]} [] ∅.
Definition atom2_evidence (d : Decision) : TransactionAtom :=
  MkTransactionAtom 2 d {[MkShardGroup 1 256 := shard_group_evidence_default]} 0 None.
Definition vote_on db fee commands : res VoteError unit * VoteState :=
  decide_what_to_vote db env6 constants6 one_committee (proposed6 fee commands) no_root 3%N false
    (MkVoteState start6 pending_store_new 0).

Lemma local_accept_ignores_decision_witness :
  (vote_on (db_of rec_prepared ∅ ∅) 0 [LocalAccept (atom2_evidence Commit)]).1 = Ok tt ∧
  evaluate_local_accept_command (db_of rec_prepared ∅ ∅) constants6 one_committee (proposed6 0 [])
    (with_decision Commit (atom2_evidence (Abort ExecutionFailure))) (MkVoteState start6 pending_store_new 0) =
  evaluate_local_accept_command (db_of rec_prepared ∅ ∅) constants6 one_committee (proposed6 0 [])
    (atom2_evidence (Abort ExecutionFailure)) (MkVoteState start6 pending_store_new 0).
Proof.
  split; [vm_compute; reflexivity|].
  apply (local_accept_ignores_decision (db_of rec_prepared ∅ ∅) constants6 one_committee (proposed6 0 [])
    Commit (atom2_evidence (Abort ExecutionFailure)) (MkVoteState start6 pending_store_new 0) rec_prepared).
  - vm_compute. reflexivity.
  - left. by exists ExecutionFailure.
  - done.
Defined.

(** An AllAccept is voted for although no shard group has accepted: the evidence
    of the command has no certificate. *)
Definition rec_accepted : TransactionPoolRecord :=
  MkTransactionPoolRecord 2 {[MkShardGroup 1 256 := shard_group_evidence_default]} false 100 (Some (MkLeaderFee 95 5))
    LocalAccepted None Commit (Some Commit) None true.
Definition atom2_commit : TransactionAtom :=
  MkTransactionAtom 2 Commit {[MkShardGroup 1 256 := shard_group_evidence_default]} 100 (Some (MkLeaderFee 95 5)).
Lemma all_accept_without_acceptance :
  (vote_on (db_of rec_accepted {[(2%N, 6%N, 2) := spend_of (SidComponent 9)]} ∅) 95 [AllAccept atom2_commit]).1 = Ok tt ∧
  all_shard_groups_accepted (ta_evidence atom2_commit) = false.
Proof. split; vm_compute; reflexivity. Qed.

(** Component 9 is locked for writing by transaction 50.  A LocalOnly that replaces
    the component is not voted for as a commit, since the lock of its output is for
    a version and fails for good.  A LocalOnly that only reads it is voted for: the
    conflict is found, a proposer would leave the transaction out, and the voter
    does not look at it. *)
Definition locks50 : gmap SubstateId SubstateLock := {[SidComponent 9 := MkSubstateLock 50 0 LockTypeWrite false]}.
Definition db50 : ConsensusDb := db_of rec2 ∅ locks50.
Definition read_of (id created : SubstateId) : TransactionExecution :=
  MkTransactionExecution (ExAccept (MkSubstateDiff [(created, MkSubstate (tpl 3) 0)] [] [])) 100
    [MkLockIntent id LockTypeRead 0 None] [MkLockIntent created LockTypeOutput 0 (Some 0)].
Definition reader1 : BlockTransactionExecutor :=
  {| executor_execute _ _ _ := Ok (read_of (SidComponent 9) (SidComponent 10)) |}.
Definition soft_conflict (r : res BlockTransactionExecutorError PreparedTransaction) : bool :=
  match r with
  | Ok p => is_any_failed (prepared_lock_status p) && negb (is_hard_conflict (prepared_lock_status p))
  | _ => false
  end.
Lemma writer_in_conflict_not_voted :
  (vote_on db50 95 [LocalOnly atom1]).1 = Err (NoVote (DecisionDisagreement (Abort LockInputsFailed) Commit)).
Proof. vm_compute. reflexivity. Qed.
Lemma reader_in_conflict_voted :
  soft_conflict (prepare (Ex := reader1) db50 block6 one_committee rec1 pending_store_new).1 = true ∧
  (decide_what_to_vote (Ex := reader1) db50 env6 constants6 one_committee (proposed6 95 [LocalOnly atom1])
     no_root 3%N false (MkVoteState start6 pending_store_new 0)).1 = Ok tt.
Proof. split; vm_compute; reflexivity. Qed.

(** ** Evidence of an aborted transaction

    The group has decided to abort transaction 2; block 6 includes a foreign
    proposal whose group accepts the transaction with a lock on component 9.  The
    update that is recorded holds the lock.  A descendant of block 6 reads the
    evidence without it while block 6 is pending, and with it once block 6 is
    committed: [transaction_pool_confirm_all_transitions] sets the evidence after
    the decision, [merge_into] before it. *)
Definition near_group : ShardGroup := MkShardGroup 1 128.
Definition far_group : ShardGroup := MkShardGroup 129 256.
Definition consensus67 : ConsensusStore :=
  set_pending {[6%N := 9%N; 7%N := 6%N]} (set_blocks {[6%N := chain 1%N; 7%N := chain 1%N]} empty_store).
Definition rec_aborted : TransactionPoolRecord :=
  MkTransactionPoolRecord 2 {[near_group := shard_group_evidence_default; far_group := shard_group_evidence_default]}
    false 0 None LocalPrepared None Commit (Some (Abort ExecutionFailure)) None false.
Definition db67 : ConsensusDb :=
  MkConsensusDb (base6 ∅) (MkPoolStore consensus67 (Some 9%N) {[2%N := rec_aborted]} ∅ ∅ ∅ ∅ ∅) ∅ [] ∅.
Definition far_evidence : ShardGroupEvidence :=
  MkShardGroupEvidence {[SidComponent 9 := Some (MkEvidenceInputLockData true 0)]} ∅ None None.
Definition far_accepts : ForeignProposal :=
  MkForeignProposal 40%N far_group
    [LocalAccept (MkTransactionAtom 2 Commit {[near_group := shard_group_evidence_default; far_group := far_evidence]}
                    0 None)]
    (Some 41%N) {[SidComponent 9 := MkSubstate (tpl 1) 0]}.
Definition far_change_set : res ConsensusError unit * ProposedBlockChangeSet :=
  process_foreign_block db67 6%N (MkCommitteeInfo P256 4 2 near_group 0 4) far_accepts
    (change_set_new block6 near_group).
Definition far_update : TransactionPoolStatusUpdate :=
  default (MkTransactionPoolStatusUpdate rec_aborted false)
    (cb_transaction_changes far_change_set.2 !! 2%N ≫= tcs_next_update).
Definition pool67 : PoolStore := (transaction_pool_add_pending_update 6%N far_update (db_pool db67)).2.
Definition far_inputs (r : res BlockStore.StorageError TransactionPoolRecord) :
    option (Decision * gmap SubstateId (option EvidenceInputLockData)) :=
  match r with
  | Ok t => (λ e, (current_decision t, se_inputs e)) <$> (tp_evidence t !! far_group)
  | _ => None
  end.
Lemma commit_restores_aborted_evidence :
  far_change_set.1 = Ok tt ∧
  far_inputs (transaction_pool_get_for_blocks pool67 7%N 2%N) =
    Some (Abort ExecutionFailure, {[SidComponent 9 := None]}) ∧
  far_inputs (transaction_pool_get_for_blocks
    (commit_chain 6%N (transaction_pool_confirm_all_transitions 6%N pool67).2) 7%N 2%N) =
    Some (Abort ExecutionFailure, {[SidComponent 9 := Some (MkEvidenceInputLockData true 0)]}).
Proof. repeat split; vm_compute; reflexivity. Qed.

(** ** Where the fee of the proposer goes *)
Lemma shard_size_ge_mask (n : NumPreshards) : 2 ^ 129 ≤ shard_size n.
Proof. destruct n; vm_compute; discriminate. Qed.
Lemma range_start_u256 (n : NumPreshards) (s : Shard) :
  1 ≤ s ≤ as_u32 n →
  (s - 1) * shard_size n ≤ to_u256 (shard_to_substate_address_range s n).1 ≤ (s - 1) * shard_size n + 255.
Proof.
  intros Hs. pose proof (shard_size_ge_1 n). assert (as_u32 n ≤ 256) as Hn by (destruct n; vm_compute; discriminate).
  unfold shard_to_substate_address_range, shard_is_global, is_one.
  destruct (bool_decide_reflect (n = P1)) as [-> | Hne]; simpl.
  { simpl in Hs. assert (s = 1) as -> by lia. vm_compute. split; discriminate. }
  destruct (Z.eqb_spec s 0); [lia|].
  destruct (Z.eqb_spec (s - 1) 0) as [-> | ?]; simpl; [vm_compute; split; discriminate|].
  destruct (Z.eqb_spec (s - 1) (as_u32 n - 1)); cbn [fst]; unfold from_u256_zero_version;
    rewrite (proj1 (address_roundtrip _ 0 ltac:(done))); lia.
Qed.

(** C24: The fee of a proposer is paid in its shard.  For every claim key of 32
    bytes and every shard, the address of the fee pool exists (the sum does not
    overflow), and every version of the pool is in that shard, although the start
    of the address range of the shard is not the first address of the shard. *)
Theorem fee_pool_in_shard (key : PublicKeyBytes) (n : NumPreshards) (s : Shard) (version : Z) :
  (key < 2 ^ 256)%N → 1 ≤ s ≤ as_u32 n → 0 ≤ version ≤ U32_MAX →
  ∃ a, derive_fee_pool_address (E := unit) key n s = Ok a ∧
    to_shard (E := unit) (from_object_key a version) n = Ok s.
Proof.
  intros Hk Hs Hv. pose proof (range_start_u256 n s Hs) as Hr. pose proof (shard_size_ge_mask n) as Hm.
  pose proof (shard_size_spec n) as Hz.
  assert (0 ≤ Z.of_N (N.div key (2 ^ 128)) < 2 ^ 128) as Hmask.
  { assert (N.div key (2 ^ 128) < 2 ^ 128)%N by (apply N.Div0.div_lt_upper_bound; exact Hk).
    split; [apply N2Z.is_nonneg|]. change (2 ^ 128) with (Z.of_N (2 ^ 128)). by apply N2Z.inj_lt. }
  set (x := to_u256 (shard_to_substate_address_range s n).1 + Z.of_N (N.div key (2 ^ 128))).
  assert ((s - 1) * shard_size n ≤ x < s * shard_size n) as Hx by (subst x; nia).
  assert (0 ≤ x ≤ U256_MAX) as Hxb by (unfold U256_MAX; rewrite <- Hz; nia).
  exists (Z.to_N x). unfold derive_fee_pool_address. fold x.
  rewrite (proj2 (uint_checked_Some U256_MAX x x)) by lia. split; [done|].
  unfold from_object_key. rewrite Z2N.id by lia.
  destruct (to_shard_spec (E := unit) (from_u256 x version) n) as (s' & -> & Hb & Hlo & Hhi).
  { by apply from_u256_is_address. }
  rewrite (proj1 (address_roundtrip x version Hv)) in Hlo, Hhi. f_equal.
  apply (slice_unique s' s x (shard_size n) (as_u32 n)); try tauto; lia.
Qed.
Lemma fee_pool_in_shard_witness :
  ∃ a, derive_fee_pool_address (E := unit) (2 ^ 256 - 1)%N P256 212 = Ok a ∧
    to_shard (E := unit) (from_object_key a 3) P256 = Ok 212.
Proof. apply (fee_pool_in_shard (2 ^ 256 - 1)%N P256 212 3); [done|..]; vm_compute; split; discriminate. Defined.
